(** * Task dispatch and worker load balancing of the GPU cloud demo

    A shallow embedding of the dispatcher of the repository:
    - [backend/src/types/index.ts]          the records [WorkerNode], [InferenceTask];
    - [backend/src/services/store.ts]        the in-memory [DataStore];
    - [backend/src/services/taskQueue.ts]    the [TaskQueue] (scheduling, waiters);
    - [backend/src/services/workerManager.ts] the [WorkerManager] (registry, heartbeat);
    - [backend/src/services/auth.ts]         the API keys of the [AuthService];
    - [backend/src/services/inference.ts]    the usage of a streamed completion;
    - [backend/src/controllers/monitoringController.ts] the recent tasks;
    - [backend/src/utils/apiKey.ts]          key format and token estimation.

    Modelling conventions.
    - A JavaScript [Map] keeps its keys in insertion order; it is an
      association list here, because [getPendingTasks] and
      [getOnlineWorkers] feed that order to a stable sort.
    - [uuidv4()] is a supply of fresh identifiers (a counter).
    - [new Date()] reads a clock kept in the state; [Math.random()] draws are
      inputs of the events, exact rationals stand for the doubles.  The
      mean latency of [getUsageStats] is computed in binary64, with the
      primitive floats of the library.
    - The event loop is explicit: timers are armed in the state and fire as
      events; the [await] of [processQueue] parks its frame in the state and
      a [Resume] event (the microtask) continues it.  An armed timer carries
      no deadline and may fire at any later turn of the loop: what holds for
      every order of the events holds for the orders real time allows.  The
      scenarios advance the clock with [Tick] and use such orders only (a
      completion at most 2000 ms after its assignment, a waiter time-out
      30000 ms after its registration).
    - A promise is identified by a number; every call of one of its two
      continuations is appended to a log, and the promise is settled by the
      first call found in the log. *)

From Stdlib Require Import List ZArith NArith QArith Qround Qminmax Ascii String Bool.
From Stdlib Require Import Sorted Permutation Lia Lqa.
From Stdlib Require Floats.
Import ListNotations.
Local Open Scope Z_scope.

(** ** JavaScript [Map]: insertion-ordered association list *)

Module JsMap.
Section Ops.
Context {V : Type}.

Definition t := list (N * V).

Fixpoint get (k : N) (m : list (N * V)) : option V :=
  match m with
  | [] => None
  | (k', v) :: m' => if N.eqb k k' then Some v else get k m'
  end.

Definition has (k : N) (m : list (N * V)) : bool :=
  match get k m with Some _ => true | None => false end.

(** [set] on a present key replaces the value in place, on an absent key
    appends at the end. *)
Fixpoint set (k : N) (v : V) (m : list (N * V)) : list (N * V) :=
  match m with
  | [] => [(k, v)]
  | (k', v') :: m' =>
      if N.eqb k k' then (k, v) :: m' else (k', v') :: set k v m'
  end.

Fixpoint delete (k : N) (m : list (N * V)) : list (N * V) :=
  match m with
  | [] => []
  | (k', v') :: m' =>
      if N.eqb k k' then m' else (k', v') :: delete k m'
  end.

Definition values (m : list (N * V)) : list V := map snd m.
Definition keys (m : list (N * V)) : list N := map fst m.
End Ops.
End JsMap.

(** ** [Array.prototype.sort] with a comparator

    The sort of the engine is stable; with a comparator that is a total
    preorder every stable sort returns the same array, so a stable
    insertion sort stands for it.  [cmp a b > 0] puts [b] first. *)

Section ArraySort.
Context {A : Type} (cmp : A -> A -> Q).

Fixpoint sort_insert (x : A) (l : list A) : list A :=
  match l with
  | [] => [x]
  | y :: l' =>
      if Qle_bool (cmp x y) 0 then x :: y :: l' else y :: sort_insert x l'
  end.

Definition Array_sort (l : list A) : list A := fold_right sort_insert [] l.
End ArraySort.

(** [Math.round]: the nearest integer, halves upwards. *)
Definition Math_round (x : Q) : Z := Qfloor (x + (1 # 2)).

(** A [Math.random()] draw lies in [[0, 1)]. *)
Definition valid_random (r : Q) : bool :=
  Qle_bool 0 r && negb (Qle_bool 1 r).

(** ** types/index.ts *)

Record ChatMessage := {
  role : string;
  content : string
}.

Record ChatCompletionRequest := {
  model : string;
  messages : list ChatMessage
}.

Record ChatCompletionResponse := {
  resp_id : string;
  resp_model : string;
  resp_message : ChatMessage;
  total_tokens : Z
}.

Module Worker.
Inductive Status := online | offline | busy.

Definition Status_eqb (a b : Status) : bool :=
  match a, b with
  | online, online | offline, offline | busy, busy => true
  | _, _ => false
  end.

Record GpuInfo := {
  name : string;
  memoryTotal : Z;
  memoryUsed : Z;
  utilization : Z
}.

Record WorkerNode := {
  id : N;
  hostname : string;
  status : Status;
  gpuInfo : GpuInfo;
  currentLoad : Z;
  maxCapacity : Z;
  supportedModels : list string;
  lastHeartbeat : Z
}.

(** [Partial<WorkerNode>]: every field optional. *)
Record Partial := {
  p_id : option N;
  p_hostname : option string;
  p_status : option Status;
  p_gpuInfo : option GpuInfo;
  p_currentLoad : option Z;
  p_maxCapacity : option Z;
  p_supportedModels : option (list string);
  p_lastHeartbeat : option Z
}.

Definition no_updates : Partial :=
  {| p_id := None; p_hostname := None; p_status := None; p_gpuInfo := None;
     p_currentLoad := None; p_maxCapacity := None;
     p_supportedModels := None; p_lastHeartbeat := None |}.

Definition or_else {X : Type} (o : option X) (d : X) : X :=
  match o with Some x => x | None => d end.

(** [{ ...existing, ...updates }] *)
Definition spread (existing : WorkerNode) (updates : Partial) : WorkerNode :=
  {| id := or_else (p_id updates) (id existing);
     hostname := or_else (p_hostname updates) (hostname existing);
     status := or_else (p_status updates) (status existing);
     gpuInfo := or_else (p_gpuInfo updates) (gpuInfo existing);
     currentLoad := or_else (p_currentLoad updates) (currentLoad existing);
     maxCapacity := or_else (p_maxCapacity updates) (maxCapacity existing);
     supportedModels :=
       or_else (p_supportedModels updates) (supportedModels existing);
     lastHeartbeat :=
       or_else (p_lastHeartbeat updates) (lastHeartbeat existing) |}.
End Worker.

Module Task.
Inductive Kind := chat_completion.

Inductive Status := pending | assigned | processing | completed | failed.

Definition Status_eqb (a b : Status) : bool :=
  match a, b with
  | pending, pending | assigned, assigned | processing, processing
  | completed, completed | failed, failed => true
  | _, _ => false
  end.

Record InferenceTask := {
  id : N;
  type : Kind;
  payload : ChatCompletionRequest;
  apiKeyId : string;
  priority : Z;
  status : Status;
  assignedWorker : option N;
  result : option ChatCompletionResponse;
  error : option string;
  createdAt : Z;
  startedAt : option Z;
  completedAt : option Z
}.

(** [Partial<InferenceTask>]; an optional field of the task that the
    update leaves out stays as it is. *)
Record Partial := {
  p_id : option N;
  p_type : option Kind;
  p_payload : option ChatCompletionRequest;
  p_apiKeyId : option string;
  p_priority : option Z;
  p_status : option Status;
  p_assignedWorker : option N;
  p_result : option ChatCompletionResponse;
  p_error : option string;
  p_createdAt : option Z;
  p_startedAt : option Z;
  p_completedAt : option Z
}.

Definition no_updates : Partial :=
  {| p_id := None; p_type := None; p_payload := None; p_apiKeyId := None;
     p_priority := None; p_status := None; p_assignedWorker := None;
     p_result := None; p_error := None; p_createdAt := None;
     p_startedAt := None; p_completedAt := None |}.

Definition or_else {X : Type} (o : option X) (d : X) : X :=
  match o with Some x => x | None => d end.

Definition or_keep {X : Type} (o old : option X) : option X :=
  match o with Some x => Some x | None => old end.

(** [{ ...existing, ...updates }] *)
Definition spread (existing : InferenceTask) (updates : Partial)
  : InferenceTask :=
  {| id := or_else (p_id updates) (id existing);
     type := or_else (p_type updates) (type existing);
     payload := or_else (p_payload updates) (payload existing);
     apiKeyId := or_else (p_apiKeyId updates) (apiKeyId existing);
     priority := or_else (p_priority updates) (priority existing);
     status := or_else (p_status updates) (status existing);
     assignedWorker :=
       or_keep (p_assignedWorker updates) (assignedWorker existing);
     result := or_keep (p_result updates) (result existing);
     error := or_keep (p_error updates) (error existing);
     createdAt := or_else (p_createdAt updates) (createdAt existing);
     startedAt := or_keep (p_startedAt updates) (startedAt existing);
     completedAt := or_keep (p_completedAt updates) (completedAt existing) |}.
End Task.

(** ** Promises, timers and the state of the process *)

(** What a caller of [waitForCompletion] can be resolved with: [task.result]
    (possibly [undefined]) or the object [{ success: true, workerId }]
    ([workerId] is left out by the inference service). *)
Inductive JsValue :=
| VUndefined
| VResponse (r : ChatCompletionResponse)
| VSuccess (workerId : option N).

(** A call of a promise continuation: [resolve(v)] or
    [reject(new Error(message))]. *)
Inductive Settlement :=
| Fulfilled (v : JsValue)
| Rejected (message : string).

(** The frame of [processQueue] parked at
    [await this.assignTaskToWorker(task, worker)]: the tasks the [for]
    loop has not visited yet, the array [availableWorkers] and the worker
    just assigned. *)
Record Frame := {
  frame_tasks : list Task.InferenceTask;
  frame_pool : list Worker.WorkerNode;
  frame_worker : Worker.WorkerNode
}.

Record State := {
  (* store.ts *)
  workers : list (N * Worker.WorkerNode);
  tasks : list (N * Task.InferenceTask);
  (* taskQueue.ts *)
  processing : bool;
  taskCallbacks : list (N * N);           (* taskId -> promise *)
  (* the runtime *)
  suspended : option Frame;               (* pending microtask *)
  completionTimers : list (N * N);        (* (task.id, worker.id) closures *)
  waitTimers : list (N * N);              (* (taskId, promise) closures *)
  calls : list (N * Settlement);          (* continuation calls, oldest first *)
  promise_supply : N;
  uuid_supply : N;
  clock : Z
}.

Definition set_workers (x : list (N * Worker.WorkerNode)) (s : State) : State :=
  {| workers := x; tasks := tasks s; processing := processing s;
     taskCallbacks := taskCallbacks s; suspended := suspended s;
     completionTimers := completionTimers s; waitTimers := waitTimers s;
     calls := calls s; promise_supply := promise_supply s;
     uuid_supply := uuid_supply s; clock := clock s |}.

Definition set_tasks (x : list (N * Task.InferenceTask)) (s : State) : State :=
  {| workers := workers s; tasks := x; processing := processing s;
     taskCallbacks := taskCallbacks s; suspended := suspended s;
     completionTimers := completionTimers s; waitTimers := waitTimers s;
     calls := calls s; promise_supply := promise_supply s;
     uuid_supply := uuid_supply s; clock := clock s |}.

Definition set_processing (x : bool) (s : State) : State :=
  {| workers := workers s; tasks := tasks s; processing := x;
     taskCallbacks := taskCallbacks s; suspended := suspended s;
     completionTimers := completionTimers s; waitTimers := waitTimers s;
     calls := calls s; promise_supply := promise_supply s;
     uuid_supply := uuid_supply s; clock := clock s |}.

Definition set_taskCallbacks (x : list (N * N)) (s : State) : State :=
  {| workers := workers s; tasks := tasks s; processing := processing s;
     taskCallbacks := x; suspended := suspended s;
     completionTimers := completionTimers s; waitTimers := waitTimers s;
     calls := calls s; promise_supply := promise_supply s;
     uuid_supply := uuid_supply s; clock := clock s |}.

Definition set_suspended (x : option Frame) (s : State) : State :=
  {| workers := workers s; tasks := tasks s; processing := processing s;
     taskCallbacks := taskCallbacks s; suspended := x;
     completionTimers := completionTimers s; waitTimers := waitTimers s;
     calls := calls s; promise_supply := promise_supply s;
     uuid_supply := uuid_supply s; clock := clock s |}.

Definition set_completionTimers (x : list (N * N)) (s : State) : State :=
  {| workers := workers s; tasks := tasks s; processing := processing s;
     taskCallbacks := taskCallbacks s; suspended := suspended s;
     completionTimers := x; waitTimers := waitTimers s;
     calls := calls s; promise_supply := promise_supply s;
     uuid_supply := uuid_supply s; clock := clock s |}.

Definition set_waitTimers (x : list (N * N)) (s : State) : State :=
  {| workers := workers s; tasks := tasks s; processing := processing s;
     taskCallbacks := taskCallbacks s; suspended := suspended s;
     completionTimers := completionTimers s; waitTimers := x;
     calls := calls s; promise_supply := promise_supply s;
     uuid_supply := uuid_supply s; clock := clock s |}.

Definition set_calls (x : list (N * Settlement)) (s : State) : State :=
  {| workers := workers s; tasks := tasks s; processing := processing s;
     taskCallbacks := taskCallbacks s; suspended := suspended s;
     completionTimers := completionTimers s; waitTimers := waitTimers s;
     calls := x; promise_supply := promise_supply s;
     uuid_supply := uuid_supply s; clock := clock s |}.

Definition set_promise_supply (x : N) (s : State) : State :=
  {| workers := workers s; tasks := tasks s; processing := processing s;
     taskCallbacks := taskCallbacks s; suspended := suspended s;
     completionTimers := completionTimers s; waitTimers := waitTimers s;
     calls := calls s; promise_supply := x;
     uuid_supply := uuid_supply s; clock := clock s |}.

Definition set_uuid_supply (x : N) (s : State) : State :=
  {| workers := workers s; tasks := tasks s; processing := processing s;
     taskCallbacks := taskCallbacks s; suspended := suspended s;
     completionTimers := completionTimers s; waitTimers := waitTimers s;
     calls := calls s; promise_supply := promise_supply s;
     uuid_supply := x; clock := clock s |}.

Definition set_clock (x : Z) (s : State) : State :=
  {| workers := workers s; tasks := tasks s; processing := processing s;
     taskCallbacks := taskCallbacks s; suspended := suspended s;
     completionTimers := completionTimers s; waitTimers := waitTimers s;
     calls := calls s; promise_supply := promise_supply s;
     uuid_supply := uuid_supply s; clock := x |}.

(** The process at start: empty store, idle queue, no timer armed. *)
Definition init : State :=
  {| workers := []; tasks := []; processing := false; taskCallbacks := [];
     suspended := None; completionTimers := []; waitTimers := [];
     calls := []; promise_supply := 0%N; uuid_supply := 0%N; clock := 0 |}.

(** [uuidv4()] *)
Definition uuidv4 (s : State) : N * State :=
  (uuid_supply s, set_uuid_supply (N.succ (uuid_supply s)) s).

(** [new Promise(...)]: a fresh promise. *)
Definition new_promise (s : State) : N * State :=
  (promise_supply s, set_promise_supply (N.succ (promise_supply s)) s).

(** Calling a continuation of promise [p]. *)
Definition call (p : N) (o : Settlement) (s : State) : State :=
  set_calls (calls s ++ [(p, o)]) s.

(** A promise is settled once, by the first call of one of its
    continuations; later calls have no effect. *)
Definition promise_state (p : N) (s : State) : option Settlement :=
  JsMap.get p (calls s).

(** How often a continuation of [p] has been called. *)
Definition call_count (p : N) (s : State) : nat :=
  List.length (filter (fun c => N.eqb (fst c) p) (calls s)).

(** Disarm (or consume) the first timer equal to [x]. *)
Fixpoint remove_timer (x : N * N) (l : list (N * N)) : list (N * N) :=
  match l with
  | [] => []
  | y :: l' =>
      if N.eqb (fst x) (fst y) && N.eqb (snd x) (snd y) then l'
      else y :: remove_timer x l'
  end.

Definition armed (x : N * N) (l : list (N * N)) : bool :=
  existsb (fun y => N.eqb (fst x) (fst y) && N.eqb (snd x) (snd y)) l.

(** ** services/store.ts *)

Module Store.
Definition addWorker (worker : Worker.WorkerNode) (s : State) : State :=
  set_workers (JsMap.set (Worker.id worker) worker (workers s)) s.

Definition getWorker (id : N) (s : State) : option Worker.WorkerNode :=
  JsMap.get id (workers s).

Definition getAllWorkers (s : State) : list Worker.WorkerNode :=
  JsMap.values (workers s).

Definition getOnlineWorkers (s : State) : list Worker.WorkerNode :=
  filter (fun w => Worker.Status_eqb (Worker.status w) Worker.online)
         (getAllWorkers s).

(** The updated record that the source also returns is used by no caller
    of the dispatcher; the store after the call is what matters. *)
Definition updateWorker (id : N) (updates : Worker.Partial) (s : State)
  : State :=
  match JsMap.get id (workers s) with
  | None => s
  | Some existing =>
      set_workers (JsMap.set id (Worker.spread existing updates) (workers s)) s
  end.

Definition removeWorker (id : N) (s : State) : bool * State :=
  (JsMap.has id (workers s), set_workers (JsMap.delete id (workers s)) s).

Definition addTask (task : Task.InferenceTask) (s : State) : State :=
  set_tasks (JsMap.set (Task.id task) task (tasks s)) s.

Definition getTask (id : N) (s : State) : option Task.InferenceTask :=
  JsMap.get id (tasks s).

Definition getPendingTasks (s : State) : list Task.InferenceTask :=
  Array_sort
    (fun a b => inject_Z (Task.priority b - Task.priority a))
    (filter (fun t => Task.Status_eqb (Task.status t) Task.pending)
            (JsMap.values (tasks s))).

Definition getTasksByWorker (workerId : N) (s : State)
  : list Task.InferenceTask :=
  filter (fun t => match Task.assignedWorker t with
                   | Some w => N.eqb w workerId
                   | None => false
                   end)
         (JsMap.values (tasks s)).

Definition updateTask (id : N) (updates : Task.Partial) (s : State) : State :=
  match JsMap.get id (tasks s) with
  | None => s
  | Some existing =>
      set_tasks (JsMap.set id (Task.spread existing updates) (tasks s)) s
  end.

Definition getAllTasks (s : State) : list Task.InferenceTask :=
  JsMap.values (tasks s).
End Store.

(** ** services/taskQueue.ts *)

Module TaskQueue.
Definition TASK_TIMEOUT_MS : Z := 30000.
Definition SIMULATED_LATENCY_MIN_MS : Z := 100.
Definition SIMULATED_LATENCY_MAX_MS : Z := 2000.

(** [resolve(task.result)] hands over the field as it is. *)
Definition value_of_result (r : option ChatCompletionResponse) : JsValue :=
  match r with Some x => VResponse x | None => VUndefined end.

(** [task.error || 'Task failed']: an absent or empty message is falsy. *)
Definition error_or_default (e : option string) : string :=
  match e with
  | Some m => if String.eqb m EmptyString then "Task failed"%string else m
  | None => "Task failed"%string
  end.

(** The load ratio of the comparator of [selectBestWorker].  The division
    is exact here and floating in the source; both agree on the order of
    two ratios for the loads and positive capacities of a worker pool.
    A zero capacity (no worker is ever created with one) would give
    [Infinity] or [NaN] in the source and [0] here. *)
Definition ratio (w : Worker.WorkerNode) : Q :=
  (inject_Z (Worker.currentLoad w) / inject_Z (Worker.maxCapacity w))%Q.

(** [resolveTask(taskId, result)] *)
Definition resolveTask (taskId : N) (result : JsValue) (s : State) : State :=
  match JsMap.get taskId (taskCallbacks s) with
  | Some callbacks =>
      let s := call callbacks (Fulfilled result) s in
      set_taskCallbacks (JsMap.delete taskId (taskCallbacks s)) s
  | None => s
  end.

(** [rejectTask(taskId, error)] *)
Definition rejectTask (taskId : N) (error : string) (s : State) : State :=
  match JsMap.get taskId (taskCallbacks s) with
  | Some callbacks =>
      let s := call callbacks (Rejected error) s in
      set_taskCallbacks (JsMap.delete taskId (taskCallbacks s)) s
  | None => s
  end.

(** [waitForCompletion(taskId)]: the promise returned and the state after
    its executor has run. *)
Definition waitForCompletion (taskId : N) (s : State) : N * State :=
  let '(p, s) := new_promise s in
  match Store.getTask taskId s with
  | None => (p, call p (Rejected "Task not found") s)
  | Some task =>
      match Task.status task with
      | Task.completed =>
          (p, call p (Fulfilled (value_of_result (Task.result task))) s)
      | Task.failed =>
          (p, call p (Rejected (error_or_default (Task.error task))) s)
      | _ =>
          let s := set_taskCallbacks (JsMap.set taskId p (taskCallbacks s)) s in
          (p, set_waitTimers (waitTimers s ++ [(taskId, p)]) s)
      end
  end.

(** The callback of the [setTimeout] of [waitForCompletion]; [p] is the
    promise whose [reject] the closure holds. *)
Definition waitForCompletion_timeout (taskId p : N) (s : State) : State :=
  if JsMap.has taskId (taskCallbacks s) then
    let s := set_taskCallbacks (JsMap.delete taskId (taskCallbacks s)) s in
    call p (Rejected "Task timeout") s
  else s.

(** [getAvailableWorkers()] *)
Definition getAvailableWorkers (s : State) : list Worker.WorkerNode :=
  filter (fun w => Worker.currentLoad w <? Worker.maxCapacity w)
         (Store.getOnlineWorkers s).

(** [selectBestWorker(workers, task)]: [workers.sort] sorts the array of
    the caller in place, so the array after the call is returned too. *)
Definition selectBestWorker (workers : list Worker.WorkerNode)
    (task : Task.InferenceTask)
  : list Worker.WorkerNode * option Worker.WorkerNode :=
  match workers with
  | [] => ([], None)
  | _ =>
      let sorted :=
        Array_sort (fun a b => (ratio a - ratio b)%Q) workers in
      (sorted, hd_error sorted)
  end.

(** The callback of the [setTimeout] of [simulateTaskProcessing]. *)
Definition simulateTaskProcessing_timeout (taskId workerId : N) (s : State)
  : State :=
  let s :=
    Store.updateTask taskId
      {| Task.p_id := None; Task.p_type := None; Task.p_payload := None;
         Task.p_apiKeyId := None; Task.p_priority := None;
         Task.p_status := Some Task.completed;
         Task.p_assignedWorker := None; Task.p_result := None;
         Task.p_error := None; Task.p_createdAt := None;
         Task.p_startedAt := None;
         Task.p_completedAt := Some (clock s) |} s in
  let s :=
    match Store.getWorker workerId s with
    | Some updatedWorker =>
        Store.updateWorker workerId
          {| Worker.p_id := None; Worker.p_hostname := None;
             Worker.p_status := None; Worker.p_gpuInfo := None;
             Worker.p_currentLoad :=
               Some (Z.max 0 (Worker.currentLoad updatedWorker - 1));
             Worker.p_maxCapacity := None;
             Worker.p_supportedModels := None;
             Worker.p_lastHeartbeat := None |} s
    | None => s
    end in
  resolveTask taskId (VSuccess (Some workerId)) s.

(** The delay of the completion timer, for a [Math.random()] draw [r]. *)
Definition simulated_latency (r : Q) : Q :=
  (r * inject_Z (SIMULATED_LATENCY_MAX_MS - SIMULATED_LATENCY_MIN_MS)
   + inject_Z SIMULATED_LATENCY_MIN_MS)%Q.

(** [simulateTaskProcessing(task, worker)]: the latency drawn only decides
    when the timer fires, which the event order decides here. *)
Definition simulateTaskProcessing (task : Task.InferenceTask)
    (worker : Worker.WorkerNode) (s : State) : State :=
  let s :=
    Store.updateTask (Task.id task)
      {| Task.p_id := None; Task.p_type := None; Task.p_payload := None;
         Task.p_apiKeyId := None; Task.p_priority := None;
         Task.p_status := Some Task.processing;
         Task.p_assignedWorker := None; Task.p_result := None;
         Task.p_error := None; Task.p_createdAt := None;
         Task.p_startedAt := Some (clock s);
         Task.p_completedAt := None |} s in
  set_completionTimers
    (completionTimers s ++ [(Task.id task, Worker.id worker)]) s.

(** [assignTaskToWorker(task, worker)]; it has no [await] of its own and
    runs to its end when called. *)
Definition assignTaskToWorker (task : Task.InferenceTask)
    (worker : Worker.WorkerNode) (s : State) : State :=
  let s :=
    Store.updateTask (Task.id task)
      {| Task.p_id := None; Task.p_type := None; Task.p_payload := None;
         Task.p_apiKeyId := None; Task.p_priority := None;
         Task.p_status := Some Task.assigned;
         Task.p_assignedWorker := Some (Worker.id worker);
         Task.p_result := None; Task.p_error := None;
         Task.p_createdAt := None; Task.p_startedAt := None;
         Task.p_completedAt := None |} s in
  let s :=
    Store.updateWorker (Worker.id worker)
      {| Worker.p_id := None; Worker.p_hostname := None;
         Worker.p_status := None; Worker.p_gpuInfo := None;
         Worker.p_currentLoad := Some (Worker.currentLoad worker + 1);
         Worker.p_maxCapacity := None; Worker.p_supportedModels := None;
         Worker.p_lastHeartbeat := None |} s in
  simulateTaskProcessing task worker s.

(** The [finally] block of [processQueue]. *)
Definition processQueue_finally (s : State) : State :=
  set_processing false s.

(** The [for] loop of [processQueue], run until it ends or reaches its
    [await], where the frame is parked. *)
Fixpoint processQueue_loop (pendingTasks : list Task.InferenceTask)
    (availableWorkers : list Worker.WorkerNode) (s : State) : State :=
  match pendingTasks with
  | [] => processQueue_finally s
  | task :: rest =>
      match availableWorkers with
      | [] => processQueue_finally s
      | _ :: _ =>
          match selectBestWorker availableWorkers task with
          | (sorted, Some worker) =>
              let s := assignTaskToWorker task worker s in
              set_suspended
                (Some {| frame_tasks := rest; frame_pool := sorted;
                         frame_worker := worker |}) s
          | (sorted, None) => processQueue_loop rest sorted s
          end
      end
  end.

(** [processQueue()] up to its first [await]. *)
Definition processQueue (s : State) : State :=
  if processing s then s
  else
    let s := set_processing true s in
    let pendingTasks := Store.getPendingTasks s in
    let availableWorkers := getAvailableWorkers s in
    processQueue_loop pendingTasks availableWorkers s.

(** [availableWorkers.findIndex(w => w.id === worker.id)] followed by
    [splice(index, 1)] when the index is found. *)
Fixpoint splice_worker (id : N) (l : list Worker.WorkerNode)
  : list Worker.WorkerNode :=
  match l with
  | [] => []
  | w :: l' =>
      if N.eqb (Worker.id w) id then l' else w :: splice_worker id l'
  end.

(** The continuation of [processQueue] after its [await]. *)
Definition processQueue_resume (f : Frame) (s : State) : State :=
  let availableWorkers :=
    splice_worker (Worker.id (frame_worker f)) (frame_pool f) in
  processQueue_loop (frame_tasks f) availableWorkers (set_suspended None s).

(** [enqueue(type, payload, apiKeyId, priority)]: the task id returned and
    the state when the call returns. *)
Definition enqueue (type : Task.Kind) (payload : ChatCompletionRequest)
    (apiKeyId : string) (priority : Z) (s : State) : N * State :=
  let '(id, s) := uuidv4 s in
  let task :=
    {| Task.id := id; Task.type := type; Task.payload := payload;
       Task.apiKeyId := apiKeyId; Task.priority := priority;
       Task.status := Task.pending; Task.assignedWorker := None;
       Task.result := None; Task.error := None;
       Task.createdAt := clock s; Task.startedAt := None;
       Task.completedAt := None |} in
  let s := Store.addTask task s in
  let s := processQueue s in
  (id, s).

Record QueueStats := {
  stat_pending : nat;
  stat_processing : nat;
  stat_completed : nat;
  stat_failed : nat
}.

Definition count_status (x : Task.Status) (l : list Task.InferenceTask)
  : nat :=
  List.length (filter (fun t => Task.Status_eqb (Task.status t) x) l).

(** [getStats()] *)
Definition getStats (s : State) : QueueStats :=
  let tasks := Store.getAllTasks s in
  {| stat_pending := count_status Task.pending tasks;
     stat_processing := count_status Task.processing tasks;
     stat_completed := count_status Task.completed tasks;
     stat_failed := count_status Task.failed tasks |}.
End TaskQueue.

(** ** services/workerManager.ts *)

Module WorkerManager.
Definition HEARTBEAT_INTERVAL_MS : Z := 5000.

Record GpuModel := {
  gm_name : string;
  gm_memory : Z;
  gm_baseThroughput : Z
}.

Definition GPU_MODELS : list GpuModel :=
  [ {| gm_name := "NVIDIA A100"; gm_memory := 80; gm_baseThroughput := 100 |};
    {| gm_name := "NVIDIA H100"; gm_memory := 80; gm_baseThroughput := 150 |};
    {| gm_name := "NVIDIA RTX 4090"; gm_memory := 24;
       gm_baseThroughput := 60 |};
    {| gm_name := "NVIDIA RTX A6000"; gm_memory := 48;
       gm_baseThroughput := 70 |} ].

(** [createWorker(hostname)] with its three [Math.random()] draws.  A draw
    outside [[0, 1)] would index [GPU_MODELS] out of range; there is no
    worker then. *)
Definition createWorker (hostname : string) (rModel rMemory rUtil : Q)
    (s : State) : option (Worker.WorkerNode * State) :=
  match
    nth_error GPU_MODELS
      (Z.to_nat (Qfloor (rModel * inject_Z (Z.of_nat (List.length GPU_MODELS)))))
  with
  | None => None
  | Some gpuModel =>
      let '(id, s) := uuidv4 s in
      let worker :=
        {| Worker.id := id;
           Worker.hostname := hostname;
           Worker.status := Worker.online;
           Worker.gpuInfo :=
             {| Worker.name := gm_name gpuModel;
                Worker.memoryTotal := gm_memory gpuModel;
                Worker.memoryUsed :=
                  Qfloor (rMemory * inject_Z (gm_memory gpuModel) * (1 # 2));
                Worker.utilization := Qfloor (rUtil * 60) |};
           Worker.currentLoad := 0;
           Worker.maxCapacity := gm_baseThroughput gpuModel / 10;
           Worker.supportedModels :=
             ["gpt-3.5-turbo"; "gpt-4"; "llama-2-13b"; "llama-2-70b"]%string;
           Worker.lastHeartbeat := clock s |} in
      Some (worker, Store.addWorker worker s)
  end.

Definition getAllWorkers (s : State) : list Worker.WorkerNode :=
  Store.getAllWorkers s.

Definition getWorker (id : N) (s : State) : option Worker.WorkerNode :=
  Store.getWorker id s.

Record WorkerStats := {
  total : nat;
  online : nat;
  offline : nat;
  busy : nat;
  totalGpuMemory : Z;
  avgUtilization : Z
}.

Definition count_status (x : Worker.Status) (l : list Worker.WorkerNode)
  : nat :=
  List.length (filter (fun w => Worker.Status_eqb (Worker.status w) x) l).

(** [getWorkerStats()] *)
Definition getWorkerStats (s : State) : WorkerStats :=
  let workers := getAllWorkers s in
  let totalGpuMemory :=
    fold_left (fun sum w => sum + Worker.memoryTotal (Worker.gpuInfo w))
              workers 0 in
  let utilizationSum :=
    fold_left (fun sum w => sum + Worker.utilization (Worker.gpuInfo w))
              workers 0 in
  let avgUtilization : Q :=
    match workers with
    | [] => 0%Q
    | _ :: _ =>
        Qdiv (inject_Z utilizationSum)
             (inject_Z (Z.of_nat (List.length workers)))
    end in
  {| total := List.length workers;
     online := count_status Worker.online workers;
     offline := count_status Worker.offline workers;
     busy := count_status Worker.busy workers;
     totalGpuMemory := totalGpuMemory;
     avgUtilization := Math_round avgUtilization |}.

(** One turn of the [for] loop of the heartbeat callback, for [worker]
    and its three draws. *)
Definition heartbeat_worker (worker : Worker.WorkerNode) (draws : Q * Q * Q)
    (s : State) : State :=
  let '(rUtil, rMemory, rStatus) := draws in
  let info := Worker.gpuInfo worker in
  let utilizationChange := ((rUtil - (1 # 2)) * 10)%Q in
  let newUtilization :=
    Qmax 0 (Qmin 100 (inject_Z (Worker.utilization info) + utilizationChange))
  in
  let memoryChange := ((rMemory - (1 # 2)) * 2)%Q in
  let newMemoryUsed :=
    Qmax 0 (Qmin (inject_Z (Worker.memoryTotal info))
                 (inject_Z (Worker.memoryUsed info) + memoryChange)) in
  let newStatus :=
    if negb (Qle_bool (2 # 100) rStatus) then
      match Worker.status worker with
      | Worker.online => Worker.offline
      | _ => Worker.online
      end
    else Worker.status worker in
  Store.updateWorker (Worker.id worker)
    {| Worker.p_id := None; Worker.p_hostname := None;
       Worker.p_status := Some newStatus;
       Worker.p_gpuInfo :=
         Some {| Worker.name := Worker.name info;
                 Worker.memoryTotal := Worker.memoryTotal info;
                 Worker.memoryUsed := Math_round newMemoryUsed;
                 Worker.utilization := Math_round newUtilization |};
       Worker.p_currentLoad := None; Worker.p_maxCapacity := None;
       Worker.p_supportedModels := None;
       Worker.p_lastHeartbeat := Some (clock s) |} s.

(** The callback of the [setInterval] of [startHeartbeatSimulation]: the
    loop over the workers read at its start. *)
Definition heartbeat (draws : list (Q * Q * Q)) (s : State) : State :=
  fold_left (fun s wd => heartbeat_worker (fst wd) (snd wd) s)
            (combine (getAllWorkers s) draws) s.

(** [addWorker(hostname)] *)
Definition addWorker (hostname : string) (rModel rMemory rUtil : Q)
    (s : State) : option (Worker.WorkerNode * State) :=
  createWorker hostname rModel rMemory rUtil s.

(** [removeWorker(id)] *)
Definition removeWorker (id : N) (s : State) : bool * State :=
  Store.removeWorker id s.
End WorkerManager.

(** ** The event loop

    An event is a call from outside (a request handler, the inference
    service) or a callback the runtime runs.  Timer callbacks run only when
    no microtask is pending, that is when no frame of [processQueue] is
    parked; calls from running code may come while one is. *)

Inductive Event :=
| Tick (dt : N)
| AddWorker (hostname : string) (rModel rMemory rUtil : Q)
| RemoveWorker (id : N)
| Heartbeat (draws : list (Q * Q * Q))
| Enqueue (payload : ChatCompletionRequest) (apiKeyId : string) (priority : Z)
| Resume
| WaitForCompletion (taskId : N)
| WaitTimeout (taskId promise : N)
| CompletionTimeout (taskId workerId : N)
| ResolveTask (taskId : N) (result : JsValue)
| RejectTask (taskId : N) (error : string).

Definition idle (s : State) : bool :=
  match suspended s with None => true | Some _ => false end.

Definition valid_draws (d : Q * Q * Q) : bool :=
  let '(a, b, c) := d in valid_random a && valid_random b && valid_random c.

(** One event; [None] when the event cannot happen in the state (a timer
    that is not armed, a draw that [Math.random] cannot give). *)
Definition step (e : Event) (s : State) : option State :=
  match e with
  | Tick dt => Some (set_clock (clock s + Z.of_N dt) s)
  | AddWorker hostname rModel rMemory rUtil =>
      if valid_random rModel && valid_random rMemory && valid_random rUtil
      then option_map snd
             (WorkerManager.addWorker hostname rModel rMemory rUtil s)
      else None
  | RemoveWorker id => Some (snd (WorkerManager.removeWorker id s))
  | Heartbeat draws =>
      if idle s && forallb valid_draws draws
         && Nat.eqb (List.length draws) (List.length (workers s))
      then Some (WorkerManager.heartbeat draws s)
      else None
  | Enqueue payload apiKeyId priority =>
      Some (snd (TaskQueue.enqueue Task.chat_completion payload apiKeyId
                                   priority s))
  | Resume =>
      match suspended s with
      | Some f => Some (TaskQueue.processQueue_resume f s)
      | None => None
      end
  | WaitForCompletion taskId => Some (snd (TaskQueue.waitForCompletion taskId s))
  | WaitTimeout taskId p =>
      if idle s && armed (taskId, p) (waitTimers s) then
        Some (TaskQueue.waitForCompletion_timeout taskId p
                (set_waitTimers (remove_timer (taskId, p) (waitTimers s)) s))
      else None
  | CompletionTimeout taskId workerId =>
      if idle s && armed (taskId, workerId) (completionTimers s) then
        Some (TaskQueue.simulateTaskProcessing_timeout taskId workerId
                (set_completionTimers
                   (remove_timer (taskId, workerId) (completionTimers s)) s))
      else None
  | ResolveTask taskId result => Some (TaskQueue.resolveTask taskId result s)
  | RejectTask taskId error => Some (TaskQueue.rejectTask taskId error s)
  end.

Fixpoint run (es : list Event) (s : State) : option State :=
  match es with
  | [] => Some s
  | e :: es' =>
      match step e s with
      | Some s' => run es' s'
      | None => None
      end
  end.

(** The states of the running process: those the events lead to from
    [init]. *)
Definition reachable (s : State) : Prop :=
  exists es, run es init = Some s.

Definition is_enqueue (e : Event) : bool :=
  match e with Enqueue _ _ _ => true | _ => false end.

Definition is_resume (e : Event) : bool :=
  match e with Resume => true | _ => false end.

(** The number of continuations of a pass among some events. *)
Definition resumes (es : list Event) : nat :=
  List.length (filter is_resume es).

(** The order of an array sorted by [selectBestWorker], and the workers of
    one load ratio. *)
Definition ratio_le (a b : Worker.WorkerNode) : Prop :=
  (TaskQueue.ratio a <= TaskQueue.ratio b)%Q.

Definition has_ratio (q : Q) (w : Worker.WorkerNode) : bool :=
  Qeq_bool (TaskQueue.ratio w) q.

(** What [getAvailableWorkers] asks of a worker. *)
Definition is_available (w : Worker.WorkerNode) : bool :=
  Worker.Status_eqb (Worker.status w) Worker.online
  && (Worker.currentLoad w <? Worker.maxCapacity w).

(** The worker a task of the store is assigned to, if any. *)
Definition assignedWorker_of (id : N) (s : State) : option (option N) :=
  option_map Task.assignedWorker (Store.getTask id s).


(** The tasks are stored in the order of their creation, none created in
    the future, all with identifiers already drawn. *)
Definition chronological (s : State) : Prop :=
  StronglySorted Z.le (map Task.createdAt (Store.getAllTasks s))
  /\ Forall (fun c => c <= clock s) (map Task.createdAt (Store.getAllTasks s))
  /\ Forall (fun k => (k < uuid_supply s)%N) (JsMap.keys (tasks s)).

(** The task that [enqueue] stores. *)
Definition enqueued_task (payload : ChatCompletionRequest) (apiKeyId : string)
    (priority : Z) (s : State) : Task.InferenceTask :=
  {| Task.id := uuid_supply s; Task.type := Task.chat_completion;
     Task.payload := payload; Task.apiKeyId := apiKeyId;
     Task.priority := priority; Task.status := Task.pending;
     Task.assignedWorker := None; Task.result := None; Task.error := None;
     Task.createdAt := clock s; Task.startedAt := None;
     Task.completedAt := None |}.

(** The state in which [enqueue] calls [processQueue]: the identifier
    drawn, the task stored. *)
Definition enqueue_stored (payload : ChatCompletionRequest) (apiKeyId : string)
    (priority : Z) (s : State) : State :=
  Store.addTask (enqueued_task payload apiKeyId priority s) (snd (uuidv4 s)).



(** ** Scenarios

    Registries with chosen capacities are put into the store directly, as
    the fixtures of the tests do ([createWorker] draws its capacity from
    the GPU catalogue). *)

Definition fixture_worker (id : N) (capacity : Z) (now : Z)
  : Worker.WorkerNode :=
  {| Worker.id := id;
     Worker.hostname := "gpu-node";
     Worker.status := Worker.online;
     Worker.gpuInfo :=
       {| Worker.name := "NVIDIA A100"; Worker.memoryTotal := 80;
          Worker.memoryUsed := 8; Worker.utilization := 45 |};
     Worker.currentLoad := 0;
     Worker.maxCapacity := capacity;
     Worker.supportedModels := ["gpt-3.5-turbo"; "gpt-4"]%string;
     Worker.lastHeartbeat := now |}.

Definition register (capacity : Z) (s : State) : State :=
  let '(id, s) := uuidv4 s in
  Store.addWorker (fixture_worker id capacity (clock s)) s.

Definition hello : ChatCompletionRequest :=
  {| model := "gpt-3.5-turbo";
     messages := [ {| role := "user"; content := "Hello!" |} ] |}.

Definition status_of (id : N) (s : State) : option Task.Status :=
  option_map Task.status (Store.getTask id s).

Definition load_of (id : N) (s : State) : option Z :=
  option_map Worker.currentLoad (Store.getWorker id s).

(** Scenario E: one online worker (identifier 0) of capacity 1. *)
Definition scenarioE : State := register 1 init.

(** Scenario A: three online workers without load, registered in the
    order of their capacities 2, 4 and 8 under the identifiers 1, 0 and 2
    (identifiers are random, so their order is not that of registration). *)
Definition scenarioA : State :=
  set_uuid_supply 3
    (Store.addWorker (fixture_worker 2 8 0)
       (Store.addWorker (fixture_worker 0 4 0)
          (Store.addWorker (fixture_worker 1 2 0) init))).

(** One task (identifier 0) enqueued while the registry was empty, then two
    online workers of capacity 10 (identifiers 1 and 2), the second with
    nine tasks in flight. *)
Definition scenario_uneven : State :=
  Store.updateWorker 2
    {| Worker.p_id := None; Worker.p_hostname := None; Worker.p_status := None;
       Worker.p_gpuInfo := None; Worker.p_currentLoad := Some 9;
       Worker.p_maxCapacity := None; Worker.p_supportedModels := None;
       Worker.p_lastHeartbeat := None |}
    (register 10
       (register 10
          (snd (TaskQueue.enqueue Task.chat_completion hello "key-0" 0 init)))).

(** What a pass sees of a worker: identifier, load and capacity. *)
Definition load_view (w : Worker.WorkerNode) : N * Z * Z :=
  (Worker.id w, Worker.currentLoad w, Worker.maxCapacity w).


(** One worker (identifier 0) that has a task in flight, two tasks
    (identifiers 2 and 3) enqueued while its pass was parked and left
    pending, then two more workers (identifiers 4 and 5) without load. *)
Definition one_busy_two_idle : list Event :=
  [ AddWorker "worker-1" (1 # 4) (1 # 2) (1 # 2);
    Enqueue hello "key-1" 0; Enqueue hello "key-2" 0; Enqueue hello "key-3" 0;
    Resume;
    AddWorker "worker-2" (1 # 4) (1 # 2) (1 # 2);
    AddWorker "worker-3" (1 # 4) (1 # 2) (1 # 2) ].



(** A task (identifier 0) enqueued while the registry is empty, a caller
    waiting for it, and the 30000 ms of the waiter time-out gone by. *)
Definition waiting_in_vain : list Event :=
  [ Enqueue hello "key-1" 0; WaitForCompletion 0; Tick 30000 ].

(** After the time-out: a worker is created (identifier 1), a second
    [enqueue] call (task 2) runs the pass that assigns task 0, and task 0
    completes 1500 ms later. *)
Definition late_completion : list Event :=
  [ AddWorker "worker-1" (1 # 4) (1 # 2) (1 # 2);
    Enqueue hello "key-2" 0; Resume;
    Tick 1500; CompletionTimeout 0 1 ].

(** One worker created by the worker manager (an H100, capacity 15,
    identifier 0), one task (identifier 1) enqueued and assigned to it. *)
Definition one_in_flight : list Event :=
  [ AddWorker "worker-1" (1 # 4) (1 # 2) (1 # 2);
    Enqueue hello "key-1" 0;
    Resume ].

(** ** Predicates on states used by the properties *)

(** The fields that only the waiter registry and the supplies touch. *)
Definition same_registry (s s' : State) : Prop :=
  taskCallbacks s' = taskCallbacks s /\ calls s' = calls s
  /\ waitTimers s' = waitTimers s /\ promise_supply s' = promise_supply s
  /\ uuid_supply s' = uuid_supply s /\ clock s' = clock s.

(** At most one waiter entry per task. *)
Definition unique_waiters (s : State) : Prop :=
  NoDup (JsMap.keys (taskCallbacks s)).

(** A worker record as the store may hold it under key [k]. *)
Definition worker_ok (s : State) (k : N) (w : Worker.WorkerNode) : Prop :=
  Worker.id w = k /\ (k < uuid_supply s)%N
  /\ 0 <= Worker.currentLoad w <= Worker.maxCapacity w
  /\ Worker.status w <> Worker.busy.

(** A worker record as a pass may hold it in its array of available
    workers: read when it had room, of the capacity the store knows. *)
Definition pool_ok (s : State) (w : Worker.WorkerNode) : Prop :=
  (Worker.id w < uuid_supply s)%N
  /\ 0 <= Worker.currentLoad w < Worker.maxCapacity w
  /\ forall w', In (Worker.id w, w') (workers s) ->
                Worker.maxCapacity w' = Worker.maxCapacity w.

(** The invariant of the worker registry and of a parked pass. *)
Definition registry_inv (s : State) : Prop :=
  NoDup (JsMap.keys (workers s))
  /\ (forall k w, In (k, w) (workers s) -> worker_ok s k w)
  /\ (forall f, suspended s = Some f ->
        forall w, In w (frame_pool f) -> pool_ok s w).

(** The updates the dispatcher passes to [updateTask]: they carry a status
    other than 'failed' and at most [assignedWorker], [startedAt] and
    [completedAt] besides. *)
Definition dispatcher_update (u : Task.Partial) : Prop :=
  Task.p_id u = None /\ Task.p_priority u = None /\ Task.p_createdAt u = None
  /\ Task.p_result u = None /\ Task.p_error u = None
  /\ Task.p_status u <> Some Task.failed.

(** [tasks_updated m m']: the task map [m'] comes from [m] by such updates
    of tasks present. *)
Inductive tasks_updated (m : list (N * Task.InferenceTask))
  : list (N * Task.InferenceTask) -> Prop :=
| tasks_same : tasks_updated m m
| tasks_update m' id u existing :
    tasks_updated m m' -> dispatcher_update u ->
    JsMap.get id m' = Some existing ->
    tasks_updated m (JsMap.set id (Task.spread existing u) m').

(** A task without outcome fields and not 'failed'. *)
Definition no_outcome (t : Task.InferenceTask) : Prop :=
  Task.result t = None /\ Task.error t = None /\ Task.status t <> Task.failed.

(** Every promise that is called, registered or held by a timer has been
    created. *)
Definition promise_inv (s : State) : Prop :=
  (forall p o, In (p, o) (calls s) -> (p < promise_supply s)%N)
  /\ (forall t p, In (t, p) (taskCallbacks s) -> (p < promise_supply s)%N)
  /\ (forall t p, In (t, p) (waitTimers s) -> (p < promise_supply s)%N).


(** ** The life cycle of a task and the accounting of the load *)

(** How many armed completion timers name the worker. *)
Definition timers_on (workerId : N) (timers : list (N * N)) : Z :=
  Z.of_nat (List.length (filter (fun x => N.eqb (snd x) workerId) timers)).

Definition in_flight_on (workerId : N) (t : Task.InferenceTask) : bool :=
  Task.Status_eqb (Task.status t) Task.processing
  && match Task.assignedWorker t with
     | Some w => N.eqb w workerId
     | None => false
     end.

(** How many stored tasks are 'processing' on the worker. *)
Definition processing_on (workerId : N) (s : State) : Z :=
  Z.of_nat (List.length (filter (in_flight_on workerId) (Store.getAllTasks s))).

(** The record of a task, as its status allows it between two events. *)
Definition task_ok (s : State) (k : N) (t : Task.InferenceTask) : Prop :=
  Task.id t = k /\ (k < uuid_supply s)%N /\ Task.createdAt t <= clock s
  /\ match Task.status t with
     | Task.pending =>
         Task.assignedWorker t = None /\ Task.startedAt t = None
         /\ Task.completedAt t = None
     | Task.processing =>
         exists w a,
           Task.assignedWorker t = Some w /\ Task.startedAt t = Some a
           /\ Task.completedAt t = None
           /\ Task.createdAt t <= a <= clock s
     | Task.completed =>
         exists w a c,
           Task.assignedWorker t = Some w /\ Task.startedAt t = Some a
           /\ Task.completedAt t = Some c
           /\ Task.createdAt t <= a /\ a <= c <= clock s
     | Task.assigned | Task.failed => False
     end.

(** The record of a task after its assignment: what the two updates of
    [assignTaskToWorker] and [simulateTaskProcessing] leave of it. *)
Definition started_task (workerId : N) (now : Z) (t : Task.InferenceTask)
  : Task.InferenceTask :=
  {| Task.id := Task.id t; Task.type := Task.type t;
     Task.payload := Task.payload t; Task.apiKeyId := Task.apiKeyId t;
     Task.priority := Task.priority t; Task.status := Task.processing;
     Task.assignedWorker := Some workerId; Task.result := Task.result t;
     Task.error := Task.error t; Task.createdAt := Task.createdAt t;
     Task.startedAt := Some now; Task.completedAt := Task.completedAt t |}.

(** The record of a task after the completion callback. *)
Definition completed_task (now : Z) (t : Task.InferenceTask)
  : Task.InferenceTask :=
  {| Task.id := Task.id t; Task.type := Task.type t;
     Task.payload := Task.payload t; Task.apiKeyId := Task.apiKeyId t;
     Task.priority := Task.priority t; Task.status := Task.completed;
     Task.assignedWorker := Task.assignedWorker t;
     Task.result := Task.result t; Task.error := Task.error t;
     Task.createdAt := Task.createdAt t; Task.startedAt := Task.startedAt t;
     Task.completedAt := Some now |}.

(** A worker record with another load. *)
Definition with_load (load : Z) (w : Worker.WorkerNode) : Worker.WorkerNode :=
  {| Worker.id := Worker.id w; Worker.hostname := Worker.hostname w;
     Worker.status := Worker.status w; Worker.gpuInfo := Worker.gpuInfo w;
     Worker.currentLoad := load; Worker.maxCapacity := Worker.maxCapacity w;
     Worker.supportedModels := Worker.supportedModels w;
     Worker.lastHeartbeat := Worker.lastHeartbeat w |}.

(** Tasks, timers and loads between two events, no pass considered. *)
Definition core_inv (s : State) : Prop :=
  NoDup (JsMap.keys (tasks s))
  /\ (forall k t, JsMap.get k (tasks s) = Some t -> task_ok s k t)
  /\ NoDup (map fst (completionTimers s))
  /\ (forall t w, In (t, w) (completionTimers s) ->
        (w < uuid_supply s)%N
        /\ exists task,
             JsMap.get t (tasks s) = Some task
             /\ Task.status task = Task.processing
             /\ Task.assignedWorker task = Some w)
  /\ (forall k t, JsMap.get k (tasks s) = Some t ->
        Task.status t = Task.processing ->
        exists w, In (k, w) (completionTimers s))
  /\ (forall k w, JsMap.get k (workers s) = Some w ->
        Worker.currentLoad w = timers_on k (completionTimers s))
  /\ (forall k, timers_on k (completionTimers s) = processing_on k s).

(** What a pass, parked or about to run its loop, holds: tasks still
    pending in the store, and workers whose load the store still has, save
    the one just assigned. *)
Definition pass_ok (s : State) (pendingTasks : list Task.InferenceTask)
    (availableWorkers : list Worker.WorkerNode) (assignedTo : option N)
  : Prop :=
  NoDup (map Task.id pendingTasks)
  /\ (forall t, In t pendingTasks ->
        exists t', JsMap.get (Task.id t) (tasks s) = Some t'
                   /\ Task.status t' = Task.pending)
  /\ NoDup (map Worker.id availableWorkers)
  /\ (forall w, In w availableWorkers ->
        (Worker.id w < uuid_supply s)%N
        /\ forall w', JsMap.get (Worker.id w) (workers s) = Some w' ->
              Worker.currentLoad w'
              = Worker.currentLoad w
                + (if match assignedTo with
                      | Some i => N.eqb (Worker.id w) i
                      | None => false
                      end then 1 else 0)).

Definition lifecycle_inv (s : State) : Prop :=
  core_inv s
  /\ match suspended s with
     | Some f =>
         processing s = true
         /\ pass_ok s (frame_tasks f) (frame_pool f)
                    (Some (Worker.id (frame_worker f)))
     | None => processing s = false
     end.

(** One move of a task record in one event: it stays, it is assigned and
    starts processing, or it completes. *)
Definition task_move (now : Z) (t t' : Task.InferenceTask) : Prop :=
  t' = t
  \/ (Task.status t = Task.pending
      /\ exists workerId, t' = started_task workerId now t)
  \/ (Task.status t = Task.processing /\ t' = completed_task now t).

(** The rank of a status in the life cycle. *)
Definition status_rank (x : Task.Status) : nat :=
  match x with
  | Task.pending => 0
  | Task.assigned => 1
  | Task.processing => 2
  | Task.completed => 3
  | Task.failed => 3
  end.

Definition is_processing (t : Task.InferenceTask) : bool :=
  Task.Status_eqb (Task.status t) Task.processing.

(** What may have become of a task record after some events: its status
    is no earlier in the life cycle, what the caller gave and the creation
    time are the same, a worker and a start time once set are the same, and
    a completed record is the same altogether. *)
Definition task_later (t t' : Task.InferenceTask) : Prop :=
  (status_rank (Task.status t) <= status_rank (Task.status t'))%nat
  /\ Task.id t' = Task.id t /\ Task.type t' = Task.type t
  /\ Task.payload t' = Task.payload t /\ Task.apiKeyId t' = Task.apiKeyId t
  /\ Task.priority t' = Task.priority t
  /\ Task.createdAt t' = Task.createdAt t
  /\ (Task.status t <> Task.pending ->
      Task.assignedWorker t' = Task.assignedWorker t
      /\ Task.startedAt t' = Task.startedAt t)
  /\ (Task.status t = Task.completed -> t' = t).

(** ** The waiters

    What one event does to the registry of waiters, the log of
    continuation calls and the waiter timers: nothing; a registration by
    [waitForCompletion]; a promise that [waitForCompletion] settles at
    once; the settlement of the registered waiter of a task (by
    [resolveTask], [rejectTask] or a completion); a waiter timer that fires
    and finds an entry for its task; one that fires and finds none. *)
Inductive waiter_step (s s' : State) : Prop :=
| ws_same :
    taskCallbacks s' = taskCallbacks s -> calls s' = calls s ->
    waitTimers s' = waitTimers s -> promise_supply s' = promise_supply s ->
    waiter_step s s'
| ws_register (t : N) :
    promise_supply s' = N.succ (promise_supply s) ->
    taskCallbacks s' = JsMap.set t (promise_supply s) (taskCallbacks s) ->
    waitTimers s' = waitTimers s ++ [(t, promise_supply s)] ->
    calls s' = calls s ->
    waiter_step s s'
| ws_at_once (o : Settlement) :
    promise_supply s' = N.succ (promise_supply s) ->
    taskCallbacks s' = taskCallbacks s -> waitTimers s' = waitTimers s ->
    calls s' = calls s ++ [(promise_supply s, o)] ->
    waiter_step s s'
| ws_settle (t p : N) (o : Settlement) :
    promise_supply s' = promise_supply s -> waitTimers s' = waitTimers s ->
    JsMap.get t (taskCallbacks s) = Some p ->
    taskCallbacks s' = JsMap.delete t (taskCallbacks s) ->
    calls s' = calls s ++ [(p, o)] ->
    waiter_step s s'
| ws_timeout (t p : N) :
    promise_supply s' = promise_supply s -> In (t, p) (waitTimers s) ->
    waitTimers s' = remove_timer (t, p) (waitTimers s) ->
    JsMap.has t (taskCallbacks s) = true ->
    taskCallbacks s' = JsMap.delete t (taskCallbacks s) ->
    calls s' = calls s ++ [(p, Rejected "Task timeout")] ->
    waiter_step s s'
| ws_timeout_late (t p : N) :
    promise_supply s' = promise_supply s -> In (t, p) (waitTimers s) ->
    waitTimers s' = remove_timer (t, p) (waitTimers s) ->
    JsMap.has t (taskCallbacks s) = false ->
    taskCallbacks s' = taskCallbacks s -> calls s' = calls s ->
    waiter_step s s'.

(** A registered waiter is unsettled and its timer is armed; no promise has
    two timers. *)
Definition waiter_inv (s : State) : Prop :=
  (forall t p, In (t, p) (taskCallbacks s) ->
     promise_state p s = None /\ In (t, p) (waitTimers s))
  /\ NoDup (map snd (waitTimers s)).

(** A promise that was created, is unsettled, is registered for no task
    and has no timer. *)
Definition forgotten (p : N) (s : State) : Prop :=
  (p < promise_supply s)%N
  /\ promise_state p s = None
  /\ (forall t, ~ In (t, p) (taskCallbacks s))
  /\ (forall t, ~ In (t, p) (waitTimers s)).

(** Every registered waiter waits for a stored task that is not
    completed. *)
Definition waiting_unfinished (s : State) : Prop :=
  forall t p, In (t, p) (taskCallbacks s) ->
    exists task, Store.getTask t s = Some task
                 /\ Task.status task <> Task.completed.

(** Two calls of [waitForCompletion] for the task in flight, its
    completion, then the timer of the first call. *)
Definition two_waiters : list Event :=
  one_in_flight
  ++ [ WaitForCompletion 1; Tick 500; WaitForCompletion 1; Tick 1000;
       CompletionTimeout 1 0; Tick 28500; WaitTimeout 1 0 ].

(** ** The workers

    The record of a worker after a heartbeat that read [worker] and drew
    [draws]; [heartbeat_worker] is shown below to store exactly this. *)
Definition heartbeat_record (worker : Worker.WorkerNode) (draws : Q * Q * Q)
    (now : Z) : Worker.WorkerNode :=
  let '(rUtil, rMemory, rStatus) := draws in
  let info := Worker.gpuInfo worker in
  {| Worker.id := Worker.id worker;
     Worker.hostname := Worker.hostname worker;
     Worker.status :=
       if negb (Qle_bool (2 # 100) rStatus) then
         match Worker.status worker with
         | Worker.online => Worker.offline
         | _ => Worker.online
         end
       else Worker.status worker;
     Worker.gpuInfo :=
       {| Worker.name := Worker.name info;
          Worker.memoryTotal := Worker.memoryTotal info;
          Worker.memoryUsed :=
            Math_round
              (Qmax 0 (Qmin (inject_Z (Worker.memoryTotal info))
                            (inject_Z (Worker.memoryUsed info)
                             + (rMemory - (1 # 2)) * 2)));
          Worker.utilization :=
            Math_round
              (Qmax 0 (Qmin 100 (inject_Z (Worker.utilization info)
                                 + (rUtil - (1 # 2)) * 10))) |};
     Worker.currentLoad := Worker.currentLoad worker;
     Worker.maxCapacity := Worker.maxCapacity worker;
     Worker.supportedModels := Worker.supportedModels worker;
     Worker.lastHeartbeat := now |}.

(** The capacities of the catalogue of GPU models. *)
Definition catalogue_capacities : list Z :=
  map (fun g => WorkerManager.gm_baseThroughput g / 10)
      WorkerManager.GPU_MODELS.

(** Telemetry and capacity of a worker within their ranges. *)
Definition telemetry_ok (w : Worker.WorkerNode) : Prop :=
  0 <= Worker.utilization (Worker.gpuInfo w) <= 100
  /\ 0 <= Worker.memoryUsed (Worker.gpuInfo w)
       <= Worker.memoryTotal (Worker.gpuInfo w)
  /\ In (Worker.maxCapacity w) catalogue_capacities.

Definition telemetry_all (s : State) : Prop :=
  forall k w, In (k, w) (workers s) -> telemetry_ok w.

(** ** services/store.ts: the usage records

    The array [usageRecords] of the store, passed explicitly; numbers that
    count or bound are integers, as the callers give them.  The mean
    latency is a quotient of two numbers and is computed as the source
    does, in doubles. *)


(** [Array.prototype.slice(start)] with an integer [start]: a negative
    [start] counts from the end, and both are clamped to the array. *)
Definition Array_slice {A : Type} (start : Z) (l : list A) : list A :=
  let len := Z.of_nat (List.length l) in
  let k := if start <? 0 then Z.max (len + start) 0 else Z.min start len in
  skipn (Z.to_nat k) l.

Module Usage.
Record UsageRecord := {
  id : N;
  apiKeyId : string;
  endpoint : string;
  model : string;
  promptTokens : Z;
  completionTokens : Z;
  totalTokens : Z;
  latencyMs : Z;
  statusCode : Z;
  timestamp : Z
}.

(** [addUsageRecord(record)] *)
Definition addUsageRecord (record : UsageRecord)
    (usageRecords : list UsageRecord) : list UsageRecord :=
  let usageRecords := usageRecords ++ [record] in
  if 10000 <? Z.of_nat (List.length usageRecords)
  then Array_slice (-10000) usageRecords
  else usageRecords.

(** The filter that [getUsageRecords] and [getUsageStats] share:
    [if (apiKeyId) records = records.filter(...)]; an absent or empty
    identifier is falsy and filters nothing. *)
Definition records_of (apiKeyId : option string)
    (usageRecords : list UsageRecord) : list UsageRecord :=
  match apiKeyId with
  | Some k =>
      if String.eqb k EmptyString then usageRecords
      else filter (fun r => String.eqb (Usage.apiKeyId r) k) usageRecords
  | None => usageRecords
  end.

(** [getUsageRecords(apiKeyId, limit)] *)
Definition getUsageRecords (apiKeyId : option string) (limit : Z)
    (usageRecords : list UsageRecord) : list UsageRecord :=
  let records := records_of apiKeyId usageRecords in
  Array_slice (- limit) records.

Definition default_limit : Z := 100.




(** The array after the records [rs] have been added one by one, oldest
    first. *)
Definition recorded (rs : list UsageRecord) : list UsageRecord :=
  fold_left (fun usageRecords r => addUsageRecord r usageRecords) rs [].
End Usage.




(** ** controllers/monitoringController.ts

    [store.getAllTasks().slice(-50)] of [getQueueStatus]. *)
Definition recentTasks (s : State) : list Task.InferenceTask :=
  Array_slice (-50) (Store.getAllTasks s).

(** ** The API keys: types/index.ts, services/store.ts, services/auth.ts *)

Module ApiKey.
Record ApiKey := {
  id : N;
  key : string;
  name : string;
  createdAt : Z;
  lastUsedAt : option Z;
  usageCount : Z;
  rateLimitPerMinute : Z;
  isActive : bool
}.

(** [Partial<ApiKey>] *)
Record Partial := {
  p_id : option N;
  p_key : option string;
  p_name : option string;
  p_createdAt : option Z;
  p_lastUsedAt : option Z;
  p_usageCount : option Z;
  p_rateLimitPerMinute : option Z;
  p_isActive : option bool
}.

Definition no_updates : Partial :=
  {| p_id := None; p_key := None; p_name := None; p_createdAt := None;
     p_lastUsedAt := None; p_usageCount := None;
     p_rateLimitPerMinute := None; p_isActive := None |}.

(** [{ ...existing, ...updates }] *)
Definition spread (existing : ApiKey) (updates : Partial) : ApiKey :=
  {| id := Worker.or_else (p_id updates) (id existing);
     key := Worker.or_else (p_key updates) (key existing);
     name := Worker.or_else (p_name updates) (name existing);
     createdAt := Worker.or_else (p_createdAt updates) (createdAt existing);
     lastUsedAt :=
       match p_lastUsedAt updates with
       | Some x => Some x
       | None => lastUsedAt existing
       end;
     usageCount := Worker.or_else (p_usageCount updates) (usageCount existing);
     rateLimitPerMinute :=
       Worker.or_else (p_rateLimitPerMinute updates)
                      (rateLimitPerMinute existing);
     isActive := Worker.or_else (p_isActive updates) (isActive existing) |}.
End ApiKey.

(** The map [apiKeys] of the store, passed explicitly. *)
Module KeyStore.
Definition addApiKey (apiKey : ApiKey.ApiKey) (apiKeys : list (N * ApiKey.ApiKey))
  : list (N * ApiKey.ApiKey) :=
  JsMap.set (ApiKey.id apiKey) apiKey apiKeys.

Definition getApiKey (id : N) (apiKeys : list (N * ApiKey.ApiKey))
  : option ApiKey.ApiKey :=
  JsMap.get id apiKeys.

(** [Array.from(this.apiKeys.values()).find(k => k.key === key)] *)
Definition getApiKeyByKey (key : string) (apiKeys : list (N * ApiKey.ApiKey))
  : option ApiKey.ApiKey :=
  find (fun k => String.eqb (ApiKey.key k) key) (JsMap.values apiKeys).

Definition getAllApiKeys (apiKeys : list (N * ApiKey.ApiKey))
  : list ApiKey.ApiKey :=
  JsMap.values apiKeys.

Definition updateApiKey (id : N) (updates : ApiKey.Partial)
    (apiKeys : list (N * ApiKey.ApiKey))
  : option ApiKey.ApiKey * list (N * ApiKey.ApiKey) :=
  match JsMap.get id apiKeys with
  | None => (None, apiKeys)
  | Some existing =>
      let updated := ApiKey.spread existing updates in
      (Some updated, JsMap.set id updated apiKeys)
  end.

Definition deleteApiKey (id : N) (apiKeys : list (N * ApiKey.ApiKey))
  : bool * list (N * ApiKey.ApiKey) :=
  (JsMap.has id apiKeys, JsMap.delete id apiKeys).
End KeyStore.

(** The key functions of the authentication service.  [extractKeyId] is
    [hashApiKey(key).substring(0, 16)], the first 16 hexadecimal digits of
    the SHA-256 digest, read as a number; nothing is assumed about it.  The
    plain key that [generateApiKey] draws and the time are inputs. *)
Section AuthService.
Variable extractKeyId : string -> N.

Definition DEFAULT_RATE_LIMIT_PER_MINUTE : Z := 60.

(** [createApiKey(userId, name, rateLimitPerMinute)]; the user is not
    used. *)
Definition createApiKey (plainKey name : string)
    (rateLimitPerMinute : option Z) (now : Z)
    (apiKeys : list (N * ApiKey.ApiKey))
  : ApiKey.ApiKey * list (N * ApiKey.ApiKey) :=
  let id := extractKeyId plainKey in
  let apiKey :=
    {| ApiKey.id := id; ApiKey.key := plainKey; ApiKey.name := name;
       ApiKey.createdAt := now; ApiKey.lastUsedAt := None;
       ApiKey.usageCount := 0;
       ApiKey.rateLimitPerMinute :=
         match rateLimitPerMinute with
         | Some r => if r =? 0 then DEFAULT_RATE_LIMIT_PER_MINUTE else r
         | None => DEFAULT_RATE_LIMIT_PER_MINUTE
         end;
       ApiKey.isActive := true |} in
  (apiKey, KeyStore.addApiKey apiKey apiKeys).

(** [validateApiKey(key)] *)
Definition validateApiKey (key : string) (apiKeys : list (N * ApiKey.ApiKey))
  : option ApiKey.ApiKey :=
  match KeyStore.getApiKeyByKey key apiKeys with
  | Some apiKey => if ApiKey.isActive apiKey then Some apiKey else None
  | None => None
  end.

(** [revokeApiKey(id)] *)
Definition revokeApiKey (id : N) (apiKeys : list (N * ApiKey.ApiKey))
  : bool * list (N * ApiKey.ApiKey) :=
  match KeyStore.getApiKey id apiKeys with
  | None => (false, apiKeys)
  | Some _ =>
      let '(updated, apiKeys) :=
        KeyStore.updateApiKey id
          {| ApiKey.p_id := None; ApiKey.p_key := None; ApiKey.p_name := None;
             ApiKey.p_createdAt := None; ApiKey.p_lastUsedAt := None;
             ApiKey.p_usageCount := None;
             ApiKey.p_rateLimitPerMinute := None;
             ApiKey.p_isActive := Some false |} apiKeys in
      (match updated with Some _ => true | None => false end, apiKeys)
  end.

(** [deleteApiKey(id)] *)
Definition deleteApiKey (id : N) (apiKeys : list (N * ApiKey.ApiKey))
  : bool * list (N * ApiKey.ApiKey) :=
  KeyStore.deleteApiKey id apiKeys.

(** The update of the key after a completion, in services/inference.ts. *)
Definition countUse (apiKeyId : N) (now : Z)
    (apiKeys : list (N * ApiKey.ApiKey)) : list (N * ApiKey.ApiKey) :=
  match KeyStore.getApiKey apiKeyId apiKeys with
  | Some apiKey =>
      snd (KeyStore.updateApiKey apiKeyId
             {| ApiKey.p_id := None; ApiKey.p_key := None;
                ApiKey.p_name := None; ApiKey.p_createdAt := None;
                ApiKey.p_lastUsedAt := Some now;
                ApiKey.p_usageCount := Some (ApiKey.usageCount apiKey + 1);
                ApiKey.p_rateLimitPerMinute := None;
                ApiKey.p_isActive := None |} apiKeys)
  | None => apiKeys
  end.

(** The calls that change the map of keys. *)
Inductive KeyOp :=
| CreateKey (plainKey name : string) (rateLimitPerMinute : option Z) (now : Z)
| RevokeKey (id : N)
| DeleteKey (id : N)
| UseKey (id : N) (now : Z).

Definition key_step (apiKeys : list (N * ApiKey.ApiKey)) (op : KeyOp)
  : list (N * ApiKey.ApiKey) :=
  match op with
  | CreateKey plainKey name rate now =>
      snd (createApiKey plainKey name rate now apiKeys)
  | RevokeKey id => snd (revokeApiKey id apiKeys)
  | DeleteKey id => snd (deleteApiKey id apiKeys)
  | UseKey id now => countUse id now apiKeys
  end.

Definition key_run (ops : list KeyOp) (apiKeys : list (N * ApiKey.ApiKey))
  : list (N * ApiKey.ApiKey) :=
  fold_left key_step ops apiKeys.

(** The maps of keys the service can hold. *)
Definition keys_reachable (apiKeys : list (N * ApiKey.ApiKey)) : Prop :=
  exists ops, key_run ops [] = apiKeys.

(** Every key is stored once, under its own identifier, which is the one
    derived from its plain key. *)
Definition key_inv (apiKeys : list (N * ApiKey.ApiKey)) : Prop :=
  NoDup (JsMap.keys apiKeys)
  /\ forall k r, In (k, r) apiKeys ->
       ApiKey.id r = k /\ k = extractKeyId (ApiKey.key r).

Definition creates (id : N) (op : KeyOp) : Prop :=
  match op with
  | CreateKey plainKey _ _ _ => extractKeyId plainKey = id
  | _ => False
  end.
End AuthService.

(** A stand-in for the digest in the examples: the length of the key. *)
Definition key_length (key : string) : N := N.of_nat (String.length key).

(** The completion timers [l] firing one after another, each after some
    time has passed. *)
Definition drain_events (l : list (N * (N * N))) : list Event :=
  flat_map (fun x => [Tick (fst x); CompletionTimeout (fst (snd x)) (snd (snd x))])
           l.

(** ** utils: token estimation

    A string is the list of its code units; [slice] and [length] count
    those. *)
Module Tokenizer.
Section Text.
Context {A : Type}.

(** [estimateTokens(text)]: [Math.ceil(text.length / 4)] *)
Definition estimateTokens (text : list A) : Z :=
  Qceiling (inject_Z (Z.of_nat (List.length text)) / 4).

(** [generateCompletionTokens(maxTokens, content)] *)
Definition generateCompletionTokens (maxTokens : Z) (content : list A) : Z :=
  Z.min (estimateTokens content) maxTokens.

(** The [for] loop of [generateTokenStream] from index [i], with the
    chunks it yields; [content.slice(i, i + charsPerToken)] stops at the
    end of the string. *)
Fixpoint stream_loop (fuel : nat) (content : list A) (charsPerToken : nat)
    (i : nat) : list (list A) :=
  match fuel with
  | O => []
  | S fuel' =>
      if Nat.ltb i (List.length content) then
        firstn charsPerToken (skipn i content)
        :: stream_loop fuel' content charsPerToken (i + charsPerToken)
      else []
  end.

(** [generateTokenStream(content, tokensPerSecond)]: the chunks yielded.
    The delay per token is computed and not used.  On the empty string
    [charsPerToken] is [NaN] in the source and the loop body never runs;
    here the loop has no fuel then. *)
Definition charsPerToken (content : list A) : Z :=
  Qceiling (inject_Z (Z.of_nat (List.length content))
            / inject_Z (estimateTokens content)).

Definition generateTokenStream (content : list A) : list (list A) :=
  stream_loop (List.length content) content
    (Z.to_nat (charsPerToken content)) 0.
End Text.
End Tokenizer.

(** ** utils/apiKey.ts *)

Definition API_KEY_PREFIX : string := "sk-gpu-".

Definition hex_digit (n : N) : ascii :=
  match n with
  | 0%N => "0" | 1%N => "1" | 2%N => "2" | 3%N => "3" | 4%N => "4"
  | 5%N => "5" | 6%N => "6" | 7%N => "7" | 8%N => "8" | 9%N => "9"
  | 10%N => "a" | 11%N => "b" | 12%N => "c" | 13%N => "d" | 14%N => "e"
  | _ => "f"
  end%char.

(** [buffer.toString('hex')]: two digits for each byte. *)
Fixpoint toString_hex (bytes : list N) : string :=
  match bytes with
  | [] => EmptyString
  | b :: bytes' =>
      String (hex_digit (b / 16)) (String (hex_digit (b mod 16))
                                          (toString_hex bytes'))
  end.

(** [generateApiKey()], with the bytes that [crypto.randomBytes(32)]
    gives. *)
Definition generateApiKey (randomBytes : list N) : string :=
  (API_KEY_PREFIX ++ toString_hex randomBytes)%string.

(** [isValidApiKeyFormat(key)] *)
Definition isValidApiKeyFormat (key : string) : bool :=
  String.prefix API_KEY_PREFIX key
  && Nat.ltb (String.length API_KEY_PREFIX + 10) (String.length key).

(** ** services/inference.ts: the usage of a streamed completion

    What the loop of [createChatCompletionStream] reads from one parsed
    line: whether [choice.delta.content] is truthy, and the [usage] object
    if there is one, each field a number or absent. *)
Record StreamLine := {
  has_content : bool;
  line_usage : option (option Q * option Q * option Q)
}.




(** A line with content and no usage; a line with usage only. *)
Definition content_line : StreamLine :=
  {| has_content := true; line_usage := None |}.


(** * Properties *)

(** ** Facts about the insertion-ordered map *)

Section JsMapFacts.
Context {V : Type}.
Implicit Types (m : list (N * V)) (k : N) (v : V).

Lemma get_In k m v : JsMap.get k m = Some v -> In (k, v) m.
Proof.
  induction m as [|[k' v'] m IH]; simpl; [discriminate|].
  destruct (N.eqb_spec k k') as [->|_]; intros H.
  - injection H as ->. now left.
  - right. now apply IH.
Qed.

Lemma get_In_values k m v : JsMap.get k m = Some v -> In v (JsMap.values m).
Proof.
  intros H. apply get_In in H. unfold JsMap.values.
  now apply (in_map snd) in H.
Qed.

Lemma get_None_keys k m : JsMap.get k m = None <-> ~ In k (JsMap.keys m).
Proof.
  induction m as [|[k' v'] m IH]; simpl.
  - tauto.
  - destruct (N.eqb_spec k k') as [->|Hne].
    + split; [discriminate | intros H; exfalso; apply H; now left].
    + rewrite IH. split; [intros H [E|I]; [congruence | tauto] | tauto].
Qed.

Lemma In_set k v m x : In x (JsMap.set k v m) -> x = (k, v) \/ In x m.
Proof.
  induction m as [|[k' v'] m IH]; simpl.
  - intros [<-|[]]. now left.
  - destruct (N.eqb k k'); simpl; intros [<-|H]; auto.
    destruct (IH H); auto.
Qed.

Lemma Forall_values_set (P : V -> Prop) k v m :
  Forall P (JsMap.values m) -> P v -> Forall P (JsMap.values (JsMap.set k v m)).
Proof.
  intros Hm Hv. induction m as [|[k' v'] m IH]; simpl.
  - constructor; [assumption | constructor].
  - inversion Hm; subst. destruct (N.eqb k k'); simpl; constructor; auto.
Qed.

Lemma Forall_values_delete (P : V -> Prop) k m :
  Forall P (JsMap.values m) -> Forall P (JsMap.values (JsMap.delete k m)).
Proof.
  intros Hm. induction m as [|[k' v'] m IH]; simpl; [constructor|].
  inversion Hm; subst. destruct (N.eqb k k'); simpl; auto.
Qed.

Lemma get_set_same k v m : JsMap.get k (JsMap.set k v m) = Some v.
Proof.
  induction m as [|[k' v'] m IH]; simpl.
  - now rewrite N.eqb_refl.
  - destruct (N.eqb k k') eqn:E; simpl; [now rewrite N.eqb_refl|].
    now rewrite E.
Qed.

Lemma get_set_other k k' v m :
  k' <> k -> JsMap.get k' (JsMap.set k v m) = JsMap.get k' m.
Proof.
  intros Hne. induction m as [|[k0 v0] m IH]; simpl.
  - destruct (N.eqb_spec k' k); congruence.
  - destruct (N.eqb_spec k k0) as [->|Hk]; simpl.
    + destruct (N.eqb_spec k' k0); congruence.
    + destruct (N.eqb k' k0); auto.
Qed.

Lemma get_delete_other k k' m :
  k' <> k -> JsMap.get k' (JsMap.delete k m) = JsMap.get k' m.
Proof.
  intros Hne. induction m as [|[k0 v0] m IH]; simpl; [reflexivity|].
  destruct (N.eqb_spec k k0) as [->|Hk]; simpl.
  - destruct (N.eqb_spec k' k0); congruence.
  - destruct (N.eqb k' k0); auto.
Qed.

Lemma keys_set_present k v v0 m :
  JsMap.get k m = Some v0 -> JsMap.keys (JsMap.set k v m) = JsMap.keys m.
Proof.
  induction m as [|[k' v'] m IH]; simpl; [discriminate|].
  destruct (N.eqb_spec k k') as [->|Hk]; simpl; [reflexivity|].
  intros H. now rewrite IH.
Qed.

Lemma set_absent k v m :
  JsMap.get k m = None -> JsMap.set k v m = m ++ [(k, v)].
Proof.
  induction m as [|[k' v'] m IH]; simpl; [reflexivity|].
  destruct (N.eqb k k'); [discriminate|].
  intros H. now rewrite IH.
Qed.

Lemma keys_delete_incl k m x :
  In x (JsMap.keys (JsMap.delete k m)) -> In x (JsMap.keys m).
Proof.
  induction m as [|[k' v'] m IH]; simpl; [tauto|].
  destruct (N.eqb k k'); simpl; tauto.
Qed.

Lemma NoDup_keys_set k v m :
  NoDup (JsMap.keys m) -> NoDup (JsMap.keys (JsMap.set k v m)).
Proof.
  intros Hm. destruct (JsMap.get k m) as [v0|] eqn:E.
  - now rewrite (keys_set_present k v v0 m E).
  - rewrite (set_absent k v m E). unfold JsMap.keys. rewrite map_app. simpl.
    apply get_None_keys in E.
    apply NoDup_app; [assumption | repeat constructor; simpl; tauto |].
    intros x Hx [<-|[]]. contradiction.
Qed.

Lemma NoDup_keys_delete k m :
  NoDup (JsMap.keys m) -> NoDup (JsMap.keys (JsMap.delete k m)).
Proof.
  induction m as [|[k' v'] m IH]; simpl; [auto|].
  intros Hm. inversion Hm; subst.
  destruct (N.eqb k k'); simpl; [assumption|].
  constructor; [|auto].
  intros H. apply keys_delete_incl in H. contradiction.
Qed.

Lemma get_delete_same k m :
  NoDup (JsMap.keys m) -> JsMap.get k (JsMap.delete k m) = None.
Proof.
  induction m as [|[k' v'] m IH]; simpl; [reflexivity|].
  intros Hm. inversion Hm; subst.
  destruct (N.eqb_spec k k') as [->|Hk]; simpl.
  - now apply get_None_keys.
  - destruct (N.eqb_spec k k'); [contradiction | auto].
Qed.

Lemma has_get k m :
  JsMap.has k m = true <-> exists v, JsMap.get k m = Some v.
Proof.
  unfold JsMap.has. destruct (JsMap.get k m) as [v|].
  - split; [eauto | reflexivity].
  - split; [discriminate | intros [v H]; discriminate].
Qed.
End JsMapFacts.

(** Facts of a scenario are settled by running the model. *)
Ltac scenario :=
  repeat match goal with |- _ /\ _ => split end;
  vm_compute;
  first [ reflexivity
        | let H := fresh in intros H; discriminate H ].

(** ** Induction over the events *)

Lemma run_invariant (P : State -> Prop) :
  (forall e s s', P s -> step e s = Some s' -> P s') ->
  forall es s s', P s -> run es s = Some s' -> P s'.
Proof.
  intros Hstep es. induction es as [|e es IH]; simpl; intros s s' Hs Hrun.
  - now injection Hrun as <-.
  - destruct (step e s) as [s1|] eqn:E; [|discriminate].
    eapply IH; [|eassumption]. eapply Hstep; eassumption.
Qed.

Lemma reachable_invariant (P : State -> Prop) :
  P init ->
  (forall e s s', P s -> step e s = Some s' -> P s') ->
  forall s, reachable s -> P s.
Proof.
  intros Hinit Hstep s [es Hrun]. eapply run_invariant; eassumption.
Qed.

Lemma run_app es1 es2 s :
  run (es1 ++ es2) s =
  match run es1 s with Some s1 => run es2 s1 | None => None end.
Proof.
  revert s. induction es1 as [|e es1 IH]; simpl; intros s; [reflexivity|].
  destruct (step e s); auto.
Qed.

Lemma reachable_run es s s' : reachable s -> run es s = Some s' -> reachable s'.
Proof.
  intros [es0 H0] H. exists (es0 ++ es). now rewrite run_app, H0.
Qed.

(** Runs the events [es] from [init] and hands the state reached, with the
    proof that it is reachable, to the continuation. *)
Ltac reach_by es k :=
  let r := eval vm_compute in (run es init) in
  lazymatch r with
  | Some ?s =>
      let Hr := fresh "Hr" in
      assert (Hr : reachable s) by (exists es; vm_compute; reflexivity);
      k s Hr
  end.

(** ** What the operations leave alone *)

Lemma same_registry_refl s : same_registry s s.
Proof. unfold same_registry. tauto. Qed.

Lemma same_registry_trans s1 s2 s3 :
  same_registry s1 s2 -> same_registry s2 s3 -> same_registry s1 s3.
Proof.
  unfold same_registry.
  intros (a1 & a2 & a3 & a4 & a5 & a6) (b1 & b2 & b3 & b4 & b5 & b6).
  repeat split; congruence.
Qed.

Lemma updateTask_registry id u s : same_registry s (Store.updateTask id u s).
Proof.
  unfold Store.updateTask. destruct (JsMap.get id (tasks s));
    unfold same_registry; simpl; tauto.
Qed.

Lemma updateWorker_registry id u s : same_registry s (Store.updateWorker id u s).
Proof.
  unfold Store.updateWorker. destruct (JsMap.get id (workers s));
    unfold same_registry; simpl; tauto.
Qed.

Lemma updateTask_workers id u s : workers (Store.updateTask id u s) = workers s.
Proof. unfold Store.updateTask. now destruct (JsMap.get id (tasks s)). Qed.

Lemma updateWorker_tasks id u s : tasks (Store.updateWorker id u s) = tasks s.
Proof. unfold Store.updateWorker. now destruct (JsMap.get id (workers s)). Qed.

Lemma updateTask_pass id u s :
  suspended (Store.updateTask id u s) = suspended s
  /\ processing (Store.updateTask id u s) = processing s
  /\ completionTimers (Store.updateTask id u s) = completionTimers s.
Proof. unfold Store.updateTask. now destruct (JsMap.get id (tasks s)). Qed.

Lemma updateWorker_pass id u s :
  suspended (Store.updateWorker id u s) = suspended s
  /\ processing (Store.updateWorker id u s) = processing s
  /\ completionTimers (Store.updateWorker id u s) = completionTimers s.
Proof. unfold Store.updateWorker. now destruct (JsMap.get id (workers s)). Qed.

Lemma assignTaskToWorker_registry task worker s :
  same_registry s (TaskQueue.assignTaskToWorker task worker s).
Proof.
  unfold TaskQueue.assignTaskToWorker, TaskQueue.simulateTaskProcessing.
  eapply same_registry_trans; [apply updateTask_registry|].
  eapply same_registry_trans; [apply updateWorker_registry|].
  eapply same_registry_trans; [apply updateTask_registry|].
  unfold same_registry; simpl; tauto.
Qed.

Lemma processQueue_loop_registry pendingTasks :
  forall availableWorkers s,
    same_registry s (TaskQueue.processQueue_loop pendingTasks availableWorkers s).
Proof.
  induction pendingTasks as [|task rest IH]; intros pool s; simpl.
  - unfold same_registry; simpl; tauto.
  - destruct pool as [|w pool]; [unfold same_registry; simpl; tauto|].
    destruct (TaskQueue.selectBestWorker (w :: pool) task) as [sorted [worker|]].
    + eapply same_registry_trans; [apply assignTaskToWorker_registry|].
      unfold same_registry; simpl; tauto.
    + apply IH.
Qed.

Lemma processQueue_registry s : same_registry s (TaskQueue.processQueue s).
Proof.
  unfold TaskQueue.processQueue. destruct (processing s).
  - apply same_registry_refl.
  - eapply same_registry_trans; [|apply processQueue_loop_registry].
    unfold same_registry; simpl; tauto.
Qed.

Lemma heartbeat_registry draws s : same_registry s (WorkerManager.heartbeat draws s).
Proof.
  unfold WorkerManager.heartbeat.
  generalize (combine (WorkerManager.getAllWorkers s) draws) as l.
  intros l. revert s. induction l as [|[w d] l IH]; intros s; simpl.
  - apply same_registry_refl.
  - eapply same_registry_trans; [|apply IH].
    unfold WorkerManager.heartbeat_worker. destruct d as [[a b] c].
    apply updateWorker_registry.
Qed.

(** Peels the store updates off the state on the right. *)
Ltac peel_registry :=
  repeat (eapply same_registry_trans;
          [| first [apply updateWorker_registry | apply updateTask_registry]]);
  apply same_registry_refl.

(** ** The waiter registry *)

Lemma resolveTask_unique id v s :
  unique_waiters s -> unique_waiters (TaskQueue.resolveTask id v s).
Proof.
  unfold unique_waiters, TaskQueue.resolveTask.
  destruct (JsMap.get id (taskCallbacks s)); simpl; [|auto].
  apply NoDup_keys_delete.
Qed.

Lemma rejectTask_unique id e s :
  unique_waiters s -> unique_waiters (TaskQueue.rejectTask id e s).
Proof.
  unfold unique_waiters, TaskQueue.rejectTask.
  destruct (JsMap.get id (taskCallbacks s)); simpl; [|auto].
  apply NoDup_keys_delete.
Qed.

Lemma unique_waiters_registry s s' :
  same_registry s s' -> unique_waiters s -> unique_waiters s'.
Proof. unfold unique_waiters. intros (E & _) H. now rewrite E. Qed.

Lemma step_unique_waiters e s s' :
  unique_waiters s -> step e s = Some s' -> unique_waiters s'.
Proof.
  intros Hs. destruct e; simpl.
  - intros H; injection H as <-. exact Hs.
  - destruct (_ && _); [|discriminate].
    unfold WorkerManager.addWorker, WorkerManager.createWorker.
    destruct (nth_error _ _); simpl; [|discriminate].
    intros H; injection H as <-. exact Hs.
  - intros H; injection H as <-. exact Hs.
  - destruct (_ && _); [|discriminate].
    intros H; injection H as <-.
    eapply unique_waiters_registry; [apply heartbeat_registry | exact Hs].
  - intros H; injection H as <-. unfold TaskQueue.enqueue. simpl.
    eapply unique_waiters_registry; [apply processQueue_registry | exact Hs].
  - destruct (suspended s) as [f|]; [|discriminate].
    intros H; injection H as <-. unfold TaskQueue.processQueue_resume.
    eapply unique_waiters_registry; [apply processQueue_loop_registry | exact Hs].
  - intros H; injection H as <-. unfold TaskQueue.waitForCompletion. simpl.
    unfold Store.getTask. simpl. destruct (JsMap.get taskId (tasks s)) as [t|];
      [destruct (Task.status t)|]; simpl; try exact Hs;
      unfold unique_waiters; simpl; now apply NoDup_keys_set.
  - destruct (_ && _); [|discriminate].
    intros H; injection H as <-. unfold TaskQueue.waitForCompletion_timeout.
    simpl. destruct (JsMap.has taskId (taskCallbacks s)); simpl; [|exact Hs].
    unfold unique_waiters; simpl. now apply NoDup_keys_delete.
  - destruct (_ && _); [|discriminate].
    intros H; injection H as <-.
    unfold TaskQueue.simulateTaskProcessing_timeout.
    apply resolveTask_unique.
    match goal with
    | |- unique_waiters (match ?x with _ => _ end) => destruct x
    end;
      repeat (eapply unique_waiters_registry;
              [first [apply updateWorker_registry | apply updateTask_registry]|]);
      exact Hs.
  - intros H; injection H as <-. now apply resolveTask_unique.
  - intros H; injection H as <-. now apply rejectTask_unique.
Qed.

Lemma reachable_unique_waiters s : reachable s -> unique_waiters s.
Proof.
  apply reachable_invariant.
  - constructor.
  - intros e s1 s2. apply step_unique_waiters.
Qed.

Lemma rejectTask_store id e s :
  tasks (TaskQueue.rejectTask id e s) = tasks s
  /\ workers (TaskQueue.rejectTask id e s) = workers s
  /\ completionTimers (TaskQueue.rejectTask id e s) = completionTimers s
  /\ suspended (TaskQueue.rejectTask id e s) = suspended s
  /\ processing (TaskQueue.rejectTask id e s) = processing s.
Proof.
  unfold TaskQueue.rejectTask.
  destruct (JsMap.get id (taskCallbacks s)); simpl; tauto.
Qed.

Lemma resolveTask_absent id v s :
  JsMap.get id (taskCallbacks s) = None -> TaskQueue.resolveTask id v s = s.
Proof. unfold TaskQueue.resolveTask. now intros ->. Qed.

Lemma rejectTask_absent id e s :
  JsMap.get id (taskCallbacks s) = None -> TaskQueue.rejectTask id e s = s.
Proof. unfold TaskQueue.rejectTask. now intros ->. Qed.

(** C9. On a reachable state, for every task identifier: when a waiter [p]
    is registered, [resolveTask] (and likewise [rejectTask]) calls the
    continuation of [p] exactly once (one call is appended to the log),
    removes the entry and changes neither tasks nor workers; when none is
    registered both return the state unchanged; and after a first
    [resolveTask] or [rejectTask] any second one on the same identifier
    returns the state unchanged. *)
Theorem C9_resolve_reject_exactly_once (s : State) (taskId : N)
    (result : JsValue) (error : string) :
  reachable s ->
  let s1 := TaskQueue.resolveTask taskId result s in
  let s2 := TaskQueue.rejectTask taskId error s in
  (forall p, JsMap.get taskId (taskCallbacks s) = Some p ->
     calls s1 = calls s ++ [(p, Fulfilled result)]
     /\ call_count p s1 = S (call_count p s)
     /\ calls s2 = calls s ++ [(p, Rejected error)]
     /\ call_count p s2 = S (call_count p s)
     /\ taskCallbacks s1 = JsMap.delete taskId (taskCallbacks s)
     /\ taskCallbacks s2 = JsMap.delete taskId (taskCallbacks s)
     /\ JsMap.get taskId (taskCallbacks s1) = None
     /\ JsMap.get taskId (taskCallbacks s2) = None
     /\ tasks s1 = tasks s /\ workers s1 = workers s
     /\ tasks s2 = tasks s /\ workers s2 = workers s)
  /\ (JsMap.get taskId (taskCallbacks s) = None -> s1 = s /\ s2 = s)
  /\ (forall result' error',
        TaskQueue.resolveTask taskId result' s1 = s1
        /\ TaskQueue.rejectTask taskId error' s1 = s1
        /\ TaskQueue.resolveTask taskId result' s2 = s2
        /\ TaskQueue.rejectTask taskId error' s2 = s2).
Proof.
  intros Hr s1 s2.
  pose proof (reachable_unique_waiters s Hr) as Hu.
  assert (Hcount : forall p o,
            call_count p (call p o s) = S (call_count p s)).
  { intros p o. unfold call_count, call. simpl.
    rewrite filter_app, length_app. simpl. rewrite N.eqb_refl. simpl. lia. }
  assert (Hgone1 : JsMap.get taskId (taskCallbacks s1) = None).
  { subst s1. unfold TaskQueue.resolveTask.
    destruct (JsMap.get taskId (taskCallbacks s)) eqn:E; simpl;
      [now apply get_delete_same | exact E]. }
  assert (Hgone2 : JsMap.get taskId (taskCallbacks s2) = None).
  { subst s2. unfold TaskQueue.rejectTask.
    destruct (JsMap.get taskId (taskCallbacks s)) eqn:E; simpl;
      [now apply get_delete_same | exact E]. }
  split; [|split].
  - intros p Hp. subst s1 s2. unfold TaskQueue.resolveTask, TaskQueue.rejectTask in *.
    rewrite Hp in *. simpl in *.
    repeat split; auto; apply Hcount.
  - intros Hn. subst s1 s2.
    now rewrite resolveTask_absent, rejectTask_absent.
  - intros r' e'.
    repeat split; first [now apply resolveTask_absent | now apply rejectTask_absent].
Qed.

(** Witness for C9: the waiter of the task in flight is resolved. *)
Lemma C9_witness :
  exists s, run (one_in_flight ++ [WaitForCompletion 1]) init = Some s
    /\ JsMap.get 1%N (taskCallbacks s) = Some 0%N
    /\ calls (TaskQueue.resolveTask 1 (VSuccess None) s)
       = calls s ++ [(0%N, Fulfilled (VSuccess None))]
    /\ TaskQueue.rejectTask 1 "late"
         (TaskQueue.resolveTask 1 (VSuccess None) s)
       = TaskQueue.resolveTask 1 (VSuccess None) s.
Proof.
  eexists. split; [vm_compute; reflexivity|].
  assert (Hr : reachable
                 ltac:(let x := eval vm_compute in
                         (run (one_in_flight ++ [WaitForCompletion 1]) init) in
                       match x with Some ?s => exact s end)).
  { exists (one_in_flight ++ [WaitForCompletion 1]). vm_compute. reflexivity. }
  pose proof (C9_resolve_reject_exactly_once _ 1%N (VSuccess None) "late"%string Hr)
    as (Hp & _ & Hsecond).
  split; [reflexivity|].
  split.
  - exact (proj1 (Hp 0%N eq_refl)).
  - exact (proj1 (proj2 (Hsecond (VSuccess None) "late"%string))).
Defined.

(** C4, the claim as stated fails.  A task is in flight on the only
    worker and a waiter is registered; the inference service reports the
    failure of its upstream call through [rejectTask].  The waiter is
    rejected, but the task is still 'processing' (not 'failed'), no error
    is recorded on it and the load of the worker is still 1. *)
Lemma C4_counterexample :
  exists s s',
    run (one_in_flight ++ [WaitForCompletion 1]) init = Some s
    /\ status_of 1 s = Some Task.processing
    /\ assignedWorker_of 1 s = Some (Some 0%N)
    /\ load_of 0 s = Some 1
    /\ step (RejectTask 1 "NVIDIA API error") s = Some s'
    /\ promise_state 0 s' = Some (Rejected "NVIDIA API error")
    /\ status_of 1 s' = Some Task.processing
    /\ status_of 1 s' <> Some Task.failed
    /\ option_map Task.error (Store.getTask 1 s') = Some None
    /\ load_of 0 s' = Some 1.
Proof.
  eexists. eexists. scenario.
Qed.

(** C4, amended.  [rejectTask] changes no task record and no worker (so
    neither a status nor an error nor a load), arms and disarms no timer
    and touches no scheduling pass: it only calls the [reject] continuation
    of the waiter registered for the task, if any, with the message, and
    removes that entry; without a waiter it returns the state unchanged. *)
Theorem C4_rejectTask_only_rejects_waiter (s : State) (taskId : N)
    (error : string) :
  let s' := TaskQueue.rejectTask taskId error s in
  tasks s' = tasks s
  /\ workers s' = workers s
  /\ completionTimers s' = completionTimers s
  /\ waitTimers s' = waitTimers s
  /\ suspended s' = suspended s
  /\ processing s' = processing s
  /\ match JsMap.get taskId (taskCallbacks s) with
     | Some p =>
         calls s' = calls s ++ [(p, Rejected error)]
         /\ taskCallbacks s' = JsMap.delete taskId (taskCallbacks s)
     | None => s' = s
     end.
Proof.
  unfold TaskQueue.rejectTask.
  destruct (JsMap.get taskId (taskCallbacks s)) as [p|]; simpl; tauto.
Qed.

(** ** Completion and the waiter time-out *)

Lemma resolveTask_store id v s :
  tasks (TaskQueue.resolveTask id v s) = tasks s
  /\ workers (TaskQueue.resolveTask id v s) = workers s
  /\ completionTimers (TaskQueue.resolveTask id v s) = completionTimers s
  /\ suspended (TaskQueue.resolveTask id v s) = suspended s
  /\ processing (TaskQueue.resolveTask id v s) = processing s.
Proof.
  unfold TaskQueue.resolveTask.
  destruct (JsMap.get id (taskCallbacks s)); simpl; tauto.
Qed.

Lemma updateTask_get id u s task :
  Store.getTask id s = Some task ->
  Store.getTask id (Store.updateTask id u s) = Some (Task.spread task u).
Proof.
  unfold Store.getTask, Store.updateTask. intros ->. simpl.
  apply get_set_same.
Qed.

Lemma updateTask_get_other id id' u s :
  id' <> id ->
  Store.getTask id' (Store.updateTask id u s) = Store.getTask id' s.
Proof.
  unfold Store.getTask, Store.updateTask. intros Hne.
  destruct (JsMap.get id (tasks s)); simpl; [|reflexivity].
  now apply get_set_other.
Qed.

(** The tasks after the completion callback are those after its
    [updateTask]. *)
Lemma completion_tasks taskId workerId s :
  exists u,
    Task.p_status u = Some Task.completed
    /\ Task.p_completedAt u = Some (clock s)
    /\ Task.p_result u = None /\ Task.p_error u = None
    /\ Task.p_assignedWorker u = None /\ Task.p_priority u = None
    /\ Task.p_createdAt u = None /\ Task.p_startedAt u = None
    /\ Task.p_id u = None
    /\ tasks (TaskQueue.simulateTaskProcessing_timeout taskId workerId s)
       = tasks (Store.updateTask taskId u s).
Proof.
  exists {| Task.p_id := None; Task.p_type := None; Task.p_payload := None;
            Task.p_apiKeyId := None; Task.p_priority := None;
            Task.p_status := Some Task.completed;
            Task.p_assignedWorker := None; Task.p_result := None;
            Task.p_error := None; Task.p_createdAt := None;
            Task.p_startedAt := None;
            Task.p_completedAt := Some (clock s) |}.
  unfold TaskQueue.simulateTaskProcessing_timeout.
  repeat (split; [reflexivity|]).
  match goal with
  | |- tasks (TaskQueue.resolveTask _ _ ?x) = _ =>
      rewrite (proj1 (resolveTask_store taskId (VSuccess (Some workerId)) x))
  end.
  match goal with
  | |- tasks (match ?x with _ => _ end) = _ => destruct x
  end; [rewrite updateWorker_tasks|]; reflexivity.
Qed.

Lemma completion_effect taskId workerId s task :
  Store.getTask taskId s = Some task ->
  exists task',
    Store.getTask taskId
      (TaskQueue.simulateTaskProcessing_timeout taskId workerId s) = Some task'
    /\ Task.status task' = Task.completed
    /\ Task.completedAt task' = Some (clock s)
    /\ Task.result task' = Task.result task
    /\ Task.error task' = Task.error task
    /\ Task.assignedWorker task' = Task.assignedWorker task.
Proof.
  intros Ht.
  destruct (completion_tasks taskId workerId s)
    as (u & Hs & Hc & Hr & He & Ha & _ & _ & _ & _ & Htasks).
  exists (Task.spread task u).
  unfold Store.getTask. rewrite Htasks.
  split; [exact (updateTask_get taskId u s task Ht)|].
  unfold Task.spread; simpl. rewrite Hs, Hc, Hr, He, Ha. simpl. tauto.
Qed.

Lemma completion_other_tasks taskId workerId s id :
  id <> taskId ->
  Store.getTask id (TaskQueue.simulateTaskProcessing_timeout taskId workerId s)
  = Store.getTask id s.
Proof.
  intros Hne.
  destruct (completion_tasks taskId workerId s) as (u & _ & _ & _ & _ & _ & _ & _ & _ & _ & Htasks).
  unfold Store.getTask at 1. rewrite Htasks.
  exact (updateTask_get_other taskId id u s Hne).
Qed.

(** Without a waiter for the task, the completion callback calls no
    continuation. *)
Lemma completion_calls_absent taskId workerId s :
  JsMap.get taskId (taskCallbacks s) = None ->
  calls (TaskQueue.simulateTaskProcessing_timeout taskId workerId s) = calls s.
Proof.
  intros Hn. unfold TaskQueue.simulateTaskProcessing_timeout.
  match goal with
  | |- calls (TaskQueue.resolveTask _ _ ?x) = _ =>
      assert (Hreg : same_registry s x)
  end.
  { match goal with
    | |- same_registry _ (match ?x with _ => _ end) => destruct x
    end; peel_registry. }
  destruct Hreg as (Hcb & Hcalls & _).
  rewrite resolveTask_absent; [exact Hcalls | now rewrite Hcb].
Qed.

(** With a waiter [p] for the task, the completion callback calls its
    [resolve] with the success payload and removes the entry. *)
Lemma completion_calls_present taskId workerId s p :
  JsMap.get taskId (taskCallbacks s) = Some p ->
  calls (TaskQueue.simulateTaskProcessing_timeout taskId workerId s)
  = calls s ++ [(p, Fulfilled (VSuccess (Some workerId)))]
  /\ taskCallbacks (TaskQueue.simulateTaskProcessing_timeout taskId workerId s)
     = JsMap.delete taskId (taskCallbacks s).
Proof.
  intros Hp. unfold TaskQueue.simulateTaskProcessing_timeout.
  match goal with
  | |- calls (TaskQueue.resolveTask _ _ ?x) = _ /\ _ =>
      assert (Hreg : same_registry s x)
  end.
  { match goal with
    | |- same_registry _ (match ?x with _ => _ end) => destruct x
    end; peel_registry. }
  destruct Hreg as (Hcb & Hcalls & _).
  unfold TaskQueue.resolveTask. rewrite Hcb, Hp. simpl.
  now rewrite Hcb, Hcalls.
Qed.

(** The log of continuation calls only grows. *)
Lemma step_calls_grow e s s' :
  step e s = Some s' -> exists l, calls s' = calls s ++ l.
Proof.
  destruct e; simpl.
  - intros H; injection H as <-. exists []. simpl. now rewrite app_nil_r.
  - destruct (_ && _); [|discriminate].
    unfold WorkerManager.addWorker, WorkerManager.createWorker.
    destruct (nth_error _ _); simpl; [|discriminate].
    intros H; injection H as <-. exists []. simpl. now rewrite app_nil_r.
  - intros H; injection H as <-. exists []. simpl. now rewrite app_nil_r.
  - destruct (_ && _); [|discriminate].
    intros H; injection H as <-. exists []. rewrite app_nil_r.
    apply (heartbeat_registry draws s).
  - intros H; injection H as <-. exists []. rewrite app_nil_r.
    unfold TaskQueue.enqueue. simpl.
    match goal with
    | |- calls (TaskQueue.processQueue ?x) = _ =>
        exact (proj1 (proj2 (processQueue_registry x)))
    end.
  - destruct (suspended s) as [f|]; [|discriminate].
    intros H; injection H as <-. exists []. rewrite app_nil_r.
    unfold TaskQueue.processQueue_resume.
    match goal with
    | |- calls (TaskQueue.processQueue_loop ?a ?b ?x) = _ =>
        exact (proj1 (proj2 (processQueue_loop_registry a b x)))
    end.
  - intros H; injection H as <-. unfold TaskQueue.waitForCompletion. simpl.
    unfold Store.getTask. simpl. destruct (JsMap.get taskId (tasks s)) as [t|];
      [destruct (Task.status t)|]; simpl;
      first [ now eexists [_] | exists []; now rewrite app_nil_r ].
  - destruct (_ && _); [|discriminate].
    intros H; injection H as <-. unfold TaskQueue.waitForCompletion_timeout.
    simpl. destruct (JsMap.has taskId (taskCallbacks s)); simpl;
      first [ now eexists [_] | exists []; now rewrite app_nil_r ].
  - destruct (_ && _); [|discriminate].
    intros H; injection H as <-.
    match goal with
    | |- context [TaskQueue.simulateTaskProcessing_timeout _ _ ?x] =>
        change (calls s) with (calls x);
        destruct (JsMap.get taskId (taskCallbacks x)) as [p|] eqn:E
    end.
    + eexists [_]. eapply completion_calls_present. exact E.
    + exists []. rewrite app_nil_r. now apply completion_calls_absent.
  - intros H; injection H as <-. unfold TaskQueue.resolveTask.
    destruct (JsMap.get taskId (taskCallbacks s)); simpl;
      first [ now eexists [_] | exists []; now rewrite app_nil_r ].
  - intros H; injection H as <-. unfold TaskQueue.rejectTask.
    destruct (JsMap.get taskId (taskCallbacks s)); simpl;
      first [ now eexists [_] | exists []; now rewrite app_nil_r ].
Qed.

Lemma run_calls_grow es s s' :
  run es s = Some s' -> exists l, calls s' = calls s ++ l.
Proof.
  revert s. induction es as [|e es IH]; simpl; intros s H.
  - injection H as <-. exists []. now rewrite app_nil_r.
  - destruct (step e s) as [s1|] eqn:E; [|discriminate].
    destruct (step_calls_grow _ _ _ E) as [l1 H1].
    destruct (IH _ H) as [l2 H2].
    exists (l1 ++ l2). now rewrite H2, H1, app_assoc.
Qed.

Lemma get_app_settled {V : Type} (k : N) (m l : list (N * V)) (v : V) :
  JsMap.get k m = Some v -> JsMap.get k (m ++ l) = Some v.
Proof.
  induction m as [|[k' v'] m IH]; simpl; [discriminate|].
  destruct (N.eqb k k'); auto.
Qed.

Lemma get_app_unsettled {V : Type} (k : N) (m l : list (N * V)) :
  JsMap.get k m = None -> JsMap.get k (m ++ l) = JsMap.get k l.
Proof.
  induction m as [|[k' v'] m IH]; simpl; [reflexivity|].
  destruct (N.eqb k k'); [discriminate | auto].
Qed.

(** A settled promise stays as it is. *)
Lemma settled_forever es s s' p o :
  promise_state p s = Some o -> run es s = Some s' -> promise_state p s' = Some o.
Proof.
  unfold promise_state. intros Hp Hrun.
  destruct (run_calls_grow _ _ _ Hrun) as [l ->].
  now apply get_app_settled.
Qed.

(** C8, the claim as stated fails in its last part.  A task waits for a
    worker, its waiter times out, then a worker arrives and the task is
    assigned and completes: the promise was rejected with the time-out
    error and stays so, the task record was not touched by the time-out and
    becomes 'completed' later; but no result is retained: the [result]
    field of the completed task is unset and the only continuation call
    ever made is the rejection. *)
Lemma C8_counterexample :
  exists s1 s2 s3,
    run waiting_in_vain init = Some s1
    /\ step (WaitTimeout 0 0) s1 = Some s2
    /\ tasks s2 = tasks s1
    /\ status_of 0 s2 = Some Task.pending
    /\ promise_state 0 s2 = Some (Rejected "Task timeout")
    /\ run late_completion s2 = Some s3
    /\ status_of 0 s3 = Some Task.completed
    /\ option_map Task.result (Store.getTask 0 s3) = Some None
    /\ calls s3 = [(0%N, Rejected "Task timeout")].
Proof.
  eexists. eexists. eexists. scenario.
Qed.

(** C8, amended.  When the timer of a waiter fires while an entry for the
    task is registered and the promise is unsettled, the entry is removed
    and the promise is rejected with 'Task timeout', for good; the tasks,
    the workers and the completion timers are left exactly as they were.
    The task may still complete later: with no waiter registered the
    completion callback sets the status 'completed' and calls no
    continuation, so the success payload reaches nobody, and it stores
    nothing in the [result] field, which keeps its former content. *)
Theorem C8_timeout_touches_only_the_waiter (s : State) (taskId p : N) :
  JsMap.has taskId (taskCallbacks s) = true ->
  promise_state p s = None ->
  let s' := TaskQueue.waitForCompletion_timeout taskId p s in
  tasks s' = tasks s
  /\ workers s' = workers s
  /\ completionTimers s' = completionTimers s
  /\ taskCallbacks s' = JsMap.delete taskId (taskCallbacks s)
  /\ calls s' = calls s ++ [(p, Rejected "Task timeout")]
  /\ promise_state p s' = Some (Rejected "Task timeout")
  /\ (forall es s'', run es s' = Some s'' ->
        promise_state p s'' = Some (Rejected "Task timeout"))
  /\ (forall s'' workerId task,
        JsMap.get taskId (taskCallbacks s'') = None ->
        Store.getTask taskId s'' = Some task ->
        let s3 := TaskQueue.simulateTaskProcessing_timeout taskId workerId s'' in
        calls s3 = calls s''
        /\ exists task',
             Store.getTask taskId s3 = Some task'
             /\ Task.status task' = Task.completed
             /\ Task.result task' = Task.result task).
Proof.
  intros Hhas Hp s'. subst s'. unfold TaskQueue.waitForCompletion_timeout.
  rewrite Hhas. simpl.
  assert (Hnow : promise_state p
                   (call p (Rejected "Task timeout")
                      (set_taskCallbacks
                         (JsMap.delete taskId (taskCallbacks s)) s))
                 = Some (Rejected "Task timeout")).
  { unfold promise_state in *. simpl. rewrite get_app_unsettled by exact Hp.
    simpl. now rewrite N.eqb_refl. }
  repeat (split; [reflexivity|]).
  split; [exact Hnow|].
  split.
  - intros es s'' Hrun. eapply settled_forever; eassumption.
  - intros s'' w task Hn Ht. split.
    + now apply completion_calls_absent.
    + destruct (completion_effect taskId w s'' task Ht)
        as (task' & H1 & H2 & _ & H3 & _).
      exists task'. tauto.
Qed.

(** Witness for C8: the waiter of the task that found no worker times
    out. *)
Lemma C8_witness :
  exists s,
    run waiting_in_vain init = Some s
    /\ JsMap.has 0%N (taskCallbacks s) = true
    /\ promise_state 0 s = None
    /\ tasks (TaskQueue.waitForCompletion_timeout 0 0 s) = tasks s
    /\ promise_state 0 (TaskQueue.waitForCompletion_timeout 0 0 s)
       = Some (Rejected "Task timeout").
Proof.
  eexists. split; [vm_compute; reflexivity|].
  split; [reflexivity|]. split; [reflexivity|].
  match goal with
  | |- tasks (TaskQueue.waitForCompletion_timeout _ _ ?s) = _ /\ _ =>
      pose proof (C8_timeout_touches_only_the_waiter s 0%N 0%N eq_refl eq_refl)
        as (H1 & _ & _ & _ & _ & H2 & _)
  end.
  split; [exact H1 | exact H2].
Defined.

(** ** Removal of a worker *)

(** C3, the claim as stated fails.  The worker of the task in flight is
    removed while a waiter is registered.  The removal touches neither the
    task nor the waiter; when the completion timer fires the task becomes
    'completed' (not 'failed'), no error is recorded, and the waiter is
    resolved with the success payload that names the removed worker. *)
Lemma C3_counterexample :
  exists s1 s2 s3,
    run (one_in_flight ++ [WaitForCompletion 1]) init = Some s1
    /\ status_of 1 s1 = Some Task.processing
    /\ assignedWorker_of 1 s1 = Some (Some 0%N)
    /\ load_of 0 s1 = Some 1
    /\ step (RemoveWorker 0) s1 = Some s2
    /\ Store.getWorker 0 s2 = None
    /\ status_of 1 s2 = Some Task.processing
    /\ promise_state 0 s2 = None
    /\ step (CompletionTimeout 1 0) s2 = Some s3
    /\ status_of 1 s3 = Some Task.completed
    /\ status_of 1 s3 <> Some Task.failed
    /\ option_map Task.error (Store.getTask 1 s3) = Some None
    /\ promise_state 0 s3 = Some (Fulfilled (VSuccess (Some 0%N))).
Proof.
  eexists. eexists. eexists. scenario.
Qed.

(** C3, amended.  Removing a worker changes only the worker map: no task,
    no waiter and no timer is touched.  When the completion timer of a task
    fires and its worker is no longer in the store, the task is finalized
    as 'completed' with its [error] field as before, the load update is
    skipped (the worker map is unchanged), and the waiter registered for
    the task, if any, is resolved with the success payload naming that
    worker and removed: it does not hang. *)
Theorem C3_removed_worker_task_completes (s : State) (taskId workerId : N)
    (task : Task.InferenceTask) :
  Store.getTask taskId s = Some task ->
  Store.getWorker workerId s = None ->
  let s' := TaskQueue.simulateTaskProcessing_timeout taskId workerId s in
  (exists task',
      Store.getTask taskId s' = Some task'
      /\ Task.status task' = Task.completed
      /\ Task.error task' = Task.error task
      /\ Task.assignedWorker task' = Task.assignedWorker task)
  /\ workers s' = workers s
  /\ (forall p, JsMap.get taskId (taskCallbacks s) = Some p ->
        calls s' = calls s ++ [(p, Fulfilled (VSuccess (Some workerId)))]
        /\ taskCallbacks s' = JsMap.delete taskId (taskCallbacks s))
  /\ (forall s0 id,
        let s1 := snd (WorkerManager.removeWorker id s0) in
        tasks s1 = tasks s0 /\ taskCallbacks s1 = taskCallbacks s0
        /\ calls s1 = calls s0 /\ completionTimers s1 = completionTimers s0
        /\ waitTimers s1 = waitTimers s0
        /\ workers s1 = JsMap.delete id (workers s0)).
Proof.
  intros Ht Hw s'. subst s'. split; [|split; [|split]].
  - destruct (completion_effect taskId workerId s task Ht)
      as (task' & H1 & H2 & _ & _ & H3 & H4).
    exists task'. tauto.
  - unfold TaskQueue.simulateTaskProcessing_timeout.
    match goal with
    | |- workers (TaskQueue.resolveTask _ _ ?x) = _ =>
        rewrite (proj1 (proj2 (resolveTask_store taskId
                                 (VSuccess (Some workerId)) x)))
    end.
    unfold Store.getWorker in *. rewrite updateTask_workers, Hw.
    apply updateTask_workers.
  - intros p Hp. now apply completion_calls_present.
  - intros s0 id. simpl. tauto.
Qed.

(** Witness for C3: the state of the counterexample after the removal. *)
Lemma C3_witness :
  exists s task,
    run (one_in_flight ++ [WaitForCompletion 1; RemoveWorker 0]) init = Some s
    /\ Store.getTask 1 s = Some task
    /\ Store.getWorker 0 s = None
    /\ exists task',
         Store.getTask 1 (TaskQueue.simulateTaskProcessing_timeout 1 0 s)
         = Some task'
         /\ Task.status task' = Task.completed.
Proof.
  eexists. eexists. split; [vm_compute; reflexivity|].
  split; [vm_compute; reflexivity|]. split; [reflexivity|].
  match goal with
  | |- exists t, Store.getTask _ (_ _ _ ?s) = _ /\ _ =>
      pose proof (C3_removed_worker_task_completes s 1%N 0%N _ eq_refl eq_refl)
        as ((task' & H1 & H2 & _) & _)
  end.
  exists task'. split; [exact H1 | exact H2].
Defined.

(** ** More facts about maps, sorting and the pool *)

Lemma In_delete {V : Type} (k : N) (m : list (N * V)) x :
  In x (JsMap.delete k m) -> In x m.
Proof.
  induction m as [|[k' v'] m IH]; simpl; [tauto|].
  destruct (N.eqb k k'); simpl; tauto.
Qed.

Lemma NoDup_keys_In_eq {V : Type} (m : list (N * V)) k v v' :
  NoDup (JsMap.keys m) -> In (k, v) m -> In (k, v') m -> v = v'.
Proof.
  induction m as [|[k0 v0] m IH]; simpl; [tauto|].
  intros Hnd. inversion Hnd as [|? ? Hnotin Hnd']; subst.
  intros [E1|I1] [E2|I2].
  - congruence.
  - injection E1 as -> ->. exfalso. apply Hnotin.
    now apply (in_map fst) in I2.
  - injection E2 as -> ->. exfalso. apply Hnotin.
    now apply (in_map fst) in I1.
  - now apply IH.
Qed.

Lemma In_values_key {V : Type} (m : list (N * V)) v :
  In v (JsMap.values m) -> exists k, In (k, v) m.
Proof.
  unfold JsMap.values. intros H. apply in_map_iff in H.
  destruct H as ([k v'] & E & I). simpl in E. subst. now exists k.
Qed.

Section SortFacts.
Context {A : Type} (cmp : A -> A -> Q).

Lemma sort_insert_In x l y : In y (sort_insert cmp x l) <-> y = x \/ In y l.
Proof.
  induction l as [|z l IH]; simpl.
  - intuition.
  - destruct (Qle_bool (cmp x z) 0); simpl; [intuition|].
    rewrite IH. intuition.
Qed.

Lemma Array_sort_In l y : In y (Array_sort cmp l) <-> In y l.
Proof.
  induction l as [|x l IH]; simpl; [tauto|].
  rewrite sort_insert_In, IH. intuition.
Qed.

Lemma sort_insert_length x l :
  List.length (sort_insert cmp x l) = S (List.length l).
Proof.
  induction l as [|z l IH]; simpl; [reflexivity|].
  destruct (Qle_bool (cmp x z) 0); simpl; [reflexivity | now rewrite IH].
Qed.

Lemma Array_sort_length l : List.length (Array_sort cmp l) = List.length l.
Proof.
  induction l as [|x l IH]; simpl; [reflexivity|].
  now rewrite sort_insert_length, IH.
Qed.
End SortFacts.

Lemma splice_worker_In id l w :
  In w (TaskQueue.splice_worker id l) -> In w l.
Proof.
  induction l as [|x l IH]; simpl; [tauto|].
  destruct (N.eqb (Worker.id x) id); simpl; tauto.
Qed.

Lemma hd_error_In {A : Type} (l : list A) (x : A) :
  hd_error l = Some x -> In x l.
Proof. destruct l; simpl; [discriminate|]. intros H; injection H as ->. now left. Qed.

Lemma selectBestWorker_In pool task sorted worker :
  TaskQueue.selectBestWorker pool task = (sorted, worker) ->
  (forall w, In w sorted <-> In w pool)
  /\ (forall w, worker = Some w -> In w pool).
Proof.
  unfold TaskQueue.selectBestWorker. destruct pool as [|x pool].
  - intros H; injection H as <- <-. split; [tauto | discriminate].
  - intros H; injection H as <- <-. split.
    + intros w.
      exact (Array_sort_In
               (fun a b => (TaskQueue.ratio a - TaskQueue.ratio b)%Q)
               (x :: pool) w).
    + intros w Hw. apply hd_error_In in Hw.
      exact (proj1 (Array_sort_In
                      (fun a b => (TaskQueue.ratio a - TaskQueue.ratio b)%Q)
                      (x :: pool) w) Hw).
Qed.

(** ** The registry invariant *)

Lemma registry_inv_ext s s' :
  workers s' = workers s -> suspended s' = suspended s ->
  uuid_supply s' = uuid_supply s -> registry_inv s -> registry_inv s'.
Proof.
  unfold registry_inv, worker_ok, pool_ok. intros -> -> ->. tauto.
Qed.

(** An update through [updateWorker] that keeps identity, capacity and a
    non-busy status and sets a load within the capacity. *)
Lemma updateWorker_inv id u s :
  Worker.p_id u = None -> Worker.p_maxCapacity u = None ->
  Worker.p_status u <> Some Worker.busy ->
  (forall existing l,
      In (id, existing) (workers s) -> Worker.p_currentLoad u = Some l ->
      0 <= l <= Worker.maxCapacity existing) ->
  registry_inv s -> registry_inv (Store.updateWorker id u s).
Proof.
  intros Hid Hmax Hst Hload (Hnd & Hw & Hf).
  unfold Store.updateWorker.
  destruct (JsMap.get id (workers s)) as [existing|] eqn:E;
    [|exact (conj Hnd (conj Hw Hf))].
  pose proof (get_In _ _ _ E) as Hin.
  assert (Hspread : worker_ok s id (Worker.spread existing u)).
  { destruct (Hw _ _ Hin) as (H1 & H2 & H3 & H4).
    unfold worker_ok, Worker.spread; simpl. rewrite Hid, Hmax. simpl.
    repeat split; try assumption.
    - destruct (Worker.p_currentLoad u) as [l|] eqn:El; simpl;
        [apply (Hload existing l Hin eq_refl) | apply H3].
    - destruct (Worker.p_currentLoad u) as [l|] eqn:El; simpl;
        [apply (Hload existing l Hin eq_refl) | apply H3].
    - destruct (Worker.p_status u) as [x|]; simpl; [congruence | assumption]. }
  split; [|split]; simpl.
  - now apply NoDup_keys_set.
  - intros k w Hkw. apply In_set in Hkw. destruct Hkw as [Heq|Hold].
    + injection Heq as -> ->. exact Hspread.
    + now apply Hw.
  - intros f Hsf w Hwf. destruct (Hf f Hsf w Hwf) as (H1 & H2 & H3).
    split; [assumption|]. split; [assumption|].
    intros w' Hw'. apply In_set in Hw'. destruct Hw' as [Heq|Hold].
    + injection Heq as Hk ->. unfold Worker.spread; simpl.
      rewrite Hmax. simpl. apply H3. now rewrite Hk.
    + now apply H3.
Qed.

Lemma updateTask_inv id u s : registry_inv s -> registry_inv (Store.updateTask id u s).
Proof.
  apply registry_inv_ext; [apply updateTask_workers | apply updateTask_pass |].
  apply (updateTask_registry id u s).
Qed.

Lemma resolveTask_inv id v s : registry_inv s -> registry_inv (TaskQueue.resolveTask id v s).
Proof.
  apply registry_inv_ext; try apply resolveTask_store.
  unfold TaskQueue.resolveTask. now destruct (JsMap.get id (taskCallbacks s)).
Qed.

Lemma pool_ok_ext s s' w :
  workers s' = workers s -> uuid_supply s' = uuid_supply s ->
  pool_ok s w -> pool_ok s' w.
Proof. unfold pool_ok. intros -> ->. tauto. Qed.

Lemma updateWorker_pool_ok id u s w :
  Worker.p_maxCapacity u = None ->
  pool_ok s w -> pool_ok (Store.updateWorker id u s) w.
Proof.
  intros Hmax (H1 & H2 & H3). unfold Store.updateWorker.
  destruct (JsMap.get id (workers s)) as [existing|] eqn:E;
    [|exact (conj H1 (conj H2 H3))].
  split; [assumption|]. split; [assumption|]. simpl.
  intros w' Hw'. apply In_set in Hw'. destruct Hw' as [Heq|Hold].
  - injection Heq as Hk ->. unfold Worker.spread; simpl.
    rewrite Hmax. simpl. apply H3. rewrite Hk. now apply get_In.
  - now apply H3.
Qed.

Lemma updateTask_pool_ok id u s w :
  pool_ok s w -> pool_ok (Store.updateTask id u s) w.
Proof.
  apply pool_ok_ext; [apply updateTask_workers|].
  apply (updateTask_registry id u s).
Qed.

Lemma assignTaskToWorker_pool_ok task worker s w :
  pool_ok s w -> pool_ok (TaskQueue.assignTaskToWorker task worker s) w.
Proof.
  intros H. unfold TaskQueue.assignTaskToWorker, TaskQueue.simulateTaskProcessing.
  eapply pool_ok_ext; [reflexivity | reflexivity |].
  apply updateTask_pool_ok.
  apply updateWorker_pool_ok; [reflexivity|].
  now apply updateTask_pool_ok.
Qed.

Lemma assignTaskToWorker_inv task worker s :
  registry_inv s -> pool_ok s worker ->
  registry_inv (TaskQueue.assignTaskToWorker task worker s).
Proof.
  intros Hs (Hp1 & Hp2 & Hp3).
  unfold TaskQueue.assignTaskToWorker, TaskQueue.simulateTaskProcessing.
  eapply registry_inv_ext; [reflexivity | reflexivity | reflexivity |].
  apply updateTask_inv.
  apply updateWorker_inv; try reflexivity; try discriminate.
  - simpl. intros existing l Hin Hl. injection Hl as <-.
    rewrite updateTask_workers in Hin.
    rewrite (Hp3 existing Hin). lia.
  - now apply updateTask_inv.
Qed.

Lemma processQueue_finally_inv s :
  registry_inv s -> registry_inv (TaskQueue.processQueue_finally s).
Proof. now apply registry_inv_ext. Qed.

Lemma processQueue_loop_inv pendingTasks :
  forall availableWorkers s,
    registry_inv s ->
    (forall w, In w availableWorkers -> pool_ok s w) ->
    registry_inv (TaskQueue.processQueue_loop pendingTasks availableWorkers s).
Proof.
  induction pendingTasks as [|task rest IH]; intros pool s Hs Hpool; simpl.
  - now apply processQueue_finally_inv.
  - destruct pool as [|w0 pool]; [now apply processQueue_finally_inv|].
    destruct (TaskQueue.selectBestWorker (w0 :: pool) task)
      as [sorted [worker|]] eqn:E;
      destruct (selectBestWorker_In _ _ _ _ E) as (Hsorted & Hworker).
    + assert (Hwp : pool_ok s worker) by (apply Hpool, Hworker; reflexivity).
      destruct (assignTaskToWorker_inv task worker s Hs Hwp) as (Hnd & Hw & _).
      split; [exact Hnd|]. split; [exact Hw|].
      simpl. intros f Hf w Hin. injection Hf as <-. simpl in Hin.
      eapply pool_ok_ext; [reflexivity | reflexivity |].
      apply assignTaskToWorker_pool_ok. apply Hpool. now apply Hsorted.
    + apply IH; [assumption|]. intros w Hin. apply Hpool. now apply Hsorted.
Qed.

Lemma getAvailableWorkers_pool_ok s w :
  registry_inv s -> In w (TaskQueue.getAvailableWorkers s) -> pool_ok s w.
Proof.
  intros (Hnd & Hw & _) Hin.
  unfold TaskQueue.getAvailableWorkers, Store.getOnlineWorkers,
    Store.getAllWorkers in Hin.
  apply filter_In in Hin. destruct Hin as (Hin & Hroom).
  apply filter_In in Hin. destruct Hin as (Hin & _).
  apply In_values_key in Hin. destruct Hin as (k & Hin).
  destruct (Hw k w Hin) as (Hid & Hk & Hload & _).
  apply Z.ltb_lt in Hroom.
  split; [now rewrite Hid|]. split; [lia|].
  intros w' Hin'. rewrite Hid in Hin'.
  now rewrite (NoDup_keys_In_eq _ _ _ _ Hnd Hin Hin').
Qed.

Lemma processQueue_inv s : registry_inv s -> registry_inv (TaskQueue.processQueue s).
Proof.
  intros Hs. unfold TaskQueue.processQueue.
  destruct (processing s); [assumption|].
  assert (Hs' : registry_inv (set_processing true s))
    by now apply (registry_inv_ext s).
  apply processQueue_loop_inv; [assumption|].
  intros w Hin. now apply getAvailableWorkers_pool_ok.
Qed.

Lemma heartbeat_worker_inv worker draws s :
  Worker.status worker <> Worker.busy ->
  registry_inv s -> registry_inv (WorkerManager.heartbeat_worker worker draws s).
Proof.
  intros Hst Hs. unfold WorkerManager.heartbeat_worker.
  destruct draws as [[a b] c].
  apply updateWorker_inv; try reflexivity; try assumption; simpl.
  - destruct (negb (Qle_bool (2 # 100) c)); [|congruence].
    destruct (Worker.status worker); discriminate.
  - discriminate.
Qed.

Lemma heartbeat_inv draws s :
  registry_inv s -> registry_inv (WorkerManager.heartbeat draws s).
Proof.
  intros Hs. unfold WorkerManager.heartbeat.
  assert (Hl : Forall (fun wd => Worker.status (fst wd) <> Worker.busy)
                      (combine (WorkerManager.getAllWorkers s) draws)).
  { apply Forall_forall. intros [w d] Hin. apply in_combine_l in Hin.
    apply In_values_key in Hin. destruct Hin as (k & Hin).
    destruct Hs as (_ & Hw & _). apply (Hw k w Hin). }
  revert Hl Hs.
  generalize (combine (WorkerManager.getAllWorkers s) draws) as l.
  intros l. revert s. induction l as [|[w d] l IH]; simpl; intros s Hl Hs.
  - assumption.
  - inversion Hl; subst. apply IH; [assumption|].
    now apply heartbeat_worker_inv.
Qed.

Lemma GPU_MODELS_capacity i gpuModel :
  nth_error WorkerManager.GPU_MODELS i = Some gpuModel ->
  0 <= WorkerManager.gm_baseThroughput gpuModel / 10.
Proof.
  intros H. apply nth_error_In in H. simpl in H.
  destruct H as [<-|[<-|[<-|[<-|[]]]]]; simpl; apply Z.div_pos; lia.
Qed.

Lemma worker_ok_supply s s' k w :
  (uuid_supply s <= uuid_supply s')%N -> worker_ok s k w -> worker_ok s' k w.
Proof. unfold worker_ok. intros H (H1 & H2 & H3). repeat split; try tauto. lia. Qed.

Lemma createWorker_inv hostname r1 r2 r3 s worker s' :
  WorkerManager.createWorker hostname r1 r2 r3 s = Some (worker, s') ->
  registry_inv s -> registry_inv s'.
Proof.
  unfold WorkerManager.createWorker.
  destruct (nth_error _ _) as [gpuModel|] eqn:E; [|discriminate].
  simpl. intros H (Hnd & Hw & Hf). injection H as <- <-.
  pose proof (GPU_MODELS_capacity _ _ E) as Hcap.
  split; [|split]; simpl.
  - now apply NoDup_keys_set.
  - intros k w Hin. apply In_set in Hin. destruct Hin as [Heq|Hold].
    + injection Heq as -> ->. unfold worker_ok; simpl.
      split; [reflexivity|]. split; [lia|]. split; [lia | discriminate].
    + apply (worker_ok_supply s); [simpl; lia | now apply Hw].
  - intros f Hsf w Hin. destruct (Hf f Hsf w Hin) as (H1 & H2 & H3).
    split; [simpl; lia|]. split; [assumption|].
    intros w' Hin'. apply In_set in Hin'. destruct Hin' as [Heq|Hold].
    + injection Heq as Hk _. lia.
    + now apply H3.
Qed.

Lemma removeWorker_inv id s :
  registry_inv s -> registry_inv (snd (WorkerManager.removeWorker id s)).
Proof.
  intros (Hnd & Hw & Hf). split; [|split]; simpl.
  - now apply NoDup_keys_delete.
  - intros k w Hin. apply In_delete in Hin. now apply Hw.
  - intros f Hsf w Hin. destruct (Hf f Hsf w Hin) as (H1 & H2 & H3).
    split; [assumption|]. split; [assumption|].
    intros w' Hin'. apply In_delete in Hin'. now apply H3.
Qed.

Lemma registry_inv_supply s s' :
  workers s' = workers s -> suspended s' = suspended s ->
  (uuid_supply s <= uuid_supply s')%N -> registry_inv s -> registry_inv s'.
Proof.
  intros Ew Es Hle (Hnd & Hw & Hf). unfold registry_inv.
  rewrite Ew, Es. split; [assumption|]. split.
  - intros k w Hin. apply (worker_ok_supply s); auto.
  - intros f Hsf w Hin. destruct (Hf f Hsf w Hin) as (H1 & H2 & H3).
    unfold pool_ok. rewrite Ew. repeat split; try tauto. lia.
Qed.

Lemma rejectTask_inv id e s : registry_inv s -> registry_inv (TaskQueue.rejectTask id e s).
Proof.
  apply registry_inv_ext;
    unfold TaskQueue.rejectTask; now destruct (JsMap.get id (taskCallbacks s)).
Qed.

Lemma waitForCompletion_inv id s :
  registry_inv s -> registry_inv (snd (TaskQueue.waitForCompletion id s)).
Proof.
  apply registry_inv_ext; unfold TaskQueue.waitForCompletion; simpl;
    unfold Store.getTask; simpl;
    (destruct (JsMap.get id (tasks s)) as [t|];
     [destruct (Task.status t)|]); reflexivity.
Qed.

Lemma waitForCompletion_timeout_inv id p s :
  registry_inv s -> registry_inv (TaskQueue.waitForCompletion_timeout id p s).
Proof.
  apply registry_inv_ext; unfold TaskQueue.waitForCompletion_timeout;
    now destruct (JsMap.has id (taskCallbacks s)).
Qed.

Lemma simulateTaskProcessing_timeout_inv taskId workerId s :
  registry_inv s ->
  registry_inv (TaskQueue.simulateTaskProcessing_timeout taskId workerId s).
Proof.
  intros Hs. unfold TaskQueue.simulateTaskProcessing_timeout.
  apply resolveTask_inv.
  match goal with
  | |- registry_inv (match Store.getWorker _ ?x with _ => _ end) =>
      assert (Hx : registry_inv x) by (now apply updateTask_inv);
      destruct (Store.getWorker workerId x) as [updatedWorker|] eqn:E;
      [|exact Hx]
  end.
  apply updateWorker_inv; try reflexivity; try discriminate; [|exact Hx].
  simpl. intros existing l Hin Hl. injection Hl as <-.
  destruct Hx as (Hnd & Hw & _).
  unfold Store.getWorker in E. apply get_In in E.
  rewrite (NoDup_keys_In_eq _ _ _ _ Hnd Hin E).
  destruct (Hw _ _ E) as (_ & _ & Hload & _). lia.
Qed.

Lemma step_registry_inv e s s' :
  registry_inv s -> step e s = Some s' -> registry_inv s'.
Proof.
  intros Hs. destruct e; simpl.
  - intros H; injection H as <-. now apply (registry_inv_ext s).
  - destruct (_ && _); [|discriminate].
    unfold WorkerManager.addWorker.
    destruct (WorkerManager.createWorker _ _ _ _ _) as [[w s1]|] eqn:E;
      simpl; [|discriminate].
    intros H; injection H as <-. eapply createWorker_inv; eassumption.
  - intros H; injection H as <-. now apply removeWorker_inv.
  - destruct (_ && _); [|discriminate].
    intros H; injection H as <-. now apply heartbeat_inv.
  - intros H; injection H as <-. unfold TaskQueue.enqueue. simpl.
    apply processQueue_inv.
    apply (registry_inv_supply s); simpl; try reflexivity; [lia | assumption].
  - destruct (suspended s) as [f|] eqn:Ef; [|discriminate].
    intros H; injection H as <-. unfold TaskQueue.processQueue_resume.
    apply processQueue_loop_inv.
    + destruct Hs as (Hnd & Hw & _). split; [exact Hnd|]. split; [exact Hw|].
      simpl. discriminate.
    + intros w Hin. apply splice_worker_In in Hin.
      destruct Hs as (_ & _ & Hf).
      apply (pool_ok_ext s); try reflexivity. now apply (Hf f Ef).
  - intros H; injection H as <-. now apply waitForCompletion_inv.
  - destruct (_ && _); [|discriminate].
    intros H; injection H as <-. apply waitForCompletion_timeout_inv.
    now apply (registry_inv_ext s).
  - destruct (_ && _); [|discriminate].
    intros H; injection H as <-. apply simulateTaskProcessing_timeout_inv.
    now apply (registry_inv_ext s).
  - intros H; injection H as <-. now apply resolveTask_inv.
  - intros H; injection H as <-. now apply rejectTask_inv.
Qed.

Lemma registry_inv_init : registry_inv init.
Proof.
  split; [constructor|]. split; simpl; [tauto | discriminate].
Qed.

Lemma reachable_registry_inv s : reachable s -> registry_inv s.
Proof.
  apply reachable_invariant; [exact registry_inv_init|].
  intros e s1 s2. apply step_registry_inv.
Qed.

(** ** Load and status of the workers *)

(** C5. In every reachable state every worker of the store has
    [0 <= currentLoad <= maxCapacity]; the workers a pass may assign to
    (those [getAvailableWorkers] returns, and those in the array of a
    parked pass) were read with [currentLoad < maxCapacity]; the load that
    an assignment writes is that load plus one, and the load a completion
    writes is [max 0 (currentLoad - 1)], never below zero. *)
Theorem C5_load_within_capacity (s : State) :
  reachable s ->
  (forall id w, Store.getWorker id s = Some w ->
     0 <= Worker.currentLoad w <= Worker.maxCapacity w)
  /\ (forall w, In w (TaskQueue.getAvailableWorkers s) ->
        Worker.status w = Worker.online
        /\ 0 <= Worker.currentLoad w < Worker.maxCapacity w)
  /\ (forall f w, suspended s = Some f -> In w (frame_pool f) ->
        0 <= Worker.currentLoad w < Worker.maxCapacity w)
  /\ (forall task worker w,
        In worker (TaskQueue.getAvailableWorkers s) ->
        Store.getWorker (Worker.id worker)
          (TaskQueue.assignTaskToWorker task worker s) = Some w ->
        Worker.currentLoad w = Worker.currentLoad worker + 1
        /\ Worker.currentLoad w <= Worker.maxCapacity w)
  /\ (forall taskId workerId w,
        Store.getWorker workerId
          (TaskQueue.simulateTaskProcessing_timeout taskId workerId s) = Some w ->
        0 <= Worker.currentLoad w <= Worker.maxCapacity w).
Proof.
  intros Hr. pose proof (reachable_registry_inv s Hr) as Hinv.
  assert (Hstore : forall s0, registry_inv s0 ->
            forall id w, Store.getWorker id s0 = Some w ->
              0 <= Worker.currentLoad w <= Worker.maxCapacity w).
  { intros s0 (_ & Hw & _) id w Hg. unfold Store.getWorker in Hg.
    apply get_In in Hg. apply (Hw id w Hg). }
  split; [exact (Hstore s Hinv)|].
  split.
  { intros w Hin. split.
    - unfold TaskQueue.getAvailableWorkers, Store.getOnlineWorkers in Hin.
      apply filter_In in Hin. destruct Hin as (Hin & _).
      apply filter_In in Hin. destruct Hin as (_ & Hon).
      now destruct (Worker.status w).
    - apply (getAvailableWorkers_pool_ok s w Hinv Hin). }
  split.
  { intros f w Hf Hin. destruct Hinv as (_ & _ & Hfr).
    apply (Hfr f Hf w Hin). }
  split.
  { intros task worker w Hin Hg.
    pose proof (getAvailableWorkers_pool_ok s worker Hinv Hin) as Hp.
    pose proof (assignTaskToWorker_inv task worker s Hinv Hp) as Hinv'.
    split; [|apply (Hstore _ Hinv' _ _ Hg)].
    revert Hg. unfold TaskQueue.assignTaskToWorker,
      TaskQueue.simulateTaskProcessing, Store.getWorker.
    simpl. rewrite updateTask_workers.
    unfold Store.updateWorker. rewrite updateTask_workers.
    destruct (JsMap.get (Worker.id worker) (workers s)) as [existing|] eqn:E.
    - simpl. rewrite get_set_same. intros H; injection H as <-. reflexivity.
    - rewrite updateTask_workers, E. discriminate. }
  intros taskId workerId w Hg.
  exact (Hstore _ (simulateTaskProcessing_timeout_inv taskId workerId s Hinv) _ _ Hg).
Qed.

(** Witness for C5: one task in flight on the only worker. *)
Lemma C5_witness :
  exists s w,
    run one_in_flight init = Some s
    /\ Store.getWorker 0 s = Some w
    /\ Worker.currentLoad w = 1
    /\ 0 <= Worker.currentLoad w <= Worker.maxCapacity w.
Proof.
  reach_by one_in_flight ltac:(fun s Hr =>
    exists s;
    pose proof (proj1 (C5_load_within_capacity s Hr)) as Hload).
  eexists. split; [vm_compute; reflexivity|].
  split; [vm_compute; reflexivity|]. split; [reflexivity|].
  exact (Hload 0%N _ eq_refl).
Defined.

(** C10. In every reachable state every worker of the store is 'online'
    or 'offline', and the busy count of the worker statistics is 0:
    [createWorker] stores 'online', the heartbeat writes the status it read
    or toggles it between 'online' and 'offline', and the updates of the
    dispatcher carry no status. *)
Theorem C10_no_worker_is_busy (s : State) :
  reachable s ->
  (forall id w, Store.getWorker id s = Some w ->
     Worker.status w = Worker.online \/ Worker.status w = Worker.offline)
  /\ WorkerManager.busy (WorkerManager.getWorkerStats s) = 0%nat
  /\ (WorkerManager.online (WorkerManager.getWorkerStats s)
      + WorkerManager.offline (WorkerManager.getWorkerStats s)
      = WorkerManager.total (WorkerManager.getWorkerStats s))%nat.
Proof.
  intros Hr. destruct (reachable_registry_inv s Hr) as (_ & Hw & _).
  assert (Hall : Forall (fun w => Worker.status w <> Worker.busy)
                        (Store.getAllWorkers s)).
  { apply Forall_forall. intros w Hin. apply In_values_key in Hin.
    destruct Hin as (k & Hin). apply (Hw k w Hin). }
  split.
  - intros id w Hg. unfold Store.getWorker in Hg. apply get_In in Hg.
    destruct (Hw id w Hg) as (_ & _ & _ & Hst).
    destruct (Worker.status w); [now left | now right | congruence].
  - unfold WorkerManager.getWorkerStats, WorkerManager.getAllWorkers. simpl.
    unfold WorkerManager.count_status.
    induction Hall as [|w l Hwst Hl IH]; simpl; [split; reflexivity|].
    destruct IH as (IH1 & IH2).
    destruct (Worker.status w); simpl; try congruence; split; auto; lia.
Qed.

(** Witness for C10: a worker that a heartbeat has just taken offline
    while a task is in flight on it. *)
Lemma C10_witness :
  exists s w,
    run (one_in_flight ++ [Heartbeat [(1 # 2, 1 # 2, 1 # 100)]]) init = Some s
    /\ Store.getWorker 0 s = Some w
    /\ Worker.currentLoad w = 1
    /\ (Worker.status w = Worker.online \/ Worker.status w = Worker.offline)
    /\ WorkerManager.busy (WorkerManager.getWorkerStats s) = 0%nat.
Proof.
  reach_by (one_in_flight ++ [Heartbeat [(1 # 2, 1 # 2, 1 # 100)]])
    ltac:(fun s Hr =>
      exists s;
      pose proof (C10_no_worker_is_busy s Hr) as (H1 & H2 & _)).
  eexists. split; [vm_compute; reflexivity|].
  split; [vm_compute; reflexivity|]. split; [reflexivity|].
  split; [exact (H1 0%N _ eq_refl) | exact H2].
Defined.

(** ** What the dispatcher writes into a task *)

Lemma tasks_updated_trans m1 m2 m3 :
  tasks_updated m1 m2 -> tasks_updated m2 m3 -> tasks_updated m1 m3.
Proof.
  intros H12 H23. induction H23; [assumption|].
  now apply tasks_update.
Qed.

Lemma updateTask_updated id u s :
  dispatcher_update u -> tasks_updated (tasks s) (tasks (Store.updateTask id u s)).
Proof.
  intros Hu. unfold Store.updateTask.
  destruct (JsMap.get id (tasks s)) as [existing|] eqn:E; simpl.
  - apply tasks_update; [apply tasks_same | assumption | assumption].
  - apply tasks_same.
Qed.

Lemma assignTaskToWorker_updated task worker s :
  tasks_updated (tasks s) (tasks (TaskQueue.assignTaskToWorker task worker s)).
Proof.
  unfold TaskQueue.assignTaskToWorker, TaskQueue.simulateTaskProcessing. simpl.
  eapply tasks_updated_trans;
    [|apply updateTask_updated; repeat split; discriminate].
  rewrite updateWorker_tasks.
  apply updateTask_updated; repeat split; discriminate.
Qed.

Lemma processQueue_loop_updated pendingTasks :
  forall availableWorkers s,
    tasks_updated (tasks s)
      (tasks (TaskQueue.processQueue_loop pendingTasks availableWorkers s)).
Proof.
  induction pendingTasks as [|task rest IH]; intros pool s; simpl.
  - apply tasks_same.
  - destruct pool as [|w pool]; [apply tasks_same|].
    destruct (TaskQueue.selectBestWorker (w :: pool) task) as [sorted [worker|]].
    + simpl. apply assignTaskToWorker_updated.
    + apply IH.
Qed.

Lemma processQueue_updated s :
  tasks_updated (tasks s) (tasks (TaskQueue.processQueue s)).
Proof.
  unfold TaskQueue.processQueue. destruct (processing s); [apply tasks_same|].
  apply (processQueue_loop_updated _ _ (set_processing true s)).
Qed.

Lemma heartbeat_tasks draws s : tasks (WorkerManager.heartbeat draws s) = tasks s.
Proof.
  unfold WorkerManager.heartbeat.
  generalize (combine (WorkerManager.getAllWorkers s) draws) as l.
  intros l. revert s. induction l as [|[w d] l IH]; intros s; simpl.
  - reflexivity.
  - rewrite IH. unfold WorkerManager.heartbeat_worker. destruct d as [[a b] c].
    apply updateWorker_tasks.
Qed.

(** What an event does to the task map: updates by the dispatcher, after
    the new task has been stored when the event is an [enqueue]. *)
Lemma step_tasks e s s' :
  step e s = Some s' ->
  match e with
  | Enqueue payload apiKeyId priority =>
      tasks_updated
        (JsMap.set (uuid_supply s) (enqueued_task payload apiKeyId priority s)
                   (tasks s))
        (tasks s')
  | _ => tasks_updated (tasks s) (tasks s')
  end.
Proof.
  destruct e; simpl.
  - intros H; injection H as <-. apply tasks_same.
  - destruct (_ && _); [|discriminate].
    unfold WorkerManager.addWorker, WorkerManager.createWorker.
    destruct (nth_error _ _); simpl; [|discriminate].
    intros H; injection H as <-. apply tasks_same.
  - intros H; injection H as <-. apply tasks_same.
  - destruct (_ && _); [|discriminate].
    intros H; injection H as <-. rewrite heartbeat_tasks. apply tasks_same.
  - intros H; injection H as <-. unfold TaskQueue.enqueue. simpl.
    match goal with
    | |- tasks_updated _ (tasks (TaskQueue.processQueue ?x)) =>
        exact (processQueue_updated x)
    end.
  - destruct (suspended s) as [f|]; [|discriminate].
    intros H; injection H as <-. unfold TaskQueue.processQueue_resume.
    match goal with
    | |- tasks_updated _ (tasks (TaskQueue.processQueue_loop ?a ?b ?x)) =>
        exact (processQueue_loop_updated a b x)
    end.
  - intros H; injection H as <-. unfold TaskQueue.waitForCompletion. simpl.
    unfold Store.getTask. simpl. destruct (JsMap.get taskId (tasks s)) as [t|];
      [destruct (Task.status t)|]; simpl; apply tasks_same.
  - destruct (_ && _); [|discriminate].
    intros H; injection H as <-. unfold TaskQueue.waitForCompletion_timeout.
    simpl. destruct (JsMap.has taskId (taskCallbacks s)); apply tasks_same.
  - destruct (_ && _); [|discriminate].
    intros H; injection H as <-.
    match goal with
    | |- context [TaskQueue.simulateTaskProcessing_timeout _ _ ?x] =>
        destruct (completion_tasks taskId workerId x)
          as (u & Hs & _ & Hr & He & _ & Hp & Hc & _ & Hi & ->);
        change (tasks s) with (tasks x)
    end.
    apply updateTask_updated. unfold dispatcher_update.
    rewrite Hs, Hr, He, Hp, Hc, Hi. repeat split; discriminate.
  - intros H; injection H as <-.
    rewrite (proj1 (resolveTask_store taskId result s)). apply tasks_same.
  - intros H; injection H as <-.
    rewrite (proj1 (rejectTask_store taskId error s)). apply tasks_same.
Qed.

(** ** Outcome fields of the tasks *)

Lemma tasks_updated_no_outcome m m' :
  tasks_updated m m' ->
  Forall no_outcome (JsMap.values m) -> Forall no_outcome (JsMap.values m').
Proof.
  intros H Hm. induction H as [|m' id u existing H IH Hu Hget]; [assumption|].
  apply Forall_values_set; [assumption|].
  pose proof (get_In_values _ _ _ Hget) as Hin.
  rewrite Forall_forall in IH. destruct (IH existing Hin) as (Hr & He & Hs).
  destruct Hu as (_ & _ & _ & Hur & Hue & Hus).
  unfold no_outcome, Task.spread; simpl. rewrite Hur, Hue, Hr, He. simpl.
  split; [reflexivity|]. split; [reflexivity|].
  destruct (Task.p_status u) as [x|]; simpl; [congruence | assumption].
Qed.

Lemma step_no_outcome e s s' :
  Forall no_outcome (Store.getAllTasks s) -> step e s = Some s' ->
  Forall no_outcome (Store.getAllTasks s').
Proof.
  unfold Store.getAllTasks. intros Hs Hstep.
  pose proof (step_tasks e s s' Hstep) as Hu.
  destruct e; try (now apply (tasks_updated_no_outcome _ _ Hu)).
  apply (tasks_updated_no_outcome _ _ Hu).
  apply Forall_values_set; [assumption|].
  unfold no_outcome; simpl. repeat split; discriminate.
Qed.

Lemma reachable_no_outcome s : reachable s -> Forall no_outcome (Store.getAllTasks s).
Proof.
  revert s.
  apply (reachable_invariant (fun s => Forall no_outcome (Store.getAllTasks s)));
    [constructor|].
  intros e s1 s2. apply step_no_outcome.
Qed.

(** ** Promises are fresh *)

Lemma promise_inv_registry s s' :
  same_registry s s' -> promise_inv s -> promise_inv s'.
Proof.
  unfold promise_inv. intros (E1 & E2 & E3 & E4 & _). now rewrite E1, E2, E3, E4.
Qed.

Lemma armed_In x l : armed x l = true -> In x l.
Proof.
  unfold armed. intros H. apply existsb_exists in H.
  destruct H as ([a b] & Hin & Heq). destruct x as [c d]. simpl in Heq.
  apply andb_true_iff in Heq. destruct Heq as (H1 & H2).
  apply N.eqb_eq in H1, H2. now subst.
Qed.

Lemma remove_timer_In x l y : In y (remove_timer x l) -> In y l.
Proof.
  induction l as [|z l IH]; simpl; [tauto|].
  destruct (_ && _); simpl; tauto.
Qed.

Lemma call_inv p o s :
  (p < promise_supply s)%N -> promise_inv s -> promise_inv (call p o s).
Proof.
  intros Hp (H1 & H2 & H3). split; [|split]; simpl; try assumption.
  intros q x Hin. apply in_app_or in Hin. destruct Hin as [Hin|[Heq|[]]].
  - now apply (H1 q x).
  - now injection Heq as <- _.
Qed.

Lemma delete_callback_inv id s :
  promise_inv s ->
  promise_inv (set_taskCallbacks (JsMap.delete id (taskCallbacks s)) s).
Proof.
  intros (H1 & H2 & H3). split; [|split]; simpl; try assumption.
  intros t p Hin. apply In_delete in Hin. now apply (H2 t p).
Qed.

Lemma resolveTask_promise_inv id v s :
  promise_inv s -> promise_inv (TaskQueue.resolveTask id v s).
Proof.
  intros Hs. unfold TaskQueue.resolveTask.
  destruct (JsMap.get id (taskCallbacks s)) as [p|] eqn:E; [|assumption].
  apply (delete_callback_inv id (call p (Fulfilled v) s)).
  apply call_inv; [|assumption].
  destruct Hs as (_ & H2 & _). apply (H2 id p). now apply get_In.
Qed.

Lemma rejectTask_promise_inv id e s :
  promise_inv s -> promise_inv (TaskQueue.rejectTask id e s).
Proof.
  intros Hs. unfold TaskQueue.rejectTask.
  destruct (JsMap.get id (taskCallbacks s)) as [p|] eqn:E; [|assumption].
  apply (delete_callback_inv id (call p (Rejected e) s)).
  apply call_inv; [|assumption].
  destruct Hs as (_ & H2 & _). apply (H2 id p). now apply get_In.
Qed.

(** The completion callback is a [resolveTask] after updates of the store. *)
Lemma completion_resolves taskId workerId s :
  exists x,
    TaskQueue.simulateTaskProcessing_timeout taskId workerId s
    = TaskQueue.resolveTask taskId (VSuccess (Some workerId)) x
    /\ same_registry s x.
Proof.
  unfold TaskQueue.simulateTaskProcessing_timeout.
  eexists. split; [reflexivity|].
  match goal with
  | |- same_registry _ (match ?x with _ => _ end) => destruct x
  end; peel_registry.
Qed.

Lemma promise_inv_supply s x :
  (forall p, (p < promise_supply s)%N -> (p < promise_supply x)%N) ->
  calls x = calls s -> taskCallbacks x = taskCallbacks s ->
  waitTimers x = waitTimers s -> promise_inv s -> promise_inv x.
Proof.
  unfold promise_inv. intros Hle -> -> -> (H1 & H2 & H3).
  split; [|split]; intros a b Hin; apply Hle; eauto.
Qed.

Lemma waitForCompletion_promise_inv id s :
  promise_inv s -> promise_inv (snd (TaskQueue.waitForCompletion id s)).
Proof.
  intros Hs.
  assert (Hx : promise_inv (set_promise_supply (N.succ (promise_supply s)) s)).
  { apply (promise_inv_supply s); try reflexivity; [|assumption].
    simpl. intros p Hp. lia. }
  assert (Hnew : (promise_supply s
                  < promise_supply
                      (set_promise_supply (N.succ (promise_supply s)) s))%N)
    by (simpl; lia).
  unfold TaskQueue.waitForCompletion. simpl.
  unfold Store.getTask. simpl.
  destruct (JsMap.get id (tasks s)) as [t|];
    [destruct (Task.status t)|]; simpl;
    try (apply call_inv; assumption).
  all: destruct Hx as (H1 & H2 & H3); split; [|split]; simpl;
    try assumption.
  all: try (intros t0 p Hin; apply In_set in Hin;
            destruct Hin as [Heq|Hin];
            [injection Heq as _ ->; simpl; lia | now apply (H2 t0 p)]).
  all: intros t0 p Hin; apply in_app_or in Hin;
    destruct Hin as [Hin|[Heq|[]]];
    [now apply (H3 t0 p) | injection Heq as _ <-; lia].
Qed.

Lemma step_promise_inv e s s' :
  promise_inv s -> step e s = Some s' -> promise_inv s'.
Proof.
  intros Hs. destruct e; simpl.
  - intros H; injection H as <-. exact Hs.
  - destruct (_ && _); [|discriminate].
    unfold WorkerManager.addWorker, WorkerManager.createWorker.
    destruct (nth_error _ _); simpl; [|discriminate].
    intros H; injection H as <-. exact Hs.
  - intros H; injection H as <-. exact Hs.
  - destruct (_ && _); [|discriminate].
    intros H; injection H as <-.
    eapply promise_inv_registry; [apply heartbeat_registry | exact Hs].
  - intros H; injection H as <-. unfold TaskQueue.enqueue. simpl.
    eapply promise_inv_registry; [apply processQueue_registry | exact Hs].
  - destruct (suspended s) as [f|]; [|discriminate].
    intros H; injection H as <-. unfold TaskQueue.processQueue_resume.
    eapply promise_inv_registry; [apply processQueue_loop_registry | exact Hs].
  - intros H; injection H as <-. now apply waitForCompletion_promise_inv.
  - destruct (idle s); [|discriminate].
    destruct (armed (taskId, promise) (waitTimers s)) eqn:Ha; [|discriminate].
    simpl. intros H; injection H as <-.
    apply armed_In in Ha.
    assert (Hx : promise_inv
                   (set_waitTimers
                      (remove_timer (taskId, promise) (waitTimers s)) s)).
    { destruct Hs as (H1 & H2 & H3). split; [|split]; simpl; try assumption.
      intros t p Hin. apply remove_timer_In in Hin. now apply (H3 t p). }
    unfold TaskQueue.waitForCompletion_timeout. simpl.
    destruct (JsMap.has taskId (taskCallbacks s)); [|exact Hx].
    apply call_inv; [destruct Hs as (_ & _ & H3); apply (H3 _ _ Ha)|].
    now apply (delete_callback_inv taskId) in Hx.
  - destruct (_ && _); [|discriminate].
    intros H; injection H as <-.
    match goal with
    | |- promise_inv (TaskQueue.simulateTaskProcessing_timeout _ _ ?y) =>
        destruct (completion_resolves taskId workerId y) as (x & -> & Hreg)
    end.
    apply resolveTask_promise_inv.
    eapply promise_inv_registry; [exact Hreg | exact Hs].
  - intros H; injection H as <-. now apply resolveTask_promise_inv.
  - intros H; injection H as <-. now apply rejectTask_promise_inv.
Qed.

Lemma reachable_promise_inv s : reachable s -> promise_inv s.
Proof.
  apply reachable_invariant.
  - split; [|split]; simpl; tauto.
  - intros e s1 s2. apply step_promise_inv.
Qed.

Lemma fresh_promise_unsettled s :
  promise_inv s -> promise_state (promise_supply s) s = None.
Proof.
  intros (H1 & _). unfold promise_state.
  destruct (JsMap.get (promise_supply s) (calls s)) as [o|] eqn:E;
    [|reflexivity].
  apply get_In in E. apply H1 in E. lia.
Qed.

(** C2, the claim as stated fails.  A task is enqueued, assigned and
    completed: the state is reachable, the task is 'completed', and neither
    [result] nor [error] is set; a caller that then waits for the task is
    resolved with [undefined]. *)
Lemma C2_counterexample :
  exists s task,
    run (one_in_flight ++ [CompletionTimeout 1 0]) init = Some s
    /\ Store.getTask 1 s = Some task
    /\ Task.status task = Task.completed
    /\ Task.result task = None
    /\ Task.error task = None
    /\ promise_state (fst (TaskQueue.waitForCompletion 1 s))
                     (snd (TaskQueue.waitForCompletion 1 s))
       = Some (Fulfilled VUndefined).
Proof.
  eexists. eexists. scenario.
Qed.

(** C2, amended.  In every reachable state no task has its [result] or its
    [error] set, whatever its status, and no task is 'failed': completion
    writes the status and [completedAt] only.  [waitForCompletion] on an
    already completed task settles the promise it returns at once with the
    stored [result] field, which is unset, so with [undefined]; it
    registers no waiter and arms no timer. *)
Theorem C2_outcome_fields_never_set (s : State) (id : N)
    (task : Task.InferenceTask) :
  reachable s ->
  Store.getTask id s = Some task ->
  Task.result task = None
  /\ Task.error task = None
  /\ Task.status task <> Task.failed
  /\ (Task.status task = Task.completed ->
      let p := fst (TaskQueue.waitForCompletion id s) in
      let s' := snd (TaskQueue.waitForCompletion id s) in
      promise_state p s'
      = Some (Fulfilled (TaskQueue.value_of_result (Task.result task)))
      /\ promise_state p s' = Some (Fulfilled VUndefined)
      /\ taskCallbacks s' = taskCallbacks s
      /\ waitTimers s' = waitTimers s
      /\ tasks s' = tasks s).
Proof.
  intros Hr Hget.
  pose proof (reachable_no_outcome s Hr) as Hall.
  rewrite Forall_forall in Hall.
  destruct (Hall task (get_In_values _ _ _ Hget)) as (Hres & Herr & Hst).
  split; [assumption|]. split; [assumption|]. split; [assumption|].
  intros Hdone.
  pose proof (fresh_promise_unsettled s (reachable_promise_inv s Hr)) as Hfresh.
  unfold TaskQueue.waitForCompletion. simpl.
  unfold Store.getTask in *. simpl. rewrite Hget, Hdone. simpl.
  unfold promise_state in *. simpl.
  rewrite (get_app_unsettled _ _ _ Hfresh). simpl. rewrite N.eqb_refl.
  rewrite Hres. simpl. tauto.
Qed.

(** Witness for C2: the completed task of the counterexample. *)
Lemma C2_witness :
  exists s task,
    run (one_in_flight ++ [CompletionTimeout 1 0]) init = Some s
    /\ Store.getTask 1 s = Some task
    /\ Task.status task = Task.completed
    /\ Task.result task = None /\ Task.error task = None.
Proof.
  reach_by (one_in_flight ++ [CompletionTimeout 1 0]) ltac:(fun s Hr =>
    exists s;
    pose proof (fun t => C2_outcome_fields_never_set s 1%N t Hr) as H).
  eexists. split; [vm_compute; reflexivity|].
  split; [vm_compute; reflexivity|]. split; [reflexivity|].
  destruct (H _ eq_refl) as (H1 & H2 & _).
  split; [exact H1 | exact H2].
Defined.

(** ** Scheduling passes *)

Lemma heartbeat_pass draws s :
  suspended (WorkerManager.heartbeat draws s) = suspended s
  /\ processing (WorkerManager.heartbeat draws s) = processing s
  /\ completionTimers (WorkerManager.heartbeat draws s) = completionTimers s.
Proof.
  unfold WorkerManager.heartbeat.
  generalize (combine (WorkerManager.getAllWorkers s) draws) as l.
  intros l. revert s. induction l as [|[w d] l IH]; intros s; simpl.
  - tauto.
  - destruct (IH (WorkerManager.heartbeat_worker w d s)) as (H1 & H2 & H3).
    rewrite H1, H2, H3. unfold WorkerManager.heartbeat_worker.
    destruct d as [[a b] c]. apply updateWorker_pass.
Qed.

Lemma completion_pass taskId workerId s :
  suspended (TaskQueue.simulateTaskProcessing_timeout taskId workerId s)
  = suspended s
  /\ processing (TaskQueue.simulateTaskProcessing_timeout taskId workerId s)
     = processing s
  /\ completionTimers (TaskQueue.simulateTaskProcessing_timeout taskId workerId s)
     = completionTimers s.
Proof.
  unfold TaskQueue.simulateTaskProcessing_timeout.
  match goal with
  | |- suspended (TaskQueue.resolveTask ?a ?b ?x) = _ /\ _ =>
      destruct (resolveTask_store a b x) as (_ & _ & H3 & H1 & H2);
      rewrite H1, H2, H3; clear H1 H2 H3
  end.
  match goal with
  | |- suspended (match ?x with _ => _ end) = _ /\ _ => destruct x
  end.
  - match goal with
    | |- suspended (Store.updateWorker ?a ?b ?x) = _ /\ _ =>
        destruct (updateWorker_pass a b x) as (H1 & H2 & H3);
        rewrite H1, H2, H3
    end.
    apply updateTask_pass.
  - apply updateTask_pass.
Qed.

Lemma completion_assignedWorker taskId workerId s id :
  assignedWorker_of id (TaskQueue.simulateTaskProcessing_timeout taskId workerId s)
  = assignedWorker_of id s.
Proof.
  unfold assignedWorker_of. destruct (N.eq_dec id taskId) as [->|Hne].
  - destruct (Store.getTask taskId s) as [task|] eqn:E.
    + destruct (completion_effect taskId workerId s task E)
        as (task' & -> & _ & _ & _ & _ & Ha).
      simpl. now rewrite Ha.
    + destruct (completion_tasks taskId workerId s)
        as (u & _ & _ & _ & _ & _ & _ & _ & _ & _ & Htasks).
      unfold Store.getTask in *. rewrite Htasks.
      unfold Store.updateTask. rewrite E. now rewrite E.
  - now rewrite completion_other_tasks.
Qed.

Lemma step_without_enqueue e s s' :
  suspended s = None -> is_enqueue e = false -> step e s = Some s' ->
  suspended s' = None
  /\ (forall id, assignedWorker_of id s' = assignedWorker_of id s)
  /\ incl (completionTimers s') (completionTimers s).
Proof.
  intros Hidle Hne. destruct e; simpl; try discriminate Hne.
  - intros H; injection H as <-. simpl. split; [assumption|].
    split; [reflexivity | apply incl_refl].
  - destruct (_ && _); [|discriminate].
    unfold WorkerManager.addWorker, WorkerManager.createWorker.
    destruct (nth_error _ _); simpl; [|discriminate].
    intros H; injection H as <-. simpl. split; [assumption|].
    split; [reflexivity | apply incl_refl].
  - intros H; injection H as <-. simpl. split; [assumption|].
    split; [reflexivity | apply incl_refl].
  - destruct (_ && _); [|discriminate].
    intros H; injection H as <-.
    destruct (heartbeat_pass draws s) as (H1 & _ & H3).
    rewrite H1, H3. split; [assumption|]. split; [|apply incl_refl].
    intros id. unfold assignedWorker_of, Store.getTask.
    now rewrite heartbeat_tasks.
  - rewrite Hidle. discriminate.
  - intros H; injection H as <-. unfold TaskQueue.waitForCompletion. simpl.
    unfold assignedWorker_of, Store.getTask. simpl.
    destruct (JsMap.get taskId (tasks s)) as [t|];
      [destruct (Task.status t)|]; simpl;
      (split; [assumption|]; split; [reflexivity | apply incl_refl]).
  - destruct (_ && _); [|discriminate].
    intros H; injection H as <-. unfold TaskQueue.waitForCompletion_timeout.
    simpl. destruct (JsMap.has taskId (taskCallbacks s)); simpl;
      (split; [assumption|]; split; [reflexivity | apply incl_refl]).
  - destruct (_ && _); [|discriminate].
    intros H; injection H as <-.
    match goal with
    | |- context [TaskQueue.simulateTaskProcessing_timeout _ _ ?x] =>
        destruct (completion_pass taskId workerId x) as (H1 & _ & H3);
        rewrite H1, H3; simpl;
        split; [assumption|]; split;
        [intros id; apply (completion_assignedWorker taskId workerId x id)|]
    end.
    intros t Hin. now apply remove_timer_In in Hin.
  - intros H; injection H as <-.
    destruct (resolveTask_store taskId result s) as (H1 & _ & H3 & H4 & _).
    rewrite H3, H4. unfold assignedWorker_of, Store.getTask. rewrite H1.
    split; [assumption|]. split; [reflexivity | apply incl_refl].
  - intros H; injection H as <-.
    destruct (rejectTask_store taskId error s) as (H1 & _ & H3 & H4 & _).
    rewrite H3, H4. unfold assignedWorker_of, Store.getTask. rewrite H1.
    split; [assumption|]. split; [reflexivity | apply incl_refl].
Qed.

(** C1, the claim as stated fails.  Scenario E: one online worker of
    capacity 1 and two [enqueue] calls in a row.  Exactly one task is
    assigned at once.  When it completes, the load of the worker goes back
    to 0, but the other task is still 'pending' with no worker, no pass is
    running and no timer is armed: nothing is left that could assign it.
    Only a further [enqueue] call assigns it. *)
Lemma C1_counterexample :
  exists s1 s2 s3,
    run [Enqueue hello "key-1" 0; Enqueue hello "key-2" 0; Resume] scenarioE
    = Some s1
    /\ status_of 1 s1 = Some Task.processing
    /\ status_of 2 s1 = Some Task.pending
    /\ load_of 0 s1 = Some 1
    /\ step (CompletionTimeout 1 0) s1 = Some s2
    /\ status_of 1 s2 = Some Task.completed
    /\ load_of 0 s2 = Some 0
    /\ status_of 2 s2 = Some Task.pending
    /\ assignedWorker_of 2 s2 = Some None
    /\ suspended s2 = None
    /\ processing s2 = false
    /\ completionTimers s2 = []
    /\ waitTimers s2 = []
    /\ step (Enqueue hello "key-3" 0) s2 = Some s3
    /\ status_of 2 s3 = Some Task.processing
    /\ assignedWorker_of 2 s3 = Some (Some 0%N).
Proof.
  eexists. eexists. eexists. scenario.
Qed.

(** C1, amended.  A scheduling pass is started by [enqueue] only, not by a
    completion or a failure: from a state where no pass is parked, no
    sequence of events without an [enqueue] call assigns a worker to any
    task, arms a completion timer or leaves a pass parked, however much
    capacity the completions in it free.  (In scenario E one task is
    assigned at once and the other stays pending when the first completes;
    the pass of the next [enqueue] call assigns it.) *)
Theorem C1_only_enqueue_starts_a_pass (s s' : State) (es : list Event) :
  suspended s = None ->
  Forall (fun e => is_enqueue e = false) es ->
  run es s = Some s' ->
  suspended s' = None
  /\ (forall id, assignedWorker_of id s' = assignedWorker_of id s)
  /\ incl (completionTimers s') (completionTimers s).
Proof.
  intros Hidle Hes. revert s Hidle.
  induction Hes as [|e es He Hes IH]; simpl; intros s Hidle Hrun.
  - injection Hrun as <-. split; [assumption|].
    split; [reflexivity | apply incl_refl].
  - destruct (step e s) as [s1|] eqn:E; [|discriminate].
    destruct (step_without_enqueue e s s1 Hidle He E) as (H1 & H2 & H3).
    destruct (IH s1 H1 Hrun) as (H4 & H5 & H6).
    split; [assumption|]. split.
    + intros id. now rewrite H5, H2.
    + eapply incl_tran; eassumption.
Qed.

(** Witness for C1: scenario E after the two calls; the completion of the
    first task, a heartbeat and the passing of time leave the second task
    without a worker. *)
Lemma C1_witness :
  exists s s',
    run [Enqueue hello "key-1" 0; Enqueue hello "key-2" 0; Resume] scenarioE
    = Some s
    /\ suspended s = None
    /\ run [CompletionTimeout 1 0; Tick 5000;
            Heartbeat [(1 # 2, 1 # 2, 1 # 2)]] s = Some s'
    /\ load_of 0 s' = Some 0
    /\ assignedWorker_of 2 s' = Some None.
Proof.
  eexists. eexists. split; [vm_compute; reflexivity|].
  split; [reflexivity|]. split; [vm_compute; reflexivity|].
  split; [vm_compute; reflexivity|].
  match goal with
  | |- assignedWorker_of _ ?s' = _ =>
      match eval vm_compute in
            (run [Enqueue hello "key-1" 0; Enqueue hello "key-2" 0; Resume]
                 scenarioE) with
      | Some ?s =>
          assert (H : suspended s' = None
                      /\ (forall id, assignedWorker_of id s'
                                     = assignedWorker_of id s)
                      /\ incl (completionTimers s') (completionTimers s))
      end
  end.
  { apply (C1_only_enqueue_starts_a_pass _ _
             [CompletionTimeout 1 0; Tick 5000;
              Heartbeat [(1 # 2, 1 # 2, 1 # 2)]]).
    - reflexivity.
    - repeat constructor.
    - vm_compute. reflexivity. }
  destruct H as (_ & H & _). rewrite H. reflexivity.
Defined.

(** ** Selection of the worker *)

Section SortByKey.
Context {A : Type} (key : A -> Q).

(** The head of an array sorted by [key a - key b] is the first element,
    in the order of the array, whose key is least. *)
Lemma sort_by_key_head (l : list A) :
  l <> [] ->
  exists x before after,
    hd_error (Array_sort (fun a b => (key a - key b)%Q) l) = Some x
    /\ l = before ++ x :: after
    /\ (forall w, In w before -> (key x < key w)%Q)
    /\ (forall w, In w after -> (key x <= key w)%Q).
Proof.
  induction l as [|a l IH]; [congruence|]. intros _.
  destruct l as [|b l].
  - exists a, [], []. simpl. repeat split; intros w [].
  - destruct IH as (y & before & after & Hhd & Hl & Hb & Ha); [discriminate|].
    change (Array_sort (fun a0 b0 => (key a0 - key b0)%Q) (a :: b :: l))
      with (sort_insert (fun a0 b0 => (key a0 - key b0)%Q) a
              (Array_sort (fun a0 b0 => (key a0 - key b0)%Q) (b :: l))).
    destruct (Array_sort (fun a0 b0 => (key a0 - key b0)%Q) (b :: l))
      as [|y' t]; [discriminate|].
    simpl in Hhd. injection Hhd as ->. simpl.
    destruct (Qle_bool (key a - key y) 0) eqn:E.
    + apply Qle_bool_iff in E.
      exists a, [], (b :: l). simpl. split; [reflexivity|].
      split; [reflexivity|]. split; [intros w []|].
      intros w Hw. change (In w (b :: l)) in Hw.
      rewrite Hl in Hw. apply in_app_or in Hw.
      destruct Hw as [Hw|[<-|Hw]].
      * specialize (Hb w Hw). lra.
      * lra.
      * specialize (Ha w Hw). lra.
    + assert (Hlt : (key y < key a)%Q).
      { destruct (Qlt_le_dec (key y) (key a)) as [H|H]; [assumption|].
        assert (Hle : (key a - key y <= 0)%Q) by lra.
        apply Qle_bool_iff in Hle. congruence. }
      exists y, (a :: before), after. simpl. split; [reflexivity|].
      split; [now rewrite Hl|]. split; [|assumption].
      intros w [<-|Hw]; [assumption | now apply Hb].
Qed.
End SortByKey.

Lemma assignTaskToWorker_timers task worker s :
  completionTimers (TaskQueue.assignTaskToWorker task worker s)
  = completionTimers s ++ [(Task.id task, Worker.id worker)].
Proof.
  unfold TaskQueue.assignTaskToWorker, TaskQueue.simulateTaskProcessing. simpl.
  repeat first [ rewrite (proj2 (proj2 (updateTask_pass _ _ _)))
               | rewrite (proj2 (proj2 (updateWorker_pass _ _ _))) ].
  reflexivity.
Qed.

(** C6, the claim as stated fails, in two ways.  Scenario A: with three
    online workers without load, of capacities 2, 4 and 8, the three ratios
    are equal and the task goes to the worker registered first, the one of
    capacity 2 (its identifier, 1, is neither the least nor the greatest),
    not to the one of capacity 8.  And within one pass a worker
    is used once: with worker 1 at load 0 of 10 and worker 2 at load 9 of
    10, the second task of the pass goes to worker 2 (ratio 9/10) although
    worker 1 is then online at load 1 of 10. *)
Lemma C6_counterexample :
  (exists s,
      map load_view (TaskQueue.getAvailableWorkers scenarioA)
      = [(1%N, 0, 2); (0%N, 0, 4); (2%N, 0, 8)]
      /\ step (Enqueue hello "key-1" 0) scenarioA = Some s
      /\ assignedWorker_of 3 s = Some (Some 1%N)
      /\ assignedWorker_of 3 s <> Some (Some 2%N))
  /\ (exists s1 s2,
         step (Enqueue hello "key-1" 0) scenario_uneven = Some s1
         /\ assignedWorker_of 0 s1 = Some (Some 1%N)
         /\ map load_view (TaskQueue.getAvailableWorkers s1)
            = [(1%N, 1, 10); (2%N, 9, 10)]
         /\ step Resume s1 = Some s2
         /\ assignedWorker_of 3 s2 = Some (Some 2%N)).
Proof.
  split; [eexists | eexists; eexists]; scenario.
Qed.

(** From a non-empty array [selectBestWorker] returns the first worker, in
    the order of the array, whose ratio [currentLoad / maxCapacity] is
    least: every worker before it in the array has a strictly greater
    ratio, every worker after it a ratio at least as great.  The loop of a
    pass assigns its next task to that worker and parks. *)
Lemma selectBestWorker_first_least (pool : list Worker.WorkerNode)
    (task : Task.InferenceTask) :
  pool <> [] ->
  exists worker before after,
    snd (TaskQueue.selectBestWorker pool task) = Some worker
    /\ pool = before ++ worker :: after
    /\ (forall w, In w before -> (TaskQueue.ratio worker < TaskQueue.ratio w)%Q)
    /\ (forall w, In w after -> (TaskQueue.ratio worker <= TaskQueue.ratio w)%Q)
    /\ forall rest s,
         TaskQueue.processQueue_loop (task :: rest) pool s
         = set_suspended
             (Some {| frame_tasks := rest;
                      frame_pool := fst (TaskQueue.selectBestWorker pool task);
                      frame_worker := worker |})
             (TaskQueue.assignTaskToWorker task worker s).
Proof.
  intros Hne.
  destruct (sort_by_key_head TaskQueue.ratio pool Hne)
    as (worker & before & after & Hhd & Hpool & Hb & Ha).
  exists worker, before, after.
  assert (Hsel : TaskQueue.selectBestWorker pool task
                 = (Array_sort
                      (fun a b => (TaskQueue.ratio a - TaskQueue.ratio b)%Q)
                      pool, Some worker)).
  { unfold TaskQueue.selectBestWorker. destruct pool; [congruence|].
    now rewrite Hhd. }
  rewrite Hsel. simpl. repeat (split; [assumption || reflexivity|]).
  intros rest s. destruct pool as [|w0 pool']; [congruence|].
  now rewrite Hsel.
Qed.

(** ** The pending queue *)

Lemma values_set_present_map {V B : Type} (f : V -> B) k v v0 (m : list (N * V)) :
  JsMap.get k m = Some v0 -> f v = f v0 ->
  map f (JsMap.values (JsMap.set k v m)) = map f (JsMap.values m).
Proof.
  intros Hget Hf. induction m as [|[k' v'] m IH]; simpl in *; [discriminate|].
  destruct (N.eqb k k'); simpl.
  - injection Hget as ->. now rewrite Hf.
  - now rewrite IH.
Qed.

Lemma tasks_updated_shape m m' :
  tasks_updated m m' ->
  JsMap.keys m' = JsMap.keys m
  /\ map Task.createdAt (JsMap.values m') = map Task.createdAt (JsMap.values m).
Proof.
  intros H. induction H as [|m' id u existing H (IH1 & IH2) Hu Hget];
    [tauto|].
  split.
  - now rewrite (keys_set_present _ _ _ _ Hget).
  - rewrite (values_set_present_map Task.createdAt _ _ _ _ Hget); [assumption|].
    destruct Hu as (_ & _ & Hc & _). unfold Task.spread; simpl. now rewrite Hc.
Qed.

Lemma step_monotone e s s' :
  step e s = Some s' ->
  clock s <= clock s' /\ (uuid_supply s <= uuid_supply s')%N.
Proof.
  assert (Hreg : forall x, same_registry s x ->
            clock s <= clock x /\ (uuid_supply s <= uuid_supply x)%N).
  { intros x (_ & _ & _ & _ & -> & ->). lia. }
  destruct e; simpl.
  - intros H; injection H as <-. simpl. lia.
  - destruct (_ && _); [|discriminate].
    unfold WorkerManager.addWorker, WorkerManager.createWorker.
    destruct (nth_error _ _); simpl; [|discriminate].
    intros H; injection H as <-. simpl. lia.
  - intros H; injection H as <-. simpl. lia.
  - destruct (_ && _); [|discriminate].
    intros H; injection H as <-. apply Hreg, heartbeat_registry.
  - intros H; injection H as <-. unfold TaskQueue.enqueue. simpl.
    match goal with
    | |- context [TaskQueue.processQueue ?x] =>
        destruct (processQueue_registry x) as (_ & _ & _ & _ & -> & ->)
    end.
    simpl. lia.
  - destruct (suspended s) as [f|]; [|discriminate].
    intros H; injection H as <-. unfold TaskQueue.processQueue_resume.
    match goal with
    | |- context [TaskQueue.processQueue_loop ?a ?b ?x] =>
        destruct (processQueue_loop_registry a b x) as (_ & _ & _ & _ & -> & ->)
    end.
    simpl. lia.
  - intros H; injection H as <-. unfold TaskQueue.waitForCompletion. simpl.
    unfold Store.getTask. simpl. destruct (JsMap.get taskId (tasks s)) as [t|];
      [destruct (Task.status t)|]; simpl; lia.
  - destruct (_ && _); [|discriminate].
    intros H; injection H as <-. unfold TaskQueue.waitForCompletion_timeout.
    simpl. destruct (JsMap.has taskId (taskCallbacks s)); simpl; lia.
  - destruct (_ && _); [|discriminate].
    intros H; injection H as <-.
    match goal with
    | |- context [TaskQueue.simulateTaskProcessing_timeout _ _ ?y] =>
        destruct (completion_resolves taskId workerId y) as (x & -> & Hx)
    end.
    destruct Hx as (_ & _ & _ & _ & Hu & Hc). simpl in Hu, Hc.
    unfold TaskQueue.resolveTask.
    destruct (JsMap.get taskId (taskCallbacks x)); simpl; lia.
  - intros H; injection H as <-. unfold TaskQueue.resolveTask.
    destruct (JsMap.get taskId (taskCallbacks s)); simpl; lia.
  - intros H; injection H as <-. unfold TaskQueue.rejectTask.
    destruct (JsMap.get taskId (taskCallbacks s)); simpl; lia.
Qed.

Lemma StronglySorted_snoc (l : list Z) (c : Z) :
  StronglySorted Z.le l -> Forall (fun x => x <= c) l ->
  StronglySorted Z.le (l ++ [c]).
Proof.
  induction l as [|x l IH]; simpl; intros Hs Hc.
  - repeat constructor.
  - inversion Hs; subst. inversion Hc; subst. constructor; [auto|].
    apply Forall_app. split; [assumption | now repeat constructor].
Qed.

Lemma chronological_enqueue_stored payload apiKeyId priority s :
  chronological s -> chronological (enqueue_stored payload apiKeyId priority s).
Proof.
  intros (Hs & Hc & Hk). unfold chronological, enqueue_stored, Store.addTask,
    Store.getAllTasks in *. simpl.
  assert (Habs : JsMap.get (uuid_supply s) (tasks s) = None).
  { apply get_None_keys. intros Hin. rewrite Forall_forall in Hk.
    specialize (Hk _ Hin). lia. }
  rewrite (set_absent _ _ _ Habs). unfold JsMap.values, JsMap.keys.
  rewrite !map_app. simpl. split; [|split].
  - now apply StronglySorted_snoc.
  - apply Forall_app. split; [assumption | now repeat constructor].
  - apply Forall_app. split.
    + eapply Forall_impl; [|exact Hk]. simpl. intros k Hlt. lia.
    + repeat constructor. lia.
Qed.

Lemma chronological_updated s s' :
  tasks_updated (tasks s) (tasks s') ->
  clock s <= clock s' -> (uuid_supply s <= uuid_supply s')%N ->
  chronological s -> chronological s'.
Proof.
  intros Hu Hclock Hsupply (Hs & Hc & Hk).
  destruct (tasks_updated_shape _ _ Hu) as (Ekeys & Ecreated).
  unfold chronological, Store.getAllTasks in *. rewrite Ekeys, Ecreated.
  split; [assumption|]. split.
  - eapply Forall_impl; [|exact Hc]. simpl. intros c Hle. lia.
  - eapply Forall_impl; [|exact Hk]. simpl. intros k Hlt. lia.
Qed.

Lemma step_chronological e s s' :
  chronological s -> step e s = Some s' -> chronological s'.
Proof.
  intros Hs Hstep.
  pose proof (step_tasks e s s' Hstep) as Hu.
  destruct (step_monotone e s s' Hstep) as (Hclock & Hsupply).
  destruct e; try (now apply (chronological_updated s s' Hu)).
  apply (chronological_updated (enqueue_stored payload apiKeyId priority s) s').
  - exact Hu.
  - exact Hclock.
  - simpl in Hstep. injection Hstep as <-. unfold TaskQueue.enqueue. simpl.
    match goal with
    | |- context [TaskQueue.processQueue ?x] =>
        destruct (processQueue_registry x) as (_ & _ & _ & _ & -> & _)
    end.
    simpl. lia.
  - now apply chronological_enqueue_stored.
Qed.

Lemma reachable_chronological s : reachable s -> chronological s.
Proof.
  apply reachable_invariant.
  - repeat split; constructor.
  - intros e s1 s2. apply step_chronological.
Qed.







Lemma processQueue_loop_assign task rest w0 pool s worker sorted :
  Array_sort (fun a b => (TaskQueue.ratio a - TaskQueue.ratio b)%Q) (w0 :: pool)
  = worker :: sorted ->
  TaskQueue.processQueue_loop (task :: rest) (w0 :: pool) s
  = set_suspended
      (Some {| frame_tasks := rest; frame_pool := worker :: sorted;
               frame_worker := worker |})
      (TaskQueue.assignTaskToWorker task worker s).
Proof.
  intros Es.
  change (TaskQueue.processQueue_loop (task :: rest) (w0 :: pool) s)
    with (match TaskQueue.selectBestWorker (w0 :: pool) task with
          | (sorted0, Some worker0) =>
              set_suspended
                (Some {| frame_tasks := rest; frame_pool := sorted0;
                         frame_worker := worker0 |})
                (TaskQueue.assignTaskToWorker task worker0 s)
          | (sorted0, None) => TaskQueue.processQueue_loop rest sorted0 s
          end).
  unfold TaskQueue.selectBestWorker. now rewrite Es.
Qed.

(** A pass run to its end: the loop and as many continuations as it has
    assignments, one per task while tasks and workers last. *)
Lemma pass_order pendingTasks :
  forall availableWorkers s,
    suspended s = None ->
    let k := Nat.min (List.length pendingTasks) (List.length availableWorkers) in
    exists s',
      run (repeat Resume k)
          (TaskQueue.processQueue_loop pendingTasks availableWorkers s)
      = Some s'
      /\ suspended s' = None
      /\ processing s' = false
      /\ map fst (completionTimers s')
         = map fst (completionTimers s) ++ map Task.id (firstn k pendingTasks).
Proof.
  induction pendingTasks as [|task rest IH]; intros pool s Hidle.
  - exists (TaskQueue.processQueue_finally s). simpl.
    split; [reflexivity|]. split; [assumption|]. split; [reflexivity|].
    now rewrite app_nil_r.
  - destruct pool as [|w0 pool'].
    + exists (TaskQueue.processQueue_finally s). simpl.
      split; [reflexivity|]. split; [assumption|]. split; [reflexivity|].
      now rewrite app_nil_r.
    + pose proof (Array_sort_length
                    (fun a b => (TaskQueue.ratio a - TaskQueue.ratio b)%Q)
                    (w0 :: pool')) as Hlen.
      destruct (Array_sort
                  (fun a b => (TaskQueue.ratio a - TaskQueue.ratio b)%Q)
                  (w0 :: pool')) as [|worker sorted] eqn:Es;
        [discriminate Hlen|].
      simpl in Hlen. injection Hlen as Hlen.
      rewrite (processQueue_loop_assign task rest w0 pool' s worker sorted Es).
      change (Nat.min (List.length (task :: rest)) (List.length (w0 :: pool')))
        with (S (Nat.min (List.length rest) (List.length pool'))).
      cbv zeta.
      change (repeat Resume (S (Nat.min (List.length rest) (List.length pool'))))
        with (Resume :: repeat Resume (Nat.min (List.length rest) (List.length pool'))).
      change (firstn (S (Nat.min (List.length rest) (List.length pool')))
                     (task :: rest))
        with (task :: firstn (Nat.min (List.length rest) (List.length pool')) rest).
      set (s1 := TaskQueue.assignTaskToWorker task worker s).
      assert (Hstep : step Resume
                        (set_suspended
                           (Some {| frame_tasks := rest;
                                    frame_pool := worker :: sorted;
                                    frame_worker := worker |}) s1)
                      = Some (TaskQueue.processQueue_loop rest sorted
                                (set_suspended None s1))).
      { simpl. unfold TaskQueue.processQueue_resume. simpl.
        now rewrite N.eqb_refl. }
      destruct (IH sorted (set_suspended None s1) eq_refl)
        as (s' & Hrun & H1 & H2 & H3).
      rewrite Hlen in Hrun, H3.
      exists s'. split.
      { change (run (Resume :: ?es) ?x)
          with (match step Resume x with
                | Some y => run es y
                | None => None
                end).
        rewrite Hstep. exact Hrun. }
      split; [assumption|]. split; [assumption|].
      rewrite H3.
      change (completionTimers (set_suspended None s1))
        with (completionTimers s1).
      subst s1. rewrite assignTaskToWorker_timers.
      rewrite map_app, <- app_assoc. reflexivity.
Qed.




(** * Further properties of the dispatcher *)

(** ** More facts about maps and timers *)

Lemma In_get_NoDup {V : Type} (m : list (N * V)) k v :
  NoDup (JsMap.keys m) -> In (k, v) m -> JsMap.get k m = Some v.
Proof.
  intros Hnd Hin. destruct (JsMap.get k m) as [v'|] eqn:E.
  - apply get_In in E. now rewrite (NoDup_keys_In_eq m k v v' Hnd Hin E).
  - apply get_None_keys in E. exfalso. apply E.
    now apply (in_map fst) in Hin.
Qed.

Lemma get_delete_Some {V : Type} (m : list (N * V)) i k v :
  NoDup (JsMap.keys m) ->
  JsMap.get k (JsMap.delete i m) = Some v -> JsMap.get k m = Some v.
Proof.
  intros Hnd H. destruct (N.eq_dec k i) as [->|Hne].
  - rewrite get_delete_same in H by assumption. discriminate.
  - now rewrite get_delete_other in H.
Qed.

Lemma set_set {V : Type} (m : list (N * V)) k v1 v2 :
  JsMap.set k v2 (JsMap.set k v1 m) = JsMap.set k v2 m.
Proof.
  induction m as [|[k' v'] m IH]; simpl.
  - now rewrite N.eqb_refl.
  - destruct (N.eqb k k') eqn:E; simpl.
    + now rewrite N.eqb_refl.
    + now rewrite E, IH.
Qed.

Lemma get_set {V : Type} (m : list (N * V)) k k' v :
  JsMap.get k' (JsMap.set k v m)
  = if N.eqb k' k then Some v else JsMap.get k' m.
Proof.
  destruct (N.eqb_spec k' k) as [->|Hne].
  - apply get_set_same.
  - now apply get_set_other.
Qed.

(** Replacing the value of a present key changes a count by the two
    values only. *)
Lemma count_set {V : Type} (P : V -> bool) (m : list (N * V)) k v0 v :
  JsMap.get k m = Some v0 ->
  Z.of_nat (List.length (filter P (JsMap.values (JsMap.set k v m))))
  + (if P v0 then 1 else 0)
  = Z.of_nat (List.length (filter P (JsMap.values m)))
    + (if P v then 1 else 0).
Proof.
  induction m as [|[k' v'] m IH]; simpl; [discriminate|].
  destruct (N.eqb k k') eqn:E; simpl.
  - intros H; injection H as ->.
    destruct (P v0), (P v); simpl List.length; lia.
  - intros H. specialize (IH H).
    destruct (P v'); simpl List.length; lia.
Qed.

Lemma count_set_absent {V : Type} (P : V -> bool) (m : list (N * V)) k v :
  JsMap.get k m = None ->
  Z.of_nat (List.length (filter P (JsMap.values (JsMap.set k v m))))
  = Z.of_nat (List.length (filter P (JsMap.values m)))
    + (if P v then 1 else 0).
Proof.
  intros H. rewrite (set_absent k v m H). unfold JsMap.values.
  rewrite map_app, filter_app, length_app. simpl.
  destruct (P v); simpl; lia.
Qed.

Lemma timers_on_app k l t w :
  timers_on k (l ++ [(t, w)])
  = timers_on k l + (if N.eqb w k then 1 else 0).
Proof.
  unfold timers_on. rewrite filter_app, length_app. simpl.
  destruct (N.eqb w k); simpl; lia.
Qed.

Lemma timers_on_remove k l t w :
  In (t, w) l ->
  timers_on k (remove_timer (t, w) l)
  = timers_on k l - (if N.eqb w k then 1 else 0).
Proof.
  unfold timers_on. induction l as [|[t' w'] l IH]; simpl; [tauto|].
  intros Hin.
  destruct (N.eqb_spec t t') as [<-|Ht]; simpl.
  - destruct (N.eqb_spec w w') as [<-|Hw]; simpl.
    + destruct (N.eqb w k); simpl List.length; lia.
    + destruct Hin as [Heq|Hin]; [congruence|].
      specialize (IH Hin). destruct (N.eqb w' k); simpl List.length; lia.
  - destruct Hin as [Heq|Hin]; [congruence|].
    specialize (IH Hin). destruct (N.eqb w' k); simpl List.length; lia.
Qed.

Lemma remove_timer_keep x y l :
  In x l -> x <> y -> In x (remove_timer y l).
Proof.
  induction l as [|z l IH]; simpl; [tauto|].
  intros [->|Hin] Hne.
  - destruct (N.eqb_spec (fst y) (fst x)) as [E1|E1];
      destruct (N.eqb_spec (snd y) (snd x)) as [E2|E2]; simpl;
      try (now left).
    exfalso. apply Hne. destruct x, y. simpl in *. congruence.
  - destruct (_ && _); simpl; auto.
Qed.

Lemma remove_timer_NoDup_fst x l :
  NoDup (map fst l) -> NoDup (map fst (remove_timer x l)).
Proof.
  induction l as [|z l IH]; simpl; [auto|].
  intros Hnd. inversion Hnd as [|? ? Hnotin Hnd']; subst.
  destruct (_ && _); simpl; [assumption|].
  constructor; [|auto].
  intros Hin. apply Hnotin. apply in_map_iff in Hin.
  destruct Hin as (y & Hy & Hin). apply remove_timer_In in Hin.
  apply in_map_iff. now exists y.
Qed.

Lemma remove_timer_other_task t w t' w' l :
  NoDup (map fst l) -> In (t, w) l ->
  In (t', w') (remove_timer (t, w) l) -> t' <> t.
Proof.
  induction l as [|[a b] l IH]; simpl; [tauto|].
  intros Hnd Hin Hin'. inversion Hnd as [|? ? Hnotin Hnd']; subst.
  destruct (N.eqb_spec t a) as [<-|Ha]; simpl in Hin'.
  - destruct (N.eqb_spec w b) as [<-|Hb]; simpl in Hin'.
    + intros ->. apply Hnotin. now apply (in_map fst) in Hin'.
    + destruct Hin as [Heq|Hin]; [congruence|].
      exfalso. apply Hnotin. now apply (in_map fst) in Hin.
  - destruct Hin as [Heq|Hin]; [congruence|].
    destruct Hin' as [Heq|Hin']; [congruence|].
    now apply IH.
Qed.

(** ** The exact effect of the store updates *)

Lemma updateWorker_get k id u s :
  Store.getWorker k (Store.updateWorker id u s)
  = if N.eqb k id
    then option_map (fun e => Worker.spread e u) (Store.getWorker id s)
    else Store.getWorker k s.
Proof.
  unfold Store.getWorker, Store.updateWorker.
  destruct (JsMap.get id (workers s)) as [e|] eqn:E; simpl.
  - rewrite get_set. now destruct (N.eqb k id).
  - destruct (N.eqb_spec k id) as [->|]; [exact E | reflexivity].
Qed.

Lemma assignTaskToWorker_tasks task worker s :
  tasks (TaskQueue.assignTaskToWorker task worker s)
  = match JsMap.get (Task.id task) (tasks s) with
    | Some t0 =>
        JsMap.set (Task.id task)
          (started_task (Worker.id worker) (clock s) t0) (tasks s)
    | None => tasks s
    end.
Proof.
  unfold TaskQueue.assignTaskToWorker, TaskQueue.simulateTaskProcessing.
  cbn [tasks set_completionTimers].
  match goal with
  | |- tasks (Store.updateTask _ ?u2 (Store.updateWorker ?w ?uw
                (Store.updateTask _ ?u1 s))) = _ =>
      set (x := Store.updateWorker w uw (Store.updateTask (Task.id task) u1 s));
      assert (Hclock : clock x = clock s);
      [ subst x;
        destruct (updateWorker_registry w uw
                    (Store.updateTask (Task.id task) u1 s))
          as (_ & _ & _ & _ & _ & ->);
        apply (updateTask_registry (Task.id task) u1 s)
      | assert (Htasks : tasks x = tasks (Store.updateTask (Task.id task) u1 s))
          by (subst x; apply updateWorker_tasks) ]
  end.
  unfold Store.updateTask at 1. rewrite Htasks.
  unfold Store.updateTask.
  destruct (JsMap.get (Task.id task) (tasks s)) as [t0|] eqn:E;
    cbn [tasks set_tasks].
  - rewrite get_set_same. cbn [tasks set_tasks]. rewrite set_set, Hclock.
    reflexivity.
  - rewrite E. rewrite Htasks. unfold Store.updateTask. now rewrite E.
Qed.

Lemma assignTaskToWorker_workers task worker s :
  workers (TaskQueue.assignTaskToWorker task worker s)
  = match JsMap.get (Worker.id worker) (workers s) with
    | Some w0 =>
        JsMap.set (Worker.id worker)
          (with_load (Worker.currentLoad worker + 1) w0) (workers s)
    | None => workers s
    end.
Proof.
  unfold TaskQueue.assignTaskToWorker, TaskQueue.simulateTaskProcessing.
  cbn [workers set_completionTimers].
  rewrite updateTask_workers. unfold Store.updateWorker.
  rewrite updateTask_workers.
  destruct (JsMap.get (Worker.id worker) (workers s)) as [w0|];
    cbn [workers set_workers]; [reflexivity|].
  apply updateTask_workers.
Qed.

Lemma assignTaskToWorker_pass task worker s :
  suspended (TaskQueue.assignTaskToWorker task worker s) = suspended s
  /\ processing (TaskQueue.assignTaskToWorker task worker s) = processing s.
Proof.
  unfold TaskQueue.assignTaskToWorker, TaskQueue.simulateTaskProcessing.
  cbn [suspended processing set_completionTimers].
  repeat first [ rewrite (proj1 (updateTask_pass _ _ _))
               | rewrite (proj1 (proj2 (updateTask_pass _ _ _)))
               | rewrite (proj1 (updateWorker_pass _ _ _))
               | rewrite (proj1 (proj2 (updateWorker_pass _ _ _))) ].
  split; reflexivity.
Qed.

Lemma completion_tasks_exact taskId workerId s :
  tasks (TaskQueue.simulateTaskProcessing_timeout taskId workerId s)
  = match JsMap.get taskId (tasks s) with
    | Some t0 => JsMap.set taskId (completed_task (clock s) t0) (tasks s)
    | None => tasks s
    end.
Proof.
  unfold TaskQueue.simulateTaskProcessing_timeout.
  match goal with
  | |- tasks (TaskQueue.resolveTask ?a ?b ?x) = _ =>
      rewrite (proj1 (resolveTask_store a b x))
  end.
  match goal with
  | |- tasks (match ?x with _ => _ end) = _ => destruct x
  end; [rewrite updateWorker_tasks|];
    unfold Store.updateTask;
    destruct (JsMap.get taskId (tasks s)); reflexivity.
Qed.

Lemma completion_workers_exact taskId workerId s :
  workers (TaskQueue.simulateTaskProcessing_timeout taskId workerId s)
  = match JsMap.get workerId (workers s) with
    | Some w0 =>
        JsMap.set workerId
          (with_load (Z.max 0 (Worker.currentLoad w0 - 1)) w0) (workers s)
    | None => workers s
    end.
Proof.
  unfold TaskQueue.simulateTaskProcessing_timeout.
  match goal with
  | |- workers (TaskQueue.resolveTask ?a ?b ?x) = _ =>
      rewrite (proj1 (proj2 (resolveTask_store a b x)))
  end.
  unfold Store.getWorker. rewrite updateTask_workers.
  destruct (JsMap.get workerId (workers s)) as [w0|] eqn:E.
  - unfold Store.updateWorker. rewrite updateTask_workers, E. reflexivity.
  - apply updateTask_workers.
Qed.

(** ** The life-cycle invariant *)

Lemma task_ok_mono s s' k t :
  (uuid_supply s <= uuid_supply s')%N -> clock s <= clock s' ->
  task_ok s k t -> task_ok s' k t.
Proof.
  unfold task_ok. intros Hs Hc (H1 & H2 & H3 & H4).
  split; [assumption|]. split; [lia|]. split; [lia|].
  destruct (Task.status t); try assumption.
  - destruct H4 as (w & a & Ha & Hb & Hd & He). exists w, a.
    repeat split; try assumption; lia.
  - destruct H4 as (w & a & c & Ha & Hb & Hd & He & Hf). exists w, a, c.
    repeat split; try assumption; lia.
Qed.

Lemma core_inv_mono s s' :
  tasks s' = tasks s -> workers s' = workers s ->
  completionTimers s' = completionTimers s ->
  (uuid_supply s <= uuid_supply s')%N -> clock s <= clock s' ->
  core_inv s -> core_inv s'.
Proof.
  intros Et Ew Ec Hs Hc (Hnd & Htask & Hndt & Htim & Harm & Hload & Hacc).
  unfold core_inv, processing_on, Store.getAllTasks. rewrite Et, Ew, Ec.
  split; [assumption|]. split.
  { intros k t Hg. eapply task_ok_mono; eauto. }
  split; [assumption|]. split.
  { intros t w Hin. destruct (Htim t w Hin) as (H1 & H2). split; [lia | exact H2]. }
  split; [assumption|]. split; assumption.
Qed.

Lemma pass_ok_mono s s' ts pool a :
  tasks s' = tasks s -> workers s' = workers s ->
  (uuid_supply s <= uuid_supply s')%N ->
  pass_ok s ts pool a -> pass_ok s' ts pool a.
Proof.
  intros Et Ew Hs (H1 & H2 & H3 & H4). unfold pass_ok. rewrite Et, Ew.
  split; [assumption|]. split; [assumption|]. split; [assumption|].
  intros w Hin. destruct (H4 w Hin) as (Ha & Hb). split; [lia | exact Hb].
Qed.

Lemma timers_on_nonneg k l : 0 <= timers_on k l.
Proof. unfold timers_on. lia. Qed.

Lemma timers_on_fresh k l :
  (forall t w, In (t, w) l -> w <> k) -> timers_on k l = 0.
Proof.
  unfold timers_on. induction l as [|[t w] l IH]; simpl; intros H; [reflexivity|].
  destruct (N.eqb_spec w k) as [E|E].
  - exfalso. apply (H t w); [now left | exact E].
  - apply IH. intros t' w' Hin. apply (H t' w'). now right.
Qed.

Lemma in_flight_on_started k wid now t :
  in_flight_on k (started_task wid now t) = N.eqb wid k.
Proof. reflexivity. Qed.

Lemma core_inv_assign task worker s t0 :
  core_inv s ->
  JsMap.get (Task.id task) (tasks s) = Some t0 ->
  Task.status t0 = Task.pending ->
  (Worker.id worker < uuid_supply s)%N ->
  (forall w', JsMap.get (Worker.id worker) (workers s) = Some w' ->
              Worker.currentLoad w' = Worker.currentLoad worker) ->
  core_inv (TaskQueue.assignTaskToWorker task worker s).
Proof.
  intros (Hnd & Htask & Hndt & Htim & Harm & Hload & Hacc) Hget Hpend Hwid Hsame.
  set (tid := Task.id task) in *. set (wid := Worker.id worker) in *.
  assert (Hreg := assignTaskToWorker_registry task worker s).
  destruct Hreg as (_ & _ & _ & _ & Hsup & Hclk).
  assert (Hnot : forall w, ~ In (tid, w) (completionTimers s)).
  { intros w Hin. destruct (Htim tid w Hin) as (_ & task' & Hg & Hs & _).
    congruence. }
  destruct (Htask tid t0 Hget) as (Hid & Hk & Hcr & Hshape).
  rewrite Hpend in Hshape. destruct Hshape as (Ha0 & Hs0 & Hc0).
  unfold core_inv, processing_on, Store.getAllTasks.
  rewrite assignTaskToWorker_tasks, assignTaskToWorker_workers,
    assignTaskToWorker_timers, Hsup.
  fold tid wid. rewrite Hget.
  split; [now apply NoDup_keys_set|]. split.
  { intros k t Hg. apply (task_ok_mono s); [lia | lia |].
    rewrite get_set in Hg.
    destruct (N.eqb_spec k tid) as [->|Hne]; [|now apply Htask].
    injection Hg as <-. unfold task_ok. simpl.
    split; [assumption|]. split; [assumption|]. split; [assumption|].
    exists wid, (clock s). repeat split; try assumption; lia. }
  split.
  { rewrite map_app. simpl. apply NoDup_app; [assumption | repeat constructor; simpl; tauto|].
    intros x Hx [<-|[]]. apply in_map_iff in Hx.
    destruct Hx as ([a b] & Hab & Hin). simpl in Hab. subst a.
    exact (Hnot b Hin). }
  split.
  { intros t w Hin. apply in_app_or in Hin. destruct Hin as [Hin|[Heq|[]]].
    - destruct (Htim t w Hin) as (H1 & task' & Hg & Hs & Haw).
      split; [assumption|]. exists task'. rewrite get_set.
      destruct (N.eqb_spec t tid) as [->|Hne]; [|tauto].
      exfalso. exact (Hnot w Hin).
    - injection Heq as <- <-. split; [assumption|].
      exists (started_task wid (clock s) t0). rewrite get_set_same.
      repeat split. }
  split.
  { intros k t Hg Hs. rewrite get_set in Hg.
    destruct (N.eqb_spec k tid) as [->|Hne].
    - exists wid. apply in_or_app. right. now left.
    - destruct (Harm k t Hg Hs) as (w & Hin). exists w.
      apply in_or_app. now left. }
  split.
  { intros k w Hg. rewrite timers_on_app.
    destruct (JsMap.get wid (workers s)) as [w0|] eqn:Ew.
    - rewrite get_set in Hg. destruct (N.eqb_spec k wid) as [->|Hne].
      + injection Hg as <-. simpl. rewrite N.eqb_refl.
        rewrite <- (Hload wid w0 Ew), (Hsame w0 eq_refl). reflexivity.
      + rewrite (Hload k w Hg).
        destruct (N.eqb_spec wid k); [congruence | lia].
    - rewrite (Hload k w Hg).
      destruct (N.eqb_spec wid k) as [E|E]; [|lia].
      rewrite E in Ew. congruence. }
  intros k. rewrite timers_on_app, Hacc. unfold processing_on, Store.getAllTasks.
  pose proof (count_set (in_flight_on k) (tasks s) tid t0
                (started_task wid (clock s) t0) Hget) as Hc.
  rewrite in_flight_on_started in Hc.
  assert (Hb : in_flight_on k t0 = false)
    by (unfold in_flight_on; now rewrite Hpend).
  rewrite Hb in Hc. lia.
Qed.

Lemma completion_supply_clock taskId workerId s :
  uuid_supply (TaskQueue.simulateTaskProcessing_timeout taskId workerId s)
  = uuid_supply s
  /\ clock (TaskQueue.simulateTaskProcessing_timeout taskId workerId s) = clock s.
Proof.
  destruct (completion_resolves taskId workerId s)
    as (x & -> & (_ & _ & _ & _ & Hs & Hc)).
  unfold TaskQueue.resolveTask.
  destruct (JsMap.get taskId (taskCallbacks x)); simpl; now rewrite Hs, Hc.
Qed.

Lemma core_inv_completion taskId workerId s :
  core_inv s ->
  In (taskId, workerId) (completionTimers s) ->
  core_inv
    (TaskQueue.simulateTaskProcessing_timeout taskId workerId
       (set_completionTimers
          (remove_timer (taskId, workerId) (completionTimers s)) s)).
Proof.
  intros (Hnd & Htask & Hndt & Htim & Harm & Hload & Hacc) Hin.
  destruct (Htim taskId workerId Hin) as (Hw & task0 & Hget & Hst & Haw).
  set (x := set_completionTimers
              (remove_timer (taskId, workerId) (completionTimers s)) s).
  destruct (completion_supply_clock taskId workerId x) as (Hsup & Hclk).
  destruct (completion_pass taskId workerId x) as (_ & _ & Htimers).
  change (uuid_supply x) with (uuid_supply s) in Hsup.
  change (clock x) with (clock s) in Hclk.
  change (completionTimers x)
    with (remove_timer (taskId, workerId) (completionTimers s)) in Htimers.
  unfold core_inv, processing_on, Store.getAllTasks.
  rewrite completion_tasks_exact, completion_workers_exact, Htimers, Hsup.
  change (tasks x) with (tasks s). change (workers x) with (workers s).
  change (clock x) with (clock s).
  rewrite Hget.
  pose proof (timers_on_remove workerId _ _ _ Hin) as Hrem.
  rewrite N.eqb_refl in Hrem.
  split; [now apply NoDup_keys_set|]. split.
  { intros k t Hg. apply (task_ok_mono s); [lia | lia |].
    rewrite get_set in Hg.
    destruct (N.eqb_spec k taskId) as [->|Hne]; [|now apply Htask].
    injection Hg as <-.
    destruct (Htask taskId task0 Hget) as (Hid & Hk & Hcr & Hshape).
    rewrite Hst in Hshape. destruct Hshape as (w & a & H1 & H2 & H3 & H4).
    unfold task_ok. simpl.
    split; [assumption|]. split; [assumption|]. split; [assumption|].
    exists w, a, (clock s). repeat split; try assumption; lia. }
  split; [now apply remove_timer_NoDup_fst|].
  split.
  { intros t w Hin'.
    pose proof (remove_timer_other_task _ _ _ _ _ Hndt Hin Hin') as Hne.
    apply remove_timer_In in Hin'.
    destruct (Htim t w Hin') as (H1 & task' & Hg & Hs & Ha).
    split; [assumption|]. exists task'.
    rewrite get_set_other by assumption. tauto. }
  split.
  { intros k t Hg Hs. rewrite get_set in Hg.
    destruct (N.eqb_spec k taskId) as [->|Hne].
    - injection Hg as <-. discriminate Hs.
    - destruct (Harm k t Hg Hs) as (w & Hin'). exists w.
      apply remove_timer_keep; [assumption | congruence]. }
  split.
  { intros k w Hg.
    destruct (JsMap.get workerId (workers s)) as [w0|] eqn:Ew.
    - rewrite get_set in Hg. destruct (N.eqb_spec k workerId) as [->|Hne].
      + injection Hg as <-. simpl. rewrite Hrem, (Hload workerId w0 Ew).
        pose proof (timers_on_nonneg workerId
                      (remove_timer (taskId, workerId) (completionTimers s))).
        lia.
      + rewrite (timers_on_remove k _ _ _ Hin), (Hload k w Hg).
        destruct (N.eqb_spec workerId k); [congruence | lia].
    - rewrite (timers_on_remove k _ _ _ Hin), (Hload k w Hg).
      destruct (N.eqb_spec workerId k) as [E|E]; [|lia].
      rewrite E in Ew. congruence. }
  intros k. rewrite (timers_on_remove k _ _ _ Hin), Hacc.
  unfold processing_on, Store.getAllTasks.
  pose proof (count_set (in_flight_on k) (tasks s) taskId task0
                (completed_task (clock s) task0) Hget) as Hc.
  assert (Hb0 : in_flight_on k task0 = N.eqb workerId k)
    by (unfold in_flight_on; now rewrite Hst, Haw).
  assert (Hb1 : in_flight_on k (completed_task (clock s) task0) = false)
    by reflexivity.
  rewrite Hb0, Hb1 in Hc. lia.
Qed.

Lemma core_inv_fresh_task s :
  core_inv s -> JsMap.get (uuid_supply s) (tasks s) = None.
Proof.
  intros (_ & Htask & _).
  destruct (JsMap.get (uuid_supply s) (tasks s)) as [t|] eqn:E; [|reflexivity].
  destruct (Htask _ _ E) as (_ & Hlt & _). lia.
Qed.

Lemma core_inv_enqueue_stored payload apiKeyId priority s :
  core_inv s -> core_inv (enqueue_stored payload apiKeyId priority s).
Proof.
  intros Hs. pose proof (core_inv_fresh_task s Hs) as Hfresh.
  destruct Hs as (Hnd & Htask & Hndt & Htim & Harm & Hload & Hacc).
  unfold core_inv, processing_on, Store.getAllTasks, enqueue_stored,
    Store.addTask.
  cbn [tasks workers completionTimers uuid_supply set_tasks uuidv4 snd
       set_uuid_supply enqueued_task Task.id].
  split; [now apply NoDup_keys_set|]. split.
  { intros k t Hg. rewrite get_set in Hg.
    destruct (N.eqb_spec k (uuid_supply s)) as [->|Hne].
    - injection Hg as <-. unfold task_ok. simpl.
      split; [reflexivity|]. split; [lia|]. split; [lia|]. tauto.
    - eapply task_ok_mono; [| |now apply Htask]; simpl; lia. }
  split; [assumption|]. split.
  { intros t w Hin. destruct (Htim t w Hin) as (H1 & task' & Hg & Hs & Ha).
    split; [lia|]. exists task'. rewrite get_set.
    destruct (N.eqb_spec t (uuid_supply s)) as [->|Hne]; [congruence | tauto]. }
  split.
  { intros k t Hg Hs. rewrite get_set in Hg.
    destruct (N.eqb_spec k (uuid_supply s)) as [->|Hne].
    - injection Hg as <-. discriminate Hs.
    - now apply (Harm k t). }
  split; [assumption|].
  intros k. rewrite Hacc. unfold processing_on, Store.getAllTasks.
  rewrite (count_set_absent (in_flight_on k) (tasks s) (uuid_supply s) _ Hfresh).
  simpl. lia.
Qed.

Lemma core_inv_createWorker hostname r1 r2 r3 s worker s' :
  WorkerManager.createWorker hostname r1 r2 r3 s = Some (worker, s') ->
  core_inv s -> core_inv s'.
Proof.
  unfold WorkerManager.createWorker.
  destruct (nth_error _ _) as [gpuModel|]; [|discriminate].
  simpl. intros H (Hnd & Htask & Hndt & Htim & Harm & Hload & Hacc).
  injection H as <- <-.
  unfold core_inv, processing_on, Store.getAllTasks. simpl.
  split; [assumption|]. split.
  { intros k t Hg. eapply task_ok_mono; [| |now apply Htask]; simpl; lia. }
  split; [assumption|]. split.
  { intros t w Hin. destruct (Htim t w Hin) as (H1 & H2). split; [lia | exact H2]. }
  split; [assumption|]. split; [|assumption].
  intros k w Hg. rewrite get_set in Hg.
  destruct (N.eqb_spec k (uuid_supply s)) as [->|Hne]; [|now apply Hload].
  injection Hg as <-. simpl. symmetry. apply timers_on_fresh.
  intros t w Hin. destruct (Htim t w Hin) as (H1 & _). lia.
Qed.

Lemma core_inv_removeWorker id s :
  NoDup (JsMap.keys (workers s)) ->
  core_inv s -> core_inv (snd (WorkerManager.removeWorker id s)).
Proof.
  intros Hndw (Hnd & Htask & Hndt & Htim & Harm & Hload & Hacc).
  unfold core_inv, processing_on, Store.getAllTasks. simpl.
  repeat (split; [assumption|]). split; [|assumption].
  intros k w Hg. apply Hload. now apply (get_delete_Some _ id).
Qed.

Lemma heartbeat_load draws s k :
  option_map Worker.currentLoad (Store.getWorker k (WorkerManager.heartbeat draws s))
  = option_map Worker.currentLoad (Store.getWorker k s).
Proof.
  unfold WorkerManager.heartbeat.
  generalize (combine (WorkerManager.getAllWorkers s) draws) as l.
  intros l. revert s. induction l as [|[w d] l IH]; intros s; simpl.
  - reflexivity.
  - rewrite IH. unfold WorkerManager.heartbeat_worker. destruct d as [[a b] c].
    rewrite updateWorker_get.
    destruct (N.eqb_spec k (Worker.id w)) as [->|]; [|reflexivity].
    now destruct (Store.getWorker (Worker.id w) s).
Qed.

Lemma core_inv_heartbeat draws s :
  core_inv s -> core_inv (WorkerManager.heartbeat draws s).
Proof.
  intros (Hnd & Htask & Hndt & Htim & Harm & Hload & Hacc).
  destruct (heartbeat_registry draws s) as (_ & _ & _ & _ & Hsup & Hclk).
  destruct (heartbeat_pass draws s) as (_ & _ & Htimers).
  unfold core_inv, processing_on, Store.getAllTasks.
  rewrite heartbeat_tasks, Htimers, Hsup.
  split; [assumption|]. split.
  { intros k t Hg. apply (task_ok_mono s); [lia | lia | now apply Htask]. }
  repeat (split; [assumption|]). split; [|assumption].
  intros k w Hg.
  pose proof (heartbeat_load draws s k) as Hl.
  unfold Store.getWorker in Hl. rewrite Hg in Hl. simpl in Hl.
  destruct (JsMap.get k (workers s)) as [w0|] eqn:E; [|discriminate].
  simpl in Hl. injection Hl as Hl. rewrite Hl. now apply Hload.
Qed.

(** ** What a pass holds *)

Lemma sort_insert_perm {A : Type} (cmp : A -> A -> Q) x l :
  Permutation (sort_insert cmp x l) (x :: l).
Proof.
  induction l as [|y l IH]; simpl; [reflexivity|].
  destruct (Qle_bool (cmp x y) 0); [reflexivity|].
  rewrite IH. apply perm_swap.
Qed.

Lemma Array_sort_perm {A : Type} (cmp : A -> A -> Q) l :
  Permutation (Array_sort cmp l) l.
Proof.
  induction l as [|x l IH]; simpl; [reflexivity|].
  rewrite sort_insert_perm. now apply perm_skip.
Qed.

Lemma NoDup_map_sort {A B : Type} (f : A -> B) (cmp : A -> A -> Q) l :
  NoDup (map f l) -> NoDup (map f (Array_sort cmp l)).
Proof.
  intros H. eapply Permutation_NoDup; [|exact H].
  apply Permutation_map. symmetry. apply Array_sort_perm.
Qed.

Lemma NoDup_map_filter {A B : Type} (f : A -> B) (g : A -> bool) l :
  NoDup (map f l) -> NoDup (map f (filter g l)).
Proof.
  induction l as [|x l IH]; simpl; [auto|].
  intros H. inversion H as [|? ? Hnotin H']; subst.
  destruct (g x); simpl; [|auto].
  constructor; [|auto]. intros Hin. apply Hnotin.
  apply in_map_iff in Hin. destruct Hin as (y & Hy & Hin).
  apply filter_In in Hin. apply in_map_iff. exists y. tauto.
Qed.

Lemma NoDup_map_injective {A B : Type} (f : A -> B) l a b :
  NoDup (map f l) -> In a l -> In b l -> f a = f b -> a = b.
Proof.
  induction l as [|x l IH]; simpl; [tauto|].
  intros H. inversion H as [|? ? Hnotin H']; subst.
  intros [->|Ha] [->|Hb] Heq; auto.
  - exfalso. apply Hnotin. rewrite Heq. now apply in_map.
  - exfalso. apply Hnotin. rewrite <- Heq. now apply in_map.
Qed.

Lemma splice_worker_NoDup id l :
  NoDup (map Worker.id l) -> NoDup (map Worker.id (TaskQueue.splice_worker id l)).
Proof.
  induction l as [|x l IH]; simpl; [auto|].
  intros H. inversion H as [|? ? Hnotin H']; subst.
  destruct (N.eqb (Worker.id x) id); simpl; [assumption|].
  constructor; [|auto]. intros Hin. apply Hnotin.
  apply in_map_iff in Hin. destruct Hin as (y & Hy & Hin).
  apply splice_worker_In in Hin. apply in_map_iff. now exists y.
Qed.

Lemma splice_worker_other id l w :
  NoDup (map Worker.id l) -> In w (TaskQueue.splice_worker id l) ->
  Worker.id w <> id.
Proof.
  induction l as [|x l IH]; simpl; [tauto|].
  intros H. inversion H as [|? ? Hnotin H']; subst.
  destruct (N.eqb_spec (Worker.id x) id) as [E|E]; simpl.
  - intros Hin Heq. apply Hnotin. rewrite E, <- Heq. now apply in_map.
  - intros [<-|Hin]; [assumption | now apply IH].
Qed.

Lemma values_keys_map {V : Type} (f : V -> N) (m : list (N * V)) :
  (forall k v, In (k, v) m -> f v = k) -> map f (JsMap.values m) = JsMap.keys m.
Proof.
  induction m as [|[k v] m IH]; simpl; intros H; [reflexivity|].
  rewrite (H k v) by now left. f_equal. apply IH. intros k' v' Hin.
  apply H. now right.
Qed.

Lemma pass_ok_sorted s ts pool sorted a :
  (forall w, In w sorted <-> In w pool) ->
  NoDup (map Worker.id sorted) ->
  pass_ok s ts pool a -> pass_ok s ts sorted a.
Proof.
  intros Hiff Hnd (H1 & H2 & _ & H4).
  split; [assumption|]. split; [assumption|]. split; [assumption|].
  intros w Hin. apply H4. now apply Hiff.
Qed.

Lemma processQueue_loop_cons task rest w0 pool s :
  TaskQueue.processQueue_loop (task :: rest) (w0 :: pool) s
  = match TaskQueue.selectBestWorker (w0 :: pool) task with
    | (sorted, Some worker) =>
        set_suspended
          (Some {| frame_tasks := rest; frame_pool := sorted;
                   frame_worker := worker |})
          (TaskQueue.assignTaskToWorker task worker s)
    | (sorted, None) => TaskQueue.processQueue_loop rest sorted s
    end.
Proof. reflexivity. Qed.

Lemma selectBestWorker_NoDup pool task sorted worker :
  TaskQueue.selectBestWorker pool task = (sorted, worker) ->
  NoDup (map Worker.id pool) -> NoDup (map Worker.id sorted).
Proof.
  unfold TaskQueue.selectBestWorker. destruct pool as [|x pool].
  - intros H; injection H as <- _. auto.
  - intros H Hnd; injection H as <- _.
    exact (NoDup_map_sort Worker.id
             (fun a b => (TaskQueue.ratio a - TaskQueue.ratio b)%Q)
             (x :: pool) Hnd).
Qed.

Lemma processQueue_loop_lifecycle pendingTasks :
  forall availableWorkers s,
    core_inv s -> processing s = true -> suspended s = None ->
    pass_ok s pendingTasks availableWorkers None ->
    lifecycle_inv
      (TaskQueue.processQueue_loop pendingTasks availableWorkers s).
Proof.
  induction pendingTasks as [|task rest IH]; intros pool s Hcore Hproc Hidle Hpass.
  - split; [now apply (core_inv_mono s)|]. simpl. now rewrite Hidle.
  - destruct pool as [|w0 pool'].
    { split; [now apply (core_inv_mono s)|]. simpl. now rewrite Hidle. }
    rewrite processQueue_loop_cons.
    destruct (TaskQueue.selectBestWorker (w0 :: pool') task)
      as [sorted [worker|]] eqn:E;
      destruct (selectBestWorker_In _ _ _ _ E) as (Hsorted & Hworker).
    + specialize (Hworker worker eq_refl).
      assert (Hnds : NoDup (map Worker.id sorted)).
      { apply (selectBestWorker_NoDup _ _ _ _ E). apply Hpass. }
      destruct Hpass as (Hndt & Hpend & Hndw & Hpool).
      destruct (Hpend task (or_introl eq_refl)) as (t0 & Hget & Hst).
      destruct (Hpool worker Hworker) as (Hwid & Hwload).
      assert (Hcore' : core_inv (TaskQueue.assignTaskToWorker task worker s)).
      { apply (core_inv_assign task worker s t0); try assumption.
        intros w' Hw'. rewrite (Hwload w' Hw'). lia. }
      destruct (assignTaskToWorker_pass task worker s) as (_ & Hp).
      destruct (assignTaskToWorker_registry task worker s)
        as (_ & _ & _ & _ & Hsup & _).
      split.
      { apply (core_inv_mono (TaskQueue.assignTaskToWorker task worker s));
          try reflexivity; try assumption;
          first [apply N.le_refl | apply Z.le_refl]. }
      cbn [suspended processing set_suspended frame_tasks frame_pool
           frame_worker].
      split; [now rewrite Hp|].
      apply (pass_ok_mono (TaskQueue.assignTaskToWorker task worker s));
        [reflexivity | reflexivity | apply N.le_refl |].
      inversion Hndt as [|? ? Hnotin Hndt']; subst.
      split; [assumption|]. split.
      { intros t Hin. destruct (Hpend t (or_intror Hin)) as (t' & Hg & Hs).
        exists t'. split; [|assumption].
        rewrite assignTaskToWorker_tasks, Hget, get_set_other; [assumption|].
        intros Heq. apply Hnotin. rewrite <- Heq. now apply in_map. }
      split; [assumption|].
      intros w Hin. apply Hsorted in Hin.
      destruct (Hpool w Hin) as (Hlt & Hload).
      split; [now rewrite Hsup|].
      intros w'. rewrite assignTaskToWorker_workers.
      destruct (N.eqb_spec (Worker.id w) (Worker.id worker)) as [Heq|Hne].
      * assert (w = worker)
          by (apply (NoDup_map_injective Worker.id (w0 :: pool')); assumption).
        subst w.
        destruct (JsMap.get (Worker.id worker) (workers s)) as [w00|] eqn:Ew.
        -- rewrite get_set_same. intros H; injection H as <-. reflexivity.
        -- rewrite Ew. discriminate.
      * destruct (JsMap.get (Worker.id worker) (workers s)) as [w00|] eqn:Ew.
        -- rewrite get_set_other by assumption. intros Hg.
           rewrite (Hload w' Hg). lia.
        -- intros Hg. rewrite (Hload w' Hg). lia.
    + apply IH; try assumption.
      assert (Hnds : NoDup (map Worker.id sorted)).
      { apply (selectBestWorker_NoDup _ _ _ _ E). apply Hpass. }
      apply (pass_ok_sorted s rest (w0 :: pool') sorted None Hsorted Hnds).
      destruct Hpass as (Hndt & Hpend & Hndw & Hpool).
      inversion Hndt; subst.
      split; [assumption|]. split; [|split; assumption].
      intros t Hin. apply Hpend. now right.
Qed.

(** The tasks and workers a pass reads at its start. *)
Lemma pass_ok_start s :
  core_inv s -> registry_inv s ->
  pass_ok s (Store.getPendingTasks s) (TaskQueue.getAvailableWorkers s) None.
Proof.
  intros (Hnd & Htask & _) (Hndw & Hw & _).
  assert (Hids : map Task.id (JsMap.values (tasks s)) = JsMap.keys (tasks s)).
  { apply values_keys_map. intros k v Hin.
    apply (Htask k v). now apply In_get_NoDup. }
  assert (Hwids : map Worker.id (JsMap.values (workers s)) = JsMap.keys (workers s)).
  { apply values_keys_map. intros k v Hin. apply (Hw k v Hin). }
  unfold Store.getPendingTasks, TaskQueue.getAvailableWorkers,
    Store.getOnlineWorkers, Store.getAllWorkers.
  split; [|split; [|split]].
  - apply NoDup_map_sort, NoDup_map_filter. now rewrite Hids.
  - intros t Hin. apply Array_sort_In in Hin. apply filter_In in Hin.
    destruct Hin as (Hin & Hst). apply In_values_key in Hin.
    destruct Hin as (k & Hin). pose proof (In_get_NoDup _ _ _ Hnd Hin) as Hg.
    destruct (Htask k t Hg) as (Hid & _). exists t. rewrite Hid.
    split; [assumption|]. now destruct (Task.status t).
  - apply NoDup_map_filter, NoDup_map_filter. now rewrite Hwids.
  - intros w Hin. apply filter_In in Hin. destruct Hin as (Hin & _).
    apply filter_In in Hin. destruct Hin as (Hin & _).
    apply In_values_key in Hin. destruct Hin as (k & Hin).
    destruct (Hw k w Hin) as (Hid & Hlt & _). rewrite Hid.
    split; [assumption|]. intros w' Hg.
    rewrite (In_get_NoDup _ _ _ Hndw Hin) in Hg. injection Hg as <-. lia.
Qed.

Lemma lifecycle_inv_processQueue s :
  lifecycle_inv s -> registry_inv s ->
  lifecycle_inv (TaskQueue.processQueue s).
Proof.
  intros Hinv Hreg. unfold TaskQueue.processQueue.
  destruct (processing s) eqn:Hp; [exact Hinv|].
  destruct Hinv as (Hcore & Hframe).
  destruct (suspended s) as [f|] eqn:Hs; [destruct Hframe; congruence|].
  apply processQueue_loop_lifecycle; try reflexivity; try assumption.
  exact (pass_ok_start s Hcore Hreg).
Qed.

(** A parked pass is not disturbed by what does not write tasks or loads. *)
Lemma lifecycle_inv_ext s s' :
  tasks s' = tasks s -> workers s' = workers s ->
  completionTimers s' = completionTimers s ->
  suspended s' = suspended s -> processing s' = processing s ->
  (uuid_supply s <= uuid_supply s')%N -> clock s <= clock s' ->
  lifecycle_inv s -> lifecycle_inv s'.
Proof.
  intros Et Ew Ec Es Ep Hs Hc (Hcore & Hframe).
  split; [now apply (core_inv_mono s)|].
  rewrite Es, Ep. destruct (suspended s) as [f|]; [|assumption].
  destruct Hframe as (H1 & H2). split; [assumption|].
  now apply (pass_ok_mono s).
Qed.

Lemma step_lifecycle_inv e s s' :
  registry_inv s -> lifecycle_inv s -> step e s = Some s' -> lifecycle_inv s'.
Proof.
  intros Hreg Hinv. destruct e; simpl.
  - intros H; injection H as <-.
    apply (lifecycle_inv_ext s); try reflexivity; try assumption;
      simpl; lia.
  - destruct (_ && _); [|discriminate].
    unfold WorkerManager.addWorker.
    destruct (WorkerManager.createWorker _ _ _ _ _) as [[w s1]|] eqn:E;
      simpl; [|discriminate].
    intros H; injection H as <-.
    destruct Hinv as (Hcore & Hframe).
    split; [eapply core_inv_createWorker; eassumption|].
    unfold WorkerManager.createWorker in E.
    destruct (nth_error _ _) as [gpuModel|]; [|discriminate].
    simpl in E. injection E as <- <-. simpl.
    destruct (suspended s) as [f|]; [|assumption].
    destruct Hframe as (Hp & H1 & H2 & H3 & H4).
    split; [assumption|]. split; [assumption|]. split; [assumption|].
    split; [assumption|]. simpl.
    intros w0 Hin. destruct (H4 w0 Hin) as (Hlt & Hload).
    split; [lia|]. intros w' Hg. rewrite get_set_other in Hg by lia.
    now apply Hload.
  - intros H; injection H as <-. destruct Hinv as (Hcore & Hframe).
    split; [apply core_inv_removeWorker; [apply Hreg | assumption]|].
    simpl. destruct (suspended s) as [f|]; [|assumption].
    destruct Hframe as (Hp & H1 & H2 & H3 & H4).
    split; [assumption|]. split; [assumption|]. split; [assumption|].
    split; [assumption|]. simpl.
    intros w0 Hin. destruct (H4 w0 Hin) as (Hlt & Hload).
    split; [assumption|]. intros w' Hg. apply Hload.
    apply (get_delete_Some _ id); [apply Hreg | assumption].
  - destruct (idle s) eqn:Hidle; [|discriminate].
    destruct (_ && _); [|discriminate]. simpl.
    intros H; injection H as <-. destruct Hinv as (Hcore & Hframe).
    split; [now apply core_inv_heartbeat|].
    destruct (heartbeat_pass draws s) as (-> & -> & _).
    unfold idle in Hidle. destruct (suspended s); [discriminate | exact Hframe].
  - intros H; injection H as <-.
    change (snd (TaskQueue.enqueue Task.chat_completion payload apiKeyId
                   priority s))
      with (TaskQueue.processQueue (enqueue_stored payload apiKeyId priority s)).
    apply lifecycle_inv_processQueue.
    + destruct Hinv as (Hcore & Hframe).
      split; [now apply core_inv_enqueue_stored|].
      unfold enqueue_stored, Store.addTask.
      cbn [suspended processing set_tasks uuidv4 snd set_uuid_supply].
      destruct (suspended s) as [f|]; [|assumption].
      destruct Hframe as (Hp & H1 & H2 & H3 & H4).
      split; [assumption|]. split; [assumption|]. split; [|split].
      * intros t Hin. destruct (H2 t Hin) as (t' & Hg & Hs).
        exists t'. split; [|assumption]. cbn [tasks set_tasks set_uuid_supply].
        rewrite get_set_other; [assumption|].
        cbn [enqueued_task Task.id].
        destruct Hcore as (_ & Htask & _).
        destruct (Htask _ _ Hg) as (_ & Hlt & _). lia.
      * assumption.
      * intros w0 Hin. destruct (H4 w0 Hin) as (Hlt & Hload).
        split; [cbn [uuid_supply set_tasks set_uuid_supply]; lia | exact Hload].
    + apply (registry_inv_supply s); simpl; try reflexivity; [lia | assumption].
  - destruct (suspended s) as [f|] eqn:Ef; [|discriminate].
    intros H; injection H as <-. unfold TaskQueue.processQueue_resume.
    destruct Hinv as (Hcore & Hframe). rewrite Ef in Hframe.
    destruct Hframe as (Hp & H1 & H2 & H3 & H4).
    apply processQueue_loop_lifecycle; try assumption; try reflexivity.
    split; [assumption|]. split; [assumption|].
    split; [now apply splice_worker_NoDup|].
    intros w Hin.
    pose proof (splice_worker_other _ _ _ H3 Hin) as Hne.
    apply splice_worker_In in Hin. destruct (H4 w Hin) as (Hlt & Hload).
    split; [assumption|]. intros w' Hg.
    rewrite (Hload w' Hg). destruct (N.eqb_spec (Worker.id w)
                                       (Worker.id (frame_worker f)));
      [contradiction | reflexivity].
  - intros H; injection H as <-. revert Hinv.
    apply lifecycle_inv_ext; unfold TaskQueue.waitForCompletion; simpl;
      unfold Store.getTask; simpl;
      (destruct (JsMap.get taskId (tasks s)) as [t|];
       [destruct (Task.status t)|]); simpl;
      first [reflexivity | apply N.le_refl | apply Z.le_refl].
  - destruct (_ && _); [|discriminate].
    intros H; injection H as <-. revert Hinv.
    apply lifecycle_inv_ext; unfold TaskQueue.waitForCompletion_timeout; simpl;
      destruct (JsMap.has taskId (taskCallbacks s)); simpl;
      first [reflexivity | apply N.le_refl | apply Z.le_refl].
  - destruct (idle s) eqn:Hidle; [|discriminate].
    destruct (armed (taskId, workerId) (completionTimers s)) eqn:Ha;
      [|discriminate].
    simpl. intros H; injection H as <-. apply armed_In in Ha.
    destruct Hinv as (Hcore & Hframe).
    split; [now apply core_inv_completion|].
    match goal with
    | |- context [TaskQueue.simulateTaskProcessing_timeout _ _ ?x] =>
        destruct (completion_pass taskId workerId x) as (-> & -> & _)
    end.
    cbn [suspended processing set_completionTimers].
    unfold idle in Hidle. destruct (suspended s); [discriminate | exact Hframe].
  - intros H; injection H as <-. revert Hinv.
    apply lifecycle_inv_ext; unfold TaskQueue.resolveTask;
      destruct (JsMap.get taskId (taskCallbacks s)); simpl;
      first [reflexivity | apply N.le_refl | apply Z.le_refl].
  - intros H; injection H as <-. revert Hinv.
    apply lifecycle_inv_ext; unfold TaskQueue.rejectTask;
      destruct (JsMap.get taskId (taskCallbacks s)); simpl;
      first [reflexivity | apply N.le_refl | apply Z.le_refl].
Qed.

Lemma lifecycle_inv_init : lifecycle_inv init.
Proof.
  split; [|reflexivity].
  unfold core_inv. simpl.
  split; [constructor|]. split; [discriminate|]. split; [constructor|].
  split; [tauto|]. split; [discriminate|]. split; [discriminate | reflexivity].
Qed.

Lemma reachable_lifecycle_inv s : reachable s -> lifecycle_inv s.
Proof.
  intros Hr.
  enough (H : registry_inv s /\ lifecycle_inv s) by apply H.
  revert s Hr.
  apply (reachable_invariant (fun s => registry_inv s /\ lifecycle_inv s)).
  - split; [exact registry_inv_init | exact lifecycle_inv_init].
  - intros e s1 s2 (H1 & H2) Hstep. split.
    + eapply step_registry_inv; eassumption.
    + eapply step_lifecycle_inv; eassumption.
Qed.

(** ** One event, one move of a task *)

Lemma processQueue_loop_moves pendingTasks :
  forall availableWorkers s,
    (forall t, In t pendingTasks ->
       exists t', JsMap.get (Task.id t) (tasks s) = Some t'
                  /\ Task.status t' = Task.pending) ->
    forall id t, Store.getTask id s = Some t ->
      exists t',
        Store.getTask id
          (TaskQueue.processQueue_loop pendingTasks availableWorkers s) = Some t'
        /\ task_move (clock s) t t'.
Proof.
  induction pendingTasks as [|task rest IH]; intros pool s Hpend id t Hget.
  - exists t. split; [exact Hget | now left].
  - destruct pool as [|w0 pool'].
    { exists t. split; [exact Hget | now left]. }
    rewrite processQueue_loop_cons.
    destruct (TaskQueue.selectBestWorker (w0 :: pool') task)
      as [sorted [worker|]].
    + destruct (Hpend task (or_introl eq_refl)) as (t0 & Hg0 & Hs0).
      unfold Store.getTask in *. cbn [tasks set_suspended].
      rewrite assignTaskToWorker_tasks, Hg0, get_set.
      destruct (N.eqb_spec id (Task.id task)) as [->|Hne].
      * rewrite Hg0 in Hget. injection Hget as <-.
        eexists. split; [reflexivity|]. right. left.
        split; [assumption|]. now exists (Worker.id worker).
      * exists t. split; [exact Hget | now left].
    + apply IH; [|exact Hget]. intros t1 Hin. apply Hpend. now right.
Qed.

Lemma step_enqueue payload apiKeyId priority s :
  step (Enqueue payload apiKeyId priority) s
  = Some (TaskQueue.processQueue (enqueue_stored payload apiKeyId priority s)).
Proof. reflexivity. Qed.

(** In one event a stored task stays as it is, starts processing or
    completes; no event removes it. *)
Lemma step_task_move e s s' id t :
  reachable s -> step e s = Some s' -> Store.getTask id s = Some t ->
  exists t', Store.getTask id s' = Some t' /\ task_move (clock s) t t'.
Proof.
  intros Hr Hstep Hget.
  pose proof (reachable_lifecycle_inv s Hr) as (Hcore & Hframe).
  pose proof (reachable_registry_inv s Hr) as Hreg.
  assert (Hstay : tasks s' = tasks s ->
            exists t', Store.getTask id s' = Some t' /\ task_move (clock s) t t').
  { intros E. exists t. unfold Store.getTask in *. rewrite E.
    split; [exact Hget | now left]. }
  destruct e; [simpl in Hstep .. | | simpl in Hstep | simpl in Hstep | simpl in Hstep | simpl in Hstep | simpl in Hstep | simpl in Hstep].
  - injection Hstep as <-. now apply Hstay.
  - destruct (_ && _); [|discriminate].
    unfold WorkerManager.addWorker, WorkerManager.createWorker in Hstep.
    destruct (nth_error _ _); simpl in Hstep; [|discriminate].
    injection Hstep as <-. now apply Hstay.
  - injection Hstep as <-. now apply Hstay.
  - destruct (_ && _); [|discriminate]. injection Hstep as <-.
    apply Hstay. apply heartbeat_tasks.
  - rewrite step_enqueue in Hstep. injection Hstep as <-.
    set (s0 := enqueue_stored payload apiKeyId priority s).
    assert (Hfresh := core_inv_fresh_task s Hcore).
    assert (Hget0 : Store.getTask id s0 = Some t).
    { unfold Store.getTask, s0, enqueue_stored, Store.addTask in *.
      cbn [tasks set_tasks uuidv4 snd set_uuid_supply enqueued_task Task.id].
      rewrite get_set_other; [assumption|]. intros ->. congruence. }
    unfold TaskQueue.processQueue. destruct (processing s0) eqn:Hp.
    { exists t. split; [exact Hget0 | now left]. }
    apply (processQueue_loop_moves _ _ (set_processing true s0));
      [|exact Hget0].
    assert (Hcore0 : core_inv s0) by now apply core_inv_enqueue_stored.
    assert (Hreg0 : registry_inv s0)
      by (apply (registry_inv_supply s); simpl; try reflexivity;
          [lia | assumption]).
    apply (pass_ok_start s0 Hcore0 Hreg0).
  - destruct (suspended s) as [f|] eqn:Ef; [|discriminate].
    injection Hstep as <-. unfold TaskQueue.processQueue_resume.
    destruct Hframe as (_ & _ & Hpend & _).
    apply (processQueue_loop_moves _ _ (set_suspended None s));
      [exact Hpend | exact Hget].
  - injection Hstep as <-. apply Hstay.
    unfold TaskQueue.waitForCompletion. simpl. unfold Store.getTask. simpl.
    destruct (JsMap.get taskId (tasks s)) as [t0|];
      [destruct (Task.status t0)|]; reflexivity.
  - destruct (_ && _); [|discriminate]. injection Hstep as <-. apply Hstay.
    unfold TaskQueue.waitForCompletion_timeout. simpl.
    now destruct (JsMap.has taskId (taskCallbacks s)).
  - destruct (idle s); [|discriminate].
    destruct (armed (taskId, workerId) (completionTimers s)) eqn:Ha;
      [|discriminate].
    simpl in Hstep. injection Hstep as <-. apply armed_In in Ha.
    destruct Hcore as (_ & _ & _ & Htim & _).
    destruct (Htim _ _ Ha) as (_ & task0 & Hg0 & Hs0 & _).
    unfold Store.getTask in *. rewrite completion_tasks_exact.
    cbn [tasks clock set_completionTimers]. rewrite Hg0, get_set.
    destruct (N.eqb_spec id taskId) as [->|Hne].
    + rewrite Hg0 in Hget. injection Hget as <-.
      eexists. split; [reflexivity|]. right. right. now split.
    + exists t. split; [exact Hget | now left].
  - injection Hstep as <-. apply Hstay. apply resolveTask_store.
  - injection Hstep as <-. apply Hstay. apply rejectTask_store.
Qed.

(** ** Life cycle of the tasks *)

(** X1. Between two events a stored task is 'pending', 'processing' or
    'completed', never 'assigned' or 'failed'; it is stored under its own
    identifier; and it has a worker exactly when it is not 'pending'. *)
Theorem X1_status_and_worker (s : State) (id : N) (t : Task.InferenceTask) :
  reachable s ->
  Store.getTask id s = Some t ->
  Task.id t = id
  /\ (Task.status t = Task.pending \/ Task.status t = Task.processing
      \/ Task.status t = Task.completed)
  /\ (Task.status t = Task.pending <-> Task.assignedWorker t = None).
Proof.
  intros Hr Hget.
  destruct (reachable_lifecycle_inv s Hr) as ((_ & Htask & _) & _).
  destruct (Htask id t Hget) as (Hid & _ & _ & Hshape).
  split; [assumption|].
  destruct (Task.status t) eqn:E.
  - split; [now left|]. destruct Hshape as (Ha & _). tauto.
  - contradiction.
  - split; [right; now left|].
    destruct Hshape as (w & a & Ha & _). rewrite Ha.
    split; discriminate.
  - split; [right; now right|].
    destruct Hshape as (w & a & c & Ha & _). rewrite Ha.
    split; discriminate.
  - contradiction.
Qed.

(** Witness for X1: the task in flight on the worker. *)
Lemma X1_witness :
  exists s t,
    run one_in_flight init = Some s
    /\ Store.getTask 1 s = Some t
    /\ Task.id t = 1%N
    /\ (Task.status t = Task.pending <-> Task.assignedWorker t = None).
Proof.
  reach_by one_in_flight ltac:(fun s Hr =>
    exists s;
    pose proof (fun t => X1_status_and_worker s 1%N t Hr) as H).
  eexists. split; [vm_compute; reflexivity|].
  split; [vm_compute; reflexivity|].
  destruct (H _ eq_refl) as (H1 & _ & H3).
  split; [exact H1 | exact H3].
Defined.

(** X2. The time stamps of a stored task follow its status: a pending task
    has neither [startedAt] nor [completedAt]; a processing task has a
    [startedAt] not before [createdAt] and no [completedAt]; a completed
    task has both, with [createdAt <= startedAt <= completedAt]; and no
    time stamp lies in the future. *)
Theorem X2_time_stamps (s : State) (id : N) (t : Task.InferenceTask) :
  reachable s ->
  Store.getTask id s = Some t ->
  Task.createdAt t <= clock s
  /\ (Task.status t = Task.pending ->
      Task.startedAt t = None /\ Task.completedAt t = None)
  /\ (Task.status t = Task.processing ->
      exists a, Task.startedAt t = Some a /\ Task.completedAt t = None
                /\ Task.createdAt t <= a <= clock s)
  /\ (Task.status t = Task.completed ->
      exists a c, Task.startedAt t = Some a /\ Task.completedAt t = Some c
                  /\ Task.createdAt t <= a /\ a <= c /\ c <= clock s).
Proof.
  intros Hr Hget.
  destruct (reachable_lifecycle_inv s Hr) as ((_ & Htask & _) & _).
  destruct (Htask id t Hget) as (_ & _ & Hcr & Hshape).
  split; [assumption|].
  destruct (Task.status t); try contradiction.
  - split; [intros _; tauto|]. split; discriminate.
  - split; [discriminate|]. split; [|discriminate].
    intros _. destruct Hshape as (w & a & _ & Hs & Hc & Hle).
    exists a. tauto.
  - split; [discriminate|]. split; [discriminate|].
    intros _. destruct Hshape as (w & a & c & _ & Hs & Hc & Hle & Hle').
    exists a, c. repeat split; try assumption; lia.
Qed.

(** Witness for X2: a task enqueued at time 0, assigned at once, completed
    1500 ms later. *)
Lemma X2_witness :
  exists s t,
    run (one_in_flight ++ [Tick 1500; CompletionTimeout 1 0]) init = Some s
    /\ Store.getTask 1 s = Some t
    /\ Task.status t = Task.completed
    /\ exists a c, Task.startedAt t = Some a /\ Task.completedAt t = Some c
                   /\ Task.createdAt t <= a /\ a <= c /\ c <= clock s.
Proof.
  reach_by (one_in_flight ++ [Tick 1500; CompletionTimeout 1 0])
    ltac:(fun s Hr =>
      exists s;
      pose proof (fun t => X2_time_stamps s 1%N t Hr) as H).
  eexists. split; [vm_compute; reflexivity|].
  split; [vm_compute; reflexivity|]. split; [reflexivity|].
  destruct (H _ eq_refl) as (_ & _ & _ & H4).
  exact (H4 eq_refl).
Defined.

Lemma reachable_statuses s :
  reachable s ->
  Forall (fun t => Task.status t = Task.pending
                   \/ Task.status t = Task.processing
                   \/ Task.status t = Task.completed)
         (Store.getAllTasks s).
Proof.
  intros Hr.
  destruct (reachable_lifecycle_inv s Hr) as ((Hnd & Htask & _) & _).
  apply Forall_forall. intros t Hin. apply In_values_key in Hin.
  destruct Hin as (k & Hin).
  destruct (Htask k t (In_get_NoDup _ _ _ Hnd Hin)) as (_ & _ & _ & Hshape).
  destruct (Task.status t); try contradiction; tauto.
Qed.

(** X3. The statistics of the queue add up: the counts of pending,
    processing and completed tasks sum to the number of stored tasks, and
    the count of failed tasks is 0. *)
Theorem X3_queue_stats_add_up (s : State) :
  reachable s ->
  let stats := TaskQueue.getStats s in
  (TaskQueue.stat_pending stats + TaskQueue.stat_processing stats
   + TaskQueue.stat_completed stats = List.length (Store.getAllTasks s))%nat
  /\ TaskQueue.stat_failed stats = 0%nat.
Proof.
  intros Hr. pose proof (reachable_statuses s Hr) as Hall.
  unfold TaskQueue.getStats, TaskQueue.count_status. simpl.
  induction Hall as [|t l Ht Hl IH]; simpl; [split; reflexivity|].
  destruct IH as (IH1 & IH2).
  destruct Ht as [E|[E|E]]; rewrite E; simpl; split; auto; lia.
Qed.

(** Witness for X3: one completed task and one pending task. *)
Lemma X3_witness :
  exists s,
    run (one_in_flight ++ [CompletionTimeout 1 0; RemoveWorker 0;
                           Enqueue hello "key-1" 0]) init = Some s
    /\ TaskQueue.stat_pending (TaskQueue.getStats s) = 1%nat
    /\ TaskQueue.stat_completed (TaskQueue.getStats s) = 1%nat
    /\ TaskQueue.stat_failed (TaskQueue.getStats s) = 0%nat.
Proof.
  reach_by (one_in_flight ++ [CompletionTimeout 1 0; RemoveWorker 0;
                              Enqueue hello "key-1" 0])
    ltac:(fun s Hr =>
      exists s; pose proof (X3_queue_stats_add_up s Hr) as (_ & H)).
  split; [vm_compute; reflexivity|].
  split; [reflexivity|]. split; [reflexivity | exact H].
Defined.

Lemma in_flight_filter k l :
  filter (in_flight_on k) l
  = filter is_processing
      (filter (fun t => match Task.assignedWorker t with
                        | Some w => N.eqb w k
                        | None => false
                        end) l).
Proof.
  induction l as [|t l IH]; [reflexivity|].
  cbn [filter]. rewrite IH. unfold in_flight_on at 1.
  destruct (Task.assignedWorker t) as [w|].
  - destruct (N.eqb w k).
    + cbn [filter]. unfold is_processing at 2. rewrite andb_true_r.
      reflexivity.
    + rewrite andb_false_r. reflexivity.
  - rewrite andb_false_r. reflexivity.
Qed.

(** X4. The load of a worker is exact: in every reachable state the
    [currentLoad] of a stored worker is the number of stored tasks that are
    'processing' and assigned to it, which is also the number of armed
    completion timers that name it.  The guard [Math.max(0, ...)] of the
    completion callback therefore never cuts anything off. *)
Theorem X4_load_counts_tasks_in_flight (s : State) (id : N)
    (w : Worker.WorkerNode) :
  reachable s ->
  Store.getWorker id s = Some w ->
  Worker.currentLoad w
  = Z.of_nat (List.length (filter is_processing (Store.getTasksByWorker id s)))
  /\ Worker.currentLoad w = timers_on id (completionTimers s).
Proof.
  intros Hr Hget.
  destruct (reachable_lifecycle_inv s Hr)
    as ((_ & _ & _ & _ & _ & Hload & Hacc) & _).
  split; [|now apply Hload].
  rewrite (Hload id w Hget), Hacc. unfold processing_on, Store.getTasksByWorker.
  now rewrite in_flight_filter.
Qed.

(** Witness for X4: two tasks enqueued, one worker; worker 0 takes the
    first and, after the second call, the second. *)
Lemma X4_witness :
  exists s w,
    run (one_in_flight ++ [Enqueue hello "key-2" 0; Resume]) init = Some s
    /\ Store.getWorker 0 s = Some w
    /\ Worker.currentLoad w = 2
    /\ List.length (filter is_processing (Store.getTasksByWorker 0 s)) = 2%nat.
Proof.
  reach_by (one_in_flight ++ [Enqueue hello "key-2" 0; Resume])
    ltac:(fun s Hr =>
      exists s;
      pose proof (fun w => X4_load_counts_tasks_in_flight s 0%N w Hr) as H).
  eexists. split; [vm_compute; reflexivity|].
  split; [vm_compute; reflexivity|]. split; [reflexivity|].
  destruct (H _ eq_refl) as (H1 & _).
  apply Nat2Z.inj. rewrite <- H1. reflexivity.
Defined.

Lemma In_armed x l : In x l -> armed x l = true.
Proof.
  intros H. unfold armed. apply existsb_exists. exists x.
  split; [assumption|]. now rewrite !N.eqb_refl.
Qed.

Lemma timers_on_In t w l : In (t, w) l -> 1 <= timers_on w l.
Proof.
  intros H. pose proof (timers_on_remove w l t w H) as E.
  rewrite N.eqb_refl in E.
  pose proof (timers_on_nonneg w (remove_timer (t, w) l)). lia.
Qed.

(** X5. A task that is 'processing' has its completion timer armed, for
    the worker the record names.  When no pass is parked the timer can
    fire, and firing it marks the task 'completed' at the current time,
    leaves the rest of the record alone, and takes exactly one off the load
    of the worker, if the worker is still registered. *)
Theorem X5_processing_task_completes (s : State) (id : N)
    (t : Task.InferenceTask) :
  reachable s ->
  Store.getTask id s = Some t ->
  Task.status t = Task.processing ->
  exists workerId,
    Task.assignedWorker t = Some workerId
    /\ armed (id, workerId) (completionTimers s) = true
    /\ (suspended s = None ->
        exists s',
          step (CompletionTimeout id workerId) s = Some s'
          /\ Store.getTask id s' = Some (completed_task (clock s) t)
          /\ match Store.getWorker workerId s with
             | Some w =>
                 Store.getWorker workerId s'
                 = Some (with_load (Worker.currentLoad w - 1) w)
                 /\ 0 <= Worker.currentLoad w - 1
             | None => Store.getWorker workerId s' = None
             end).
Proof.
  intros Hr Hget Hst.
  destruct (reachable_lifecycle_inv s Hr)
    as ((_ & _ & _ & Htim & Harm & Hload & _) & _).
  destruct (Harm id t Hget Hst) as (w & Hin).
  destruct (Htim id w Hin) as (_ & t0 & Hg0 & _ & Hw0).
  unfold Store.getTask in Hget. rewrite Hget in Hg0. injection Hg0 as <-.
  exists w. split; [assumption|].
  pose proof (In_armed _ _ Hin) as Ha. split; [assumption|].
  intros Hidle. unfold step, idle. rewrite Hidle, Ha. cbn [andb].
  eexists. split; [reflexivity|]. split.
  - unfold Store.getTask. rewrite completion_tasks_exact.
    cbn [tasks clock set_completionTimers]. rewrite Hget.
    apply get_set_same.
  - unfold Store.getWorker. rewrite completion_workers_exact.
    cbn [workers set_completionTimers].
    destruct (JsMap.get w (workers s)) as [w0|] eqn:Ew; [|assumption].
    pose proof (timers_on_In _ _ _ Hin) as Hone.
    rewrite <- (Hload w w0 Ew) in Hone.
    rewrite get_set_same, Z.max_r by lia. split; [reflexivity | lia].
Qed.

(** Witness for X5: the task in flight on worker 0 completes and the load
    of the worker returns to 0. *)
Lemma X5_witness :
  exists s s',
    run one_in_flight init = Some s
    /\ step (CompletionTimeout 1 0) s = Some s'
    /\ status_of 1 s' = Some Task.completed
    /\ load_of 0 s' = Some 0.
Proof.
  reach_by one_in_flight ltac:(fun s Hr =>
    exists s;
    pose proof (fun t => X5_processing_task_completes s 1%N t Hr) as H).
  destruct (H _ eq_refl eq_refl) as (w & Hw & _ & Hfire).
  injection Hw as <-.
  destruct (Hfire eq_refl) as (s' & Hstep & Htask & Hworker).
  exists s'. split; [reflexivity|]. split; [exact Hstep|].
  unfold status_of, load_of. rewrite Htask.
  cbn -[Store.getWorker] in Hworker. destruct Hworker as (Hworker & _).
  rewrite Hworker. split; reflexivity.
Defined.

Lemma task_later_refl t : task_later t t.
Proof. unfold task_later. repeat split; auto. Qed.

Lemma status_rank_pending x : status_rank x = 0%nat <-> x = Task.pending.
Proof. destruct x; simpl; split; intros H; congruence. Qed.

Lemma task_later_trans t1 t2 t3 :
  task_later t1 t2 -> task_later t2 t3 -> task_later t1 t3.
Proof.
  intros (Hr & Hi & Hk & Hp & Ha & Hq & Hc & Hw & Hd)
         (Hr' & Hi' & Hk' & Hp' & Ha' & Hq' & Hc' & Hw' & Hd').
  assert (Hnp : Task.status t1 <> Task.pending ->
                Task.status t2 <> Task.pending).
  { intros H1 H2. apply H1. apply status_rank_pending.
    apply status_rank_pending in H2. lia. }
  unfold task_later.
  split; [lia|]. split; [congruence|]. split; [congruence|].
  split; [congruence|]. split; [congruence|]. split; [congruence|].
  split; [congruence|]. split.
  - intros H1. destruct (Hw H1) as (E1 & E2).
    destruct (Hw' (Hnp H1)) as (E3 & E4). split; congruence.
  - intros H1. pose proof (Hd H1) as E. subst t2. auto.
Qed.

Lemma task_move_later now t t' : task_move now t t' -> task_later t t'.
Proof.
  intros [->|[(Hs & w & ->)|(Hs & ->)]].
  - apply task_later_refl.
  - unfold task_later. rewrite Hs. simpl.
    repeat split; try reflexivity; try lia; congruence.
  - unfold task_later. rewrite Hs. simpl.
    repeat split; try reflexivity; try lia; congruence.
Qed.

(** X6. Whatever happens next, a stored task stays in the store, under
    the same identifier; its status never goes back (pending, then
    processing, then completed); its type, payload, API key, priority and
    creation time never change; once it has a worker and a start time they
    never change; and a completed record never changes at all. *)
Theorem X6_tasks_only_move_forward (es : list Event) (s s' : State) (id : N)
    (t : Task.InferenceTask) :
  reachable s ->
  run es s = Some s' ->
  Store.getTask id s = Some t ->
  exists t', Store.getTask id s' = Some t' /\ task_later t t'.
Proof.
  revert s t. induction es as [|e es IH]; intros s t Hr Hrun Hget.
  - injection Hrun as <-. exists t. split; [assumption | apply task_later_refl].
  - simpl in Hrun. destruct (step e s) as [s1|] eqn:Hstep; [|discriminate].
    destruct (step_task_move e s s1 id t Hr Hstep Hget) as (t1 & Hg1 & Hmove).
    assert (Hr1 : reachable s1).
    { apply (reachable_run [e] s s1 Hr). simpl. now rewrite Hstep. }
    destruct (IH s1 t1 Hr1 Hrun Hg1) as (t' & Hg' & Hlater).
    exists t'. split; [assumption|].
    apply (task_later_trans t t1 t'); [|assumption].
    now apply (task_move_later (clock s)).
Qed.

(** Witness for X6: the task in flight, then its completion, a removal of
    its worker, a new worker and a further task. *)
Lemma X6_witness :
  exists s s' t t',
    run one_in_flight init = Some s
    /\ run [Tick 700; CompletionTimeout 1 0; RemoveWorker 0;
            AddWorker "worker-2" (1 # 2) (1 # 4) (1 # 4);
            Enqueue hello "key-2" 5; Resume] s = Some s'
    /\ Store.getTask 1 s = Some t
    /\ Store.getTask 1 s' = Some t'
    /\ task_later t t'.
Proof.
  reach_by one_in_flight ltac:(fun s Hr =>
    exists s;
    let es := constr:([Tick 700; CompletionTimeout 1 0; RemoveWorker 0;
                       AddWorker "worker-2" (1 # 2) (1 # 4) (1 # 4);
                       Enqueue hello "key-2" 5; Resume]) in
    let r := eval vm_compute in (run es s) in
    match r with
    | Some ?s' =>
        exists s';
        assert (Hrun : run es s = Some s') by (vm_compute; reflexivity);
        pose proof (fun t =>
          X6_tasks_only_move_forward es s s' 1%N t Hr Hrun) as H
    end).
  destruct (H _ eq_refl) as (t' & Hg' & Hlater).
  eexists. exists t'.
  split; [reflexivity|]. split; [exact Hrun|]. split; [reflexivity|].
  split; [exact Hg' | exact Hlater].
Defined.

(** ** Calls of [enqueue] and passes of the dispatcher *)

Lemma processQueue_loop_keys pendingTasks :
  forall availableWorkers s,
    JsMap.keys (tasks (TaskQueue.processQueue_loop pendingTasks availableWorkers s))
    = JsMap.keys (tasks s).
Proof.
  induction pendingTasks as [|task rest IH]; intros pool s; [reflexivity|].
  destruct pool as [|w0 pool']; [reflexivity|].
  rewrite processQueue_loop_cons.
  destruct (TaskQueue.selectBestWorker (w0 :: pool') task)
    as [sorted [worker|]]; [|apply IH].
  cbn [tasks set_suspended]. rewrite assignTaskToWorker_tasks.
  destruct (JsMap.get (Task.id task) (tasks s)) as [t0|] eqn:E; [|reflexivity].
  now apply (keys_set_present _ _ t0).
Qed.

Lemma registry_inv_enqueue_stored payload apiKeyId priority s :
  registry_inv s -> registry_inv (enqueue_stored payload apiKeyId priority s).
Proof.
  intros Hreg. apply (registry_inv_supply s); simpl; try reflexivity;
    [lia | assumption].
Qed.

Lemma processQueue_moves s id t :
  core_inv s -> registry_inv s -> Store.getTask id s = Some t ->
  exists t', Store.getTask id (TaskQueue.processQueue s) = Some t'
             /\ task_move (clock s) t t'.
Proof.
  intros Hcore Hreg Hget. unfold TaskQueue.processQueue.
  destruct (processing s) eqn:Hp.
  { exists t. split; [exact Hget | now left]. }
  apply (processQueue_loop_moves _ _ (set_processing true s)); [|exact Hget].
  apply (pass_ok_start s Hcore Hreg).
Qed.

(** X7. A call of [enqueue] adds exactly one task to the store, under the
    identifier it returns, which no stored task had before ([uuidv4] taken
    to give fresh identifiers).  When the call returns the task carries the
    type, payload, API key and priority of the call and the current time as
    [createdAt], and it is 'pending' or already 'processing'. *)
Theorem X7_enqueue_adds_one_task (payload : ChatCompletionRequest)
    (apiKeyId : string) (priority : Z) (s : State) :
  reachable s ->
  let r := TaskQueue.enqueue Task.chat_completion payload apiKeyId priority s in
  Store.getTask (fst r) s = None
  /\ List.length (Store.getAllTasks (snd r))
     = S (List.length (Store.getAllTasks s))
  /\ exists t,
       Store.getTask (fst r) (snd r) = Some t
       /\ Task.type t = Task.chat_completion
       /\ Task.payload t = payload
       /\ Task.apiKeyId t = apiKeyId
       /\ Task.priority t = priority
       /\ Task.createdAt t = clock s
       /\ (Task.status t = Task.pending \/ Task.status t = Task.processing).
Proof.
  intros Hr r.
  pose proof (reachable_lifecycle_inv s Hr) as (Hcore & _).
  pose proof (reachable_registry_inv s Hr) as Hreg.
  pose proof (core_inv_fresh_task s Hcore) as Hfresh.
  set (s0 := enqueue_stored payload apiKeyId priority s).
  assert (Er : r = (uuid_supply s, TaskQueue.processQueue s0)) by reflexivity.
  rewrite Er. cbn [fst snd]. clear Er r.
  assert (Et : tasks s0
               = tasks s ++ [(uuid_supply s,
                              enqueued_task payload apiKeyId priority s)]).
  { unfold s0, enqueue_stored, Store.addTask.
    cbn [tasks set_tasks uuidv4 snd set_uuid_supply enqueued_task Task.id].
    now apply set_absent. }
  split; [exact Hfresh|]. split.
  - unfold Store.getAllTasks, JsMap.values. rewrite !length_map.
    rewrite <- (length_map fst (tasks (TaskQueue.processQueue s0))).
    change (map fst (tasks (TaskQueue.processQueue s0)))
      with (JsMap.keys (tasks (TaskQueue.processQueue s0))).
    unfold TaskQueue.processQueue. destruct (processing s0).
    + unfold JsMap.keys. rewrite length_map, Et, length_app. simpl. lia.
    + rewrite processQueue_loop_keys. cbn [tasks set_processing].
      unfold JsMap.keys. rewrite length_map, Et, length_app. simpl. lia.
  - assert (Hget0 : Store.getTask (uuid_supply s) s0
                    = Some (enqueued_task payload apiKeyId priority s)).
    { unfold Store.getTask, s0, enqueue_stored, Store.addTask.
      cbn [tasks set_tasks uuidv4 snd set_uuid_supply enqueued_task Task.id].
      apply get_set_same. }
    destruct (processQueue_moves s0 _ _
                (core_inv_enqueue_stored payload apiKeyId priority s Hcore)
                (registry_inv_enqueue_stored payload apiKeyId priority s Hreg)
                Hget0) as (t' & Hg' & Hmove).
    exists t'. split; [exact Hg'|].
    destruct Hmove as [->|[(_ & w & ->)|(Hs & _)]].
    + simpl. repeat split; try reflexivity. now left.
    + simpl. repeat split; try reflexivity. now right.
    + discriminate Hs.
Qed.

(** Witness for X7: a task enqueued while one worker is registered. *)
Lemma X7_witness :
  exists s,
    run [AddWorker "worker-1" (1 # 4) (1 # 2) (1 # 2)] init = Some s
    /\ let r := TaskQueue.enqueue Task.chat_completion hello "key-1" 3 s in
       Store.getTask (fst r) s = None
       /\ option_map Task.priority (Store.getTask (fst r) (snd r)) = Some 3.
Proof.
  reach_by [AddWorker "worker-1" (1 # 4) (1 # 2) (1 # 2)] ltac:(fun s Hr =>
    exists s; pose proof (X7_enqueue_adds_one_task hello "key-1" 3 s Hr) as H).
  split; [reflexivity|].
  destruct H as (H1 & _ & t & Hg & _ & _ & _ & Hp & _).
  split; [exact H1|]. rewrite Hg. simpl. now rewrite Hp.
Defined.

Lemma splice_worker_length id l :
  (List.length (TaskQueue.splice_worker id l) <= List.length l)%nat.
Proof.
  induction l as [|x l IH]; simpl; [lia|].
  destruct (N.eqb (Worker.id x) id); simpl; lia.
Qed.

(** X8. The flag [processing] of the queue is set exactly while a pass is
    parked at its [await].  A parked pass always ends: continuing it at
    most once more than it has tasks left (and at most once more than it
    has workers left) brings the queue to rest with the flag released. *)
Theorem X8_parked_pass_ends (s : State) :
  reachable s ->
  (processing s = true <-> suspended s <> None)
  /\ forall f, suspended s = Some f ->
       exists n s',
         (n <= S (List.length (frame_tasks f)))%nat
         /\ (n <= S (List.length (frame_pool f)))%nat
         /\ run (repeat Resume n) s = Some s'
         /\ suspended s' = None
         /\ processing s' = false.
Proof.
  intros Hr. destruct (reachable_lifecycle_inv s Hr) as (_ & Hframe).
  split.
  - destruct (suspended s) as [f|].
    + destruct Hframe as (Hp & _). split; [discriminate | now intros _].
    + rewrite Hframe. split; [discriminate | intros H; now elim H].
  - intros f Hs.
    pose (pool := TaskQueue.splice_worker (Worker.id (frame_worker f))
                    (frame_pool f)).
    destruct (pass_order (frame_tasks f) pool (set_suspended None s) eq_refl)
      as (s' & Hrun & Hs' & Hp' & _).
    exists (S (Nat.min (List.length (frame_tasks f)) (List.length pool))), s'.
    pose proof (splice_worker_length (Worker.id (frame_worker f))
                  (frame_pool f)) as Hlen.
    fold pool in Hlen.
    split; [lia|]. split; [lia|].
    split; [|split; assumption].
    cbn [repeat run step]. rewrite Hs. exact Hrun.
Qed.

(** Witness for X8: the pass parked by the call of [enqueue]. *)
Lemma X8_witness :
  exists s f,
    run [AddWorker "worker-1" (1 # 4) (1 # 2) (1 # 2);
         Enqueue hello "key-1" 0] init = Some s
    /\ suspended s = Some f
    /\ processing s = true
    /\ exists n s', run (repeat Resume n) s = Some s' /\ processing s' = false.
Proof.
  reach_by [AddWorker "worker-1" (1 # 4) (1 # 2) (1 # 2);
            Enqueue hello "key-1" 0] ltac:(fun s Hr =>
    exists s; pose proof (X8_parked_pass_ends s Hr) as (Hflag & Hend)).
  eexists. split; [reflexivity|]. split; [reflexivity|].
  split; [apply Hflag; discriminate|].
  destruct (Hend _ eq_refl) as (n & s' & _ & _ & Hrun & _ & Hp).
  exists n, s'. split; assumption.
Defined.

Lemma processQueue_loop_parked pendingTasks availableWorkers s f :
  suspended s = None ->
  suspended (TaskQueue.processQueue_loop pendingTasks availableWorkers s)
  = Some f ->
  exists task,
    pendingTasks = task :: frame_tasks f
    /\ availableWorkers <> []
    /\ frame_pool f
       = Array_sort (fun a b => (TaskQueue.ratio a - TaskQueue.ratio b)%Q)
           availableWorkers
    /\ hd_error (frame_pool f) = Some (frame_worker f)
    /\ TaskQueue.processQueue_loop pendingTasks availableWorkers s
       = set_suspended (Some f)
           (TaskQueue.assignTaskToWorker task (frame_worker f) s).
Proof.
  intros Hidle Hs.
  destruct pendingTasks as [|task rest];
    [simpl in Hs; congruence|].
  destruct availableWorkers as [|w0 pool];
    [simpl in Hs; congruence|].
  destruct (Array_sort (fun a b => (TaskQueue.ratio a - TaskQueue.ratio b)%Q)
              (w0 :: pool)) as [|worker sorted] eqn:Esort.
  { pose proof (Array_sort_length
                  (fun a b => (TaskQueue.ratio a - TaskQueue.ratio b)%Q)
                  (w0 :: pool)) as Hlen.
    rewrite Esort in Hlen. discriminate Hlen. }
  rewrite (processQueue_loop_assign task rest w0 pool s worker sorted Esort)
    in Hs |- *.
  cbn [suspended set_suspended] in Hs. injection Hs as <-.
  cbn [frame_tasks frame_pool frame_worker].
  exists task. split; [reflexivity|]. split; [discriminate|].
  split; [reflexivity|]. split; reflexivity.
Qed.

(** X9. When a call of [enqueue] starts a pass that assigns a task, the
    task is the head of the pending queue and the worker is one the store
    holds, 'online' and with room, of the smallest load ratio among the
    available ones.  When the call returns, the task is 'processing' on
    that worker since the current time, the load of the worker is one
    higher, and no other task and no other worker has changed. *)
Theorem X9_enqueue_assigns_to_an_available_worker
    (payload : ChatCompletionRequest) (apiKeyId : string) (priority : Z)
    (s s' : State) (f : Frame) :
  reachable s ->
  suspended s = None ->
  step (Enqueue payload apiKeyId priority) s = Some s' ->
  suspended s' = Some f ->
  let worker := frame_worker f in
  let s0 := enqueue_stored payload apiKeyId priority s in
  Store.getWorker (Worker.id worker) s = Some worker
  /\ Worker.status worker = Worker.online
  /\ Worker.currentLoad worker < Worker.maxCapacity worker
  /\ (forall w, In w (TaskQueue.getAvailableWorkers s) ->
        (TaskQueue.ratio worker <= TaskQueue.ratio w)%Q)
  /\ Store.getWorker (Worker.id worker) s'
     = Some (with_load (Worker.currentLoad worker + 1) worker)
  /\ (forall k, k <> Worker.id worker ->
        Store.getWorker k s' = Store.getWorker k s)
  /\ exists task,
       hd_error (Store.getPendingTasks s0) = Some task
       /\ Store.getTask (Task.id task) s'
          = Some (started_task (Worker.id worker) (clock s) task)
       /\ (forall k, k <> Task.id task ->
             Store.getTask k s' = Store.getTask k s0).
Proof.
  intros Hr Hidle Hstep Hs' worker s0.
  pose proof (reachable_lifecycle_inv s Hr) as (Hcore & Hframe).
  pose proof (reachable_registry_inv s Hr) as (Hndw & Hwok & _).
  rewrite Hidle in Hframe.
  rewrite step_enqueue in Hstep. injection Hstep as Hstep. fold s0 in Hstep.
  pose proof (core_inv_enqueue_stored payload apiKeyId priority s Hcore)
    as (Hnd0 & Htask0 & _).
  fold s0 in Hnd0, Htask0.
  assert (Hp0 : processing s0 = false) by exact Hframe.
  unfold TaskQueue.processQueue in Hstep. rewrite Hp0 in Hstep.
  rewrite <- Hstep in Hs'.
  destruct (processQueue_loop_parked _ _ (set_processing true s0) f Hidle Hs')
    as (task & Hpend & Hne & Hpool & Hhd & Eloop).
  rewrite Eloop in Hstep. clear Eloop Hs'. subst s'. fold worker in Hhd |- *.
  change (TaskQueue.getAvailableWorkers (set_processing true s0))
    with (TaskQueue.getAvailableWorkers s) in *.
  change (Store.getPendingTasks (set_processing true s0))
    with (Store.getPendingTasks s0) in *.
  assert (Hin : In worker (TaskQueue.getAvailableWorkers s)).
  { apply hd_error_In in Hhd. rewrite Hpool in Hhd.
    now apply Array_sort_In in Hhd. }
  assert (Hmin : forall w, In w (TaskQueue.getAvailableWorkers s) ->
                   (TaskQueue.ratio worker <= TaskQueue.ratio w)%Q).
  { destruct (sort_by_key_head TaskQueue.ratio
                (TaskQueue.getAvailableWorkers s) Hne)
      as (x & before & after & Hx & Hsplit & Hb & Ha).
    rewrite <- Hpool, Hhd in Hx. injection Hx as <-.
    intros w Hw. rewrite Hsplit in Hw. apply in_app_or in Hw.
    destruct Hw as [Hw|[<-|Hw]];
      [apply Qlt_le_weak; now apply Hb | apply Qle_refl | now apply Ha]. }
  unfold TaskQueue.getAvailableWorkers, Store.getOnlineWorkers,
    Store.getAllWorkers in Hin.
  apply filter_In in Hin. destruct Hin as (Hin & Hroom).
  apply filter_In in Hin. destruct Hin as (Hin & Hon).
  apply In_values_key in Hin. destruct Hin as (k & Hin).
  destruct (Hwok k worker Hin) as (Hk & _). subst k.
  pose proof (In_get_NoDup _ _ _ Hndw Hin) as Hgw.
  assert (Htask : JsMap.get (Task.id task) (tasks s0) = Some task).
  { assert (Hint : In task (Store.getPendingTasks s0))
      by (rewrite Hpend; now left).
    unfold Store.getPendingTasks in Hint. apply Array_sort_In in Hint.
    apply filter_In in Hint. destruct Hint as (Hint & _).
    apply In_values_key in Hint. destruct Hint as (k & Hint).
    pose proof (In_get_NoDup _ _ _ Hnd0 Hint) as Hg.
    destruct (Htask0 k task Hg) as (Hk & _). now rewrite Hk. }
  split; [exact Hgw|]. split.
  { destruct (Worker.status worker); simpl in Hon; congruence. }
  split; [now apply Z.ltb_lt|]. split; [exact Hmin|].
  unfold Store.getWorker, Store.getTask. cbn [workers tasks set_suspended].
  rewrite assignTaskToWorker_workers, assignTaskToWorker_tasks.
  cbn [workers tasks set_processing clock].
  change (workers s0) with (workers s). rewrite Hgw, Htask.
  split; [apply get_set_same|]. split.
  { intros k Hk. now apply get_set_other. }
  exists task. split; [now rewrite Hpend|].
  split; [apply get_set_same|].
  intros k Hk. now apply get_set_other.
Qed.

(** Witness for X9: the call of [enqueue] made with one worker registered
    and at rest. *)
Lemma X9_witness :
  exists s s' f,
    run [AddWorker "worker-1" (1 # 4) (1 # 2) (1 # 2)] init = Some s
    /\ step (Enqueue hello "key-1" 0) s = Some s'
    /\ suspended s' = Some f
    /\ Worker.status (frame_worker f) = Worker.online
    /\ load_of (Worker.id (frame_worker f)) s' = Some 1.
Proof.
  reach_by [AddWorker "worker-1" (1 # 4) (1 # 2) (1 # 2)] ltac:(fun s Hr =>
    exists s;
    pose proof (fun s' f =>
      X9_enqueue_assigns_to_an_available_worker hello "key-1" 0 s s' f Hr
        eq_refl) as H).
  eexists. eexists. split; [reflexivity|].
  split; [vm_compute; reflexivity|]. split; [vm_compute; reflexivity|].
  destruct (H _ _ eq_refl eq_refl) as (_ & Hon & _ & _ & Hload & _).
  split; [exact Hon|].
  apply (f_equal (option_map Worker.currentLoad)) in Hload. exact Hload.
Defined.

(** X10. Within one pass no worker is given two tasks.  When a parked
    pass is continued and assigns again, the task is the next one of its
    queue, and the worker is one of its array of available workers other
    than the worker of the assignment before; the array it goes on with is
    the old one without that worker, sorted by load ratio, with the new
    worker in front and all identifiers distinct. *)
Theorem X10_pass_uses_each_worker_once (s s' : State) (f f' : Frame) :
  reachable s ->
  suspended s = Some f ->
  step Resume s = Some s' ->
  suspended s' = Some f' ->
  In (frame_worker f') (frame_pool f)
  /\ Worker.id (frame_worker f') <> Worker.id (frame_worker f)
  /\ ~ In (Worker.id (frame_worker f)) (map Worker.id (frame_pool f'))
  /\ NoDup (map Worker.id (frame_pool f'))
  /\ hd_error (frame_pool f') = Some (frame_worker f')
  /\ Permutation (frame_pool f')
       (TaskQueue.splice_worker (Worker.id (frame_worker f)) (frame_pool f))
  /\ exists task,
       frame_tasks f = task :: frame_tasks f'
       /\ status_of (Task.id task) s = Some Task.pending
       /\ status_of (Task.id task) s' = Some Task.processing
       /\ assignedWorker_of (Task.id task) s'
          = Some (Some (Worker.id (frame_worker f'))).
Proof.
  intros Hr Hs Hstep Hs'.
  pose proof (reachable_lifecycle_inv s Hr) as (_ & Hframe).
  rewrite Hs in Hframe. destruct Hframe as (_ & _ & Hpend & Hndp & _).
  simpl in Hstep. rewrite Hs in Hstep. injection Hstep as <-.
  unfold TaskQueue.processQueue_resume in *.
  destruct (processQueue_loop_parked _ _ (set_suspended None s) f' eq_refl Hs')
    as (task & Htasks & _ & Hpool & Hhd & Eloop).
  rewrite Eloop. clear Eloop Hs'.
  set (old := Worker.id (frame_worker f)) in *.
  pose proof (splice_worker_NoDup old _ Hndp) as Hnds.
  assert (Hin : forall w, In w (frame_pool f') ->
                  In w (TaskQueue.splice_worker old (frame_pool f))).
  { intros w Hw. rewrite Hpool in Hw. now apply Array_sort_In in Hw. }
  pose proof (Hin _ (hd_error_In _ _ Hhd)) as Hw.
  split; [now apply splice_worker_In in Hw|].
  split; [now apply (splice_worker_other old (frame_pool f))|].
  split.
  { intros Hold. apply in_map_iff in Hold. destruct Hold as (w & Ew & Hold).
    now apply (splice_worker_other old (frame_pool f) w Hndp (Hin w Hold)). }
  split; [rewrite Hpool; now apply NoDup_map_sort|].
  split; [exact Hhd|].
  split; [rewrite Hpool; apply Array_sort_perm|].
  exists task. split; [exact Htasks|].
  destruct (Hpend task) as (t0 & Hg0 & Hst0); [rewrite Htasks; now left|].
  unfold status_of, assignedWorker_of, Store.getTask.
  cbn [tasks set_suspended]. rewrite assignTaskToWorker_tasks.
  cbn [tasks set_suspended]. rewrite Hg0, get_set_same. simpl.
  now rewrite Hst0.
Qed.

(** Witness for X10: two tasks wait while no worker is registered; two
    workers arrive; the pass of the next call gives the first task to one
    worker and, continued, the second task to the other. *)
Lemma X10_witness :
  exists s s' f f',
    run [Enqueue hello "key-1" 0; Enqueue hello "key-2" 0;
         AddWorker "worker-1" (1 # 4) (1 # 2) (1 # 2);
         AddWorker "worker-2" (1 # 2) (1 # 4) (1 # 4);
         Enqueue hello "key-1" 0] init = Some s
    /\ suspended s = Some f
    /\ step Resume s = Some s'
    /\ suspended s' = Some f'
    /\ Worker.id (frame_worker f') <> Worker.id (frame_worker f).
Proof.
  reach_by [Enqueue hello "key-1" 0; Enqueue hello "key-2" 0;
            AddWorker "worker-1" (1 # 4) (1 # 2) (1 # 2);
            AddWorker "worker-2" (1 # 2) (1 # 4) (1 # 4);
            Enqueue hello "key-1" 0] ltac:(fun s Hr =>
    exists s;
    pose proof (fun s' f f' => X10_pass_uses_each_worker_once s s' f f' Hr)
      as H).
  eexists. eexists. eexists. split; [reflexivity|].
  split; [vm_compute; reflexivity|]. split; [vm_compute; reflexivity|].
  split; [vm_compute; reflexivity|].
  exact (proj1 (proj2 (H _ _ _ eq_refl eq_refl eq_refl))).
Defined.

(** ** The waiters of a task *)

Lemma step_waiter_step e s s' : step e s = Some s' -> waiter_step s s'.
Proof.
  assert (Hreg : forall x, same_registry s x -> waiter_step s x).
  { intros x (H1 & H2 & H3 & H4 & _). now apply ws_same. }
  assert (Hres : forall id o x,
            same_registry s x ->
            waiter_step s
              (match JsMap.get id (taskCallbacks x) with
               | Some callbacks =>
                   set_taskCallbacks
                     (JsMap.delete id (taskCallbacks (call callbacks o x)))
                     (call callbacks o x)
               | None => x
               end)).
  { intros id o x (H1 & H2 & H3 & H4 & _).
    destruct (JsMap.get id (taskCallbacks x)) as [p|] eqn:E.
    - rewrite H1 in E. apply (ws_settle s _ id p o); simpl; congruence.
    - now apply ws_same. }
  destruct e; simpl.
  - intros H; injection H as <-. now apply ws_same.
  - destruct (_ && _); [|discriminate].
    unfold WorkerManager.addWorker, WorkerManager.createWorker.
    destruct (nth_error _ _); simpl; [|discriminate].
    intros H; injection H as <-. now apply ws_same.
  - intros H; injection H as <-. now apply ws_same.
  - destruct (_ && _); [|discriminate].
    intros H; injection H as <-. apply Hreg, heartbeat_registry.
  - intros H; injection H as <-. unfold TaskQueue.enqueue. simpl.
    destruct (processQueue_registry
                (Store.addTask (enqueued_task payload apiKeyId priority s)
                   (snd (uuidv4 s)))) as (H1 & H2 & H3 & H4 & _).
    now apply ws_same.
  - destruct (suspended s) as [f|]; [|discriminate].
    intros H; injection H as <-. unfold TaskQueue.processQueue_resume.
    destruct (processQueue_loop_registry (frame_tasks f)
                (TaskQueue.splice_worker (Worker.id (frame_worker f))
                   (frame_pool f)) (set_suspended None s))
      as (H1 & H2 & H3 & H4 & _).
    now apply ws_same.
  - intros H; injection H as <-. unfold TaskQueue.waitForCompletion. simpl.
    unfold Store.getTask. simpl.
    destruct (JsMap.get taskId (tasks s)) as [t|];
      [destruct (Task.status t)|]; simpl;
      first [ now apply (ws_register s _ taskId)
            | now eapply ws_at_once ].
  - destruct (idle s); [|discriminate].
    destruct (armed (taskId, promise) (waitTimers s)) eqn:Ha; [|discriminate].
    simpl. intros H; injection H as <-. apply armed_In in Ha.
    unfold TaskQueue.waitForCompletion_timeout. simpl.
    destruct (JsMap.has taskId (taskCallbacks s)) eqn:Hhas.
    + now apply (ws_timeout s _ taskId promise).
    + now apply (ws_timeout_late s _ taskId promise).
  - destruct (_ && _); [|discriminate].
    intros H; injection H as <-.
    match goal with
    | |- waiter_step _ (TaskQueue.simulateTaskProcessing_timeout _ _ ?y) =>
        destruct (completion_resolves taskId workerId y) as (x & -> & Hx)
    end.
    apply Hres. exact Hx.
  - intros H; injection H as <-. apply Hres, same_registry_refl.
  - intros H; injection H as <-. apply Hres, same_registry_refl.
Qed.

Lemma get_after_call {V : Type} (p q : N) (o : V) (l : list (N * V)) :
  JsMap.get p l = None -> p <> q -> JsMap.get p (l ++ [(q, o)]) = None.
Proof.
  intros Hn Hne. rewrite (get_app_unsettled _ _ _ Hn). simpl.
  destruct (N.eqb_spec p q); [contradiction | reflexivity].
Qed.

Lemma get_call_first {V : Type} (p : N) (o : V) (l : list (N * V)) :
  JsMap.get p l = None -> JsMap.get p (l ++ [(p, o)]) = Some o.
Proof.
  intros Hn. rewrite (get_app_unsettled _ _ _ Hn). simpl.
  now rewrite N.eqb_refl.
Qed.

Lemma In_delete_other {V : Type} (k k' : N) (v : V) (m : list (N * V)) :
  NoDup (JsMap.keys m) -> In (k', v) (JsMap.delete k m) -> k' <> k.
Proof.
  intros Hnd Hin ->.
  pose proof (get_delete_same k m Hnd) as Hn.
  apply get_None_keys in Hn. apply Hn.
  now apply (in_map fst) in Hin.
Qed.

Lemma NoDup_snd_eq (l : list (N * N)) t t' p :
  NoDup (map snd l) -> In (t, p) l -> In (t', p) l -> t = t'.
Proof.
  induction l as [|[a b] l IH]; simpl; [tauto|].
  intros Hnd. inversion Hnd as [|? ? Hnotin Hnd']; subst.
  intros [E1|I1] [E2|I2].
  - congruence.
  - injection E1 as -> ->. exfalso. apply Hnotin.
    now apply (in_map snd) in I2.
  - injection E2 as -> ->. exfalso. apply Hnotin.
    now apply (in_map snd) in I1.
  - now apply IH.
Qed.

Lemma remove_timer_NoDup_snd x l :
  NoDup (map snd l) -> NoDup (map snd (remove_timer x l)).
Proof.
  induction l as [|z l IH]; simpl; [auto|].
  intros Hnd. inversion Hnd as [|? ? Hnotin Hnd']; subst.
  destruct (_ && _); simpl; [assumption|].
  constructor; [|auto].
  intros Hin. apply Hnotin. apply in_map_iff in Hin.
  destruct Hin as (y & Hy & Hin). apply remove_timer_In in Hin.
  apply in_map_iff. now exists y.
Qed.

Lemma NoDup_snoc {A : Type} (l : list A) (x : A) :
  NoDup l -> ~ In x l -> NoDup (l ++ [x]).
Proof.
  induction l as [|a l IH]; simpl; intros Hnd Hx.
  - constructor; [tauto | constructor].
  - inversion Hnd as [|? ? Hnotin Hnd']; subst. constructor.
    + intros Hin. apply in_app_or in Hin. simpl in Hin.
      destruct Hin as [Hin|[E|[]]]; [contradiction|]. apply Hx. now left.
    + apply IH; [assumption|]. tauto.
Qed.

Lemma waiter_step_inv s s' :
  promise_inv s -> unique_waiters s -> waiter_inv s -> waiter_step s s' ->
  waiter_inv s'.
Proof.
  intros (Hc & Hcb & Ht) Hu (Hw & Hnd) Hstep. unfold waiter_inv, promise_state in *.
  destruct Hstep as [E1 E2 E3 E4 | t E4 E1 E3 E2 | o E4 E1 E3 E2
                    | t p o E4 E3 Hg E1 E2 | t p E4 Hin E3 Hhas E1 E2
                    | t p E4 Hin E3 Hhas E1 E2];
    rewrite E1, E2, E3.
  - split; assumption.
  - split.
    + intros t' p' Hin. apply In_set in Hin. destruct Hin as [E|Hin].
      * injection E as -> ->. split; [|apply in_or_app; right; now left].
        destruct (JsMap.get (promise_supply s) (calls s)) as [o|] eqn:E;
          [|reflexivity].
        apply get_In in E. apply Hc in E. lia.
      * destruct (Hw _ _ Hin) as (H1 & H2).
        split; [assumption | apply in_or_app; now left].
    + rewrite map_app. simpl. apply NoDup_snoc; [assumption|].
      intros Hin. apply in_map_iff in Hin. destruct Hin as ([a b] & E & Hin).
      simpl in E. subst b. apply Ht in Hin. lia.
  - split; [|assumption].
    intros t' p' Hin. destruct (Hw _ _ Hin) as (H1 & H2). split; [|assumption].
    apply get_after_call; [assumption|]. apply Hcb in Hin. lia.
  - split; [|assumption].
    intros t' p' Hin. pose proof (In_delete_other _ _ _ _ Hu Hin) as Hne.
    apply In_delete in Hin. destruct (Hw _ _ Hin) as (H1 & H2).
    split; [|assumption]. apply get_after_call; [assumption|].
    intros ->. apply Hne. apply get_In in Hg.
    destruct (Hw _ _ Hg) as (_ & H3).
    apply (NoDup_snd_eq _ _ _ _ Hnd H2 H3).
  - split; [|now apply remove_timer_NoDup_snd].
    intros t' p' Hin'. pose proof (In_delete_other _ _ _ _ Hu Hin') as Hne.
    apply In_delete in Hin'. destruct (Hw _ _ Hin') as (H1 & H2).
    assert (Hp : p' <> p).
    { intros ->. apply Hne. apply (NoDup_snd_eq _ _ _ _ Hnd H2 Hin). }
    split; [now apply get_after_call|].
    apply remove_timer_keep; [assumption | congruence].
  - split; [|now apply remove_timer_NoDup_snd].
    intros t' p' Hin'. destruct (Hw _ _ Hin') as (H1 & H2).
    split; [assumption|]. apply remove_timer_keep; [assumption|].
    intros E. injection E as -> ->.
    assert (Hex : JsMap.has t (taskCallbacks s) = true).
    { apply has_get. exists p. now apply In_get_NoDup. }
    congruence.
Qed.

Lemma reachable_waiter_inv s : reachable s -> waiter_inv s.
Proof.
  intros Hr.
  assert (H : promise_inv s /\ unique_waiters s /\ waiter_inv s);
    [|tauto].
  revert s Hr.
  apply (reachable_invariant
           (fun s => promise_inv s /\ unique_waiters s /\ waiter_inv s)).
  - split; [|split].
    + split; [|split]; simpl; tauto.
    + constructor.
    + split; [simpl; tauto | constructor].
  - intros e s1 s2 (H1 & H2 & H3) Hstep.
    split; [now apply (step_promise_inv e s1)|].
    split; [now apply (step_unique_waiters e s1)|].
    apply (waiter_step_inv s1); try assumption.
    now apply (step_waiter_step e).
Qed.

Lemma processQueue_loop_unfinished pendingTasks :
  forall availableWorkers s id t,
    Store.getTask id s = Some t -> Task.status t <> Task.completed ->
    exists t',
      Store.getTask id
        (TaskQueue.processQueue_loop pendingTasks availableWorkers s) = Some t'
      /\ Task.status t' <> Task.completed.
Proof.
  induction pendingTasks as [|task rest IH]; intros pool s id t Hget Hst.
  - exists t. split; assumption.
  - destruct pool as [|w0 pool'].
    { exists t. split; assumption. }
    rewrite processQueue_loop_cons.
    destruct (TaskQueue.selectBestWorker (w0 :: pool') task)
      as [sorted [worker|]]; [|now apply (IH _ _ _ t)].
    unfold Store.getTask in *. cbn [tasks set_suspended].
    rewrite assignTaskToWorker_tasks.
    destruct (JsMap.get (Task.id task) (tasks s)) as [t0|];
      [|exists t; split; assumption].
    rewrite get_set. destruct (N.eqb id (Task.id task)).
    + eexists. split; [reflexivity|]. simpl. discriminate.
    + exists t. split; assumption.
Qed.

Lemma step_waiting_unfinished e s s' :
  unique_waiters s -> waiting_unfinished s -> step e s = Some s' ->
  waiting_unfinished s'.
Proof.
  intros Hu Hs Hstep.
  assert (Hsame : forall y, tasks y = tasks s ->
            (forall x, In x (taskCallbacks y) -> In x (taskCallbacks s)) ->
            waiting_unfinished y).
  { intros y Et Hcb t p Hin. unfold Store.getTask. rewrite Et.
    apply (Hs t p). now apply Hcb. }
  assert (Hloop : forall ts pool x,
            tasks x = tasks s -> taskCallbacks x = taskCallbacks s ->
            waiting_unfinished (TaskQueue.processQueue_loop ts pool x)).
  { intros ts pool x Et Ecb t p Hin.
    rewrite (proj1 (processQueue_loop_registry ts pool x)), Ecb in Hin.
    destruct (Hs t p Hin) as (task & Hg & Hst).
    apply (processQueue_loop_unfinished ts pool x t task); [|assumption].
    unfold Store.getTask in *. now rewrite Et. }
  destruct e; [simpl in Hstep .. | | simpl in Hstep | simpl in Hstep
              | simpl in Hstep | simpl in Hstep | simpl in Hstep
              | simpl in Hstep].
  - injection Hstep as <-. now apply Hsame.
  - destruct (_ && _); [|discriminate].
    unfold WorkerManager.addWorker, WorkerManager.createWorker in Hstep.
    destruct (nth_error _ _); simpl in Hstep; [|discriminate].
    injection Hstep as <-. now apply Hsame.
  - injection Hstep as <-. now apply Hsame.
  - destruct (_ && _); [|discriminate]. injection Hstep as <-.
    apply Hsame; [apply heartbeat_tasks|].
    now rewrite (proj1 (heartbeat_registry draws s)).
  - rewrite step_enqueue in Hstep. injection Hstep as <-.
    set (s0 := enqueue_stored payload apiKeyId priority s).
    assert (H0 : waiting_unfinished s0).
    { intros t p Hin. change (taskCallbacks s0) with (taskCallbacks s) in Hin.
      destruct (Hs t p Hin) as (task & Hg & Hst).
      unfold Store.getTask, s0, enqueue_stored, Store.addTask in *.
      cbn [tasks set_tasks uuidv4 snd set_uuid_supply enqueued_task Task.id].
      rewrite get_set. destruct (N.eqb t (uuid_supply s)).
      - eexists. split; [reflexivity|]. simpl. discriminate.
      - exists task. split; assumption. }
    unfold TaskQueue.processQueue. destruct (processing s0); [exact H0|].
    intros t p Hin.
    rewrite (proj1 (processQueue_loop_registry _ _ _)) in Hin.
    destruct (H0 t p Hin) as (task & Hg & Hst).
    now apply (processQueue_loop_unfinished _ _ _ t task).
  - destruct (suspended s) as [f|]; [|discriminate].
    injection Hstep as <-. unfold TaskQueue.processQueue_resume.
    now apply Hloop.
  - injection Hstep as <-. clear Hsame Hloop. intros t p Hin.
    unfold TaskQueue.waitForCompletion, Store.getTask in Hin |- *.
    simpl in Hin |- *.
    destruct (JsMap.get taskId (tasks s)) as [task|] eqn:Eg;
      [destruct (Task.status task) eqn:Est|]; simpl in Hin |- *;
      first [ exact (Hs t p Hin)
            | apply In_set in Hin; destruct Hin as [E|Hin];
              [injection E as -> ->; exists task;
               split; [exact Eg | rewrite Est; discriminate]
              | exact (Hs t p Hin)] ].
  - destruct (_ && _); [|discriminate]. injection Hstep as <-.
    unfold TaskQueue.waitForCompletion_timeout.
    cbn [taskCallbacks set_waitTimers].
    destruct (JsMap.has taskId (taskCallbacks s));
      (apply Hsame; [reflexivity|]); cbn; intros x Hx;
      [now apply In_delete in Hx | exact Hx].
  - destruct (_ && _); [|discriminate]. injection Hstep as <-.
    intros t p Hin.
    match type of Hin with
    | In _ (taskCallbacks (TaskQueue.simulateTaskProcessing_timeout _ _ ?y)) =>
        set (x := y) in *
    end.
    assert (Ecb : taskCallbacks x = taskCallbacks s) by reflexivity.
    assert (Hne : t <> taskId
                  /\ In (t, p) (taskCallbacks s)
                  \/ JsMap.get taskId (taskCallbacks s) = None
                     /\ In (t, p) (taskCallbacks s)).
    { destruct (JsMap.get taskId (taskCallbacks s)) as [q|] eqn:Eq.
      - left. rewrite <- Ecb in Eq.
        rewrite (proj2 (completion_calls_present taskId workerId x q Eq)),
          Ecb in Hin.
        split; [now apply (In_delete_other _ _ _ _ Hu Hin)
               | now apply In_delete in Hin].
      - right. split; [reflexivity|].
        destruct (completion_resolves taskId workerId x) as (y & Ey & Hy).
        rewrite Ey in Hin. unfold TaskQueue.resolveTask in Hin.
        rewrite (proj1 Hy), Ecb, Eq in Hin.
        now rewrite (proj1 Hy), Ecb in Hin. }
    assert (Hin0 : In (t, p) (taskCallbacks s)) by tauto.
    assert (Hneq : t <> taskId).
    { destruct Hne as [(H & _)|(Hn & _)]; [assumption|].
      intros ->. apply get_None_keys in Hn. apply Hn.
      now apply (in_map fst) in Hin0. }
    destruct (Hs t p Hin0) as (task & Hg & Hst).
    exists task. split; [|assumption].
    unfold Store.getTask in *. rewrite completion_tasks_exact.
    change (tasks x) with (tasks s).
    destruct (JsMap.get taskId (tasks s)); [|assumption].
    now rewrite get_set_other.
  - injection Hstep as <-.
    apply Hsame; [apply resolveTask_store|].
    unfold TaskQueue.resolveTask.
    destruct (JsMap.get taskId (taskCallbacks s)); cbn; intros x Hx;
      [now apply In_delete in Hx | exact Hx].
  - injection Hstep as <-.
    apply Hsame; [apply rejectTask_store|].
    unfold TaskQueue.rejectTask.
    destruct (JsMap.get taskId (taskCallbacks s)); cbn; intros x Hx;
      [now apply In_delete in Hx | exact Hx].
Qed.

Lemma reachable_waiting_unfinished s : reachable s -> waiting_unfinished s.
Proof.
  intros Hr.
  assert (H : unique_waiters s /\ waiting_unfinished s); [|tauto].
  revert s Hr.
  apply (reachable_invariant
           (fun s => unique_waiters s /\ waiting_unfinished s)).
  - split; [constructor | intros t p []].
  - intros e s1 s2 (H1 & H2) Hstep.
    split; [now apply (step_unique_waiters e s1)|].
    now apply (step_waiting_unfinished e s1).
Qed.

(** X11. [waitForCompletion] returns a new, unsettled promise and touches
    no task, worker or completion timer.  For an identifier the store does
    not know the promise is rejected at once with 'Task not found', and
    nothing is registered.  For a stored task that is not completed the
    promise stays unsettled, is registered as the waiter of the task in
    place of any earlier one, and its timer is armed; the waiters of other
    tasks are left alone and no continuation is called. *)
Theorem X11_waitForCompletion_registers (s : State) (taskId : N) :
  reachable s ->
  let p := fst (TaskQueue.waitForCompletion taskId s) in
  let s' := snd (TaskQueue.waitForCompletion taskId s) in
  promise_state p s = None
  /\ tasks s' = tasks s /\ workers s' = workers s
  /\ completionTimers s' = completionTimers s
  /\ match Store.getTask taskId s with
     | None =>
         promise_state p s' = Some (Rejected "Task not found")
         /\ taskCallbacks s' = taskCallbacks s
         /\ waitTimers s' = waitTimers s
     | Some task =>
         Task.status task <> Task.completed ->
         promise_state p s' = None
         /\ calls s' = calls s
         /\ JsMap.get taskId (taskCallbacks s') = Some p
         /\ (forall k, k <> taskId ->
               JsMap.get k (taskCallbacks s') = JsMap.get k (taskCallbacks s))
         /\ waitTimers s' = waitTimers s ++ [(taskId, p)]
     end.
Proof.
  intros Hr p s'.
  pose proof (fresh_promise_unsettled s (reachable_promise_inv s Hr)) as Hfresh.
  pose proof (reachable_statuses s Hr) as Hst. rewrite Forall_forall in Hst.
  subst p s'. unfold TaskQueue.waitForCompletion, Store.getTask.
  cbn [new_promise fst snd tasks set_promise_supply].
  destruct (JsMap.get taskId (tasks s)) as [task|] eqn:Eg.
  - pose proof (Hst task (get_In_values _ _ _ Eg)) as Hcases.
    destruct (Task.status task) eqn:Est; cbn [fst snd];
      (split; [exact Hfresh|]); (split; [reflexivity|]);
      (split; [reflexivity|]); (split; [reflexivity|]); intros Hne;
      try congruence;
      try (exfalso; destruct Hcases as [H|[H|H]]; discriminate H);
      (split; [exact Hfresh|]); (split; [reflexivity|]);
      (split; [apply get_set_same|]);
      (split; [intros k Hk; now apply get_set_other | reflexivity]).
  - cbn [fst snd]. split; [exact Hfresh|]. split; [reflexivity|].
    split; [reflexivity|]. split; [reflexivity|].
    split; [|split; reflexivity].
    unfold promise_state, call. cbn [calls set_calls set_promise_supply].
    now apply get_call_first.
Qed.

(** Witness for X11: a waiter for the task in flight, and one for an
    identifier that names no task. *)
Lemma X11_witness :
  exists s,
    run one_in_flight init = Some s
    /\ JsMap.get 1%N (taskCallbacks (snd (TaskQueue.waitForCompletion 1 s)))
       = Some (fst (TaskQueue.waitForCompletion 1 s))
    /\ promise_state (fst (TaskQueue.waitForCompletion 7 s))
         (snd (TaskQueue.waitForCompletion 7 s))
       = Some (Rejected "Task not found").
Proof.
  reach_by one_in_flight ltac:(fun s Hr =>
    exists s;
    pose proof (X11_waitForCompletion_registers s 1%N Hr) as H1;
    pose proof (X11_waitForCompletion_registers s 7%N Hr) as H7).
  split; [reflexivity|].
  destruct H1 as (_ & _ & _ & _ & H1). destruct H7 as (_ & _ & _ & _ & H7).
  split.
  - refine (proj1 (proj2 (proj2 (H1 _)))). discriminate.
  - exact (proj1 H7).
Defined.

(** X12. A registered waiter waits for a stored task that is 'pending' or
    'processing'; its promise is still unsettled and its timer is still
    armed.  Whichever comes first decides the outcome: [resolveTask]
    fulfils it with the value given, [rejectTask] rejects it with the error
    given, the completion of the task fulfils it with the success payload
    that names the worker, and its own timer rejects it with
    'Task timeout'. *)
Theorem X12_registered_waiter_is_pending (s : State) (taskId p : N) :
  reachable s ->
  JsMap.get taskId (taskCallbacks s) = Some p ->
  promise_state p s = None
  /\ armed (taskId, p) (waitTimers s) = true
  /\ (exists task, Store.getTask taskId s = Some task
                   /\ (Task.status task = Task.pending
                       \/ Task.status task = Task.processing))
  /\ (forall result,
        promise_state p (TaskQueue.resolveTask taskId result s)
        = Some (Fulfilled result))
  /\ (forall error,
        promise_state p (TaskQueue.rejectTask taskId error s)
        = Some (Rejected error))
  /\ (forall workerId,
        promise_state p
          (TaskQueue.simulateTaskProcessing_timeout taskId workerId s)
        = Some (Fulfilled (VSuccess (Some workerId))))
  /\ promise_state p (TaskQueue.waitForCompletion_timeout taskId p s)
     = Some (Rejected "Task timeout").
Proof.
  intros Hr Hg.
  destruct (reachable_waiter_inv s Hr) as (Hw & _).
  destruct (Hw taskId p (get_In _ _ _ Hg)) as (Hnone & Htimer).
  destruct (reachable_waiting_unfinished s Hr taskId p (get_In _ _ _ Hg))
    as (task & Htask & Hnc).
  pose proof (reachable_statuses s Hr) as Hst. rewrite Forall_forall in Hst.
  split; [exact Hnone|]. split; [now apply In_armed|]. split.
  { exists task. split; [exact Htask|].
    unfold Store.getTask in Htask.
    destruct (Hst task (get_In_values _ _ _ Htask)) as [H|[H|H]]; tauto. }
  unfold promise_state in *.
  split; [|split; [|split]].
  - intros v. unfold TaskQueue.resolveTask. rewrite Hg. simpl.
    now apply get_call_first.
  - intros e. unfold TaskQueue.rejectTask. rewrite Hg. simpl.
    now apply get_call_first.
  - intros w.
    rewrite (proj1 (completion_calls_present taskId w s p Hg)).
    now apply get_call_first.
  - unfold TaskQueue.waitForCompletion_timeout, JsMap.has. rewrite Hg. simpl.
    now apply get_call_first.
Qed.

(** Witness for X12: the waiter of the task in flight. *)
Lemma X12_witness :
  exists s,
    run (one_in_flight ++ [WaitForCompletion 1]) init = Some s
    /\ JsMap.get 1%N (taskCallbacks s) = Some 0%N
    /\ promise_state 0 s = None
    /\ promise_state 0 (TaskQueue.simulateTaskProcessing_timeout 1 0 s)
       = Some (Fulfilled (VSuccess (Some 0%N))).
Proof.
  reach_by (one_in_flight ++ [WaitForCompletion 1]) ltac:(fun s Hr =>
    exists s;
    pose proof (X12_registered_waiter_is_pending s 1%N 0%N Hr eq_refl) as H).
  split; [reflexivity|]. split; [reflexivity|].
  destruct H as (H1 & _ & _ & _ & _ & H2 & _).
  split; [exact H1 | exact (H2 0%N)].
Defined.

Lemma waiter_step_forgotten p s s' :
  forgotten p s -> waiter_step s s' -> forgotten p s'.
Proof.
  intros (Hlt & Hnone & Hcb & Ht) Hstep. unfold forgotten, promise_state in *.
  destruct Hstep as [E1 E2 E3 E4 | t E4 E1 E3 E2 | o E4 E1 E3 E2
                    | t q o E4 E3 Hg E1 E2 | t q E4 Hin E3 Hhas E1 E2
                    | t q E4 Hin E3 Hhas E1 E2];
    rewrite E1, E2, E3, E4.
  - tauto.
  - split; [lia|]. split; [assumption|]. split.
    + intros t' Hin. apply In_set in Hin. destruct Hin as [E|Hin].
      * injection E as _ E. lia.
      * now apply (Hcb t').
    + intros t' Hin. apply in_app_or in Hin. destruct Hin as [Hin|[E|[]]].
      * now apply (Ht t').
      * injection E as _ E. lia.
  - split; [lia|]. split; [|tauto]. apply get_after_call; [assumption | lia].
  - split; [assumption|]. split.
    + apply get_after_call; [assumption|]. intros ->.
      apply (Hcb t). now apply get_In.
    + split; [|assumption]. intros t' Hin. apply In_delete in Hin.
      now apply (Hcb t').
  - split; [assumption|]. split.
    + apply get_after_call; [assumption|]. intros ->. now apply (Ht t).
    + split.
      * intros t' Hin'. apply In_delete in Hin'. now apply (Hcb t').
      * intros t' Hin'. apply remove_timer_In in Hin'. now apply (Ht t').
  - split; [assumption|]. split; [assumption|]. split; [assumption|].
    intros t' Hin'. apply remove_timer_In in Hin'. now apply (Ht t').
Qed.

(** X13. A promise of [waitForCompletion] that is unsettled, is no longer
    registered for any task and has no timer left is never settled,
    whatever happens next: its caller waits for ever.  (A second
    [waitForCompletion] for the same unfinished task puts the first
    promise into this situation once the task has completed and the timer
    of the first has fired.) *)
Theorem X13_forgotten_waiter_never_settles (es : list Event) (s s' : State)
    (p : N) :
  forgotten p s ->
  run es s = Some s' ->
  forgotten p s' /\ promise_state p s' = None.
Proof.
  intros Hf Hrun.
  assert (H : forgotten p s'); [|split; [exact H | apply H]].
  revert s Hf Hrun. induction es as [|e es IH]; simpl; intros s Hf Hrun.
  - now injection Hrun as <-.
  - destruct (step e s) as [s1|] eqn:Hstep; [|discriminate].
    apply (IH s1); [|assumption].
    apply (waiter_step_forgotten p s); [assumption|].
    now apply (step_waiter_step e).
Qed.

(** Witness for X13: two waiters for the task in flight; the completion
    fulfils the second, the timer of the first finds no entry, and the
    first promise is left unsettled, also after the timer of the second
    and a later call of [resolveTask]. *)
Lemma X13_witness :
  exists s s',
    run two_waiters init = Some s
    /\ promise_state 1 s = Some (Fulfilled (VSuccess (Some 0%N)))
    /\ forgotten 0 s
    /\ run [Tick 500; WaitTimeout 1 1; ResolveTask 1 VUndefined] s = Some s'
    /\ promise_state 0 s' = None.
Proof.
  reach_by two_waiters ltac:(fun s Hr =>
    exists s;
    let es := constr:([Tick 500; WaitTimeout 1 1; ResolveTask 1 VUndefined]) in
    let r := eval vm_compute in (run es s) in
    match r with
    | Some ?s' =>
        exists s';
        assert (Hrun : run es s = Some s') by (vm_compute; reflexivity);
        pose proof (fun Hf =>
          X13_forgotten_waiter_never_settles es s s' 0%N Hf Hrun) as H
    end).
  assert (Hf : forgotten 0
                 ltac:(let x := eval vm_compute in (run two_waiters init) in
                       match x with Some ?s => exact s end)).
  { split; [reflexivity|]. split; [reflexivity|].
    split; intros t Hin; simpl in Hin; intuition discriminate. }
  split; [reflexivity|]. split; [reflexivity|]. split; [exact Hf|].
  split; [exact Hrun|]. exact (proj2 (H Hf)).
Defined.

(** ** The workers: telemetry, heartbeat and registration *)

Lemma reachable_invariant_strong (P : State -> Prop) :
  P init ->
  (forall e s s', reachable s -> P s -> step e s = Some s' -> P s') ->
  forall s, reachable s -> P s.
Proof.
  intros Hinit Hstep s Hr.
  assert (H : reachable s /\ P s); [|tauto].
  revert s Hr.
  apply (reachable_invariant (fun s => reachable s /\ P s)).
  - split; [now exists [] | assumption].
  - intros e s1 s2 (Hr1 & H1) Hs. split.
    + apply (reachable_run [e] s1 s2 Hr1). simpl. now rewrite Hs.
    + now apply (Hstep e s1).
Qed.

Lemma Math_round_between (lo hi : Z) (y : Q) :
  (inject_Z lo <= y)%Q -> (y <= inject_Z hi)%Q -> lo <= Math_round y <= hi.
Proof.
  intros Hlo Hhi. unfold Math_round. split.
  - rewrite <- (Qfloor_Z lo). apply Qfloor_resp_le. lra.
  - pose proof (Qfloor_le (y + (1 # 2))) as Hf.
    assert (Hlt : (inject_Z (Qfloor (y + (1 # 2))) < inject_Z (hi + 1))%Q).
    { rewrite inject_Z_plus. change (inject_Z 1) with 1%Q. lra. }
    rewrite <- Zlt_Qlt in Hlt. lia.
Qed.

Lemma Math_round_clamp (hi : Z) (x : Q) :
  0 <= hi -> 0 <= Math_round (Qmax 0 (Qmin (inject_Z hi) x)) <= hi.
Proof.
  intros H. apply Math_round_between.
  - apply Q.le_max_l.
  - apply Q.max_lub; [|apply Q.le_min_l].
    change 0%Q with (inject_Z 0). now rewrite <- Zle_Qle.
Qed.

Lemma Math_round_drift (M u D : Z) (c : Q) :
  0 <= u <= M -> (inject_Z (- D) <= c)%Q -> (c <= inject_Z D)%Q ->
  u - D <= Math_round (Qmax 0 (Qmin (inject_Z M) (inject_Z u + c))) <= u + D.
Proof.
  intros (Hu0 & HuM) Hc1 Hc2.
  assert (H0 : (0 <= inject_Z u)%Q)
    by (change 0%Q with (inject_Z 0); now rewrite <- Zle_Qle).
  assert (HM : (inject_Z u <= inject_Z M)%Q) by now rewrite <- Zle_Qle.
  rewrite inject_Z_opp in Hc1.
  apply Math_round_between.
  - unfold Z.sub. rewrite inject_Z_plus, inject_Z_opp.
    apply Qle_trans with (Qmin (inject_Z M) (inject_Z u + c));
      [|apply Q.le_max_r].
    apply Q.min_glb; lra.
  - rewrite inject_Z_plus. apply Q.max_lub; [lra|].
    apply Qle_trans with (inject_Z u + c)%Q; [apply Q.le_min_r | lra].
Qed.

Lemma heartbeat_worker_exact worker draws s :
  JsMap.get (Worker.id worker) (workers s) = Some worker ->
  workers (WorkerManager.heartbeat_worker worker draws s)
  = JsMap.set (Worker.id worker) (heartbeat_record worker draws (clock s))
      (workers s)
  /\ clock (WorkerManager.heartbeat_worker worker draws s) = clock s.
Proof.
  intros Hg. unfold WorkerManager.heartbeat_worker, heartbeat_record.
  destruct draws as [[a b] c]. unfold Store.updateWorker. rewrite Hg.
  split; reflexivity.
Qed.

Lemma heartbeat_fold l :
  forall s,
    NoDup (map (fun wd : Worker.WorkerNode * (Q * Q * Q) => Worker.id (fst wd)) l) ->
    (forall w d, In (w, d) l -> JsMap.get (Worker.id w) (workers s) = Some w) ->
    let s' := fold_left
                (fun s wd => WorkerManager.heartbeat_worker (fst wd) (snd wd) s)
                l s in
    (forall w d, In (w, d) l ->
       JsMap.get (Worker.id w) (workers s')
       = Some (heartbeat_record w d (clock s)))
    /\ (forall k,
          ~ In k (map (fun wd : Worker.WorkerNode * (Q * Q * Q) =>
                         Worker.id (fst wd)) l) ->
          JsMap.get k (workers s') = JsMap.get k (workers s)).
Proof.
  induction l as [|[w d] l IH]; intros s Hnd Hall; cbn [fold_left fst snd].
  - split; [intros w d [] | reflexivity].
  - cbn [map fst] in Hnd. inversion Hnd as [|? ? Hnotin Hnd']; subst.
    destruct (heartbeat_worker_exact w d s (Hall w d (or_introl eq_refl)))
      as (Ew & Ec).
    set (s1 := WorkerManager.heartbeat_worker w d s) in *.
    assert (Hall1 : forall w' d', In (w', d') l ->
              JsMap.get (Worker.id w') (workers s1) = Some w').
    { intros w' d' Hin. rewrite Ew, get_set_other.
      - apply (Hall w' d'). now right.
      - intros E. apply Hnotin. rewrite <- E.
        apply in_map_iff. now exists (w', d'). }
    destruct (IH s1 Hnd' Hall1) as (IH1 & IH2). split.
    + intros w' d' [E|Hin].
      * injection E as <- <-. rewrite (IH2 _ Hnotin), Ew. apply get_set_same.
      * rewrite <- Ec. now apply IH1.
    + intros k Hk. cbn [map fst] in Hk.
      assert (Hk1 : k <> Worker.id w)
        by (intros E; apply Hk; left; now rewrite E).
      assert (Hk2 : ~ In k (map (fun wd : Worker.WorkerNode * (Q * Q * Q) =>
                                   Worker.id (fst wd)) l))
        by (intros Hin; apply Hk; now right).
      rewrite (IH2 k Hk2), Ew. now apply get_set_other.
Qed.

Lemma combine_fst_In {A B : Type} (l : list A) (l' : list B) x :
  List.length l' = List.length l -> In x l -> exists y, In (x, y) (combine l l').
Proof.
  revert l'. induction l as [|a l IH]; intros [|b l'] Hlen Hin;
    simpl in *; try tauto; try discriminate.
  destruct Hin as [->|Hin].
  - exists b. now left.
  - destruct (IH l' ltac:(lia) Hin) as [y Hy]. exists y. now right.
Qed.

Lemma combine_fst_all {A B : Type} (l : list A) (l' : list B) :
  List.length l' = List.length l -> map fst (combine l l') = l.
Proof.
  revert l'. induction l as [|a l IH]; intros [|b l'] Hlen;
    simpl in *; try reflexivity; try discriminate.
  f_equal. apply IH. lia.
Qed.

Lemma heartbeat_exact draws s :
  registry_inv s ->
  List.length draws = List.length (workers s) ->
  (forall k w, JsMap.get k (workers s) = Some w ->
     exists d, In d draws
       /\ JsMap.get k (workers (WorkerManager.heartbeat draws s))
          = Some (heartbeat_record w d (clock s)))
  /\ (forall k, JsMap.get k (workers s) = None ->
        JsMap.get k (workers (WorkerManager.heartbeat draws s)) = None).
Proof.
  intros (Hnd & Hw & _) Hlen.
  assert (Hids : map Worker.id (JsMap.values (workers s)) = JsMap.keys (workers s)).
  { apply values_keys_map. intros k v Hin. apply (Hw k v Hin). }
  assert (Hlen' : List.length draws = List.length (JsMap.values (workers s)))
    by (unfold JsMap.values; now rewrite length_map).
  set (l := combine (WorkerManager.getAllWorkers s) draws).
  assert (Hl : map (fun wd : Worker.WorkerNode * (Q * Q * Q) =>
                      Worker.id (fst wd)) l
               = JsMap.keys (workers s)).
  { rewrite <- Hids, <- (map_map fst Worker.id). f_equal.
    unfold l, WorkerManager.getAllWorkers, Store.getAllWorkers.
    now apply combine_fst_all. }
  assert (Hall : forall w d, In (w, d) l ->
            JsMap.get (Worker.id w) (workers s) = Some w).
  { intros w d Hin. apply in_combine_l in Hin. apply In_values_key in Hin.
    destruct Hin as (k & Hin). rewrite (proj1 (Hw k w Hin)).
    now apply In_get_NoDup. }
  destruct (heartbeat_fold l s ltac:(rewrite Hl; exact Hnd) Hall) as (H1 & H2).
  fold (WorkerManager.heartbeat draws s) in H1, H2. split.
  - intros k w Hg. pose proof (get_In _ _ _ Hg) as Hin.
    pose proof (proj1 (Hw k w Hin)) as Hk.
    destruct (combine_fst_In (WorkerManager.getAllWorkers s) draws w Hlen'
                (get_In_values _ _ _ Hg)) as (d & Hd).
    exists d. split; [now apply in_combine_r in Hd|].
    rewrite <- Hk. now apply H1.
  - intros k Hn. rewrite H2; [assumption|].
    rewrite Hl. now apply get_None_keys.
Qed.

Lemma telemetry_set k v (m : list (N * Worker.WorkerNode)) :
  (forall k' w, In (k', w) m -> telemetry_ok w) -> telemetry_ok v ->
  forall k' w, In (k', w) (JsMap.set k v m) -> telemetry_ok w.
Proof.
  intros Hm Hv k' w Hin. apply In_set in Hin. destruct Hin as [E|Hin].
  - now injection E as _ ->.
  - now apply (Hm k').
Qed.

Lemma telemetry_with_load load w : telemetry_ok w -> telemetry_ok (with_load load w).
Proof. intros H. exact H. Qed.

Lemma processQueue_loop_telemetry pendingTasks :
  forall availableWorkers s,
    telemetry_all s ->
    telemetry_all (TaskQueue.processQueue_loop pendingTasks availableWorkers s).
Proof.
  induction pendingTasks as [|task rest IH]; intros pool s Hs; [exact Hs|].
  destruct pool as [|w0 pool']; [exact Hs|].
  rewrite processQueue_loop_cons.
  destruct (TaskQueue.selectBestWorker (w0 :: pool') task)
    as [sorted [worker|]]; [|now apply IH].
  unfold telemetry_all. cbn [workers set_suspended].
  rewrite assignTaskToWorker_workers.
  destruct (JsMap.get (Worker.id worker) (workers s)) as [e|] eqn:E;
    [|exact Hs].
  apply telemetry_set; [exact Hs|].
  apply telemetry_with_load. apply (Hs (Worker.id worker)). now apply get_In.
Qed.

Lemma telemetry_heartbeat_record w d now :
  telemetry_ok w -> telemetry_ok (heartbeat_record w d now).
Proof.
  intros (Hu & Hm & Hc). destruct d as [[a b] c].
  unfold telemetry_ok, heartbeat_record. cbn.
  split; [|split; [|exact Hc]].
  - apply (Math_round_clamp 100). lia.
  - apply Math_round_clamp. lia.
Qed.

Lemma valid_random_range r : valid_random r = true -> (0 <= r)%Q /\ (r < 1)%Q.
Proof.
  unfold valid_random. intros H. apply andb_true_iff in H.
  destruct H as (H0 & H1). apply Qle_bool_iff in H0. split; [assumption|].
  apply negb_true_iff in H1. apply Qnot_le_lt. intros Hle.
  apply Qle_bool_iff in Hle. congruence.
Qed.

Lemma half_floor (r : Q) (m : Z) :
  (0 <= r)%Q /\ (r < 1)%Q -> 0 <= m ->
  0 <= Qfloor (r * inject_Z m * (1 # 2))
  /\ 2 * Qfloor (r * inject_Z m * (1 # 2)) <= m.
Proof.
  intros (Hr0 & Hr1) Hm.
  assert (HM : (0 <= inject_Z m)%Q)
    by (change 0%Q with (inject_Z 0); now rewrite <- Zle_Qle).
  assert (H0 : (0 <= r * inject_Z m)%Q) by now apply Qmult_le_0_compat.
  assert (H1 : (r * inject_Z m <= inject_Z m)%Q).
  { rewrite <- (Qmult_1_l (inject_Z m)) at 2.
    apply Qmult_le_compat_r; [lra | assumption]. }
  set (x := (r * inject_Z m)%Q) in *.
  pose proof (Qfloor_le (x * (1 # 2))) as Hf. split.
  - change 0 with (Qfloor 0). apply Qfloor_resp_le. lra.
  - rewrite Zle_Qle, inject_Z_mult. change (inject_Z 2) with 2%Q. lra.
Qed.

Lemma createWorker_record hostname rModel rMemory rUtil s worker s' :
  valid_random rMemory = true -> valid_random rUtil = true ->
  WorkerManager.createWorker hostname rModel rMemory rUtil s
  = Some (worker, s') ->
  telemetry_ok worker
  /\ 0 <= Worker.utilization (Worker.gpuInfo worker) < 60
  /\ 2 * Worker.memoryUsed (Worker.gpuInfo worker)
     <= Worker.memoryTotal (Worker.gpuInfo worker)
  /\ Worker.id worker = uuid_supply s
  /\ Worker.hostname worker = hostname
  /\ Worker.status worker = Worker.online
  /\ Worker.currentLoad worker = 0
  /\ Worker.lastHeartbeat worker = clock s
  /\ s' = Store.addWorker worker (snd (uuidv4 s)).
Proof.
  intros Hm Hu. apply valid_random_range in Hm, Hu.
  unfold WorkerManager.createWorker.
  destruct (nth_error _ _) as [g|] eqn:E; [|discriminate].
  cbn [uuidv4]. intros H. injection H as <- <-.
  apply nth_error_In in E. unfold telemetry_ok.
  cbn [Worker.gpuInfo Worker.utilization Worker.memoryUsed Worker.memoryTotal
       Worker.maxCapacity Worker.id Worker.hostname Worker.status
       Worker.currentLoad Worker.lastHeartbeat].
  assert (Hutil : 0 <= Qfloor (rUtil * 60) < 60).
  { split.
    - change 0 with (Qfloor 0). apply Qfloor_resp_le. lra.
    - pose proof (Qfloor_le (rUtil * 60)) as Hf.
      assert (Hlt : (inject_Z (Qfloor (rUtil * 60)) < inject_Z 60)%Q)
        by (change (inject_Z 60) with 60%Q; lra).
      now rewrite <- Zlt_Qlt in Hlt. }
  assert (Hmem : 0 <= Qfloor (rMemory * inject_Z (WorkerManager.gm_memory g)
                              * (1 # 2))
                 /\ 2 * Qfloor (rMemory * inject_Z (WorkerManager.gm_memory g)
                                * (1 # 2))
                    <= WorkerManager.gm_memory g).
  { apply half_floor; [assumption|].
    simpl in E. destruct E as [<-|[<-|[<-|[<-|[]]]]]; cbn; lia. }
  set (u := Qfloor (rUtil * 60)) in *.
  set (m := Qfloor (rMemory * inject_Z (WorkerManager.gm_memory g) * (1 # 2)))
    in *.
  assert (Hcap : In (WorkerManager.gm_baseThroughput g / 10)
                    catalogue_capacities).
  { unfold catalogue_capacities.
    now apply (in_map (fun g => WorkerManager.gm_baseThroughput g / 10)) in E. }
  assert (Hu100 : 0 <= u <= 100) by lia.
  assert (Hm' : 0 <= m <= WorkerManager.gm_memory g) by lia.
  refine (conj (conj Hu100 (conj Hm' Hcap))
               (conj Hutil (conj (proj2 Hmem) _))).
  repeat split; reflexivity.
Qed.

Lemma step_telemetry e s s' :
  reachable s -> telemetry_all s -> step e s = Some s' -> telemetry_all s'.
Proof.
  intros Hr Hs Hstep.
  pose proof (reachable_registry_inv s Hr) as Hreg.
  assert (Hr' : reachable s').
  { apply (reachable_run [e] s s' Hr). simpl. now rewrite Hstep. }
  pose proof (reachable_registry_inv s' Hr') as (Hnd' & _).
  assert (Hsame : forall y, workers y = workers s -> telemetry_all y).
  { intros y E k w Hin. rewrite E in Hin. now apply (Hs k). }
  destruct e; [simpl in Hstep .. | | simpl in Hstep | simpl in Hstep
              | simpl in Hstep | simpl in Hstep | simpl in Hstep
              | simpl in Hstep].
  - injection Hstep as <-. now apply Hsame.
  - destruct (valid_random rModel); [|discriminate].
    destruct (valid_random rMemory) eqn:Hm; [|discriminate].
    destruct (valid_random rUtil) eqn:Hu; [|discriminate].
    cbn [andb] in Hstep. unfold WorkerManager.addWorker in Hstep.
    destruct (WorkerManager.createWorker hostname rModel rMemory rUtil s)
      as [[worker s1]|] eqn:Ec; [|discriminate].
    cbn in Hstep. injection Hstep as <-.
    destruct (createWorker_record _ _ _ _ _ _ _ Hm Hu Ec)
      as (Hok & _ & _ & _ & _ & _ & _ & _ & ->).
    unfold telemetry_all, Store.addWorker. cbn [workers set_workers].
    apply telemetry_set; [exact Hs | exact Hok].
  - injection Hstep as <-. intros k w Hin. cbn in Hin.
    apply In_delete in Hin. now apply (Hs k).
  - destruct (idle s); [|discriminate].
    destruct (forallb valid_draws draws); [|discriminate].
    destruct (Nat.eqb_spec (List.length draws) (List.length (workers s)))
      as [Hlen|]; [|discriminate].
    cbn [andb] in Hstep. injection Hstep as <-.
    destruct (heartbeat_exact draws s Hreg Hlen) as (H1 & H2).
    intros k w' Hin. apply (In_get_NoDup _ _ _ Hnd') in Hin.
    destruct (JsMap.get k (workers s)) as [w|] eqn:Eg.
    + destruct (H1 k w Eg) as (d & _ & Hg'). rewrite Hg' in Hin.
      injection Hin as <-. apply telemetry_heartbeat_record.
      apply (Hs k). now apply get_In.
    + rewrite (H2 k Eg) in Hin. discriminate.
  - rewrite step_enqueue in Hstep. injection Hstep as <-.
    unfold TaskQueue.processQueue.
    destruct (processing _); [now apply Hsame|].
    apply processQueue_loop_telemetry. now apply Hsame.
  - destruct (suspended s) as [f|]; [|discriminate].
    injection Hstep as <-. unfold TaskQueue.processQueue_resume.
    apply processQueue_loop_telemetry. now apply Hsame.
  - injection Hstep as <-. apply Hsame.
    unfold TaskQueue.waitForCompletion. simpl. unfold Store.getTask. simpl.
    destruct (JsMap.get taskId (tasks s)) as [t0|];
      [destruct (Task.status t0)|]; reflexivity.
  - destruct (_ && _); [|discriminate]. injection Hstep as <-. apply Hsame.
    unfold TaskQueue.waitForCompletion_timeout. simpl.
    now destruct (JsMap.has taskId (taskCallbacks s)).
  - destruct (_ && _); [|discriminate]. injection Hstep as <-.
    unfold telemetry_all. rewrite completion_workers_exact.
    cbn [workers set_completionTimers].
    destruct (JsMap.get workerId (workers s)) as [w0|] eqn:E; [|exact Hs].
    apply telemetry_set; [exact Hs|]. apply telemetry_with_load.
    apply (Hs workerId). now apply get_In.
  - injection Hstep as <-. apply Hsame. apply resolveTask_store.
  - injection Hstep as <-. apply Hsame. apply rejectTask_store.
Qed.

Lemma reachable_telemetry s : reachable s -> telemetry_all s.
Proof.
  apply reachable_invariant_strong.
  - intros k w [].
  - intros e s1 s2. apply step_telemetry.
Qed.

(** X14. The telemetry of every stored worker stays in range: the
    utilization lies between 0 and 100, the memory in use between 0 and
    the total memory of the GPU, and the capacity is one of those of the
    catalogue (10, 15, 6 or 7), so it is positive. *)
Theorem X14_worker_telemetry_in_range (s : State) (id : N)
    (w : Worker.WorkerNode) :
  reachable s ->
  Store.getWorker id s = Some w ->
  0 <= Worker.utilization (Worker.gpuInfo w) <= 100
  /\ 0 <= Worker.memoryUsed (Worker.gpuInfo w)
       <= Worker.memoryTotal (Worker.gpuInfo w)
  /\ In (Worker.maxCapacity w) [10; 15; 6; 7]
  /\ 0 < Worker.maxCapacity w.
Proof.
  intros Hr Hg. unfold Store.getWorker in Hg. apply get_In in Hg.
  destruct (reachable_telemetry s Hr id w Hg) as (H1 & H2 & H3).
  split; [assumption|]. split; [assumption|].
  assert (H4 : In (Worker.maxCapacity w) [10; 15; 6; 7]) by exact H3.
  split; [assumption|].
  simpl in H4. destruct H4 as [<-|[<-|[<-|[<-|[]]]]]; lia.
Qed.

(** Witness for X14: a worker created with high draws, after a heartbeat
    that pushes its utilization up. *)
Lemma X14_witness :
  exists s w,
    run [AddWorker "worker-1" (3 # 4) (9 # 10) (9 # 10);
         Heartbeat [(99 # 100, 99 # 100, 1 # 2)]] init = Some s
    /\ Store.getWorker 0 s = Some w
    /\ 0 <= Worker.utilization (Worker.gpuInfo w) <= 100
    /\ 0 < Worker.maxCapacity w.
Proof.
  reach_by [AddWorker "worker-1" (3 # 4) (9 # 10) (9 # 10);
            Heartbeat [(99 # 100, 99 # 100, 1 # 2)]] ltac:(fun s Hr =>
    exists s;
    pose proof (fun w => X14_worker_telemetry_in_range s 0%N w Hr) as H).
  eexists. split; [vm_compute; reflexivity|].
  split; [vm_compute; reflexivity|].
  destruct (H _ eq_refl) as (H1 & _ & _ & H4).
  split; [exact H1 | exact H4].
Defined.

Lemma fold_left_sum_bounds {A : Type} (f : A -> Z) (hi : Z) (l : list A) :
  (forall x, In x l -> 0 <= f x <= hi) ->
  forall a,
    a <= fold_left (fun sum x => sum + f x) l a
      <= a + hi * Z.of_nat (List.length l).
Proof.
  induction l as [|x l IH]; intros Hall a.
  - simpl. lia.
  - cbn [fold_left List.length].
    pose proof (Hall x (or_introl eq_refl)) as Hx.
    pose proof (IH (fun y Hy => Hall y (or_intror Hy)) (a + f x)) as Hl.
    lia.
Qed.

(** X15. The average utilization reported by [getWorkerStats] is a whole
    percentage between 0 and 100, and it is 0 when no worker is
    registered; the total count is the number of stored workers. *)
Theorem X15_average_utilization_in_range (s : State) :
  reachable s ->
  let stats := WorkerManager.getWorkerStats s in
  0 <= WorkerManager.avgUtilization stats <= 100
  /\ (Store.getAllWorkers s = [] -> WorkerManager.avgUtilization stats = 0)
  /\ WorkerManager.total stats = List.length (workers s).
Proof.
  intros Hr stats. subst stats.
  pose proof (reachable_telemetry s Hr) as Ht.
  unfold WorkerManager.getWorkerStats, WorkerManager.getAllWorkers.
  cbn [WorkerManager.avgUtilization WorkerManager.total].
  assert (Hall : forall w, In w (Store.getAllWorkers s) ->
            0 <= Worker.utilization (Worker.gpuInfo w) <= 100).
  { intros w Hin. apply In_values_key in Hin. destruct Hin as (k & Hin).
    apply (Ht k w Hin). }
  split; [|split].
  - destruct (Store.getAllWorkers s) as [|w l] eqn:El.
    + vm_compute. split; discriminate.
    + rewrite <- El in *.
      pose proof (fold_left_sum_bounds
                    (fun w => Worker.utilization (Worker.gpuInfo w)) 100
                    (Store.getAllWorkers s) Hall 0) as Hsum.
      set (total := fold_left _ (Store.getAllWorkers s) 0) in *.
      assert (Hn : 0 < Z.of_nat (List.length (Store.getAllWorkers s)))
        by (rewrite El; simpl; lia).
      set (n := Z.of_nat (List.length (Store.getAllWorkers s))) in *.
      assert (HnQ : (0 < inject_Z n)%Q)
        by (change 0%Q with (inject_Z 0); now rewrite <- Zlt_Qlt).
      apply (Math_round_between 0 100).
      * apply Qle_shift_div_l; [assumption|].
        rewrite <- inject_Z_mult, <- Zle_Qle. lia.
      * apply Qle_shift_div_r; [assumption|].
        rewrite <- inject_Z_mult, <- Zle_Qle. lia.
  - intros ->. reflexivity.
  - unfold Store.getAllWorkers, JsMap.values. apply length_map.
Qed.

(** Witness for X15: two workers with different utilizations. *)
Lemma X15_witness :
  exists s,
    run [AddWorker "worker-1" (1 # 4) (1 # 2) (1 # 2);
         AddWorker "worker-2" (3 # 4) (1 # 4) (9 # 10)] init = Some s
    /\ WorkerManager.avgUtilization (WorkerManager.getWorkerStats s) = 42
    /\ 0 <= WorkerManager.avgUtilization (WorkerManager.getWorkerStats s) <= 100.
Proof.
  reach_by [AddWorker "worker-1" (1 # 4) (1 # 2) (1 # 2);
            AddWorker "worker-2" (3 # 4) (1 # 4) (9 # 10)] ltac:(fun s Hr =>
    exists s; pose proof (X15_average_utilization_in_range s Hr) as (H & _)).
  split; [reflexivity|]. split; [vm_compute; reflexivity | exact H].
Defined.

Lemma heartbeat_record_drift w a b c now :
  telemetry_ok w -> valid_draws (a, b, c) = true ->
  let w' := heartbeat_record w (a, b, c) now in
  Worker.utilization (Worker.gpuInfo w) - 5
    <= Worker.utilization (Worker.gpuInfo w')
    <= Worker.utilization (Worker.gpuInfo w) + 5
  /\ Worker.memoryUsed (Worker.gpuInfo w) - 1
       <= Worker.memoryUsed (Worker.gpuInfo w')
       <= Worker.memoryUsed (Worker.gpuInfo w) + 1.
Proof.
  intros (Hu & Hm & _) Hd. unfold valid_draws in Hd.
  apply andb_true_iff in Hd. destruct Hd as (Hd & _).
  apply andb_true_iff in Hd. destruct Hd as (Ha & Hb).
  apply valid_random_range in Ha, Hb.
  cbn [heartbeat_record Worker.gpuInfo Worker.utilization Worker.memoryUsed].
  split.
  - apply (Math_round_drift 100 _ 5); [assumption| |];
      cbv [inject_Z Z.opp]; lra.
  - apply (Math_round_drift _ _ 1); [assumption| |];
      cbv [inject_Z Z.opp]; lra.
Qed.

(** X16. A heartbeat touches the telemetry only.  Every stored worker is
    still stored afterwards, with the same identifier, host name, load,
    capacity, supported models, GPU name and total memory; its
    [lastHeartbeat] is the current time; its utilization has moved by at
    most 5 points and its memory in use by at most 1; and its status is as
    before when the third draw is at least 0.02, and toggled between
    'online' and 'offline' otherwise.  No worker is added, and the tasks
    are as before. *)
Theorem X16_heartbeat_touches_telemetry_only (s s' : State)
    (draws : list (Q * Q * Q)) (id : N) (w : Worker.WorkerNode) :
  reachable s ->
  step (Heartbeat draws) s = Some s' ->
  Store.getWorker id s = Some w ->
  tasks s' = tasks s
  /\ (forall k, Store.getWorker k s = None -> Store.getWorker k s' = None)
  /\ exists w' rUtil rMemory rStatus,
       In (rUtil, rMemory, rStatus) draws
       /\ Store.getWorker id s' = Some w'
       /\ Worker.id w' = Worker.id w
       /\ Worker.hostname w' = Worker.hostname w
       /\ Worker.currentLoad w' = Worker.currentLoad w
       /\ Worker.maxCapacity w' = Worker.maxCapacity w
       /\ Worker.supportedModels w' = Worker.supportedModels w
       /\ Worker.name (Worker.gpuInfo w') = Worker.name (Worker.gpuInfo w)
       /\ Worker.memoryTotal (Worker.gpuInfo w')
          = Worker.memoryTotal (Worker.gpuInfo w)
       /\ Worker.lastHeartbeat w' = clock s
       /\ Worker.utilization (Worker.gpuInfo w) - 5
            <= Worker.utilization (Worker.gpuInfo w')
            <= Worker.utilization (Worker.gpuInfo w) + 5
       /\ Worker.memoryUsed (Worker.gpuInfo w) - 1
            <= Worker.memoryUsed (Worker.gpuInfo w')
            <= Worker.memoryUsed (Worker.gpuInfo w) + 1
       /\ ((2 # 100 <= rStatus)%Q -> Worker.status w' = Worker.status w)
       /\ (~ (2 # 100 <= rStatus)%Q ->
             Worker.status w = Worker.online /\ Worker.status w' = Worker.offline
             \/ Worker.status w = Worker.offline
                /\ Worker.status w' = Worker.online).
Proof.
  intros Hr Hstep Hg.
  pose proof (reachable_registry_inv s Hr) as Hreg.
  pose proof (reachable_telemetry s Hr) as Ht.
  simpl in Hstep.
  destruct (idle s); [|discriminate].
  destruct (forallb valid_draws draws) eqn:Hv; [|discriminate].
  destruct (Nat.eqb_spec (List.length draws) (List.length (workers s)))
    as [Hlen|]; [|discriminate].
  cbn [andb] in Hstep. injection Hstep as <-.
  destruct (heartbeat_exact draws s Hreg Hlen) as (H1 & H2).
  split; [apply heartbeat_tasks|]. split; [exact H2|].
  destruct (H1 id w Hg) as ([[a b] c] & Hin & Hg').
  exists (heartbeat_record w (a, b, c) (clock s)), a, b, c.
  split; [exact Hin|]. split; [exact Hg'|].
  rewrite forallb_forall in Hv. pose proof (Hv _ Hin) as Hd.
  unfold Store.getWorker in Hg.
  pose proof (Ht id w (get_In _ _ _ Hg)) as Hok.
  destruct (heartbeat_record_drift w a b c (clock s) Hok Hd) as (Du & Dm).
  repeat (split; [reflexivity|]).
  split; [exact Du|]. split; [exact Dm|].
  destruct Hreg as (_ & Hw & _).
  destruct (Hw id w (get_In _ _ _ Hg)) as (_ & _ & _ & Hnb).
  cbn [heartbeat_record Worker.status]. split.
  - intros Hle. apply Qle_bool_iff in Hle. now rewrite Hle.
  - intros Hlt. destruct (Qle_bool (2 # 100) c) eqn:E.
    + apply Qle_bool_iff in E. contradiction.
    + cbn [negb]. destruct (Worker.status w); [now left | now right | congruence].
Qed.

(** Witness for X16: a heartbeat with a low third draw takes the worker
    of the task in flight offline; its load is untouched. *)
Lemma X16_witness :
  exists s s' w w',
    run one_in_flight init = Some s
    /\ step (Heartbeat [(1 # 10, 9 # 10, 1 # 100)]) s = Some s'
    /\ Store.getWorker 0 s = Some w
    /\ Store.getWorker 0 s' = Some w'
    /\ Worker.currentLoad w' = 1
    /\ Worker.status w' = Worker.offline.
Proof.
  reach_by one_in_flight ltac:(fun s Hr =>
    exists s;
    pose proof (fun s' w =>
      X16_heartbeat_touches_telemetry_only s s'
        [(1 # 10, 9 # 10, 1 # 100)] 0%N w Hr) as H).
  eexists. eexists. eexists. split; [reflexivity|].
  split; [vm_compute; reflexivity|]. split; [vm_compute; reflexivity|].
  destruct (H _ _ eq_refl eq_refl)
    as (_ & _ & w' & a & b & c & _ & Hg & _ & _ & Hl & _).
  split; [vm_compute; reflexivity|]. split; reflexivity.
Defined.

Lemma Qfloor_index (r : Q) (n : nat) :
  (0 <= r)%Q /\ (r < 1)%Q -> (0 < n)%nat ->
  (Z.to_nat (Qfloor (r * inject_Z (Z.of_nat n))) < n)%nat.
Proof.
  intros (H0 & H1) Hn.
  assert (HnQ : (0 < inject_Z (Z.of_nat n))%Q)
    by (change 0%Q with (inject_Z 0); rewrite <- Zlt_Qlt; lia).
  assert (Hlo : (0 <= r * inject_Z (Z.of_nat n))%Q)
    by (apply Qmult_le_0_compat; lra).
  assert (Hhi : (r * inject_Z (Z.of_nat n) < inject_Z (Z.of_nat n))%Q).
  { rewrite <- (Qmult_1_l (inject_Z (Z.of_nat n))) at 2.
    now apply Qmult_lt_compat_r. }
  pose proof (Qfloor_le (r * inject_Z (Z.of_nat n))) as Hf.
  assert (Hpos : Qfloor 0 <= Qfloor (r * inject_Z (Z.of_nat n)))
    by now apply Qfloor_resp_le.
  change (Qfloor 0) with 0 in Hpos.
  assert (Hlt : (inject_Z (Qfloor (r * inject_Z (Z.of_nat n)))
                 < inject_Z (Z.of_nat n))%Q) by lra.
  rewrite <- Zlt_Qlt in Hlt. lia.
Qed.

(** X17. With draws that [Math.random] can give, [addWorker] always
    succeeds.  The worker gets an identifier no stored worker had
    ([uuidv4] taken to give fresh identifiers), the host name given, the
    status 'online', load 0, a capacity of the catalogue, a utilization
    below 60, at most half of its memory in use, and the current time as
    [lastHeartbeat].  It is stored and at once among the available
    workers; the other workers and the tasks are as before. *)
Theorem X17_addWorker_registers_an_available_worker (hostname : string)
    (rModel rMemory rUtil : Q) (s : State) :
  reachable s ->
  valid_random rModel = true ->
  valid_random rMemory = true ->
  valid_random rUtil = true ->
  exists worker s',
    WorkerManager.addWorker hostname rModel rMemory rUtil s = Some (worker, s')
    /\ step (AddWorker hostname rModel rMemory rUtil) s = Some s'
    /\ Store.getWorker (Worker.id worker) s = None
    /\ Store.getWorker (Worker.id worker) s' = Some worker
    /\ (forall k, k <> Worker.id worker ->
          Store.getWorker k s' = Store.getWorker k s)
    /\ tasks s' = tasks s
    /\ Worker.hostname worker = hostname
    /\ Worker.status worker = Worker.online
    /\ Worker.currentLoad worker = 0
    /\ 0 < Worker.maxCapacity worker
    /\ Worker.lastHeartbeat worker = clock s
    /\ 0 <= Worker.utilization (Worker.gpuInfo worker) < 60
    /\ 2 * Worker.memoryUsed (Worker.gpuInfo worker)
       <= Worker.memoryTotal (Worker.gpuInfo worker)
    /\ In worker (TaskQueue.getAvailableWorkers s').
Proof.
  intros Hr H1 H2 H3.
  destruct (reachable_registry_inv s Hr) as (_ & Hw & _).
  unfold WorkerManager.addWorker.
  destruct (WorkerManager.createWorker hostname rModel rMemory rUtil s)
    as [[worker s']|] eqn:Ec.
  - exists worker, s'. split; [reflexivity|].
    destruct (createWorker_record _ _ _ _ _ _ _ H2 H3 Ec)
      as ((_ & _ & Hcap) & Hu & Hm & Hid & Hh & Hst & Hl & Hb & ->).
    assert (Hpos : 0 < Worker.maxCapacity worker).
    { assert (H4 : In (Worker.maxCapacity worker) [10; 15; 6; 7]) by exact Hcap.
      simpl in H4. destruct H4 as [<-|[<-|[<-|[<-|[]]]]]; lia. }
    assert (Hnew : Store.getWorker (Worker.id worker)
                     (Store.addWorker worker (snd (uuidv4 s))) = Some worker)
      by apply get_set_same.
    split.
    { simpl. rewrite H1, H2, H3. cbn [andb].
      unfold WorkerManager.addWorker. now rewrite Ec. }
    split.
    { unfold Store.getWorker.
      destruct (JsMap.get (Worker.id worker) (workers s)) as [w0|] eqn:E;
        [|reflexivity].
      apply get_In in E. destruct (Hw _ _ E) as (_ & Hlt & _). lia. }
    split; [exact Hnew|]. split.
    { intros k Hk. now apply get_set_other. }
    split; [reflexivity|].
    repeat (split; [assumption|]).
    unfold TaskQueue.getAvailableWorkers, Store.getOnlineWorkers,
      Store.getAllWorkers.
    apply filter_In. split; [apply filter_In; split|].
    + now apply get_In_values in Hnew.
    + now rewrite Hst.
    + rewrite Hl. now apply Z.ltb_lt.
  - exfalso. unfold WorkerManager.createWorker in Ec.
    destruct (nth_error _ _) eqn:E; [discriminate|].
    apply nth_error_None in E.
    pose proof (Qfloor_index rModel (List.length WorkerManager.GPU_MODELS)
                  (valid_random_range _ H1) ltac:(simpl; lia)).
    lia.
Qed.

(** Witness for X17: a worker added to the empty registry. *)
Lemma X17_witness :
  exists worker s',
    WorkerManager.addWorker "worker-1" (1 # 4) (1 # 2) (1 # 2) init
    = Some (worker, s')
    /\ Worker.maxCapacity worker = 15
    /\ In worker (TaskQueue.getAvailableWorkers s').
Proof.
  destruct (X17_addWorker_registers_an_available_worker "worker-1"
              (1 # 4) (1 # 2) (1 # 2) init
              (ex_intro _ [] eq_refl) eq_refl eq_refl eq_refl)
    as (worker & s' & Ha & _ & _ & _ & _ & _ & _ & _ & _ & _ & _ & _ & _ & Hin).
  exists worker, s'. split; [exact Ha|]. split; [|exact Hin].
  vm_compute in Ha. injection Ha as <- _. reflexivity.
Defined.

(** ** The usage records and the recent tasks *)

Lemma Array_slice_neg {A : Type} (start : Z) (l : list A) :
  start < 0 ->
  Array_slice start l = skipn (Z.to_nat (Z.of_nat (List.length l) + start)) l
  /\ Z.of_nat (List.length (Array_slice start l))
     = Z.min (- start) (Z.of_nat (List.length l)).
Proof.
  intros Hk. unfold Array_slice.
  destruct (Z.ltb_spec start 0) as [_|H]; [|lia].
  assert (E : Z.to_nat (Z.max (Z.of_nat (List.length l) + start) 0)
              = Z.to_nat (Z.of_nat (List.length l) + start)) by lia.
  rewrite E. split; [reflexivity|]. rewrite length_skipn. lia.
Qed.

Lemma Array_slice_suffix {A : Type} (start : Z) (l : list A) :
  exists front, l = front ++ Array_slice start l.
Proof.
  unfold Array_slice. eexists. symmetry. apply firstn_skipn.
Qed.

Lemma skipn_snoc {A : Type} (n : nat) (l : list A) (x : A) :
  (n <= List.length l)%nat -> skipn n (l ++ [x]) = skipn n l ++ [x].
Proof.
  intros H. rewrite skipn_app.
  replace (n - List.length l)%nat with 0%nat by lia. reflexivity.
Qed.

Lemma addUsageRecord_spec r rs :
  Z.of_nat (List.length rs) <= 10000 ->
  Usage.addUsageRecord r rs
  = skipn (Z.to_nat (Z.of_nat (List.length rs) + 1 - 10000)) (rs ++ [r])
  /\ Z.of_nat (List.length (Usage.addUsageRecord r rs)) <= 10000.
Proof.
  intros Hlen. unfold Usage.addUsageRecord.
  assert (El : Z.of_nat (List.length (rs ++ [r]))
               = Z.of_nat (List.length rs) + 1)
    by (rewrite length_app; simpl; lia).
  destruct (Z.ltb_spec 10000 (Z.of_nat (List.length (rs ++ [r])))) as [H|H].
  - destruct (Array_slice_neg (-10000) (rs ++ [r]) ltac:(lia)) as (E1 & E2).
    split; [rewrite E1, El; f_equal; lia | rewrite E2; lia].
  - replace (Z.to_nat (Z.of_nat (List.length rs) + 1 - 10000)) with 0%nat
      by lia.
    split; [reflexivity | lia].
Qed.

Lemma recorded_snoc rs r :
  Usage.recorded (rs ++ [r]) = Usage.addUsageRecord r (Usage.recorded rs).
Proof. unfold Usage.recorded. now rewrite fold_left_app. Qed.

(** X18. The store keeps the 10000 most recent usage records and no
    others: after any number of calls of [addUsageRecord] the array holds
    the last 10000 of the records added (all of them when fewer were
    added), in the order they were added; so it never holds more than
    10000, and the record added last is its last element. *)
Theorem X18_usage_keeps_the_last_10000 (rs : list Usage.UsageRecord) :
  Usage.recorded rs
  = skipn (Z.to_nat (Z.of_nat (List.length rs) - 10000)) rs
  /\ Z.of_nat (List.length (Usage.recorded rs))
     = Z.min (Z.of_nat (List.length rs)) 10000
  /\ (forall r rs', rs = rs' ++ [r] ->
        exists front, Usage.recorded rs = front ++ [r]).
Proof.
  assert (H : Usage.recorded rs
              = skipn (Z.to_nat (Z.of_nat (List.length rs) - 10000)) rs).
  { induction rs as [|r rs IH] using rev_ind; [reflexivity|].
    rewrite recorded_snoc.
    assert (Hlen : Z.of_nat (List.length (Usage.recorded rs)) <= 10000)
      by (rewrite IH, length_skipn; lia).
    rewrite (proj1 (addUsageRecord_spec r _ Hlen)), IH.
    rewrite <- skipn_snoc by lia.
    rewrite skipn_skipn. f_equal.
    rewrite length_skipn, length_app. cbn [List.length]. lia. }
  split; [exact H|]. split.
  - rewrite H, length_skipn. lia.
  - intros r rs' ->. rewrite H, length_app. cbn [List.length].
    rewrite skipn_snoc by lia. eexists. reflexivity.
Qed.

(** X19. [getUsageRecords(apiKeyId, limit)] returns, oldest first, the
    last [limit] of the records of the key (all of them when there are
    fewer) when [limit] is positive.  With [limit] 0 it returns all the
    records of the key, not none; with a negative [limit] it drops that
    many of the oldest.  An absent or empty key selects the records of
    every key; otherwise every record returned carries the key asked
    for. *)
Theorem X19_getUsageRecords_limit (apiKeyId : option string) (limit : Z)
    (usageRecords : list Usage.UsageRecord) :
  let matching := Usage.records_of apiKeyId usageRecords in
  let result := Usage.getUsageRecords apiKeyId limit usageRecords in
  (exists front, matching = front ++ result)
  /\ (0 < limit ->
      Z.of_nat (List.length result)
      = Z.min limit (Z.of_nat (List.length matching)))
  /\ (limit = 0 -> result = matching)
  /\ (limit < 0 -> result = skipn (Z.to_nat (- limit)) matching)
  /\ (apiKeyId = None \/ apiKeyId = Some EmptyString ->
      matching = usageRecords)
  /\ (forall k, apiKeyId = Some k -> k <> EmptyString ->
      Forall (fun r => Usage.apiKeyId r = k) result).
Proof.
  intros matching result. subst result. unfold Usage.getUsageRecords.
  fold matching.
  split; [apply Array_slice_suffix|]. split; [|split; [|split; [|split]]].
  - intros H.
    rewrite (proj2 (Array_slice_neg (- limit) matching ltac:(lia))).
    f_equal. lia.
  - intros ->. unfold Array_slice. cbn [Z.opp Z.ltb Z.compare].
    rewrite Z.min_l by lia. reflexivity.
  - intros H. unfold Array_slice.
    destruct (Z.ltb_spec (- limit) 0) as [H'|_]; [lia|].
    destruct (Z.min_spec (- limit) (Z.of_nat (List.length matching)))
      as [(_ & ->)|(Hle & ->)]; [reflexivity|].
    rewrite Nat2Z.id, skipn_all, skipn_all2; [reflexivity | lia].
  - intros [->| ->]; reflexivity.
  - intros k -> Hk. destruct (Array_slice_suffix (- limit) matching) as [front E].
    assert (Hall : Forall (fun r => Usage.apiKeyId r = k) matching).
    { subst matching. unfold Usage.records_of.
      destruct (String.eqb_spec k EmptyString); [contradiction|].
      apply Forall_forall. intros r Hin. apply filter_In in Hin.
      now apply String.eqb_eq. }
    rewrite E in Hall. now apply Forall_app in Hall.
Qed.



Lemma StronglySorted_app_le (l1 l2 : list Z) :
  StronglySorted Z.le (l1 ++ l2) ->
  forall a b, In a l1 -> In b l2 -> a <= b.
Proof.
  induction l1 as [|x l1 IH]; simpl; intros Hs a b Ha Hb; [tauto|].
  apply StronglySorted_inv in Hs. destruct Hs as (Hs & Hall).
  destruct Ha as [->|Ha]; [|now apply IH].
  rewrite Forall_forall in Hall. apply Hall. apply in_or_app. now right.
Qed.

Lemma NoDup_app_disjoint {A : Type} (l1 l2 : list A) (x : A) :
  NoDup (l1 ++ l2) -> In x l1 -> In x l2 -> False.
Proof.
  induction l1 as [|a l1 IH]; simpl; intros Hnd H1 H2; [tauto|].
  inversion Hnd as [|? ? Hnotin Hnd']; subst.
  destruct H1 as [->|H1]; [|now apply IH].
  apply Hnotin. apply in_or_app. now right.
Qed.

(** X21. The recent tasks that [getQueueStatus] reports are the last 50
    of the store (all of them when it holds fewer), and they are the ones
    enqueued last: every stored task that is left out was created no later
    than every task reported, and no task is reported twice. *)
Theorem X21_recent_tasks_are_the_latest (s : State) :
  reachable s ->
  Z.of_nat (List.length (recentTasks s))
  = Z.min 50 (Z.of_nat (List.length (Store.getAllTasks s)))
  /\ NoDup (map Task.id (recentTasks s))
  /\ exists older,
       Store.getAllTasks s = older ++ recentTasks s
       /\ forall a b, In a older -> In b (recentTasks s) ->
            Task.createdAt a <= Task.createdAt b /\ Task.id a <> Task.id b.
Proof.
  intros Hr.
  destruct (reachable_chronological s Hr) as (Hsorted & _).
  destruct (reachable_lifecycle_inv s Hr) as ((Hnd & Htask & _) & _).
  assert (Hids : map Task.id (Store.getAllTasks s) = JsMap.keys (tasks s)).
  { apply values_keys_map. intros k v Hin.
    apply (Htask k v). now apply In_get_NoDup. }
  destruct (Array_slice_suffix (-50) (Store.getAllTasks s)) as [older E].
  fold (recentTasks s) in E.
  assert (Hnd' : NoDup (map Task.id older ++ map Task.id (recentTasks s)))
    by (rewrite <- map_app, <- E, Hids; exact Hnd).
  split.
  { unfold recentTasks.
    rewrite (proj2 (Array_slice_neg (-50) (Store.getAllTasks s) ltac:(lia))).
    reflexivity. }
  split; [now apply NoDup_app_remove_l in Hnd'|].
  exists older. split; [exact E|]. intros a b Ha Hb. split.
  - rewrite E, map_app in Hsorted.
    apply (StronglySorted_app_le _ _ Hsorted); now apply in_map.
  - intros Heq.
    apply (NoDup_app_disjoint _ _ (Task.id a) Hnd').
    + now apply in_map.
    + rewrite Heq. now apply in_map.
Qed.

(** Witness for X21: two tasks, both reported. *)
Lemma X21_witness :
  exists s,
    run (one_in_flight ++ [Tick 10; Enqueue hello "key-2" 0; Resume]) init
    = Some s
    /\ map Task.id (recentTasks s) = [1%N; 2%N]
    /\ NoDup (map Task.id (recentTasks s)).
Proof.
  reach_by (one_in_flight ++ [Tick 10; Enqueue hello "key-2" 0; Resume])
    ltac:(fun s Hr =>
      exists s; pose proof (X21_recent_tasks_are_the_latest s Hr) as (_ & H & _)).
  split; [reflexivity|]. split; [reflexivity | exact H].
Defined.

(** ** The API keys *)

Section AuthFacts.
Variable extractKeyId : string -> N.

Lemma key_inv_set k r m :
  key_inv extractKeyId m ->
  ApiKey.id r = k -> k = extractKeyId (ApiKey.key r) ->
  key_inv extractKeyId (JsMap.set k r m).
Proof.
  intros (Hnd & Hall) Hid Hk. split; [now apply NoDup_keys_set|].
  intros k' r' Hin. apply In_set in Hin. destruct Hin as [E|Hin].
  - injection E as -> ->. split; assumption.
  - now apply Hall.
Qed.

Lemma key_inv_update id u m :
  ApiKey.p_id u = None -> ApiKey.p_key u = None ->
  key_inv extractKeyId m ->
  key_inv extractKeyId (snd (KeyStore.updateApiKey id u m)).
Proof.
  intros Hi Hk Hm. unfold KeyStore.updateApiKey.
  destruct (JsMap.get id m) as [e|] eqn:E; [|exact Hm]. cbn [snd].
  destruct (proj2 Hm id e (get_In _ _ _ E)) as (H1 & H2).
  apply key_inv_set; [exact Hm | |]; unfold ApiKey.spread; cbn;
    rewrite ?Hi, ?Hk; assumption.
Qed.

Lemma key_step_inv op m :
  key_inv extractKeyId m -> key_inv extractKeyId (key_step extractKeyId m op).
Proof.
  intros Hm. destruct op as [plainKey name rate now|id|id|id now];
    cbn [key_step].
  - unfold createApiKey, KeyStore.addApiKey. cbn [snd ApiKey.id].
    now apply key_inv_set.
  - unfold revokeApiKey, KeyStore.getApiKey.
    destruct (JsMap.get id m) as [e|] eqn:E; [|exact Hm].
    match goal with
    | |- key_inv _ (snd (let '(_, _) := KeyStore.updateApiKey ?i ?u ?x in _)) =>
        pose proof (key_inv_update i u x eq_refl eq_refl Hm) as H;
        destruct (KeyStore.updateApiKey i u x) as [upd m']
    end.
    exact H.
  - unfold deleteApiKey, KeyStore.deleteApiKey. cbn [snd].
    destruct Hm as (Hnd & Hall). split; [now apply NoDup_keys_delete|].
    intros k r Hin. apply In_delete in Hin. now apply Hall.
  - unfold countUse, KeyStore.getApiKey.
    destruct (JsMap.get id m) as [e|] eqn:E; [|exact Hm].
    now apply key_inv_update.
Qed.

Lemma key_run_inv ops m :
  key_inv extractKeyId m -> key_inv extractKeyId (key_run extractKeyId ops m).
Proof.
  revert m. induction ops as [|op ops IH]; intros m Hm; [exact Hm|].
  apply IH. now apply key_step_inv.
Qed.

Lemma keys_reachable_inv m :
  keys_reachable extractKeyId m -> key_inv extractKeyId m.
Proof.
  intros [ops <-]. apply key_run_inv. split; [constructor | intros k r []].
Qed.

Lemma validate_by_id key m :
  key_inv extractKeyId m ->
  validateApiKey key m
  = match KeyStore.getApiKey (extractKeyId key) m with
    | Some r =>
        if String.eqb (ApiKey.key r) key && ApiKey.isActive r
        then Some r else None
    | None => None
    end.
Proof.
  intros (Hnd & Hall). unfold validateApiKey, KeyStore.getApiKeyByKey,
    KeyStore.getApiKey.
  destruct (find _ (JsMap.values m)) as [r|] eqn:Ef.
  - apply find_some in Ef. destruct Ef as (Hin & Hk).
    apply String.eqb_eq in Hk. apply In_values_key in Hin.
    destruct Hin as (k & Hin). destruct (Hall k r Hin) as (_ & Ek).
    rewrite Hk in Ek. subst k.
    rewrite (In_get_NoDup _ _ _ Hnd Hin), <- Hk, String.eqb_refl.
    reflexivity.
  - destruct (JsMap.get (extractKeyId key) m) as [r|] eqn:Eg; [|reflexivity].
    pose proof (find_none _ _ Ef r (get_In_values _ _ _ Eg)) as Hne.
    cbn beta in Hne. now rewrite Hne.
Qed.

(** X22. [validateApiKey(key)], which scans all keys, returns exactly
    what the look-up by the identifier derived from [key] would: the record
    stored under that identifier, provided its plain key is [key] and it is
    active.  So at most one stored record can ever match a key, the record
    returned carries the key given and is active, and an unknown, revoked
    or deleted key is refused. *)
Theorem X22_validateApiKey_is_the_lookup_by_id (key : string)
    (apiKeys : list (N * ApiKey.ApiKey)) :
  keys_reachable extractKeyId apiKeys ->
  (forall r, validateApiKey key apiKeys = Some r <->
     KeyStore.getApiKey (extractKeyId key) apiKeys = Some r
     /\ ApiKey.key r = key /\ ApiKey.isActive r = true)
  /\ (forall r, validateApiKey key apiKeys = Some r ->
        ApiKey.id r = extractKeyId key
        /\ forall r', In r' (KeyStore.getAllApiKeys apiKeys) ->
             ApiKey.key r' = key -> r' = r).
Proof.
  intros Hr. pose proof (keys_reachable_inv _ Hr) as Hinv.
  rewrite (validate_by_id key apiKeys Hinv).
  unfold KeyStore.getApiKey. split.
  - intros r. destruct (JsMap.get (extractKeyId key) apiKeys) as [r0|] eqn:Eg.
    + destruct (String.eqb_spec (ApiKey.key r0) key) as [Ek|Ek];
        destruct (ApiKey.isActive r0) eqn:Ea; cbn [andb]; split;
        try discriminate;
        try (intros H; injection H as <-; tauto);
        try (intros (H & H1 & H2); injection H as <-; congruence).
    + split; [discriminate | intros (H & _); discriminate].
  - intros r. destruct (JsMap.get (extractKeyId key) apiKeys) as [r0|] eqn:Eg;
      [|discriminate].
    destruct (String.eqb (ApiKey.key r0) key && ApiKey.isActive r0);
      [|discriminate].
    intros H. injection H as <-. destruct Hinv as (Hnd & Hall).
    split; [apply (Hall _ _ (get_In _ _ _ Eg))|].
    intros r' Hin Hk. apply In_values_key in Hin. destruct Hin as (k & Hin).
    destruct (Hall k r' Hin) as (_ & Ek). rewrite Hk in Ek. subst k.
    apply (In_get_NoDup _ _ _ Hnd) in Hin. congruence.
Qed.

(** X23. A key that [createApiKey] has just made validates: the record
    returned is stored under the identifier derived from the plain key, is
    active, has never been used, and has the rate limit asked for, or 60
    when none or 0 was asked for.  Keys with another identifier validate
    as before.  A different key with the same identifier, if there was
    one, has been replaced and no longer validates. *)
Theorem X23_created_key_validates (plainKey name : string)
    (rateLimitPerMinute : option Z) (now : Z)
    (apiKeys : list (N * ApiKey.ApiKey)) :
  keys_reachable extractKeyId apiKeys ->
  let apiKey :=
    fst (createApiKey extractKeyId plainKey name rateLimitPerMinute now apiKeys)
  in
  let apiKeys' :=
    snd (createApiKey extractKeyId plainKey name rateLimitPerMinute now apiKeys)
  in
  validateApiKey plainKey apiKeys' = Some apiKey
  /\ KeyStore.getApiKey (extractKeyId plainKey) apiKeys' = Some apiKey
  /\ ApiKey.key apiKey = plainKey
  /\ ApiKey.isActive apiKey = true
  /\ ApiKey.usageCount apiKey = 0
  /\ ApiKey.rateLimitPerMinute apiKey <> 0
  /\ (forall r, rateLimitPerMinute = Some r -> r <> 0 ->
        ApiKey.rateLimitPerMinute apiKey = r)
  /\ (rateLimitPerMinute = None \/ rateLimitPerMinute = Some 0 ->
        ApiKey.rateLimitPerMinute apiKey = 60)
  /\ (forall key, extractKeyId key <> extractKeyId plainKey ->
        validateApiKey key apiKeys' = validateApiKey key apiKeys)
  /\ (forall key, extractKeyId key = extractKeyId plainKey ->
        key <> plainKey -> validateApiKey key apiKeys' = None).
Proof.
  intros Hr apiKey apiKeys'.
  pose proof (keys_reachable_inv _ Hr) as Hinv.
  assert (Hinv' : key_inv extractKeyId apiKeys').
  { apply (key_step_inv (CreateKey plainKey name rateLimitPerMinute now)).
    exact Hinv. }
  assert (Hget : KeyStore.getApiKey (extractKeyId plainKey) apiKeys'
                 = Some apiKey) by apply get_set_same.
  split.
  { rewrite (validate_by_id _ _ Hinv'), Hget. cbn.
    now rewrite String.eqb_refl. }
  split; [exact Hget|]. split; [reflexivity|]. split; [reflexivity|].
  split; [reflexivity|]. split.
  { subst apiKey. cbn. unfold DEFAULT_RATE_LIMIT_PER_MINUTE.
    destruct rateLimitPerMinute as [r|]; [|discriminate].
    destruct (Z.eqb_spec r 0); [discriminate | assumption]. }
  split.
  { intros r -> Hne. subst apiKey. cbn.
    destruct (Z.eqb_spec r 0); [contradiction | reflexivity]. }
  split; [intros [->| ->]; reflexivity|]. split.
  - intros key Hne.
    rewrite (validate_by_id _ _ Hinv'), (validate_by_id _ _ Hinv).
    unfold KeyStore.getApiKey. subst apiKeys'.
    unfold createApiKey, KeyStore.addApiKey. cbn [snd ApiKey.id].
    now rewrite get_set_other.
  - intros key He Hne. rewrite (validate_by_id _ _ Hinv'), He, Hget.
    subst apiKey. cbn. destruct (String.eqb_spec plainKey key); [congruence|].
    reflexivity.
Qed.

Lemma key_step_inactive id op m :
  key_inv extractKeyId m ->
  ~ creates extractKeyId id op ->
  match JsMap.get id m with
  | Some r => ApiKey.isActive r = false
  | None => True
  end ->
  match JsMap.get id (key_step extractKeyId m op) with
  | Some r => ApiKey.isActive r = false
  | None => True
  end.
Proof.
  intros (Hnd & _) Hc Hm. destruct op as [plainKey name rate now|i|i|i now];
    cbn [key_step].
  - unfold createApiKey, KeyStore.addApiKey. cbn [snd ApiKey.id].
    rewrite get_set_other; [exact Hm|]. intros E. apply Hc. now cbn.
  - unfold revokeApiKey, KeyStore.getApiKey, KeyStore.updateApiKey.
    destruct (JsMap.get i m) as [e|] eqn:E; [|exact Hm]. cbn [snd].
    rewrite get_set. destruct (N.eqb_spec id i); [reflexivity | exact Hm].
  - unfold deleteApiKey, KeyStore.deleteApiKey. cbn [snd].
    destruct (N.eq_dec id i) as [->|Hne].
    + now rewrite get_delete_same.
    + now rewrite get_delete_other.
  - unfold countUse, KeyStore.getApiKey, KeyStore.updateApiKey.
    destruct (JsMap.get i m) as [e|] eqn:E; [|exact Hm]. cbn [snd].
    rewrite get_set. destruct (N.eqb_spec id i) as [->|]; [|exact Hm].
    rewrite E in Hm. exact Hm.
Qed.

Lemma key_run_inactive id ops :
  forall m,
    key_inv extractKeyId m ->
    Forall (fun op => ~ creates extractKeyId id op) ops ->
    match JsMap.get id m with
    | Some r => ApiKey.isActive r = false
    | None => True
    end ->
    match JsMap.get id (key_run extractKeyId ops m) with
    | Some r => ApiKey.isActive r = false
    | None => True
    end.
Proof.
  induction ops as [|op ops IH]; intros m Hinv Hall Hm; [exact Hm|].
  inversion Hall as [|? ? Hop Hall']; subst. cbn [key_run fold_left].
  apply IH; [now apply key_step_inv | assumption|].
  now apply key_step_inactive.
Qed.

(** X24. [revokeApiKey(id)] returns true exactly when a key is stored
    under [id]; it then clears [isActive] of that record and changes
    nothing else, so the key stops validating at once, and it stays
    refused through all later revocations, deletions and uses, until a
    key with the same identifier is created.  For an unknown [id] the call
    returns false and changes nothing. *)
Theorem X24_revoked_key_stays_refused (id : N) (r : ApiKey.ApiKey)
    (apiKeys : list (N * ApiKey.ApiKey)) (ops : list (KeyOp)) :
  keys_reachable extractKeyId apiKeys ->
  KeyStore.getApiKey id apiKeys = Some r ->
  Forall (fun op => ~ creates extractKeyId id op) ops ->
  let apiKeys' := snd (revokeApiKey id apiKeys) in
  fst (revokeApiKey id apiKeys) = true
  /\ validateApiKey (ApiKey.key r) apiKeys' = None
  /\ (exists r', KeyStore.getApiKey id apiKeys' = Some r'
        /\ ApiKey.isActive r' = false
        /\ ApiKey.key r' = ApiKey.key r /\ ApiKey.name r' = ApiKey.name r
        /\ ApiKey.usageCount r' = ApiKey.usageCount r
        /\ ApiKey.lastUsedAt r' = ApiKey.lastUsedAt r
        /\ ApiKey.rateLimitPerMinute r' = ApiKey.rateLimitPerMinute r)
  /\ (forall k, k <> id ->
        KeyStore.getApiKey k apiKeys' = KeyStore.getApiKey k apiKeys)
  /\ validateApiKey (ApiKey.key r) (key_run extractKeyId ops apiKeys') = None
  /\ (forall id', KeyStore.getApiKey id' apiKeys = None ->
        revokeApiKey id' apiKeys = (false, apiKeys)).
Proof.
  intros Hr Hg Hops apiKeys'.
  pose proof (keys_reachable_inv _ Hr) as Hinv.
  assert (Hinv' : key_inv extractKeyId apiKeys')
    by apply (key_step_inv (RevokeKey id) _ Hinv).
  destruct (proj2 Hinv id r (get_In _ _ _ Hg)) as (_ & Eid).
  assert (E' : apiKeys'
               = JsMap.set id
                   (ApiKey.spread r
                      {| ApiKey.p_id := None; ApiKey.p_key := None;
                         ApiKey.p_name := None; ApiKey.p_createdAt := None;
                         ApiKey.p_lastUsedAt := None;
                         ApiKey.p_usageCount := None;
                         ApiKey.p_rateLimitPerMinute := None;
                         ApiKey.p_isActive := Some false |}) apiKeys).
  { subst apiKeys'.
    unfold revokeApiKey, KeyStore.updateApiKey, KeyStore.getApiKey in Hg |- *.
    now rewrite Hg. }
  assert (Hoff : match JsMap.get id apiKeys' with
                 | Some r0 => ApiKey.isActive r0 = false
                 | None => True
                 end)
    by (rewrite E', get_set_same; reflexivity).
  assert (Hrefused : forall m,
            key_inv extractKeyId m ->
            match JsMap.get id m with
            | Some r0 => ApiKey.isActive r0 = false
            | None => True
            end -> validateApiKey (ApiKey.key r) m = None).
  { intros m Hm Hoffm. rewrite (validate_by_id _ _ Hm), <- Eid.
    unfold KeyStore.getApiKey. destruct (JsMap.get id m) as [r0|]; [|reflexivity].
    rewrite Hoffm. now rewrite andb_false_r. }
  split.
  { unfold revokeApiKey, KeyStore.updateApiKey, KeyStore.getApiKey in Hg |- *.
    now rewrite Hg. }
  split; [now apply Hrefused|]. split.
  { eexists. unfold KeyStore.getApiKey. rewrite E', get_set_same.
    split; [reflexivity|]. repeat split. }
  split.
  { intros k Hk. unfold KeyStore.getApiKey. rewrite E'.
    now apply get_set_other. }
  split.
  { apply Hrefused; [now apply key_run_inv|].
    now apply key_run_inactive. }
  intros id' Hn. unfold revokeApiKey. now rewrite Hn.
Qed.
End AuthFacts.

(** Witness for X22: a key is created and validates. *)
Lemma X22_witness :
  exists r,
    validateApiKey "sk-gpu-0123456789abcdef"
      (key_run key_length
         [CreateKey "sk-gpu-0123456789abcdef" "laptop" None 5] [])
    = Some r
    /\ ApiKey.id r = 23%N /\ ApiKey.rateLimitPerMinute r = 60.
Proof.
  eexists. split; [vm_compute; reflexivity|].
  split; [|reflexivity].
  refine (proj1 (proj2 (X22_validateApiKey_is_the_lookup_by_id key_length
                          "sk-gpu-0123456789abcdef" _
                          (ex_intro _
                             [CreateKey "sk-gpu-0123456789abcdef" "laptop"
                                None 5] eq_refl)) _ _)).
  vm_compute. reflexivity.
Defined.

(** Witness for X23: a second key is created beside the first. *)
Lemma X23_witness :
  let apiKeys :=
    key_run key_length [CreateKey "sk-gpu-0123456789abcdef" "laptop" None 5] []
  in
  validateApiKey "sk-gpu-fedcba9876543210ff"
    (snd (createApiKey key_length "sk-gpu-fedcba9876543210ff" "ci" (Some 0) 9
            apiKeys))
  = Some (fst (createApiKey key_length "sk-gpu-fedcba9876543210ff" "ci"
                 (Some 0) 9 apiKeys)).
Proof.
  intros apiKeys.
  exact (proj1 (X23_created_key_validates key_length
                  "sk-gpu-fedcba9876543210ff" "ci" (Some 0) 9 apiKeys
                  (ex_intro _
                     [CreateKey "sk-gpu-0123456789abcdef" "laptop" None 5]
                     eq_refl))).
Defined.

(** Witness for X24: a key is revoked, then used and revoked again. *)
Lemma X24_witness :
  let apiKeys :=
    key_run key_length [CreateKey "sk-gpu-0123456789abcdef" "laptop" None 5] []
  in
  exists r,
    KeyStore.getApiKey 23 apiKeys = Some r
    /\ validateApiKey "sk-gpu-0123456789abcdef" apiKeys = Some r
    /\ validateApiKey (ApiKey.key r)
         (key_run key_length [UseKey 23 7; RevokeKey 23]
            (snd (revokeApiKey 23 apiKeys)))
       = None.
Proof.
  intros apiKeys. eexists. split; [vm_compute; reflexivity|].
  split; [vm_compute; reflexivity|].
  refine (proj1 (proj2 (proj2 (proj2 (proj2
            (X24_revoked_key_stays_refused key_length 23 _ apiKeys
               [UseKey 23 7; RevokeKey 23]
               (ex_intro _
                  [CreateKey "sk-gpu-0123456789abcdef" "laptop" None 5]
                  eq_refl) eq_refl _)))))).
  repeat constructor; intros H; exact H.
Defined.

(** ** Draining the tasks in flight *)

Lemma remove_timer_perm x l :
  In x l -> Permutation (x :: remove_timer x l) l.
Proof.
  induction l as [|y l IH]; simpl; [tauto|].
  destruct (N.eqb_spec (fst x) (fst y)) as [E1|E1];
    destruct (N.eqb_spec (snd x) (snd y)) as [E2|E2]; cbn [andb];
    try (intros [->|Hin]; [congruence|];
         apply Permutation_trans with (y :: x :: remove_timer x l);
         [apply perm_swap | apply perm_skip; now apply IH]).
  intros _. destruct x, y. simpl in *. subst. reflexivity.
Qed.

Lemma run_task_later es :
  forall s s' id t,
    reachable s -> run es s = Some s' -> Store.getTask id s = Some t ->
    exists t', Store.getTask id s' = Some t' /\ task_later t t'.
Proof.
  induction es as [|e es IH]; intros s s' id t Hr Hrun Hget.
  - injection Hrun as <-. exists t. split; [assumption | apply task_later_refl].
  - simpl in Hrun. destruct (step e s) as [s1|] eqn:Hstep; [|discriminate].
    destruct (step_task_move e s s1 id t Hr Hstep Hget) as (t1 & Hg1 & Hmove).
    assert (Hr1 : reachable s1).
    { apply (reachable_run [e] s s1 Hr). simpl. now rewrite Hstep. }
    destruct (IH s1 s' id t1 Hr1 Hrun Hg1) as (t' & Hg' & Hlater).
    exists t'. split; [assumption|].
    apply (task_later_trans t t1 t'); [|assumption].
    now apply (task_move_later (clock s)).
Qed.

Lemma run_without_enqueue es :
  forall s s',
    suspended s = None -> Forall (fun e => is_enqueue e = false) es ->
    run es s = Some s' ->
    suspended s' = None
    /\ forall id, assignedWorker_of id s' = assignedWorker_of id s.
Proof.
  induction es as [|e es IH]; simpl; intros s s' Hidle Hes Hrun.
  - injection Hrun as <-. split; [assumption | reflexivity].
  - inversion Hes as [|? ? He Hes']; subst.
    destruct (step e s) as [s1|] eqn:E; [|discriminate].
    destruct (step_without_enqueue e s s1 Hidle He E) as (H1 & H2 & _).
    destruct (IH s1 s' H1 Hes' Hrun) as (H4 & H5).
    split; [assumption|]. intros id. now rewrite H5, H2.
Qed.

Lemma drain_run l :
  forall s,
    suspended s = None ->
    Permutation (map snd l) (completionTimers s) ->
    exists s',
      run (drain_events l) s = Some s'
      /\ suspended s' = None /\ completionTimers s' = [].
Proof.
  induction l as [|[dt [t w]] l IH]; intros s Hidle Hperm.
  - exists s. split; [reflexivity|]. split; [assumption|].
    now apply Permutation_nil in Hperm.
  - cbn [map snd] in Hperm.
    assert (Hin : In (t, w) (completionTimers s)).
    { apply (Permutation_in _ Hperm). now left. }
    cbn [drain_events flat_map fst snd app run]. cbn [step].
    unfold idle. cbn [suspended set_clock completionTimers].
    rewrite Hidle, (In_armed _ _ Hin). cbn [andb].
    match goal with
    | |- exists s', run _ ?x = _ /\ _ => destruct (IH x) as (s' & H1 & H2 & H3)
    end.
    + now rewrite (proj1 (completion_pass _ _ _)).
    + rewrite (proj2 (proj2 (completion_pass _ _ _))).
      cbn [completionTimers set_completionTimers set_clock].
      apply Permutation_cons_inv with (a := (t, w)).
      apply Permutation_trans with (completionTimers s); [exact Hperm|].
      apply Permutation_sym. now apply remove_timer_perm.
    + exists s'. split; [exact H1|]. split; assumption.
Qed.

Lemma drain_events_no_enqueue l :
  Forall (fun e => is_enqueue e = false) (drain_events l).
Proof.
  induction l as [|x l IH]; [constructor|].
  cbn [drain_events flat_map app]. constructor; [reflexivity|].
  constructor; [reflexivity | exact IH].
Qed.

(** X25. The tasks in flight always drain.  When no pass is parked, let
    the armed completion timers fire, in any order and after any delays:
    every one of them can fire, and afterwards no timer is left, no task is
    'processing', every stored worker has load 0, every task that had been
    started is 'completed', and every task that was pending is still
    pending, with no worker. *)
Theorem X25_tasks_in_flight_drain (s : State) (l : list (N * (N * N))) :
  reachable s ->
  suspended s = None ->
  Permutation (map snd l) (completionTimers s) ->
  exists s',
    run (drain_events l) s = Some s'
    /\ suspended s' = None
    /\ completionTimers s' = []
    /\ TaskQueue.stat_processing (TaskQueue.getStats s') = 0%nat
    /\ (forall id w, Store.getWorker id s' = Some w -> Worker.currentLoad w = 0)
    /\ (forall id t, Store.getTask id s = Some t ->
          exists t',
            Store.getTask id s' = Some t'
            /\ (Task.status t = Task.pending ->
                Task.status t' = Task.pending
                /\ Task.assignedWorker t' = None)
            /\ (Task.status t <> Task.pending ->
                Task.status t' = Task.completed
                /\ Task.assignedWorker t' = Task.assignedWorker t)).
Proof.
  intros Hr Hidle Hperm.
  destruct (drain_run l s Hidle Hperm) as (s' & Hrun & Hidle' & Hnone).
  exists s'. split; [exact Hrun|]. split; [exact Hidle'|].
  split; [exact Hnone|].
  pose proof (reachable_run _ _ _ Hr Hrun) as Hr'.
  destruct (reachable_lifecycle_inv s' Hr')
    as ((Hnd' & Htask' & _ & _ & Harm' & Hload' & _) & _).
  destruct (reachable_lifecycle_inv s Hr) as ((_ & Htask & _) & _).
  assert (Hnp : forall k t, JsMap.get k (tasks s') = Some t ->
                  Task.status t <> Task.processing).
  { intros k t Hg Hst. destruct (Harm' k t Hg Hst) as (w & Hin).
    now rewrite Hnone in Hin. }
  split.
  { unfold TaskQueue.getStats, TaskQueue.count_status.
    cbn [TaskQueue.stat_processing].
    assert (Hall : Forall (fun t => Task.status t <> Task.processing)
                          (Store.getAllTasks s')).
    { apply Forall_forall. intros t Hin. apply In_values_key in Hin.
      destruct Hin as (k & Hin). apply (Hnp k).
      now apply In_get_NoDup. }
    induction Hall as [|t ts Ht Hts IH]; [reflexivity|]. cbn [filter].
    destruct (Task.status t); try exact IH. congruence. }
  split.
  { intros id w Hg. rewrite (Hload' id w Hg), Hnone. reflexivity. }
  intros id t Hget.
  destruct (run_task_later _ _ _ id t Hr Hrun Hget)
    as (t' & Hg' & Hrank & _ & _ & _ & _ & _ & _ & Hkeep & _).
  exists t'. split; [exact Hg'|].
  destruct (run_without_enqueue _ _ _ Hidle (drain_events_no_enqueue l) Hrun)
    as (_ & Hsame).
  pose proof (Hsame id) as Hw. unfold assignedWorker_of in Hw.
  rewrite Hg', Hget in Hw. cbn in Hw. injection Hw as Hw.
  destruct (Htask id t Hget) as (_ & _ & _ & Hshape).
  destruct (Htask' id t' Hg') as (_ & _ & _ & Hshape').
  pose proof (Hnp id t' Hg') as Hnp'.
  split.
  - intros Hst. rewrite Hst in Hshape. destruct Hshape as (Hnow & _).
    rewrite Hnow in Hw. split; [|exact Hw].
    destruct (Task.status t'); try contradiction; try congruence.
    + destruct Hshape' as (w & a & c & Ha & _). congruence.
  - intros Hst. split; [|exact Hw].
    destruct (Task.status t) eqn:Et; try contradiction; try congruence;
      destruct (Task.status t') eqn:Et'; try contradiction; try congruence;
      simpl in Hrank; lia.
Qed.

(** Witness for X25: two tasks in flight on one worker complete in the
    reverse order of their assignment. *)
Lemma X25_witness :
  exists s s',
    run (one_in_flight ++ [Tick 200; Enqueue hello "key-2" 0; Resume]) init
    = Some s
    /\ run (drain_events [(300%N, (2%N, 0%N)); (900%N, (1%N, 0%N))]) s = Some s'
    /\ load_of 0 s = Some 2
    /\ load_of 0 s' = Some 0
    /\ TaskQueue.stat_completed (TaskQueue.getStats s') = 2%nat.
Proof.
  reach_by (one_in_flight ++ [Tick 200; Enqueue hello "key-2" 0; Resume])
    ltac:(fun s Hr =>
      exists s;
      pose proof (X25_tasks_in_flight_drain s
                    [(300%N, (2%N, 0%N)); (900%N, (1%N, 0%N))] Hr eq_refl)
        as H).
  destruct H as (s' & Hrun & _ & _ & _ & Hload & _).
  { vm_compute. apply perm_swap. }
  exists s'. split; [reflexivity|]. split; [exact Hrun|].
  split; [reflexivity|].
  vm_compute in Hrun. injection Hrun as <-.
  split; reflexivity.
Defined.

(** ** The tokenizer *)

Lemma ceil_div_spec (a b : Z) :
  0 < b ->
  b * (Qceiling (inject_Z a / inject_Z b) - 1) < a
  /\ a <= b * Qceiling (inject_Z a / inject_Z b).
Proof.
  intros Hb.
  assert (HbQ : (0 < inject_Z b)%Q)
    by (change 0%Q with (inject_Z 0); now rewrite <- Zlt_Qlt).
  set (x := (inject_Z a / inject_Z b)%Q).
  pose proof (Qle_ceiling x) as Hup. pose proof (Qceiling_lt x) as Hlo.
  set (z := Qceiling x) in *. split.
  - destruct (Z_lt_le_dec (b * (z - 1)) a) as [H|H]; [assumption|].
    exfalso. apply (Qlt_irrefl x).
    apply Qle_lt_trans with (inject_Z (z - 1)); [|assumption].
    apply Qle_shift_div_r; [assumption|].
    rewrite <- inject_Z_mult, <- Zle_Qle. lia.
  - destruct (Z_le_gt_dec a (b * z)) as [H|H]; [assumption|].
    exfalso. apply (Qlt_irrefl x).
    apply Qle_lt_trans with (inject_Z z); [assumption|].
    apply Qlt_shift_div_l; [assumption|].
    rewrite <- inject_Z_mult, <- Zlt_Qlt. lia.
Qed.

Section TokenizerFacts.
Context {A : Type}.

Lemma stream_loop_end fuel (content : list A) c i :
  (List.length content <= i)%nat -> Tokenizer.stream_loop fuel content c i = [].
Proof.
  intros H. destruct fuel; [reflexivity|]. cbn [Tokenizer.stream_loop].
  destruct (Nat.ltb_spec i (List.length content)); [lia | reflexivity].
Qed.

Lemma stream_loop_spec (content : list A) c :
  (1 <= c)%nat ->
  forall fuel i,
    (i <= List.length content)%nat ->
    (List.length content - i <= fuel)%nat ->
    let r := Tokenizer.stream_loop fuel content c i in
    List.concat r = skipn i content
    /\ Forall (fun chunk => (1 <= List.length chunk <= c)%nat) r
    /\ (List.length content - i <= c * List.length r)%nat
    /\ ((i < List.length content)%nat ->
        (c * (List.length r - 1) < List.length content - i)%nat).
Proof.
  intros Hc. induction fuel as [|fuel IH]; intros i Hi Hfuel r; subst r.
  - assert (i = List.length content) by lia. subst i.
    cbn [Tokenizer.stream_loop List.concat List.length].
    rewrite skipn_all. split; [reflexivity|]. split; [constructor|]. lia.
  - cbn [Tokenizer.stream_loop].
    destruct (Nat.ltb_spec i (List.length content)) as [Hlt|Hge].
    + cbn [List.concat List.length].
      destruct (Nat.ltb_spec (i + c) (List.length content)) as [Hmore|Hlast].
      * destruct (IH (i + c)%nat ltac:(lia) ltac:(lia)) as (H1 & H2 & H3 & H4).
        specialize (H4 Hmore).
        assert (Hlen : List.length (firstn c (skipn i content)) = c)
          by (rewrite firstn_length_le; [reflexivity|];
              rewrite length_skipn; lia).
        split.
        { rewrite H1, (Nat.add_comm i c), <- (skipn_skipn c i content).
          apply firstn_skipn. }
        split; [constructor; [lia | exact H2]|].
        split; [nia | intros _; nia].
      * rewrite (stream_loop_end fuel content c (i + c)) by lia.
        assert (Hall : firstn c (skipn i content) = skipn i content)
          by (apply firstn_all2; rewrite length_skipn; lia).
        rewrite Hall. cbn [List.concat List.length]. rewrite app_nil_r.
        split; [reflexivity|]. split.
        { constructor; [rewrite length_skipn; lia | constructor]. }
        split; [nia | intros _; nia].
    + assert (i = List.length content) by lia. subst i.
      cbn [List.concat List.length]. rewrite skipn_all.
      split; [reflexivity|]. split; [constructor|]. lia.
Qed.

(** X26. [generateTokenStream(content)] cuts the content into exactly
    [estimateTokens(content)] chunks, each of 1 to 4 code units, whose
    concatenation is the content; it yields nothing for the empty string.
    The loop ends: its step [charsPerToken] is at least 1 for a non-empty
    content, and running it longer yields no further chunk.
    [estimateTokens] is the least number of 4-unit tokens that cover the
    text. *)
Theorem X26_token_stream_covers_the_content (content : list A) :
  let n := Z.of_nat (List.length content) in
  let chunks := Tokenizer.generateTokenStream content in
  List.concat chunks = content
  /\ Z.of_nat (List.length chunks) = Tokenizer.estimateTokens content
  /\ Forall (fun chunk => (1 <= List.length chunk <= 4)%nat) chunks
  /\ 4 * (Tokenizer.estimateTokens content - 1) < n
     <= 4 * Tokenizer.estimateTokens content
  /\ (content <> [] -> 1 <= Tokenizer.charsPerToken content <= 4)
  /\ (forall fuel, (List.length content <= fuel)%nat ->
        Tokenizer.stream_loop fuel content
          (Z.to_nat (Tokenizer.charsPerToken content)) 0
        = chunks).
Proof.
  intros n chunks.
  assert (He : 4 * (Tokenizer.estimateTokens content - 1) < n
               <= 4 * Tokenizer.estimateTokens content)
    by exact (ceil_div_spec n 4 ltac:(lia)).
  set (e := Tokenizer.estimateTokens content) in *.
  destruct (Nat.eq_dec (List.length content) 0) as [E0|Hne].
  { apply length_zero_iff_nil in E0. subst content chunks.
    assert (Ee : e = 0) by (subst n; cbn [List.length] in He; lia).
    rewrite Ee. cbn [Tokenizer.generateTokenStream Tokenizer.stream_loop
                     List.length List.concat].
    split; [reflexivity|]. split; [reflexivity|]. split; [constructor|].
    split; [subst n; cbn [List.length]; lia|]. split; [congruence|].
    intros fuel _. destruct fuel; reflexivity. }
  assert (Hn : 1 <= n) by (subst n; lia).
  assert (He1 : 1 <= e) by lia.
  assert (Hc : e * (Tokenizer.charsPerToken content - 1) < n
               <= e * Tokenizer.charsPerToken content)
    by exact (ceil_div_spec n e ltac:(lia)).
  set (c := Tokenizer.charsPerToken content) in *.
  assert (Hc14 : 1 <= c <= 4) by nia.
  assert (Hspec : forall fuel, (List.length content <= fuel)%nat ->
            let r := Tokenizer.stream_loop fuel content (Z.to_nat c) 0 in
            List.concat r = content
            /\ Forall (fun chunk => (1 <= List.length chunk <= 4)%nat) r
            /\ Z.of_nat (List.length r) = e).
  { intros fuel Hfuel r.
    destruct (stream_loop_spec content (Z.to_nat c) ltac:(lia) fuel 0%nat
                ltac:(lia) ltac:(lia)) as (H1 & H2 & H3 & H4).
    fold r in H1, H2, H3, H4.
    split; [exact H1|]. split.
    - eapply Forall_impl; [|exact H2]. cbv beta. intros chunk Hk. lia.
    - assert (H4' : (Z.to_nat c * (List.length r - 1)
                     < List.length content - 0)%nat) by (apply H4; lia).
      assert (Hk1 : n <= c * Z.of_nat (List.length r)) by (subst n; nia).
      assert (Hk2 : c * (Z.of_nat (List.length r) - 1) < n) by (subst n; nia).
      nia. }
  destruct (Hspec (List.length content) (Nat.le_refl _)) as (H1 & H2 & H3).
  split; [exact H1|]. split; [exact H3|]. split; [exact H2|].
  split; [exact He|]. split; [intros _; exact Hc14|].
  intros fuel Hfuel.
  destruct (Hspec fuel Hfuel) as (G1 & G2 & G3).
  subst chunks. unfold Tokenizer.generateTokenStream. fold c.
  clear - Hfuel Hc14.
  assert (Hgen : forall f1 f2 i,
            (List.length content - i <= f1)%nat ->
            (List.length content - i <= f2)%nat ->
            Tokenizer.stream_loop f1 content (Z.to_nat c) i
            = Tokenizer.stream_loop f2 content (Z.to_nat c) i).
  { induction f1 as [|f1 IH]; intros f2 i Hf1 Hf2.
    - rewrite !stream_loop_end by lia. reflexivity.
    - destruct f2 as [|f2]; [rewrite !stream_loop_end by lia; reflexivity|].
      cbn [Tokenizer.stream_loop].
      destruct (Nat.ltb_spec i (List.length content)); [|reflexivity].
      f_equal. apply IH; lia. }
  apply Hgen; lia.
Qed.
End TokenizerFacts.

(** ** The format of the keys and the usage of a streamed completion *)

Lemma toString_hex_length bytes :
  String.length (toString_hex bytes) = (2 * List.length bytes)%nat.
Proof.
  induction bytes as [|b bytes IH]; [reflexivity|].
  cbn [toString_hex String.length List.length]. rewrite IH. lia.
Qed.

(** X27. Every key that [generateApiKey] makes passes
    [isValidApiKeyFormat]: it is the prefix 'sk-gpu-' followed by two
    hexadecimal digits for each random byte, 71 characters for the 32
    bytes drawn.  The check itself accepts a generated key exactly when
    more than 5 bytes were drawn, that is, when more than 10 characters
    follow the prefix. *)
Theorem X27_generated_keys_have_the_valid_format (randomBytes : list N) :
  String.length (generateApiKey randomBytes)
  = (7 + 2 * List.length randomBytes)%nat
  /\ String.prefix API_KEY_PREFIX (generateApiKey randomBytes) = true
  /\ (isValidApiKeyFormat (generateApiKey randomBytes) = true
      <-> (5 < List.length randomBytes)%nat)
  /\ (List.length randomBytes = 32%nat ->
      isValidApiKeyFormat (generateApiKey randomBytes) = true
      /\ String.length (generateApiKey randomBytes) = 71%nat).
Proof.
  assert (Hlen : String.length (generateApiKey randomBytes)
                 = (7 + 2 * List.length randomBytes)%nat).
  { unfold generateApiKey, API_KEY_PREFIX. cbn [append String.length].
    rewrite toString_hex_length. lia. }
  assert (Hpre : String.prefix API_KEY_PREFIX (generateApiKey randomBytes)
                 = true).
  { unfold generateApiKey, API_KEY_PREFIX. cbn.
    now destruct (toString_hex randomBytes). }
  assert (Hiff : isValidApiKeyFormat (generateApiKey randomBytes) = true
                 <-> (5 < List.length randomBytes)%nat).
  { unfold isValidApiKeyFormat. rewrite Hpre, Hlen. cbn [andb].
    change (String.length API_KEY_PREFIX) with 7%nat.
    rewrite Nat.ltb_lt. lia. }
  split; [exact Hlen|]. split; [exact Hpre|]. split; [exact Hiff|].
  intros H32. split; [apply Hiff; lia | lia].
Qed.






(** ** Removal of a worker, once more *)

Lemma delete_length {V : Type} (k : N) (m : list (N * V)) :
  List.length (JsMap.delete k m)
  = (List.length m - (if JsMap.has k m then 1 else 0))%nat.
Proof.
  unfold JsMap.has. induction m as [|[k' v] m IH]; [reflexivity|].
  cbn [JsMap.delete JsMap.get]. destruct (N.eqb k k').
  - cbn [List.length]. lia.
  - cbn [List.length]. rewrite IH.
    destruct (JsMap.get k m) eqn:E; [|lia].
    destruct m; [discriminate | cbn [List.length]; lia].
Qed.

(** X29. [removeWorker(id)] returns true exactly when a worker is
    registered under [id].  Afterwards no worker is registered under
    [id], so a second call returns false; the worker is not among the
    available ones, so no pass that starts later assigns to it; the other
    workers and all the tasks are as before, and the worker count of the
    statistics has gone down by one if the call returned true. *)
Theorem X29_removeWorker_unregisters (s : State) (id : N) :
  reachable s ->
  let removed := fst (WorkerManager.removeWorker id s) in
  let s' := snd (WorkerManager.removeWorker id s) in
  (removed = true <-> exists w, Store.getWorker id s = Some w)
  /\ Store.getWorker id s' = None
  /\ fst (WorkerManager.removeWorker id s') = false
  /\ (forall w, In w (TaskQueue.getAvailableWorkers s') -> Worker.id w <> id)
  /\ (forall k, k <> id -> Store.getWorker k s' = Store.getWorker k s)
  /\ tasks s' = tasks s
  /\ WorkerManager.total (WorkerManager.getWorkerStats s')
     = (WorkerManager.total (WorkerManager.getWorkerStats s)
        - (if removed then 1 else 0))%nat.
Proof.
  intros Hr removed s'. subst removed s'.
  destruct (reachable_registry_inv s Hr) as (Hnd & Hw & _).
  unfold WorkerManager.removeWorker, Store.removeWorker, Store.getWorker.
  cbn [fst snd workers set_workers tasks].
  assert (Hnone : JsMap.get id (JsMap.delete id (workers s)) = None)
    by now apply get_delete_same.
  split; [apply has_get|]. split; [exact Hnone|]. split.
  { unfold JsMap.has. now rewrite Hnone. }
  split.
  { intros w Hin. unfold TaskQueue.getAvailableWorkers,
      Store.getOnlineWorkers, Store.getAllWorkers in Hin.
    apply filter_In in Hin. destruct Hin as (Hin & _).
    apply filter_In in Hin. destruct Hin as (Hin & _).
    cbn [workers set_workers] in Hin.
    apply In_values_key in Hin. destruct Hin as (k & Hin).
    pose proof (In_delete_other _ _ _ _ Hnd Hin) as Hne.
    apply In_delete in Hin. now rewrite (proj1 (Hw k w Hin)). }
  split; [intros k Hk; now apply get_delete_other|].
  split; [reflexivity|].
  unfold WorkerManager.getWorkerStats, WorkerManager.getAllWorkers,
    Store.getAllWorkers, JsMap.values.
  cbn [WorkerManager.total workers set_workers].
  rewrite !length_map. apply delete_length.
Qed.

(** Witness for X29: the worker of the task in flight is removed. *)
Lemma X29_witness :
  exists s,
    run one_in_flight init = Some s
    /\ fst (WorkerManager.removeWorker 0 s) = true
    /\ Store.getWorker 0 (snd (WorkerManager.removeWorker 0 s)) = None
    /\ status_of 1 (snd (WorkerManager.removeWorker 0 s))
       = Some Task.processing.
Proof.
  reach_by one_in_flight ltac:(fun s Hr =>
    exists s; pose proof (X29_removeWorker_unregisters s 0%N Hr) as H).
  split; [reflexivity|]. split; [reflexivity|].
  split; [exact (proj1 (proj2 H)) | reflexivity].
Defined.

(** ** The workers a pass chooses *)

Section SortByKeyOrder.
Context {A : Type} (key : A -> Q).

Lemma by_key_le (x y : A) :
  Qle_bool (key x - key y) 0 = true <-> (key x <= key y)%Q.
Proof. rewrite Qle_bool_iff. split; intros H; lra. Qed.

Lemma by_key_gt (x y : A) :
  Qle_bool (key x - key y) 0 = false -> (key y < key x)%Q.
Proof.
  intros E. destruct (Qlt_le_dec (key y) (key x)) as [H|H]; [assumption|].
  apply by_key_le in H. congruence.
Qed.

Lemma sort_insert_by_key_sorted x l :
  StronglySorted (fun a b => (key a <= key b)%Q) l ->
  StronglySorted (fun a b => (key a <= key b)%Q)
    (sort_insert (fun a b => (key a - key b)%Q) x l).
Proof.
  induction l as [|y l IH]; simpl; intros Hs.
  - repeat constructor.
  - inversion Hs as [|? ? Hs' Hy]; subst.
    destruct (Qle_bool (key x - key y) 0) eqn:E.
    + apply by_key_le in E. constructor; [assumption|].
      constructor; [assumption|].
      rewrite Forall_forall in *. intros w Hw. specialize (Hy w Hw). lra.
    + apply by_key_gt in E.
      constructor; [now apply IH|].
      apply Forall_forall. intros w Hw. apply sort_insert_In in Hw.
      destruct Hw as [->|Hw]; [lra|].
      rewrite Forall_forall in Hy. now apply Hy.
Qed.

(** An array sorted by [key a - key b] is in the order of the keys. *)
Lemma sort_by_key_sorted l :
  StronglySorted (fun a b => (key a <= key b)%Q)
    (Array_sort (fun a b => (key a - key b)%Q) l).
Proof.
  induction l as [|x l IH]; simpl; [constructor|].
  now apply sort_insert_by_key_sorted.
Qed.

Lemma sort_insert_by_key_stable q x l :
  filter (fun a => Qeq_bool (key a) q)
         (sort_insert (fun a b => (key a - key b)%Q) x l)
  = filter (fun a => Qeq_bool (key a) q) (x :: l).
Proof.
  induction l as [|y l IH]; [reflexivity|].
  cbn [sort_insert].
  destruct (Qle_bool (key x - key y) 0) eqn:E; [reflexivity|].
  apply by_key_gt in E.
  cbn [filter] in IH |- *. rewrite IH.
  destruct (Qeq_bool (key x) q) eqn:Ex;
    destruct (Qeq_bool (key y) q) eqn:Ey; try reflexivity.
  apply Qeq_bool_iff in Ex, Ey. lra.
Qed.

(** The sort is stable: elements of equal keys keep their order. *)
Lemma sort_by_key_stable q l :
  filter (fun a => Qeq_bool (key a) q)
         (Array_sort (fun a b => (key a - key b)%Q) l)
  = filter (fun a => Qeq_bool (key a) q) l.
Proof.
  induction l as [|x l IH]; simpl; [reflexivity|].
  rewrite sort_insert_by_key_stable. simpl. now rewrite IH.
Qed.

(** Sorting an array that is in the order of the keys changes nothing. *)
Lemma sort_by_key_fixed l :
  StronglySorted (fun a b => (key a <= key b)%Q) l ->
  Array_sort (fun a b => (key a - key b)%Q) l = l.
Proof.
  induction l as [|x l IH]; simpl; intros Hs; [reflexivity|].
  inversion Hs as [|? ? Hs' Hx]; subst. rewrite (IH Hs').
  destruct l as [|y l]; simpl; [reflexivity|].
  inversion Hx as [|? ? Hxy _]; subst.
  apply by_key_le in Hxy. now rewrite Hxy.
Qed.
End SortByKeyOrder.

Lemma NoDup_split_unique {A : Type} (x : A) (l1 : list A) :
  forall l2 l1' l2',
    NoDup (l1 ++ x :: l2) ->
    l1 ++ x :: l2 = l1' ++ x :: l2' ->
    l1 = l1' /\ l2 = l2'.
Proof.
  induction l1 as [|a l1 IH]; intros l2 l1' l2' Hnd E.
  - destruct l1' as [|a' l1']; simpl in E.
    + injection E as ->. split; reflexivity.
    + injection E as <- ->. simpl in Hnd. inversion Hnd as [|? ? Hx _]; subst.
      exfalso. apply Hx. apply in_or_app. right. now left.
  - destruct l1' as [|a' l1']; simpl in E.
    + injection E as -> <-. simpl in Hnd. inversion Hnd as [|? ? Hx _]; subst.
      exfalso. apply Hx. apply in_or_app. right. now left.
    + injection E as <- E. simpl in Hnd. inversion Hnd as [|? ? _ Hnd']; subst.
      destruct (IH l2 l1' l2' Hnd' E) as (-> & ->). split; reflexivity.
Qed.

Lemma nth_error_firstn_skipn {A : Type} (l : list A) :
  forall n x, nth_error l n = Some x -> l = firstn n l ++ x :: skipn (S n) l.
Proof.
  induction l as [|a l IH]; intros [|n] x H; simpl in H; try discriminate.
  - injection H as ->. reflexivity.
  - simpl. f_equal. now apply IH.
Qed.

Lemma nth_error_hd_skipn {A : Type} (l : list A) :
  forall n, hd_error (skipn n l) = nth_error l n.
Proof.
  induction l as [|a l IH]; intros [|n]; simpl; try reflexivity. apply IH.
Qed.

Lemma StronglySorted_after {A : Type} (R : A -> A -> Prop) (x : A) l1 :
  forall l2, StronglySorted R (l1 ++ x :: l2) -> Forall (R x) l2.
Proof.
  induction l1 as [|a l1 IH]; simpl; intros l2 Hs;
    inversion Hs as [|? ? Hs' Ha]; subst; [assumption | now apply IH].
Qed.

Lemma StronglySorted_skipn {A : Type} (R : A -> A -> Prop) l :
  forall n, StronglySorted R l -> StronglySorted R (skipn n l).
Proof.
  induction l as [|a l IH]; intros [|n] Hs; simpl; try assumption.
  inversion Hs; subst. now apply IH.
Qed.

Lemma filter_filter_andb {A : Type} (f g : A -> bool) l :
  filter g (filter f l) = filter (fun x => f x && g x) l.
Proof.
  induction l as [|a l IH]; simpl; [reflexivity|].
  destruct (f a); simpl; [destruct (g a); now rewrite IH | assumption].
Qed.

Lemma resumes_cons e es :
  resumes (e :: es) = ((if is_resume e then 1 else 0) + resumes es)%nat.
Proof. unfold resumes. simpl. now destruct (is_resume e). Qed.

(** While a pass is parked, only its continuation touches its frame. *)
Lemma step_parked e s s' f :
  suspended s = Some f -> processing s = true -> is_resume e = false ->
  step e s = Some s' -> suspended s' = Some f.
Proof.
  intros Hs Hp Hne Hstep. destruct e; try discriminate Hne.
  - simpl in Hstep. injection Hstep as <-. exact Hs.
  - simpl in Hstep. destruct (_ && _); [|discriminate].
    unfold WorkerManager.addWorker, WorkerManager.createWorker in Hstep.
    destruct (nth_error _ _); simpl in Hstep; [|discriminate].
    injection Hstep as <-. exact Hs.
  - simpl in Hstep. injection Hstep as <-. exact Hs.
  - simpl in Hstep. unfold idle in Hstep. rewrite Hs in Hstep.
    discriminate.
  - rewrite step_enqueue in Hstep. injection Hstep as <-.
    unfold TaskQueue.processQueue.
    change (processing (enqueue_stored payload apiKeyId priority s))
      with (processing s).
    rewrite Hp. exact Hs.
  - simpl in Hstep. injection Hstep as <-.
    unfold TaskQueue.waitForCompletion, Store.getTask. simpl.
    destruct (JsMap.get taskId (tasks s)) as [t|];
      [destruct (Task.status t)|]; simpl; exact Hs.
  - simpl in Hstep. unfold idle in Hstep. rewrite Hs in Hstep.
    discriminate.
  - simpl in Hstep. unfold idle in Hstep. rewrite Hs in Hstep.
    discriminate.
  - simpl in Hstep. injection Hstep as <-.
    destruct (resolveTask_store taskId result s) as (_ & _ & _ & H & _).
    now rewrite H.
  - simpl in Hstep. injection Hstep as <-.
    destruct (rejectTask_store taskId error s) as (_ & _ & _ & H & _).
    now rewrite H.
Qed.

(** A task that is being processed keeps its worker. *)
Lemma assigned_stays es s s' id w :
  reachable s -> run es s = Some s' ->
  status_of id s = Some Task.processing ->
  assignedWorker_of id s = Some (Some w) ->
  assignedWorker_of id s' = Some (Some w).
Proof.
  intros Hr Hrun Hst Ha. unfold status_of, assignedWorker_of in *.
  destruct (Store.getTask id s) as [t|] eqn:Hg; [|discriminate].
  simpl in Hst, Ha. injection Hst as Hst. injection Ha as Ha.
  destruct (run_task_later es s s' id t Hr Hrun Hg) as (t' & Hg' & Hl).
  rewrite Hg'. simpl.
  destruct Hl as (_ & _ & _ & _ & _ & _ & _ & Hkeep & _).
  destruct Hkeep as (Hw & _); [rewrite Hst; discriminate|].
  now rewrite Hw, Ha.
Qed.

(** The loop gives its first task to the first worker of an array in the
    order of the ratios, and parks. *)
Lemma processQueue_loop_sorted task rest worker sorted s t0 :
  StronglySorted ratio_le (worker :: sorted) ->
  JsMap.get (Task.id task) (tasks s) = Some t0 ->
  let s1 := TaskQueue.processQueue_loop (task :: rest) (worker :: sorted) s in
  suspended s1
  = Some {| frame_tasks := rest; frame_pool := worker :: sorted;
            frame_worker := worker |}
  /\ Store.getTask (Task.id task) s1
     = Some (started_task (Worker.id worker) (clock s) t0).
Proof.
  intros Hsorted Hg s1. subst s1.
  rewrite (processQueue_loop_assign task rest worker sorted s worker sorted
             (sort_by_key_fixed TaskQueue.ratio _ Hsorted)).
  split; [reflexivity|].
  unfold Store.getTask. cbn [tasks set_suspended].
  rewrite assignTaskToWorker_tasks, Hg. apply get_set_same.
Qed.

(** A parked pass that is continued [resumes es] times, whatever else
    happens in between: it takes the workers of its array in their order,
    one for each task of its queue. *)
Lemma parked_pass_run es :
  forall s f s',
    reachable s -> suspended s = Some f ->
    StronglySorted ratio_le (frame_pool f) ->
    hd_error (frame_pool f) = Some (frame_worker f) ->
    run es s = Some s' ->
    (resumes es <= List.length (frame_tasks f))%nat ->
    (resumes es < List.length (frame_pool f))%nat ->
    (exists f',
        suspended s' = Some f'
        /\ frame_tasks f' = skipn (resumes es) (frame_tasks f)
        /\ frame_pool f' = skipn (resumes es) (frame_pool f)
        /\ hd_error (frame_pool f') = Some (frame_worker f'))
    /\ forall i task worker,
         (i < resumes es)%nat ->
         nth_error (frame_tasks f) i = Some task ->
         nth_error (frame_pool f) (S i) = Some worker ->
         assignedWorker_of (Task.id task) s' = Some (Some (Worker.id worker)).
Proof.
  induction es as [|e es IH]; intros s f s' Hr Hs Hsorted Hhd Hrun Hlt Hlp.
  - injection Hrun as <-. split.
    + exists f. repeat split; try assumption; reflexivity.
    + intros i task worker Hi. inversion Hi.
  - simpl in Hrun. destruct (step e s) as [s1|] eqn:Hstep; [|discriminate].
    assert (Hr1 : reachable s1).
    { apply (reachable_run [e] s s1 Hr). simpl. now rewrite Hstep. }
    pose proof (reachable_lifecycle_inv s Hr) as (_ & Hframe).
    rewrite Hs in Hframe. destruct Hframe as (Hproc & _ & Hpend & _).
    rewrite resumes_cons in *.
    destruct (is_resume e) eqn:Ee.
    + destruct e; try discriminate Ee. clear Ee.
      change (1 + resumes es)%nat with (S (resumes es)) in *.
      destruct (frame_tasks f) as [|task rest] eqn:Et; [simpl in Hlt; lia|].
      destruct (frame_pool f) as [|w0 [|w1 pool]] eqn:Ep;
        [simpl in Hlp; lia | simpl in Hlp; lia |].
      simpl in Hhd. injection Hhd as Hw0.
      inversion Hsorted as [|? ? Hsorted1 _]; subst.
      destruct (Hpend task) as (t0 & Hg0 & Hst0); [now left|].
      simpl in Hstep. rewrite Hs in Hstep. injection Hstep as Hstep.
      unfold TaskQueue.processQueue_resume in Hstep.
      rewrite Et, Ep in Hstep.
      cbn [TaskQueue.splice_worker] in Hstep.
      rewrite N.eqb_refl in Hstep.
      destruct (processQueue_loop_sorted task rest w1 pool
                  (set_suspended None s) t0 Hsorted1 Hg0) as (Hs1 & Hg1).
      rewrite Hstep in Hs1, Hg1.
      destruct (IH s1 _ s' Hr1 Hs1 Hsorted1 eq_refl Hrun) as (Hf & Hassigned);
        [simpl in *; lia | simpl in *; lia |].
      split; [exact Hf|].
      intros [|i] task' worker' Hi Ht Hw; simpl in Ht, Hw.
      * injection Ht as <-. injection Hw as <-.
        apply (assigned_stays es s1 s'); [assumption | assumption | |];
          unfold status_of, assignedWorker_of; now rewrite Hg1.
      * apply (Hassigned i); [lia | assumption | assumption].
    + change (0 + resumes es)%nat with (resumes es) in *.
      pose proof (step_parked e s s1 f Hs Hproc Ee Hstep) as Hs1.
      now apply (IH s1 f s').
Qed.

(** *** The order of the registry *)

Section KeyOrder.
Context {V : Type}.
Implicit Types (m : list (N * V)) (k : N) (v : V).

Lemma has_keys k m : In k (JsMap.keys m) -> JsMap.has k m = true.
Proof.
  intros Hin. unfold JsMap.has.
  destruct (JsMap.get k m) eqn:E; [reflexivity|].
  apply get_None_keys in E. contradiction.
Qed.

Lemma filter_all {A : Type} (f : A -> bool) (l : list A) :
  (forall x, In x l -> f x = true) -> filter f l = l.
Proof.
  induction l as [|a l IH]; simpl; intros H; [reflexivity|].
  rewrite (H a) by now left. f_equal. apply IH. intros x Hx. apply H.
  now right.
Qed.

Lemma keys_order_same m m' :
  JsMap.keys m' = JsMap.keys m ->
  JsMap.keys m' = filter (fun k => JsMap.has k m') (JsMap.keys m) ++ [].
Proof.
  intros E. rewrite app_nil_r, filter_all; [assumption|].
  intros k Hk. apply has_keys. now rewrite E.
Qed.

Lemma keys_order_set k v m :
  JsMap.get k m = None ->
  JsMap.keys (JsMap.set k v m)
  = filter (fun x => JsMap.has x (JsMap.set k v m)) (JsMap.keys m) ++ [k].
Proof.
  intros E. rewrite (set_absent k v m E).
  assert (Hk : JsMap.keys (m ++ [(k, v)]) = JsMap.keys m ++ [k]).
  { unfold JsMap.keys. now rewrite map_app. }
  rewrite Hk at 1. f_equal. symmetry. apply filter_all.
  intros x Hx. apply has_keys. rewrite Hk. apply in_or_app. now left.
Qed.

Lemma keys_order_delete k m :
  NoDup (JsMap.keys m) ->
  JsMap.keys (JsMap.delete k m)
  = filter (fun x => JsMap.has x (JsMap.delete k m)) (JsMap.keys m) ++ [].
Proof.
  rewrite app_nil_r.
  induction m as [|[k' v'] m IH]; simpl; [reflexivity|].
  intros Hnd. inversion Hnd as [|? ? Hk' Hnd']; subst.
  destruct (N.eqb_spec k k') as [->|Hne]; simpl.
  - assert (E : JsMap.has k' m = false).
    { unfold JsMap.has. apply get_None_keys in Hk'. now rewrite Hk'. }
    rewrite E. symmetry. apply filter_all. intros x Hx. now apply has_keys.
  - assert (E : JsMap.has k' ((k', v') :: JsMap.delete k m) = true).
    { unfold JsMap.has. simpl. now rewrite N.eqb_refl. }
    rewrite E. f_equal. rewrite (IH Hnd'). apply filter_ext_in.
    intros x Hx. unfold JsMap.has. simpl.
    destruct (N.eqb_spec x k') as [->|_]; [contradiction | reflexivity].
Qed.
End KeyOrder.

Lemma updateWorker_keys id u s :
  JsMap.keys (workers (Store.updateWorker id u s)) = JsMap.keys (workers s).
Proof.
  unfold Store.updateWorker.
  destruct (JsMap.get id (workers s)) as [w|] eqn:E; [|reflexivity].
  apply (keys_set_present _ _ _ _ E).
Qed.

Lemma heartbeat_keys draws s :
  JsMap.keys (workers (WorkerManager.heartbeat draws s))
  = JsMap.keys (workers s).
Proof.
  unfold WorkerManager.heartbeat.
  generalize (combine (WorkerManager.getAllWorkers s) draws) as l.
  intros l. revert s. induction l as [|[w d] l IH]; intros s; simpl.
  - reflexivity.
  - rewrite IH. unfold WorkerManager.heartbeat_worker.
    destruct d as [[a b] c]. apply updateWorker_keys.
Qed.

Lemma assignTaskToWorker_keys task worker s :
  JsMap.keys (workers (TaskQueue.assignTaskToWorker task worker s))
  = JsMap.keys (workers s).
Proof.
  rewrite assignTaskToWorker_workers.
  destruct (JsMap.get (Worker.id worker) (workers s)) as [w|] eqn:E;
    [|reflexivity].
  apply (keys_set_present _ _ _ _ E).
Qed.

Lemma processQueue_loop_worker_keys pendingTasks :
  forall availableWorkers s,
    JsMap.keys (workers (TaskQueue.processQueue_loop pendingTasks
                           availableWorkers s))
    = JsMap.keys (workers s).
Proof.
  induction pendingTasks as [|task rest IH]; intros pool s; [reflexivity|].
  destruct pool as [|w0 pool]; [reflexivity|].
  cbn [TaskQueue.processQueue_loop]. unfold TaskQueue.selectBestWorker.
  destruct (hd_error _) as [worker|].
  - cbn [workers set_suspended]. apply assignTaskToWorker_keys.
  - apply IH.
Qed.

(** An event keeps the workers that stay registered in their order and
    puts the workers it registers after them. *)
Lemma step_keeps_order e s s' :
  reachable s -> step e s = Some s' ->
  exists added,
    JsMap.keys (workers s')
    = filter (fun k => JsMap.has k (workers s')) (JsMap.keys (workers s))
      ++ added
    /\ forall k, In k added -> Store.getWorker k s = None.
Proof.
  intros Hr Hstep.
  destruct (reachable_registry_inv s Hr) as (Hnd & Hwok & _).
  assert (Hsame : JsMap.keys (workers s') = JsMap.keys (workers s) ->
            exists added,
              JsMap.keys (workers s')
              = filter (fun k => JsMap.has k (workers s'))
                       (JsMap.keys (workers s)) ++ added
              /\ forall k, In k added -> Store.getWorker k s = None).
  { intros E. exists []. split; [now apply keys_order_same | intros k []]. }
  destruct e.
  - simpl in Hstep. injection Hstep as <-. now apply Hsame.
  - simpl in Hstep. destruct (_ && _); [|discriminate].
    unfold WorkerManager.addWorker, WorkerManager.createWorker in Hstep.
    destruct (nth_error _ _); simpl in Hstep; [|discriminate].
    injection Hstep as <-.
    assert (Hnew : JsMap.get (uuid_supply s) (workers s) = None).
    { destruct (JsMap.get (uuid_supply s) (workers s)) as [w0|] eqn:E;
        [|reflexivity].
      apply get_In in E. destruct (Hwok _ _ E) as (_ & Hlt & _). lia. }
    exists [uuid_supply s]. split.
    + unfold Store.addWorker. cbn [workers set_workers Worker.id].
      now apply keys_order_set.
    + intros k [<-|[]]. exact Hnew.
  - simpl in Hstep. injection Hstep as <-. exists []. split.
    + cbn [workers set_workers snd]. now apply keys_order_delete.
    + intros k [].
  - simpl in Hstep. destruct (_ && _); [|discriminate].
    injection Hstep as <-. apply Hsame, heartbeat_keys.
  - rewrite step_enqueue in Hstep. injection Hstep as <-. apply Hsame.
    unfold TaskQueue.processQueue.
    destruct (processing _); [reflexivity|].
    now rewrite processQueue_loop_worker_keys.
  - simpl in Hstep. destruct (suspended s) as [f|]; [|discriminate].
    injection Hstep as <-. apply Hsame.
    unfold TaskQueue.processQueue_resume.
    now rewrite processQueue_loop_worker_keys.
  - simpl in Hstep. injection Hstep as <-. apply Hsame.
    unfold TaskQueue.waitForCompletion, Store.getTask. simpl.
    destruct (JsMap.get taskId (tasks s)) as [t|];
      [destruct (Task.status t)|]; reflexivity.
  - simpl in Hstep. destruct (_ && _); [|discriminate].
    injection Hstep as <-. apply Hsame.
    unfold TaskQueue.waitForCompletion_timeout. simpl.
    destruct (JsMap.has taskId (taskCallbacks s)); reflexivity.
  - simpl in Hstep. destruct (_ && _); [|discriminate].
    injection Hstep as <-. apply Hsame.
    rewrite completion_workers_exact. cbn [workers set_completionTimers].
    destruct (JsMap.get workerId (workers s)) as [w|] eqn:E; [|reflexivity].
    apply (keys_set_present _ _ _ _ E).
  - simpl in Hstep. injection Hstep as <-. apply Hsame.
    now rewrite (proj1 (proj2 (resolveTask_store taskId result s))).
  - simpl in Hstep. injection Hstep as <-. apply Hsame.
    now rewrite (proj1 (proj2 (rejectTask_store taskId error s))).
Qed.

Lemma reachable_worker_ids s :
  reachable s ->
  map Worker.id (Store.getAllWorkers s) = JsMap.keys (workers s).
Proof.
  intros Hr. destruct (reachable_registry_inv s Hr) as (_ & Hwok & _).
  apply values_keys_map. intros k w Hin. now destruct (Hwok k w Hin).
Qed.

Lemma length_cons {A : Type} (l : list A) (n : nat) :
  (n < List.length l)%nat -> exists x r, l = x :: r.
Proof. destruct l as [|x r]; simpl; [lia | eauto]. Qed.

Lemma In_skipn_NoDup {A : Type} (l : list A) (n : nat) (x : A) :
  NoDup l -> (In x (skipn n l) <-> In x l /\ ~ In x (firstn n l)).
Proof.
  intros Hnd. rewrite <- (firstn_skipn n l) in Hnd. split.
  - intros Hin. split.
    + rewrite <- (firstn_skipn n l). apply in_or_app. now right.
    + intros Hf. exact (NoDup_app_disjoint _ _ x Hnd Hf Hin).
  - intros (Hin & Hf). rewrite <- (firstn_skipn n l) in Hin.
    apply in_app_or in Hin. tauto.
Qed.

(** C6, amended.  A call of [enqueue] on a reachable state with no pass
    parked starts a pass: the loop of [processQueue] over the pending
    queue and the array that [getAvailableWorkers] reads.  [es] are the
    events after the call, of which [j] continue the pass, whatever else
    happens in between, and the pass has tasks and workers left for its
    assignment number [j] (from 0).

    The array holds at first the stored workers that are 'online' with
    [currentLoad < maxCapacity], hence of positive capacity, in the order
    of the store, which is the order of registration: [addWorker] puts a
    worker at the end and no event changes the order of the workers that
    stay.  The first selection sorts the array by the ratio
    [currentLoad / maxCapacity], workers of equal ratios staying in the
    order of registration, and after every assignment [splice] takes the
    worker out of it: at the assignment number [j] the array holds the
    workers available at the start less the [j] workers already given a
    task in this pass.

    The worker chosen is the first one, in the order of the array, whose
    ratio is least in the array.  Among the workers available at the start
    every one registered before it has been given a task in this pass or
    has a strictly greater ratio, and every one registered after it has
    been given a task in this pass or has a ratio at least as great: ties
    go by the order of registration.  The tasks of the queue go to the
    workers in that order, one each. *)
Theorem C6_first_least_loaded_of_the_pool (s s' : State)
    (payload : ChatCompletionRequest) (apiKeyId : string) (priority : Z)
    (es : list Event) :
  reachable s ->
  suspended s = None ->
  run (Enqueue payload apiKeyId priority :: es) s = Some s' ->
  let queue :=
    Store.getPendingTasks (enqueue_stored payload apiKeyId priority s) in
  let pool := TaskQueue.getAvailableWorkers s in
  let sorted :=
    Array_sort (fun a b => (TaskQueue.ratio a - TaskQueue.ratio b)%Q) pool in
  let j := resumes es in
  (j < List.length queue)%nat ->
  (j < List.length pool)%nat ->
  let used := firstn j sorted in
  let array := match j with O => pool | S _ => skipn j sorted end in
  (pool = filter is_available (Store.getAllWorkers s)
   /\ Forall (fun w => Store.getWorker (Worker.id w) s = Some w
                       /\ 0 <= Worker.currentLoad w < Worker.maxCapacity w)
             pool
   /\ NoDup (map Worker.id pool))
  /\ step (Enqueue payload apiKeyId priority) s
     = Some (TaskQueue.processQueue_loop queue pool
               (set_processing true
                  (enqueue_stored payload apiKeyId priority s)))
  /\ ((forall hostname rModel rMemory rUtil worker s1,
         WorkerManager.addWorker hostname rModel rMemory rUtil s
         = Some (worker, s1) ->
         Store.getAllWorkers s1 = Store.getAllWorkers s ++ [worker])
      /\ forall e s1,
           step e s = Some s1 ->
           exists added,
             map Worker.id (Store.getAllWorkers s1)
             = filter (fun k => JsMap.has k (workers s1))
                      (map Worker.id (Store.getAllWorkers s)) ++ added
             /\ forall k, In k added -> Store.getWorker k s = None)
  /\ (StronglySorted ratio_le sorted
      /\ forall q, filter (has_ratio q) sorted = filter (has_ratio q) pool)
  /\ (forall w, In w array <-> In w pool /\ ~ In w used)
  /\ (forall i task worker,
        (i <= j)%nat ->
        nth_error queue i = Some task ->
        nth_error sorted i = Some worker ->
        assignedWorker_of (Task.id task) s' = Some (Some (Worker.id worker)))
  /\ exists f task worker,
       suspended s' = Some f
       /\ nth_error queue j = Some task
       /\ nth_error sorted j = Some worker
       /\ frame_tasks f = skipn (S j) queue
       /\ frame_worker f = worker
       /\ frame_pool f = skipn j sorted
       /\ TaskQueue.selectBestWorker array task = (frame_pool f, Some worker)
       /\ TaskQueue.splice_worker (Worker.id worker) (frame_pool f)
          = skipn (S j) sorted
       /\ TaskQueue.processQueue_resume f s'
          = TaskQueue.processQueue_loop (skipn (S j) queue)
              (skipn (S j) sorted) (set_suspended None s')
       /\ (exists before after,
              array = before ++ worker :: after
              /\ (forall w, In w before ->
                    (TaskQueue.ratio worker < TaskQueue.ratio w)%Q)
              /\ (forall w, In w after ->
                    (TaskQueue.ratio worker <= TaskQueue.ratio w)%Q))
       /\ exists earlier later,
            pool = earlier ++ worker :: later
            /\ (forall w, In w earlier ->
                  In w used \/ (TaskQueue.ratio worker < TaskQueue.ratio w)%Q)
            /\ (forall w, In w later ->
                  In w used \/ (TaskQueue.ratio worker <= TaskQueue.ratio w)%Q).
Proof.
  intros Hr Hidle Hrun queue pool sorted j Hjq Hjp used array.
  pose proof (reachable_lifecycle_inv s Hr) as (Hcore & Hframe).
  pose proof (reachable_registry_inv s Hr) as (Hndw & Hwok & _).
  rewrite Hidle in Hframe.
  set (s0 := enqueue_stored payload apiKeyId priority s) in *.
  pose proof (core_inv_enqueue_stored payload apiKeyId priority s Hcore)
    as (Hnd0 & Htask0 & _).
  fold s0 in Hnd0, Htask0.
  pose proof (reachable_worker_ids s Hr) as Hids.
  (* the array at the start *)
  assert (Hpool : pool = filter is_available (Store.getAllWorkers s)).
  { unfold pool, TaskQueue.getAvailableWorkers, Store.getOnlineWorkers.
    apply filter_filter_andb. }
  assert (Hstored : Forall (fun w => Store.getWorker (Worker.id w) s = Some w
                              /\ 0 <= Worker.currentLoad w
                                 < Worker.maxCapacity w) pool).
  { apply Forall_forall. intros w Hin. rewrite Hpool in Hin.
    apply filter_In in Hin. destruct Hin as (Hin & Hav).
    unfold Store.getAllWorkers in Hin. apply In_values_key in Hin.
    destruct Hin as (k & Hin).
    destruct (Hwok k w Hin) as (Hk & _ & Hload & _). subst k.
    split; [now apply In_get_NoDup|].
    unfold is_available in Hav. apply andb_true_iff in Hav.
    destruct Hav as (_ & Hroom). apply Z.ltb_lt in Hroom. lia. }
  assert (Hndp : NoDup (map Worker.id pool)).
  { rewrite Hpool. apply NoDup_map_filter. now rewrite Hids. }
  assert (Hnds : NoDup sorted).
  { apply (NoDup_map_inv Worker.id). now apply NoDup_map_sort. }
  assert (Hndpool : NoDup pool) by now apply (NoDup_map_inv Worker.id).
  assert (Hsorted : StronglySorted ratio_le sorted)
    by apply (sort_by_key_sorted TaskQueue.ratio).
  assert (Hstable : forall q,
            filter (has_ratio q) sorted = filter (has_ratio q) pool)
    by (intros q; apply (sort_by_key_stable TaskQueue.ratio)).
  assert (Hlen : List.length sorted = List.length pool)
    by apply Array_sort_length.
  (* the call of [enqueue] *)
  destruct (length_cons queue j Hjq) as (task0 & rest & Eq).
  destruct (length_cons sorted j ltac:(lia)) as (worker0 & sorted' & Es).
  destruct (length_cons pool j Hjp) as (w0 & pool' & Ep).
  assert (Hp0 : processing s0 = false) by exact Hframe.
  set (f1 := {| frame_tasks := rest; frame_pool := sorted;
                frame_worker := worker0 |}).
  set (s1 := TaskQueue.processQueue s0).
  assert (Hloop : s1 = set_suspended (Some f1)
                         (TaskQueue.assignTaskToWorker task0 worker0
                            (set_processing true s0))).
  { unfold s1, TaskQueue.processQueue. rewrite Hp0.
    change (Store.getPendingTasks (set_processing true s0)) with queue.
    change (TaskQueue.getAvailableWorkers (set_processing true s0)) with pool.
    unfold f1. rewrite Eq, Ep, Es.
    apply processQueue_loop_assign. rewrite <- Ep. exact Es. }
  change (run (Enqueue payload apiKeyId priority :: es) s)
    with (run es s1) in Hrun.
  assert (Hr1 : reachable s1).
  { apply (reachable_run [Enqueue payload apiKeyId priority] s s1 Hr).
    reflexivity. }
  assert (Htask : JsMap.get (Task.id task0) (tasks s0) = Some task0).
  { assert (Hint : In task0 queue) by (rewrite Eq; now left).
    unfold queue, Store.getPendingTasks in Hint. apply Array_sort_In in Hint.
    apply filter_In in Hint. destruct Hint as (Hint & _).
    apply In_values_key in Hint. destruct Hint as (k & Hint).
    pose proof (In_get_NoDup _ _ _ Hnd0 Hint) as Hg.
    destruct (Htask0 k task0 Hg) as (Hk & _). now rewrite Hk. }
  assert (Hg1 : Store.getTask (Task.id task0) s1
                = Some (started_task (Worker.id worker0) (clock s) task0)).
  { rewrite Hloop. unfold Store.getTask. cbn [tasks set_suspended].
    rewrite assignTaskToWorker_tasks. cbn [tasks set_processing].
    rewrite Htask. apply get_set_same. }
  assert (Hs1 : suspended s1 = Some f1) by now rewrite Hloop.
  destruct (parked_pass_run es s1 f1 s' Hr1 Hs1 Hsorted
              ltac:(unfold f1; cbn [frame_pool]; now rewrite Es) Hrun)
    as ((f & Hs' & Hft & Hfp & Hhd) & Hassigned).
  { unfold f1. cbn [frame_tasks]. fold j. rewrite Eq in Hjq. simpl in Hjq.
    lia. }
  { unfold f1. cbn [frame_pool]. fold j. lia. }
  fold j in Hft, Hfp, Hassigned. unfold f1 in Hft, Hfp, Hassigned.
  cbn [frame_tasks frame_pool] in Hft, Hfp, Hassigned.
  set (worker := frame_worker f) in *.
  assert (Hnth : nth_error sorted j = Some worker).
  { rewrite <- nth_error_hd_skipn, <- Hfp. exact Hhd. }
  assert (Hsplit : sorted = used ++ worker :: skipn (S j) sorted)
    by now apply nth_error_firstn_skipn.
  assert (Hskip : skipn j sorted = worker :: skipn (S j) sorted).
  { rewrite Hsplit at 1. unfold used.
    rewrite skipn_app, skipn_firstn_comm, Nat.sub_diag.
    rewrite firstn_length_le by lia. now rewrite Nat.sub_diag. }
  assert (Hafter : forall w, In w (skipn (S j) sorted) ->
                     (TaskQueue.ratio worker <= TaskQueue.ratio w)%Q).
  { rewrite Hsplit in Hsorted. apply StronglySorted_after in Hsorted.
    rewrite Forall_forall in Hsorted. exact Hsorted. }
  assert (Hsort_array : Array_sort
                          (fun a b => (TaskQueue.ratio a - TaskQueue.ratio b)%Q)
                          array = skipn j sorted).
  { unfold array. destruct j as [|j']; [reflexivity|].
    apply (sort_by_key_fixed TaskQueue.ratio).
    now apply StronglySorted_skipn. }
  assert (Harray : forall w, In w array <-> In w pool /\ ~ In w used).
  { intros w. unfold array, used. destruct j as [|j'].
    - simpl. tauto.
    - rewrite (In_skipn_NoDup sorted (S j') w Hnds).
      unfold sorted at 1. rewrite Array_sort_In. tauto. }
  assert (Hne : array <> []).
  { intros E. rewrite E in Hsort_array. rewrite Hskip in Hsort_array.
    discriminate. }
  split; [split; [exact Hpool | split; [exact Hstored | exact Hndp]]|].
  split.
  { rewrite step_enqueue. fold s0. unfold TaskQueue.processQueue.
    rewrite Hp0. reflexivity. }
  split.
  { split.
    - intros hostname rModel rMemory rUtil w1 s2 Hadd.
      unfold WorkerManager.addWorker, WorkerManager.createWorker in Hadd.
      destruct (nth_error WorkerManager.GPU_MODELS _) as [gpuModel|];
        simpl in Hadd; [|discriminate].
      injection Hadd as <- <-.
      assert (Hnew : JsMap.get (uuid_supply s) (workers s) = None).
      { destruct (JsMap.get (uuid_supply s) (workers s)) as [w2|] eqn:E;
          [|reflexivity].
        apply get_In in E. destruct (Hwok _ _ E) as (_ & Hlt & _). lia. }
      unfold Store.getAllWorkers, Store.addWorker.
      cbn [workers set_workers Worker.id].
      rewrite set_absent; [|exact Hnew].
      unfold JsMap.values. now rewrite map_app.
    - intros e s2 Hstep.
      assert (Hr2 : reachable s2).
      { apply (reachable_run [e] s s2 Hr). simpl. now rewrite Hstep. }
      rewrite (reachable_worker_ids s Hr), (reachable_worker_ids s2 Hr2).
      exact (step_keeps_order e s s2 Hr Hstep). }
  split; [split; [exact Hsorted | exact Hstable]|].
  split; [exact Harray|].
  split.
  { intros [|i] task w Hi Ht Hw.
    - rewrite Eq in Ht. rewrite Es in Hw. simpl in Ht, Hw.
      injection Ht as <-. injection Hw as <-.
      apply (assigned_stays es s1 s'); [assumption | assumption | |];
        unfold status_of, assignedWorker_of; now rewrite Hg1.
    - rewrite Eq in Ht. simpl in Ht.
      apply (Hassigned i); [lia | assumption | assumption]. }
  exists f.
  assert (Hqj : exists task, nth_error queue j = Some task).
  { destruct (nth_error queue j) as [t|] eqn:E; [eauto|].
    apply nth_error_None in E. lia. }
  destruct Hqj as (task & Hqj).
  exists task, worker.
  split; [exact Hs'|]. split; [exact Hqj|]. split; [exact Hnth|].
  split; [rewrite Hft, Eq; reflexivity|].
  split; [reflexivity|]. split; [exact Hfp|].
  assert (Hspl : TaskQueue.splice_worker (Worker.id worker) (frame_pool f)
                 = skipn (S j) sorted).
  { rewrite Hfp, Hskip. cbn [TaskQueue.splice_worker].
    now rewrite N.eqb_refl. }
  split.
  { unfold TaskQueue.selectBestWorker.
    destruct array as [|a array'] eqn:Ea; [congruence|].
    rewrite <- Ea in *. rewrite Hsort_array, Hfp. f_equal.
    rewrite Hskip. reflexivity. }
  split; [exact Hspl|].
  split.
  { unfold TaskQueue.processQueue_resume. fold worker.
    now rewrite Hspl, Hft, Eq. }
  split.
  { destruct (sort_by_key_head TaskQueue.ratio array Hne)
      as (x & before & after & Hx & Harr & Hb & Ha).
    rewrite Hsort_array, Hskip in Hx. injection Hx as <-.
    exists before, after. split; [exact Harr|]. split; assumption. }
  assert (Hinp : In worker pool).
  { apply (Array_sort_In
             (fun a b => (TaskQueue.ratio a - TaskQueue.ratio b)%Q)).
    fold sorted. rewrite Hsplit. apply in_or_app. right. now left. }
  destruct (in_split _ _ Hinp) as (earlier & later & Hel).
  exists earlier, later. split; [exact Hel|].
  assert (Hcases : forall w, In w pool ->
            In w used \/ w = worker
            \/ In w (skipn (S j) sorted)).
  { intros w Hw.
    apply (Array_sort_In
             (fun a b => (TaskQueue.ratio a - TaskQueue.ratio b)%Q)) in Hw.
    fold sorted in Hw. rewrite Hsplit in Hw. apply in_app_or in Hw.
    destruct Hw as [Hw|[Hw|Hw]]; [now left | right; left; now symmetry |
                                  right; now right]. }
  set (q := TaskQueue.ratio worker).
  assert (Hq : has_ratio q worker = true).
  { unfold has_ratio, q. apply Qeq_bool_iff. reflexivity. }
  assert (Hties : filter (has_ratio q) earlier = filter (has_ratio q) used).
  { pose proof (Hstable q) as E.
    rewrite Hsplit, Hel in E. rewrite !filter_app in E. simpl in E.
    rewrite Hq in E. symmetry in E.
    apply NoDup_split_unique in E; [tauto|].
    assert (Hf : NoDup (filter (has_ratio q) pool))
      by now apply NoDup_filter.
    rewrite Hel, filter_app in Hf. simpl in Hf. now rewrite Hq in Hf. }
  split.
  - intros w Hw.
    destruct (Qlt_le_dec q (TaskQueue.ratio w)) as [Hlt|Hle];
      [now right|].
    left.
    assert (Hwp : In w pool) by (rewrite Hel; apply in_or_app; now left).
    destruct (Hcases w Hwp) as [Hu|[->|Hs]]; [exact Hu | |].
    + assert (Hin : In worker (filter (has_ratio q) earlier))
        by (apply filter_In; now split).
      rewrite Hties in Hin. now apply filter_In in Hin.
    + specialize (Hafter w Hs). fold q in Hafter.
      assert (Hwq : has_ratio q w = true).
      { unfold has_ratio. apply Qeq_bool_iff. lra. }
      assert (Hin : In w (filter (has_ratio q) earlier))
        by (apply filter_In; now split).
      rewrite Hties in Hin. now apply filter_In in Hin.
  - intros w Hw.
    assert (Hwp : In w pool)
      by (rewrite Hel; apply in_or_app; right; now right).
    destruct (Hcases w Hwp) as [Hu|[->|Hs]];
      [now left | right; apply Qle_refl | right; now apply Hafter].
Qed.

(** Witness for C6: a worker with a task in flight was registered before
    two workers without load; a third task is enqueued when two are
    pending.  The pass gives the first pending task to the worker
    registered first among the two of ratio 0 and, continued once (the
    clock has moved and another worker has been registered meanwhile),
    the second task to the other one; the worker with the load is left in
    its array. *)
Lemma C6_witness :
  exists s s' f,
    run one_busy_two_idle init = Some s
    /\ map load_view (TaskQueue.getAvailableWorkers s)
       = [(0%N, 1, 15); (4%N, 0, 15); (5%N, 0, 15)]
    /\ run [ Enqueue hello "key-1" 0; Tick 5; Resume;
             AddWorker "worker-4" (1 # 4) (1 # 2) (1 # 2) ] s = Some s'
    /\ suspended s' = Some f
    /\ map load_view (frame_pool f) = [(5%N, 0, 15); (0%N, 1, 15)]
    /\ assignedWorker_of 2 s' = Some (Some 4%N)
    /\ assignedWorker_of 3 s' = Some (Some 5%N)
    /\ nth_error
         (Array_sort (fun a b => (TaskQueue.ratio a - TaskQueue.ratio b)%Q)
                     (TaskQueue.getAvailableWorkers s)) 1
       = Some (frame_worker f).
Proof.
  reach_by one_busy_two_idle ltac:(fun s Hr =>
    let r := eval vm_compute in
               (run [ Enqueue hello "key-1" 0; Tick 5; Resume;
                      AddWorker "worker-4" (1 # 4) (1 # 2) (1 # 2) ] s) in
    lazymatch r with
    | Some ?s' =>
        assert (Hrun : run [ Enqueue hello "key-1" 0; Tick 5; Resume;
                             AddWorker "worker-4" (1 # 4) (1 # 2) (1 # 2) ] s
                       = Some s') by (vm_compute; reflexivity);
        pose proof (C6_first_least_loaded_of_the_pool s s' hello
                      "key-1"%string 0
                      [ Tick 5; Resume;
                        AddWorker "worker-4" (1 # 4) (1 # 2) (1 # 2) ]
                      Hr eq_refl Hrun) as H;
        exists s, s'
    end).
  cbv zeta in H.
  destruct H as (_ & _ & _ & _ & _ & _
                 & (f & task & worker & Hs' & _ & Hnth & _ & Hfw & _));
    [vm_compute; lia | vm_compute; lia |].
  rewrite <- Hfw in Hnth. clear Hfw.
  exists f.
  split; [vm_compute; reflexivity|]. split; [vm_compute; reflexivity|].
  split; [exact Hrun|]. split; [exact Hs'|].
  split; [vm_compute in Hs'; injection Hs' as <-; vm_compute; reflexivity|].
  split; [vm_compute; reflexivity|]. split; [vm_compute; reflexivity|].
  exact Hnth.
Defined.
